(* ===== verification/_CoqProject ===== *)
-Q . S2P
Prelude.v
Effects.v
ClosedLoop.v
K8sTypes.v
AISConfig.v
AIStoreTypes.v
ThirdParty.v
AuthConf.v
AIStoreMethods.v
AIStoreFacts.v
Validation.v
GlobalConfig.v
CmnResources.v
Certificates.v
ProxyResources.v
TargetResources.v
AdminClient.v
Templates.v
Rollout.v
ResourceFacts.v
Requests.v
K8sClient.v
ClusterOps.v
Nodes.v
ProxyController.v
TargetController.v
LoopStages.v
Cleanup.v
HostHelper.v
Cluster.v
Executions.v
TargetRollout.v
RebalanceFacts.v
TargetTemplate.v
TargetScaling.v
ProxyFacts.v
Preserves.v
Lifecycle.v
ClusterFacts.v
Readiness.v
TemplateFacts.v
SpecFacts.v
Webhook.v
WebhookFacts.v
AuthN.v
TLSCacheLock.v
ClientManager.v
ServicesFacts.v
AuthTypes.v
AuthResources.v
AuthController.v
AuthFacts.v
AuthWebhooks.v
AuthWebhookFacts.v
OpInfo.v
RolloutProgress.v
ProxyProgress.v
TargetScaleDown.v
Completion.v
Deletion.v
Shutdown.v
Bootstrap.v
BecomesReady.v
NodeEvents.v
Startup.v
Witnesses.v
AuthWitnesses.v
LoopWitnesses.v
