(* ===== verification/Prelude.v ===== *)
(** * AIS-K8s operator: a verification library

    A model of the Kubernetes operator for AIStore (Go, [src/operator]) with the theorems that
    make it correct. The operator watches AIStore custom resources and, one reconciliation at
    a time, drives the StatefulSets, services, configuration and certificates of each cluster,
    and the AIS cluster itself over its API, toward the spec.

    ** The program and its parts

    [Reconcile] (cluster controller) dispatches on the lifecycle state of the resource: a new
    cluster is initialized and bootstrapped; a running one is validated, its resources are
    created, its configuration synchronized, proxies and targets rolled out and scaled, and its
    readiness reported; a cluster being shut down or deleted is drained, scaled to zero,
    cleaned up and finalized. It calls the proxy and target controllers, which build desired
    objects with the resource packages, compare them with what the API server stores, and talk
    to the AIS cluster through clients the client manager caches, with tokens the token client
    obtains. A second controller deploys the AuthN server that issues such tokens, from an
    AIStoreAuth resource. Admission webhooks judge the specs of AIStores, auth servers and auth
    profiles before they are stored. At start-up the operator finds out its cluster domain and
    identity and registers all of these with a manager.

    ** Files

    Foundations:
    - [Prelude]: Go integers, errors and results, lists, strings, quoting, shared tactics;
    - [Effects]: handlers as trees of requests to the outside ([prog]), their executions
      ([exec]), the weakest precondition [wp] with its adequacy, the state monad over them
      ([M], panics included), [guarded] (what an execution must have seen before a request);
    - [ClosedLoop]: a handler run again and again against a world that answers it and changes:
      the total weakest precondition [loop_wp] over the worlds it may leave, and [Measured],
      the interface of a loop that reaches its goal;
    - [K8sTypes]: the Kubernetes objects; [ThirdParty]: library code outside the repository as
      a class ([ThirdParty]) with its documented laws ([ThirdPartyLaws]) and a concrete
      instance ([Reference]).

    The model, one file per component (paths under [src/operator]):
    - [AISConfig] (the configuration sections of [aisconfig.go]), [AIStoreTypes],
      [AIStoreMethods], [Validation], [GlobalConfig]: [api/aistore/v1beta1],
      [internal/resources/aistore/cmn/config.go];
    - [AuthConf]: [api/aisauth/v1alpha1/aistoreauthprofile_types.go] and the accessors of
      [internal/services/auth_spec.go], [auth_profile.go];
    - [CmnResources], [Certificates], [ProxyResources], [TargetResources], [AdminClient]:
      [internal/resources];
    - [Templates], [Rollout]: [internal/controller/aistore/common.go] (comparison and
      synchronization of pod templates; progress predicates);
    - [HostHelper]: the host clean-up command, [src/ais-operator-helper];
    - [Requests], [K8sClient]: the interface of the controllers with the outside,
      [internal/client/api.go];
    - [ClusterOps], [Nodes], [Cluster]: [cluster_controller.go]; [ProxyController]:
      [proxy_controller.go]; [TargetController]: [target_controllers.go]; [Cleanup]:
      [cluster_cleanup.go];
    - [Webhook]: [internal/webhook/common.go], [internal/webhook/aistore]; [AuthN]:
      [internal/services/authn_api.go], [internal/truststore]; [ClientManager]:
      [client_manager.go], [aisapi.go];
    - [AuthTypes], [AuthResources], [AuthController], [AuthWebhooks]: the AuthN server:
      [api/aisauth/v1alpha1], [internal/resources/aisauth], [internal/controller/aisauth],
      [internal/webhook/aisauth] with the checks of [aistoreauthprofile_validation.go];
    - [OpInfo], [Startup]: [internal/opinfo/opinfo.go], [cmd/main.go].

    The theorems:
    - [AIStoreFacts], [ResourceFacts], [Executions], [Preserves]: lemmas the properties share;
      [Preserves] is the interface ([ObjectInvariant]) through which an invariant of one object
      is carried through every stage of a reconciliation;
    - [TargetRollout], [TargetTemplate], [TargetScaling], [RebalanceFacts]: what was seen before
      a target's pod is deleted, the template changed, or the replicas lowered, and that
      rebalance is off where it would move data needlessly;
    - [ProxyFacts]: scaling the proxies and one rollout of them move the primary out of the way;
    - [Lifecycle], [ClusterFacts], [Readiness]: the lifecycle state machine, the order of
      shutdown and clean-up, and the evidence behind every state reported;
    - [Completion]: no execution of a reconciliation dereferences a nil pointer as long as the
      objects answered agree on the sizes; the invariant is carried through every stage;
    - [TemplateFacts], [SpecFacts]: synchronization converges, added metadata restarts nothing,
      generated configuration, sizes, nodes and certificate names;
    - [WebhookFacts], [ServicesFacts]: admission and client/token guarantees;
    - [AuthFacts]: the AuthN controller keeps the data claim, leaves the services of others
      alone, loses no error and reports ready on evidence only;
    - [AuthWebhookFacts]: an abstract specification of acceptable auth profiles and servers in
      a snapshot of the cluster, which the webhooks refine;
    - [TLSCacheLock]: goroutines that share one TLS cache under its lock, statement by statement,
      behave as calls of [AuthN.tlsCache_get] one after the other, and all return;
    - [RolloutProgress]: liveness: the closed loop of the target rollout against a truthful
      world with finitely many failed requests updates every target, one at a time;
    - [ProxyProgress]: liveness: the closed loop of [handleProxyState], with a StatefulSet
      controller that replaces pods above the partition, brings every proxy to the template
      wanted without taking the primary down, as long as that template stays the same;
    - [TargetScaleDown]: liveness: the closed loop of the scaling stage of [handleTargetState]
      lowers the replicas once the surplus targets have left the cluster or are in maintenance;
      a decommission of targets that are all in maintenance already never ends;
    - [Deletion]: termination: the closed loop of [Reconcile] on a deleted cluster lets go of
      the object, having deleted everything it names, and asks for every pass it needs;
    - [Bootstrap], [BecomesReady]: liveness: the closed loop of [Reconcile] on an object that is
      to run - new, partly up, or shut down before - brings the cluster up, reports it ready, and
      from then on leaves it alone;
    - [Shutdown]: liveness: the closed loop of [Reconcile] on a ready cluster that is to be shut
      down scales both StatefulSets to zero and reports it down; [LoopStages] holds what these
      loops share;
    - [NodeEvents]: no node or pod event that matters to an autoscaled cluster or to its
      certificate is missed, but for addresses;
    - [HostHelper] ends with its own: a clean-up that reports success removed all state files;
    - [OpInfo] and [Startup] end with their own: the identity written by the cluster is read
      back, the manager starts only with everything registered;
    - [Witnesses], [AuthWitnesses], [LoopWitnesses]: example clusters and environments at which
      properties are applied.

    ** How code is modelled

    A handler is a program: a finite tree whose nodes are requests (to the API server, the AIS
    cluster, the clock, the file system) and whose branches are all possible answers. Theorems
    quantify over every execution, that is, over everything other controllers, users, nodes and
    daemons may do between two requests. The object a handler mutates in memory is the state of
    the monad; a Go nil dereference is the panic outcome. [Ok]/[Err] render [(T, error)]; an
    error keeps the class the source tests. Integers the source computes at a fixed width wrap
    ([i32], [i64]); others come from the API, already in range. Go maps are [gmap]s, and where
    the source ranges over one, the order is a parameter.

    Recursion is structural everywhere but in the scan for the pod to roll out, whose fuel is
    the replica count, the bound of the Go loop; file trees and lists of answers are finite; the
    review of the operator's identity is retried three times, as its back-off says. The
    theorems on executions are of partial-correctness form for programs that are finite trees:
    every program stops after finitely many requests by construction, with a result or in a
    panic, which [Completion] excludes. Progress across reconciliations is what the closed loops
    add: [n * (D + 3)] rounds and one per failed request are enough to roll out [n] targets that
    come back within [D] rounds, [n * (D + 2) + 4] for [n] proxies, [k * (2 * D + 3) + 1] to
    remove [k] targets that leave within [D] rounds and whose pods back off within [D] more,
    and 31 rounds, one per thing to delete, per round the daemons take to leave and per failed request are
    enough for a deletion (a clean-up job is given up after two minutes, 25 rounds). A cluster
    is ready after [4 * D + 6] rounds, those the external services take and one per failed
    request: its pods start at most three times (one proxy; all proxies; the targets), after
    those of an earlier shutdown are gone.
    A shutdown takes [2 * D + 3] rounds and one per failed request, [D] for the proxies to go and
    [D] for the targets.

    ** Not modelled

    Logging and metrics; manager wiring, watches and informer caches (a cached read is a
    request like any other, and may be stale); goroutine interleavings, but for the TLS cache
    (each controller reconciles one object at a time, so its other state is not shared);
    generated deep copies, mocks and type aliases; the parsing of command-line flags; the
    end-to-end tests; Helm charts and playbooks. *)

From stdpp Require Export base tactics option list gmap strings pretty sorting fin_maps.
From Stdlib Require Export ZArith Lia Ascii.

(** Strings are Stdlib strings, concatenated with [+:+]; [++] is list concatenation. *)
#[global] Open Scope string_scope.
#[global] Open Scope list_scope.
#[global] Open Scope Z_scope.

(** ** Go integers *)

(** Two's-complement wrap-around of a Go [int32] computation. *)
Definition i32 (z : Z) : Z := (z + 2147483648) `mod` 4294967296 - 2147483648.

(** The values an [int32] can hold. *)
Definition is_i32 (z : Z) : Prop := -2147483648 <= z < 2147483648.

Lemma i32_id z : is_i32 z -> i32 z = z.
Proof. unfold is_i32, i32. intros H. rewrite Z.mod_small; lia. Qed.

Lemma i32_range z : is_i32 (i32 z).
Proof.
  unfold is_i32, i32.
  pose proof (Z.mod_pos_bound (z + 2147483648) 4294967296). lia.
Qed.

(** ** Go errors

    An [error] value: the class the source tests with [apierrors.IsNotFound] and its
    siblings, and the message. [fmt.Errorf] with [%w] keeps the class ([wrap]), with
    [%v] it does not ([errorf]). *)
Inductive errkind :=
| EkNotFound | EkAlreadyExists | EkNoMatch | EkUnauthorized | EkForbidden
| EkInvalid | EkInternal | EkOther.

Record error := MkError { err_kind : errkind; err_msg : string }.

#[export] Instance errkind_eq_dec : EqDecision errkind.
Proof. solve_decision. Defined.
#[export] Instance error_eq_dec : EqDecision error.
Proof. solve_decision. Defined.

Definition errorf (msg : string) : error := MkError EkOther msg.
Definition wrap (msg : string) (e : error) : error :=
  MkError (err_kind e) (msg +:+ ": " +:+ err_msg e).
Definition is_not_found (e : error) : bool := bool_decide (err_kind e = EkNotFound).
Definition is_already_exists (e : error) : bool := bool_decide (err_kind e = EkAlreadyExists).
Definition is_no_match (e : error) : bool := bool_decide (err_kind e = EkNoMatch).

(** A Go call returning [(T, error)] whose value is meaningless when the error is set. *)
Inductive res (A : Type) :=
| Ok (a : A)
| Err (e : error).
Arguments Ok {_} _.
Arguments Err {_} _.

Definition is_ok {A} (r : res A) : bool := match r with Ok _ => true | Err _ => false end.
Definition err_of {A} (r : res A) : option error :=
  match r with Ok _ => None | Err e => Some e end.

#[export] Instance res_ret : MRet res := fun A a => Ok a.
#[export] Instance res_bind : MBind res :=
  fun A B f r => match r with Ok a => f a | Err e => Err e end.
#[export] Instance res_fmap : FMap res :=
  fun A B f r => match r with Ok a => Ok (f a) | Err e => Err e end.

Lemma res_bind_Ok {A B} (f : A -> res B) (r : res A) b :
  r ≫= f = Ok b -> exists a, r = Ok a /\ f a = Ok b.
Proof. destruct r; cbn; [eauto | discriminate]. Qed.

(** ** Object names *)

Record nsname := NN { nn_namespace : string; nn_name : string }.

#[export] Instance nsname_eq_dec : EqDecision nsname.
Proof. solve_decision. Defined.
#[export] Program Instance nsname_countable : Countable nsname :=
  inj_countable' (fun n => (nn_namespace n, nn_name n)) (fun p => NN p.1 p.2) _.
Next Obligation. by intros []. Qed.

(** ** Strings *)

Definition dquote : string := String (Ascii.ascii_of_nat 34) EmptyString.

(** Go's [%q] on the DNS-label names the operator prints. *)
Definition quoted (s : string) : string := dquote +:+ s +:+ dquote.

(** [strings.HasPrefix]. *)
Definition has_prefix (s p : string) : bool := String.prefix p s.

(** [strings.HasSuffix], by comparing the tail of the same length. *)
Definition has_suffix (s p : string) : bool :=
  (String.length p <=? String.length s)%nat &&
  bool_decide (String.substring (String.length s - String.length p) (String.length p) s = p).

(** [strings.TrimSuffix]. *)
Definition trim_suffix (s p : string) : string :=
  if has_suffix s p then String.substring 0 (String.length s - String.length p) s else s.

(** [strings.Join]. *)
Fixpoint join (sep : string) (l : list string) : string :=
  match l with
  | [] => ""
  | [x] => x
  | x :: l' => x +:+ sep +:+ join sep l'
  end.

Lemma string_app_cons c (a b : string) : (String c a) +:+ b = String c (a +:+ b).
Proof. reflexivity. Qed.

Lemma string_app_assoc (a b c : string) : (a +:+ b) +:+ c = a +:+ (b +:+ c).
Proof. induction a as [|d a IH]; [done|]. by rewrite !string_app_cons, IH. Qed.

Lemma string_length_app (a b : string) :
  String.length (a +:+ b) = (String.length a + String.length b)%nat.
Proof.
  induction a as [|c a IH]; [done|].
  rewrite string_app_cons; cbn. by rewrite IH.
Qed.

Lemma substring_all (s : string) : String.substring 0 (String.length s) s = s.
Proof. induction s; cbn; [done | by rewrite IHs]. Qed.

Lemma substring_app_l (a b : string) :
  String.substring 0 (String.length a) (a +:+ b) = a.
Proof.
  induction a as [|c a IH]; [by destruct b|].
  rewrite string_app_cons; cbn. by rewrite IH.
Qed.

Lemma substring_app_r (a b : string) n :
  String.substring (String.length a) n (a +:+ b) = String.substring 0 n b.
Proof. induction a as [|c a IH]; [done|]. rewrite string_app_cons; cbn. done. Qed.

Lemma has_suffix_app a b : has_suffix (a +:+ b) b = true.
Proof.
  unfold has_suffix. rewrite string_length_app.
  apply andb_true_intro. split; [apply Nat.leb_le; lia|].
  apply bool_decide_eq_true.
  replace (String.length a + String.length b - String.length b)%nat
    with (String.length a) by lia.
  rewrite substring_app_r. apply substring_all.
Qed.

Lemma trim_suffix_app a b : trim_suffix (a +:+ b) b = a.
Proof.
  unfold trim_suffix. rewrite has_suffix_app, string_length_app.
  replace (String.length a + String.length b - String.length b)%nat
    with (String.length a) by lia.
  apply substring_app_l.
Qed.

Lemma substring_split n (s : string) :
  (n <= String.length s)%nat ->
  String.substring 0 n s +:+ String.substring n (String.length s - n) s = s.
Proof.
  revert n. induction s as [|c s IH]; intros [|n] Hn; cbn in *; try lia; [done| |].
  - change ("" +:+ String c (String.substring 0 (String.length s) s) = String c s).
    by rewrite substring_all.
  - rewrite string_app_cons, IH by lia. done.
Qed.

Lemma has_suffix_inv s p : has_suffix s p = true -> s = trim_suffix s p +:+ p.
Proof.
  intros H. unfold trim_suffix. rewrite H. unfold has_suffix in H.
  apply andb_true_iff in H as [Hl Hs]. apply Nat.leb_le in Hl.
  apply bool_decide_eq_true in Hs.
  rewrite <-(substring_split (String.length s - String.length p) s) at 1 by lia.
  f_equal. rewrite <-Hs at 3. f_equal. lia.
Qed.

(** ** Sorted lists of strings ([slices.Sort], [slices.Compact]) *)

Definition sort_strings : list string -> list string := merge_sort String.le.

(** [slices.Compact]: keep the first element of every run of equal elements. *)
Fixpoint compact (l : list string) : list string :=
  match l with
  | [] => []
  | x :: l' =>
      match l' with
      | [] => [x]
      | y :: _ => if bool_decide (x = y) then compact l' else x :: compact l'
      end
  end.

Lemma elem_of_compact x l : x ∈ compact l <-> x ∈ l.
Proof.
  induction l as [|y [|z l] IH]; [done..|].
  change (compact (y :: z :: l)) with
    (if bool_decide (y = z) then compact (z :: l) else y :: compact (z :: l)).
  case_bool_decide as Hy; [subst|]; rewrite !elem_of_cons, ?IH, ?elem_of_cons; tauto.
Qed.

Lemma compact_sorted l : StronglySorted String.le l -> StronglySorted String.le (compact l).
Proof.
  induction 1 as [|x l Hs IH Hf]; [constructor|].
  destruct l as [|y l]; [repeat constructor|].
  change (compact (x :: y :: l)) with
    (if bool_decide (x = y) then compact (y :: l) else x :: compact (y :: l)).
  case_bool_decide; [done|]. constructor; [done|].
  rewrite Forall_forall in Hf |- *. intros z Hz. rewrite elem_of_compact in Hz. by apply Hf.
Qed.

Lemma compact_NoDup l : StronglySorted String.le l -> NoDup (compact l).
Proof.
  induction 1 as [|x l Hs IH Hf]; [constructor|].
  destruct l as [|y l]; [apply NoDup_singleton|].
  change (compact (x :: y :: l)) with
    (if bool_decide (x = y) then compact (y :: l) else x :: compact (y :: l)).
  case_bool_decide as Hxy; [done|]. constructor; [|done].
  rewrite elem_of_compact. intros Hin. rewrite Forall_forall in Hf.
  inversion Hs as [|? ? _ Hf']; subst. rewrite Forall_forall in Hf'.
  apply elem_of_cons in Hin as [->|Hin]; [done|].
  apply Hxy, (anti_symm String.le); [apply Hf; by left | by apply Hf'].
Qed.

Lemma elem_of_sort_strings x l : x ∈ sort_strings l <-> x ∈ l.
Proof. unfold sort_strings. by rewrite merge_sort_Permutation. Qed.

Lemma sort_strings_sorted l : StronglySorted String.le (sort_strings l).
Proof. apply StronglySorted_merge_sort; apply _. Qed.

Lemma sort_strings_perm l1 l2 : l1 ≡ₚ l2 -> sort_strings l1 = sort_strings l2.
Proof.
  intros Hp. apply (StronglySorted_unique String.le); [apply sort_strings_sorted..|].
  unfold sort_strings. by rewrite !merge_sort_Permutation.
Qed.

(** Predicates that agree on a list select the same elements. *)
Lemma filter_same {A} (P Q : A -> Prop) `{!forall x, Decision (P x), !forall x, Decision (Q x)} (l : list A) :
  (forall x, x ∈ l -> P x <-> Q x) -> filter P l = filter Q l.
Proof.
  induction l as [|x l IH]; intros Hpq; [done|]. rewrite !filter_cons.
  assert (P x <-> Q x) as Hx by (apply Hpq; by left). rewrite IH by (intros y Hy; apply Hpq; by right).
  repeat case_decide; tauto.
Qed.

(** Two sorted lists without duplicates and with the same elements are equal. *)
Lemma sorted_set_unique l1 l2 :
  StronglySorted String.le l1 -> StronglySorted String.le l2 ->
  NoDup l1 -> NoDup l2 -> (forall x, x ∈ l1 <-> x ∈ l2) -> l1 = l2.
Proof.
  intros. apply (StronglySorted_unique String.le); [done..|]. by apply NoDup_Permutation.
Qed.

(** ** Small generic lemmas and tactics *)

(** Split every [match] of the goal. *)
Ltac split_matches :=
  repeat match goal with
  | |- context [ match ?x with _ => _ end ] => destruct x eqn:?
  end.

(** Boolean conjunctions, disjunctions and comparisons of the context, as propositions. *)
Ltac reflect_bools :=
  repeat match goal with
  | H : (_ && _)%bool = true |- _ => apply andb_true_iff in H; destruct H
  | H : (_ || _)%bool = false |- _ => apply orb_false_iff in H; destruct H
  | H : negb _ = true |- _ => apply negb_true_iff in H
  | H : negb _ = false |- _ => apply negb_false_iff in H
  | H : bool_decide _ = true |- _ => apply bool_decide_eq_true in H
  | H : bool_decide _ = false |- _ => apply bool_decide_eq_false in H
  | H : (_ <? _) = true |- _ => apply Z.ltb_lt in H
  | H : (_ <? _) = false |- _ => apply Z.ltb_ge in H
  | H : (_ <=? _) = true |- _ => apply Z.leb_le in H
  | H : (_ <=? _) = false |- _ => apply Z.leb_gt in H
  | H : (_ =? _) = true |- _ => apply Z.eqb_eq in H
  | H : (_ =? _) = false |- _ => apply Z.eqb_neq in H
  end.

(** A filter that drops nothing. *)
Lemma filter_all {A} (f : A -> bool) l : length (List.filter f l) = length l -> forall x, x ∈ l -> f x = true.
Proof.
  induction l as [|y l IH]; cbn; [by intros _ x ?%not_elem_of_nil|]. pose proof (filter_length_le f l).
  destruct (f y) eqn:Hy; cbn; [|lia]. intros [= Hl] x [->|Hx]%elem_of_cons; [done|by apply IH].
Qed.

Lemma all_filter {A} (f : A -> bool) l : (forall x, x ∈ l -> f x = true) -> length (List.filter f l) = length l.
Proof.
  induction l as [|y l IH]; intros H; cbn; [done|]. rewrite H by (by left). cbn. f_equal. apply IH. intros x Hx. apply H. by right.
Qed.
