(* ===== verification/Effects.v ===== *)
(** * Effects: programs that call their environment

    The operator's handlers issue requests to the Kubernetes API server and to the AIS
    cluster and branch on the answers. A handler is a finite tree of requests ([prog]);
    what the outside world answers is left open, so a property proved of every execution
    holds whatever other controllers, users and daemons do between two requests.

    - [prog], [exec]: programs and their executions (trace of requests with answers);
    - [wp]: a weakest-precondition predicate over the history of requests, its rules, and
      its adequacy for [exec] ([wp_adequate]);
    - [M]: programs with the in-memory CR they mutate, the monad of the handlers;
    - [run]: execution against a concrete environment, used to evaluate handlers. *)

From S2P Require Import Prelude.

Section Programs.
Context {req : Type} {answer : req -> Type}.

(** A request together with the answer it received. *)
Definition event : Type := { r : req & answer r }.
Definition ev (r : req) (a : answer r) : event := existT r a.

(** [Panic] is a Go run-time panic (a nil pointer dereference). *)
Inductive prog (A : Type) : Type :=
| Ret (a : A)
| Panic
| Do (r : req) (k : answer r -> prog A).
Arguments Ret {_} _.
Arguments Panic {_}.
Arguments Do {_} _ _.

Fixpoint prog_bind {A B} (p : prog A) (f : A -> prog B) : prog B :=
  match p with
  | Ret a => f a
  | Panic => Panic
  | Do r k => Do r (fun x => prog_bind (k x) f)
  end.

#[export] Instance prog_mret : MRet prog := fun A a => Ret a.
#[export] Instance prog_mbind : MBind prog := fun A B f p => prog_bind p f.

(** [exec p t o]: one execution of [p]; [t] lists its requests in order with the answers,
    [o] is the value returned, [None] for a panic. *)
Inductive exec {A} : prog A -> list event -> option A -> Prop :=
| exec_ret a : exec (Ret a) [] (Some a)
| exec_panic : exec Panic [] None
| exec_do r k x t o : exec (k x) t o -> exec (Do r k) (ev r x :: t) o.

(** Histories list the most recent request first. *)
Abbreviation history := (list event).

(** [wp pok G p h Q]: started after history [h], every request [p] issues satisfies the
    guard [G] at the moment it is issued, [p] panics only if [pok], and a value it returns
    satisfies [Q]. *)
Fixpoint wp (pok : Prop) (G : history -> req -> Prop) {A} (p : prog A) (h : history)
    (Q : history -> A -> Prop) : Prop :=
  match p with
  | Ret a => Q h a
  | Panic => pok
  | Do r k => G h r /\ forall x, wp pok G (k x) (ev r x :: h) Q
  end.

Lemma wp_bind pok G {A B} (p : prog A) (f : A -> prog B) h Q :
  wp pok G (prog_bind p f) h Q <-> wp pok G p h (fun h' a => wp pok G (f a) h' Q).
Proof. revert h. induction p; cbn; intros h; [done..|]. by setoid_rewrite H. Qed.

Lemma wp_mono (pok pok' : Prop) (G G' : history -> req -> Prop) {A} (p : prog A) h
    (Q Q' : history -> A -> Prop) :
  (pok -> pok') -> (forall h r, G h r -> G' h r) -> (forall h a, Q h a -> Q' h a) ->
  wp pok G p h Q -> wp pok' G' p h Q'.
Proof.
  intros Hp HG HQ. revert h. induction p; cbn; intros h; [auto..|].
  intros [? ?]. split; auto.
Qed.

(** The history only grows. *)
Lemma wp_suffix pok G {A} (p : prog A) h h0 (Q : history -> A -> Prop) :
  h0 `suffix_of` h ->
  wp pok G p h Q -> wp pok G p h (fun h' a => Q h' a /\ h0 `suffix_of` h').
Proof.
  revert h. induction p; cbn; intros h Hs; [auto..|].
  intros [? Hk]. split; [done|]. intros x. apply H; [|done]. by apply suffix_cons_r.
Qed.

Lemma wp_conj pok G1 G2 {A} (p : prog A) h (Q1 Q2 : history -> A -> Prop) :
  wp pok G1 p h Q1 -> wp pok G2 p h Q2 ->
  wp pok (fun h r => G1 h r /\ G2 h r) p h (fun h a => Q1 h a /\ Q2 h a).
Proof.
  revert h. induction p; cbn; intros h; [auto..|].
  intros [? ?] [? ?]. split; auto.
Qed.

(** An invariant of histories that every request of the program preserves. *)
Lemma wp_history pok (P : req -> Prop) (I : history -> Prop) {A} (p : prog A) h
    (Q : history -> A -> Prop) :
  (forall h r x, P r -> I h -> I (ev r x :: h)) -> I h ->
  wp pok (fun _ r => P r) p h Q -> wp pok (fun _ r => P r) p h (fun h' a => Q h' a /\ I h').
Proof.
  intros HI. revert h. induction p; cbn; intros h Hh; [auto..|].
  intros [Hr Hk]. split; [done|]. intros x. apply H; [by apply HI | apply Hk].
Qed.

(** Guards that hold of every later history hold throughout. *)
Lemma wp_stable (G : history -> req -> Prop) {A} (p : prog A) h :
  (forall h' r, h `suffix_of` h' -> G h' r) -> wp True G p h (fun _ _ => True).
Proof.
  revert h. induction p; cbn; intros h HG; [done..|]. split; [by apply HG|].
  intros x. apply H. intros h' r' Hs. apply HG. by eapply suffix_cons_l.
Qed.

(** Adequacy: what [wp] says holds of every execution. *)
Lemma wp_adequate pok G {A} (p : prog A) h Q t o :
  wp pok G p h Q -> exec p t o ->
  match o with Some a => Q (rev t ++ h) a | None => pok end /\
  (forall t1 r x t2, t = t1 ++ ev r x :: t2 -> G (rev t1 ++ h) r).
Proof.
  intros Hwp Hex. revert h Hwp. induction Hex; cbn; intros h Hwp.
  - split; [done|]. intros t1 r x t2 Heq. by destruct t1.
  - split; [done|]. intros t1 r x t2 Heq. by destruct t1.
  - destruct Hwp as [HG Hk]. destruct (IHHex _ (Hk x)) as [Ho Ht].
    rewrite <-(assoc_L app). split; [done|].
    intros [|e t1] r' x' t2 Heq; cbn in Heq; injection Heq.
    + intros _ Hx. apply (f_equal (@projT1 _ _)) in Hx. cbn in Hx. by subst.
    + intros Heq' <-. cbn. rewrite <-(assoc_L app). eapply Ht. done.
Qed.

Lemma exec_inv {A} (p : prog A) t o :
  exec p t o ->
  match p with
  | Ret a => t = [] /\ o = Some a
  | Panic => t = [] /\ o = None
  | Do r k => exists x t', t = ev r x :: t' /\ exec (k x) t' o
  end.
Proof. destruct 1; eauto. Qed.

(** An execution of a sequence splits, unless its first part panics. *)
Lemma exec_bind {A B} (p : prog A) (f : A -> prog B) t o :
  exec (prog_bind p f) t o ->
  (exists t1 a t2, exec p t1 (Some a) /\ exec (f a) t2 o /\ t = t1 ++ t2) \/ (exec p t None /\ o = None).
Proof.
  revert t. induction p as [a| |r k IH]; cbn; intros t Hex.
  - left. exists [], a, t. split; [constructor | done].
  - right. apply exec_inv in Hex as [-> ->]. split; [constructor | done].
  - apply exec_inv in Hex as (x & t' & -> & Hk).
    destruct (IH x _ Hk) as [(t1 & a & t2 & H1 & H2 & ->)|[H1 ->]].
    + left. exists (ev r x :: t1), a, t2. split; [by constructor | done].
    + right. split; [by constructor | done].
Qed.

(** A program that never panics in [wp] has no panicking execution. *)
Lemma no_panic {A} (p : prog A) Q t :
  wp False (fun _ _ => True) p [] Q -> ~ exec p t None.
Proof. intros Hwp Hex. by destruct (wp_adequate _ _ _ _ _ _ _ Hwp Hex). Qed.

(** Executing against a deterministic environment. *)
Section Run.
Context {W : Type} (env : W -> forall r, W * answer r).

Fixpoint run {A} (p : prog A) (w : W) : option A * W * list event :=
  match p with
  | Ret a => (Some a, w, [])
  | Panic => (None, w, [])
  | Do r k =>
      let '(w', x) := env w r in
      let '(o, w'', t) := run (k x) w' in (o, w'', ev r x :: t)
  end.

Lemma run_exec {A} (p : prog A) w :
  exec p (run p w).2 (run p w).1.1.
Proof.
  revert w. induction p; cbn; intros w; [constructor..|].
  destruct (env w r) as [w' x]. specialize (H x w').
  destruct (run (k x) w') as [[o w''] t]. by constructor.
Qed.
End Run.

(** An event answered as [f] answers. *)
Definition agrees (f : forall r, answer r) (e : event) : Prop := projT2 e = f (projT1 e).

(** Running against [f] gets the answers of [f]. *)
Lemma run_agrees (f : forall r, answer r) {A} (p : prog A) :
  Forall (agrees f) (run (fun (_ : unit) r => (tt, f r)) p tt).2.
Proof.
  induction p as [| |r k IH]; cbn; [constructor..|]. specialize (IH (f r)).
  destruct (run _ (k (f r)) tt) as [[o w] t]. by constructor.
Qed.

(** Some execution gets the answers of [f]. *)
Lemma exec_agreeing (f : forall r, answer r) {A} (p : prog A) :
  exists t o, exec p t o /\ Forall (agrees f) t.
Proof.
  exists (run (fun (_ : unit) r => (tt, f r)) p tt).2. eexists. split; [apply run_exec | apply run_agrees].
Qed.

(** A program that cannot panic and whose requests can be answered has an execution. *)
Lemma exec_exists {A} (p : prog A) :
  (forall r, answer r) -> exists t o, exec p t o.
Proof.
  intros f. exists (run (fun (_ : unit) r => (tt, f r)) p tt).2. eexists. apply run_exec.
Qed.

(** In every execution of [p], each request satisfies [G] together with the trace before it. *)
Definition guarded {A} (G : history -> req -> Prop) (p : prog A) : Prop :=
  forall t o, exec p t o -> forall t1 r x t2, t = t1 ++ ev r x :: t2 -> G t1 r.

Lemma guarded_wp {A} (G : history -> req -> Prop) (p : prog A) Q :
  wp True (fun h r => G (rev h) r) p [] Q -> guarded G p.
Proof.
  intros Hwp t o Hex t1 r x t2 Heq.
  destruct (wp_adequate _ _ _ _ _ _ _ Hwp Hex) as [_ Hg].
  specialize (Hg t1 r x t2 Heq). by rewrite app_nil_r, rev_involutive in Hg.
Qed.

(** Every value a program returns satisfies [Q] with the trace. *)
Lemma returns_wp {A} (p : prog A) (Q : history -> A -> Prop) t a :
  wp True (fun _ _ => True) p [] (fun h a => Q (rev h) a) -> exec p t (Some a) -> Q t a.
Proof.
  intros Hwp Hex. destruct (wp_adequate _ _ _ _ _ _ _ Hwp Hex) as [HQ _].
  by rewrite app_nil_r, rev_involutive in HQ.
Qed.

(** ** Programs over a mutable in-memory object *)

Section State.
Context {S : Type}.

Definition M (A : Type) : Type := S -> prog (S * A).

#[export] Instance M_ret : MRet M := fun A a s => Ret (s, a).
#[export] Instance M_bind : MBind M :=
  fun A B f m s => prog_bind (m s) (fun p => f p.2 p.1).

Definition call (r : req) : M (answer r) := fun s => Do r (fun x => Ret (s, x)).
Definition get : M S := fun s => Ret (s, s).
Definition put (s : S) : M unit := fun _ => Ret (s, tt).
Definition modify (f : S -> S) : M unit := fun s => Ret (f s, tt).
Definition panic {A} : M A := fun _ => Panic.
Definition deref {A} (o : option A) : M A :=
  match o with Some a => mret a | None => panic end.

(** Run [m]; on an error answer return through [h], else continue with the value:
    Go's [if err != nil { return ... }]. *)
Definition try_ {A B} (m : M (res A)) (h : error -> M B) (k : A -> M B) : M B :=
  m ≫= fun r => match r with Ok a => k a | Err e => h e end.

(** Run a list of steps until one fails. *)
Fixpoint for_each {A} (l : list A) (f : A -> M (res unit)) : M (res unit) :=
  match l with
  | [] => mret (Ok tt)
  | x :: l' => try_ (f x) (fun e => mret (Err e)) (fun _ => for_each l' f)
  end.

Definition wpm pok G {A} (m : M A) (s : S) (h : history) (Q : history -> S -> A -> Prop) : Prop :=
  wp pok G (m s) h (fun h' p => Q h' p.1 p.2).

Section Rules.
Context (pok : Prop) (G : history -> req -> Prop).

Lemma wpm_bind {A B} (m : M A) (f : A -> M B) s h Q :
  wpm pok G m s h (fun h' s' a => wpm pok G (f a) s' h' Q) ->
  wpm pok G (m ≫= f) s h Q.
Proof. intros H. unfold wpm. by apply wp_bind. Qed.

Lemma wpm_try {A B} (m : M (res A)) (e : error -> M B) (k : A -> M B) s h Q :
  wpm pok G m s h (fun h' s' r =>
    match r with Ok a => wpm pok G (k a) s' h' Q | Err x => wpm pok G (e x) s' h' Q end) ->
  wpm pok G (try_ m e k) s h Q.
Proof.
  intros H. apply wpm_bind. eapply wp_mono; [done..| |exact H].
  intros h' [s' []]; done.
Qed.

Lemma wpm_ret {A} (a : A) s h (Q : history -> S -> A -> Prop) : Q h s a -> wpm pok G (mret a) s h Q.
Proof. done. Qed.
Lemma wpm_get s h (Q : history -> S -> S -> Prop) : Q h s s -> wpm pok G get s h Q.
Proof. done. Qed.
Lemma wpm_put s' s h (Q : history -> S -> unit -> Prop) : Q h s' tt -> wpm pok G (put s') s h Q.
Proof. done. Qed.
Lemma wpm_modify f s h (Q : history -> S -> unit -> Prop) : Q h (f s) tt -> wpm pok G (modify f) s h Q.
Proof. done. Qed.
Lemma wpm_call r s h (Q : history -> S -> answer r -> Prop) :
  G h r -> (forall x, Q (ev r x :: h) s x) -> wpm pok G (call r) s h Q.
Proof. intros HG HQ. split; [done|]. intros x. apply HQ. Qed.
Lemma wpm_panic {A} s h (Q : history -> S -> A -> Prop) : pok -> wpm pok G panic s h Q.
Proof. done. Qed.
Lemma wpm_deref {A} (o : option A) s h (Q : history -> S -> A -> Prop) :
  (o = None -> pok) -> (forall a, o = Some a -> Q h s a) -> wpm pok G (deref o) s h Q.
Proof. destruct o; intros Hn Hs; [by apply (Hs a) | by apply Hn]. Qed.

Lemma wpm_mono {A} (m : M A) s h (Q Q' : history -> S -> A -> Prop) :
  wpm pok G m s h Q -> (forall h s a, Q h s a -> Q' h s a) -> wpm pok G m s h Q'.
Proof. intros H HQ. eapply wp_mono; [done..| |exact H]. intros h' [s' a]. apply HQ. Qed.

(** Two postconditions proved separately. *)
Lemma wpm_both {A} (m : M A) s h (Q1 Q2 : history -> S -> A -> Prop) :
  wpm pok G m s h Q1 -> wpm pok G m s h Q2 ->
  wpm pok G m s h (fun h' s' a => Q1 h' s' a /\ Q2 h' s' a).
Proof.
  intros H1 H2. eapply wp_mono; [done| | |exact (wp_conj _ _ _ _ _ _ _ H1 H2)]; [|done].
  by intros h' r [? _].
Qed.

(** What was true of the history of a call is true of its extension. *)
Lemma wpm_suffix {A} (m : M A) s h (Q : history -> S -> A -> Prop) :
  wpm pok G m s h Q ->
  wpm pok G m s h (fun h' s' a => Q h' s' a /\ h `suffix_of` h').
Proof. intros H. apply wp_suffix; [done | exact H]. Qed.
End Rules.

(** [emits P m]: every request of [m] satisfies [P], whatever the answers. *)
Definition emits (P : req -> Prop) {A} (m : M A) : Prop :=
  forall s h, wpm True (fun _ r => P r) m s h (fun _ _ _ => True).

Lemma emits_wpm (P : req -> Prop) (G : history -> req -> Prop) {A} (m : M A) s h :
  emits P m -> (forall h r, P r -> G h r) ->
  wpm True G m s h (fun h' _ _ => h `suffix_of` h').
Proof.
  intros He HG. eapply wp_mono; [done| |  | exact (wpm_suffix _ _ _ _ _ _ (He s h))].
  - intros h' r. apply HG.
  - by intros h' [s' a] [_ ?].
Qed.

Lemma emits_mono (P P' : req -> Prop) {A} (m : M A) :
  (forall r, P r -> P' r) -> emits P m -> emits P' m.
Proof. intros HP H s h. eapply wp_mono; [done| | |apply H]; [intros ??; apply HP | done]. Qed.

Section EmitsRules.
Context (P : req -> Prop).
Lemma emits_bind {A B} (m : M A) (f : A -> M B) :
  emits P m -> (forall a, emits P (f a)) -> emits P (m ≫= f).
Proof.
  intros Hm Hf s h. apply wpm_bind. eapply wpm_mono; [apply Hm|].
  intros h' s' a _. apply Hf.
Qed.
Lemma emits_try {A B} (m : M (res A)) (e : error -> M B) (k : A -> M B) :
  emits P m -> (forall x, emits P (e x)) -> (forall a, emits P (k a)) ->
  emits P (try_ m e k).
Proof. intros Hm He Hk. apply emits_bind; [done|]. by intros []. Qed.
Lemma emits_ret {A} (a : A) : emits P (mret a).
Proof. by intros s h. Qed.
Lemma emits_get : emits P get.
Proof. by intros s h. Qed.
Lemma emits_put s' : emits P (put s').
Proof. by intros s h. Qed.
Lemma emits_modify f : emits P (modify f).
Proof. by intros s h. Qed.
Lemma emits_panic {A} : emits P (@panic A).
Proof. by intros s h. Qed.
Lemma emits_deref {A} (o : option A) : emits P (deref o).
Proof. by destruct o; intros s h. Qed.
Lemma emits_call r : P r -> emits P (call r).
Proof. intros Hr s h. by split. Qed.
Lemma emits_for_each {A} (l : list A) (f : A -> M (res unit)) :
  (forall x, x ∈ l -> emits P (f x)) -> emits P (for_each l f).
Proof.
  induction l as [|x l IH]; intros Hf; [apply emits_ret|].
  apply emits_try; [apply Hf; by left | intros; apply emits_ret|].
  intros _. apply IH. intros y Hy. apply Hf. by right.
Qed.
End EmitsRules.

(** Guards that hold of every later history. *)
Lemma wpm_stable {A} (m : M A) (G : history -> req -> Prop) s h :
  (forall h' r, h `suffix_of` h' -> G h' r) -> wpm True G m s h (fun _ _ _ => True).
Proof. intros HG. by apply (wp_stable G (m s) h). Qed.

#[local] Arguments wpm : simpl never.

(** A loop with an invariant over the elements processed. *)
Lemma wpm_for_each {A} (G : history -> req -> Prop) (I : list A -> history -> S -> Prop)
    (l : list A) (f : A -> M (res unit)) s h :
  I [] h s ->
  (forall done_ x rest s h, l = done_ ++ x :: rest -> I done_ h s ->
     wpm True G (f x) s h (fun h' s' r => match r with Ok _ => I (done_ ++ [x]) h' s' | Err _ => True end)) ->
  wpm True G (for_each l f) s h (fun h' s' r => r = Ok tt -> I l h' s').
Proof.
  intros H0 Hf.
  assert (forall rest done_ s h, l = done_ ++ rest -> I done_ h s ->
    wpm True G (for_each rest f) s h (fun h' s' r => r = Ok tt -> I l h' s')) as Hl.
  { clear s h H0. induction rest as [|x rest IH]; intros d s h Hd HI; cbn [for_each].
    - apply wpm_ret. intros _. rewrite Hd. by rewrite app_nil_r.
    - apply wpm_try. eapply wpm_mono; [by eapply Hf|]. cbn. intros h' s' [a|e] HI'; [|by apply wpm_ret].
      apply (IH (d ++ [x])); [by rewrite <-(assoc_L app)|done]. }
  by apply (Hl l []).
Qed.

End State.
End Programs.

Arguments Ret {_ _ _} _.
Arguments Panic {_ _ _}.
Arguments Do {_ _ _} _ _.
Arguments prog {_} _ _.
Arguments event {_} _.
Arguments M {_} _ _ _.
Arguments ev : simpl never.
Arguments wpm : simpl never.

Notation "'let?' x := m 'else' e => h 'in' k" :=
  (try_ m (fun e => h) (fun x => k))
  (at level 10, x pattern, e name, m at level 200, h at level 200, k at level 200,
   format "'[v' 'let?'  x  :=  m  'else'  e  =>  h  'in' '/' k ']'").

Create HintDb emits discriminated.
Create HintDb trace discriminated.
#[export] Hint Resolve emits_bind emits_try emits_ret emits_get emits_put emits_modify
  emits_panic emits_deref emits_for_each : emits.

(** Names of single requests are unfolded here by the files that declare them. *)
Ltac unfold_requests := fail.

(** Apply the rule of [call] at the request of the goal. *)
Ltac emits_request :=
  lazymatch goal with |- emits ?P (call ?r) => refine (emits_call P r _) end.
Ltac emits_call := first [emits_request | unfold_requests; emits_request].
Ltac wp_request :=
  lazymatch goal with |- wpm ?p ?G (call ?r) ?s ?h ?Q => refine (wpm_call p G r s h Q _ _) end.
Ltac wp_call := first [wp_request | unfold_requests; wp_request].
#[export] Hint Extern 1 (emits _ (call _)) => emits_call : emits.

(** ** Unrolling a handler *)

Ltac wp_step :=
  lazymatch goal with
  | |- forall _, _ => intros ?
  | |- wpm _ _ (call _) _ _ _ => wp_call
  | |- wpm _ _ (mret _) _ _ _ => apply wpm_ret
  | |- wpm _ _ get _ _ _ => apply wpm_get
  | |- wpm _ _ (put _) _ _ _ => apply wpm_put
  | |- wpm _ _ (modify _) _ _ _ => apply wpm_modify
  | |- wpm _ _ panic _ _ _ => apply wpm_panic
  | |- wpm _ _ (deref _) _ _ _ => apply wpm_deref; [done|]
  | |- wpm _ _ (try_ _ _ _) _ _ _ => apply wpm_try
  | |- wpm _ _ (mbind _ _) _ _ _ => apply wpm_bind
  | |- wpm _ _ (if ?b then _ else _) _ _ _ => destruct b eqn:?
  | |- wpm _ _ (match ?x with _ => _ end) _ _ _ => destruct x eqn:?
  | |- match ?x with Ok _ => _ | Err _ => _ end => destruct x eqn:?
  | |- wpm _ _ _ _ _ _ => unfold_requests; wp_request
  end.

(** Membership in the trace of a history. *)
Lemma elem_of_rev {A} (e : A) (h : list A) : e ∈ rev h <-> e ∈ h.
Proof. rewrite !list_elem_of_In. symmetry. apply in_rev. Qed.

Lemma in_trace_here {A} (e : A) h : e ∈ rev (e :: h).
Proof. apply elem_of_rev. by left. Qed.
Lemma in_trace_later {A} (e e' : A) h : e ∈ rev h -> e ∈ rev (e' :: h).
Proof. rewrite !elem_of_rev. by right. Qed.
#[export] Hint Resolve in_trace_here in_trace_later : trace.

(** A response that was received stays in every later history. *)
Lemma elem_of_later {A} (e : A) (h h' : list A) : h `suffix_of` h' -> e ∈ h -> e ∈ h'.
Proof. intros [k ->] He. apply elem_of_app. by right. Qed.

Lemma elem_of_rev_later {A} (e : A) (h h' : list A) :
  h `suffix_of` h' -> e ∈ rev h -> e ∈ rev h'.
Proof. rewrite !elem_of_rev. apply elem_of_later. Qed.
