(* ===== verification/ClosedLoop.v ===== *)
(** * Closed loops

    A handler run again and again against a world that answers its requests and changes with
    them. [step] says how a world may answer a request; [plays] lifts it to traces; [loop_wp] is
    the weakest precondition of a handler over the worlds it may leave, total in that it excludes
    panics; [Measured] is the interface of a loop that terminates: an invariant and a measure
    that every round decreases until the goal is reached. *)

From stdpp Require Import relations well_founded.
From S2P Require Import Prelude Effects.

Section ClosedLoop.
Context {req : Type} {answer : req -> Type} {W : Type}.
Context (step : W -> forall r : req, answer r -> W -> Prop).

(** The world goes through the events of a trace. *)
Fixpoint plays (w : W) (t : list (@event req answer)) (w' : W) : Prop :=
  match t with
  | [] => w' = w
  | existT r x :: t' => exists w1, step w r x w1 /\ plays w1 t' w'
  end.

(** From [w], whatever the world answers, [p] does not panic and ends with [Q]. *)
Fixpoint loop_wp {A} (p : prog answer A) (w : W) (Q : W -> A -> Prop) : Prop :=
  match p with
  | Ret a => Q w a
  | Panic => False
  | Do r k => forall x w', step w r x w' -> loop_wp (k x) w' Q
  end.

Lemma loop_wp_bind {A B} (p : prog answer A) (f : A -> prog answer B) w Q :
  loop_wp p w (fun w' a => loop_wp (f a) w' Q) -> loop_wp (prog_bind p f) w Q.
Proof. revert w. induction p as [a| |r k IH]; cbn; intros w H; [done..|]. intros x w' Hx. by apply IH, H. Qed.

Lemma loop_wp_mono {A} (p : prog answer A) w (Q Q' : W -> A -> Prop) :
  (forall w a, Q w a -> Q' w a) -> loop_wp p w Q -> loop_wp p w Q'.
Proof. intros HQ. revert w. induction p as [a| |r k IH]; cbn; intros w H; [auto..|]. intros x w' Hx. by apply IH, H. Qed.

(** What [loop_wp] says holds of every execution the world plays. *)
Lemma loop_adequate {A} (p : prog answer A) w Q t o w' :
  loop_wp p w Q -> exec p t o -> plays w t w' -> exists a, o = Some a /\ Q w' a.
Proof.
  intros Hwp Hex. revert w Hwp. induction Hex as [a| |r k x t o Hex IH]; cbn; intros w Hwp Hp.
  - subst. eauto.
  - done.
  - destruct Hp as (w1 & Hs & Hp). by apply (IH w1); [apply Hwp|].
Qed.

(** A world that can always answer plays some execution of every program. *)
Lemma plays_exist (ok : W -> Prop) {A} (p : prog answer A) w :
  (forall w r, ok w -> exists x w', step w r x w' /\ ok w') -> ok w ->
  exists t o w', exec p t o /\ plays w t w'.
Proof.
  intros Htot. revert w. induction p as [a| |r k IH]; intros w Hok; [do 3 eexists; split; [constructor|done]..|].
  destruct (Htot w r Hok) as (x & w1 & Hs & Hok1). destruct (IH x w1 Hok1) as (t & o & w' & Hex & Hp).
  exists (ev r x :: t), o, w'. split; [by constructor|]. by exists w1.
Qed.

(** ** Handlers *)

Section Handlers.
Context {S : Type}.

Definition loop_wpm {A} (m : M answer S A) (s : S) (w : W) (Q : W -> S -> A -> Prop) : Prop :=
  loop_wp (m s) w (fun w' p => Q w' p.1 p.2).

Lemma lw_mono {A} (m : M answer S A) s w (Q Q' : W -> S -> A -> Prop) :
  loop_wpm m s w Q -> (forall w s a, Q w s a -> Q' w s a) -> loop_wpm m s w Q'.
Proof. intros H HQ. eapply loop_wp_mono; [|exact H]. intros w' [s' a]. apply HQ. Qed.

Lemma lw_bind {A B} (m : M answer S A) (f : A -> M answer S B) s w Q :
  loop_wpm m s w (fun w' s' a => loop_wpm (f a) s' w' Q) -> loop_wpm (m ≫= f) s w Q.
Proof. intros H. by apply loop_wp_bind. Qed.

Lemma lw_try {A B} (m : M answer S (res A)) (e : error -> M answer S B) (k : A -> M answer S B) s w Q :
  loop_wpm m s w (fun w' s' r =>
    match r with Ok a => loop_wpm (k a) s' w' Q | Err x => loop_wpm (e x) s' w' Q end) ->
  loop_wpm (try_ m e k) s w Q.
Proof. intros H. apply lw_bind. eapply lw_mono; [exact H|]. by intros w' s' []. Qed.

Lemma lw_ret {A} (a : A) s w (Q : W -> S -> A -> Prop) : Q w s a -> loop_wpm (mret a) s w Q.
Proof. done. Qed.
Lemma lw_get s w (Q : W -> S -> S -> Prop) : Q w s s -> loop_wpm get s w Q.
Proof. done. Qed.
Lemma lw_put s' s w (Q : W -> S -> unit -> Prop) : Q w s' tt -> loop_wpm (put s') s w Q.
Proof. done. Qed.
Lemma lw_modify f s w (Q : W -> S -> unit -> Prop) : Q w (f s) tt -> loop_wpm (modify f) s w Q.
Proof. done. Qed.
Lemma lw_call r s w (Q : W -> S -> answer r -> Prop) :
  (forall x w', step w r x w' -> Q w' s x) -> loop_wpm (call r) s w Q.
Proof. done. Qed.

(** Loops over a list with an invariant. *)
Lemma lw_for_each {A} (I : W -> S -> Prop) (E : W -> S -> Prop) (l : list A) (f : A -> M answer S (res unit)) s w :
  I w s ->
  (forall x s w, x ∈ l -> I w s -> loop_wpm (f x) s w (fun w' s' r => match r with Ok _ => I w' s' | Err _ => E w' s' end)) ->
  loop_wpm (for_each l f) s w (fun w' s' r => match r with Ok _ => I w' s' | Err _ => E w' s' end).
Proof.
  revert s w. induction l as [|x l IH]; intros s w Hi Hf; [by apply lw_ret|]. cbn [for_each]. apply lw_try.
  eapply lw_mono; [apply Hf; [by left|done]|]. intros w' s' [[]|e] H; [|by apply lw_ret].
  apply IH; [done|]. intros y s1 w1 Hy. apply Hf. by right.
Qed.
End Handlers.
End ClosedLoop.

Arguments loop_wpm : simpl never.

(** Unroll a handler in the loop. *)
Ltac lw_request :=
  lazymatch goal with |- loop_wpm ?st (call ?r) ?s ?w ?Q => refine (lw_call st r s w Q _) end.
Ltac lw_call_ := first [lw_request | unfold_requests; lw_request].
Ltac lw_step :=
  lazymatch goal with
  | |- forall _, _ => intros ?
  | |- loop_wpm _ (call _) _ _ _ => lw_call_; intros ? ? ?
  | |- loop_wpm _ (mret _) _ _ _ => apply lw_ret
  | |- loop_wpm _ get _ _ _ => apply lw_get
  | |- loop_wpm _ (put _) _ _ _ => apply lw_put
  | |- loop_wpm _ (modify _) _ _ _ => apply lw_modify
  | |- loop_wpm _ (try_ _ _ _) _ _ _ => apply lw_try
  | |- loop_wpm _ (mbind _ _) _ _ _ => apply lw_bind
  | |- loop_wpm _ (if ?b then _ else _) _ _ _ => destruct b eqn:?
  | |- loop_wpm _ (match ?x with _ => _ end) _ _ _ => destruct x eqn:?
  | |- match ?x with Ok _ => _ | Err _ => _ end => destruct x eqn:?
  | |- loop_wpm _ _ _ _ _ => unfold_requests; lw_request; intros ? ? ?
  end.

(** ** Failed requests *)

(** A request is answered truthfully, or it fails, before it took effect or after; only so many
    requests fail. *)
Definition faulty_step {req} {answer : req -> Type} {W}
    (truth : W -> forall r, answer r -> W -> Prop) (fails : forall r, answer r -> Prop)
    (faults : W -> nat) (with_faults : W -> nat -> W) (w : W) (r : req) (x : answer r) (w' : W) : Prop :=
  truth w r x w' \/
  exists n, faults w = S n /\ fails r x /\
    (w' = with_faults w n \/ exists x', truth (with_faults w n) r x' w').

(** The answers to a request that changes nothing. *)
Section Answers.
Context {req : Type} {answer : req -> Type} {W : Type}.
Context (step : W -> forall r : req, answer r -> W -> Prop) (failure : error -> Prop).
Context (faults : W -> nat) (with_faults : W -> nat -> W).

(** The answers to [r], read as a result: [P] holds of a value, [Q] of a truthful error; any
    other error is a failure. *)
Definition answers (r : req) {A} (ask : answer r -> res A) (P : W -> A -> Prop) (Q : W -> error -> Prop) : Prop :=
  forall w x w', step w r x w' ->
    match ask x with
    | Ok a => w' = w /\ P w a
    | Err e => w' = w /\ Q w e \/ failure e /\ exists n, faults w = S n /\ w' = with_faults w n
    end.

Lemma lw_answers {St} r {A} (ask : answer r -> res A) P Q (s : St) w (Φ : W -> St -> answer r -> Prop) :
  answers r ask P Q ->
  (forall x, match ask x with
             | Ok a => P w a -> Φ w s x
             | Err e => (Q w e -> Φ w s x) /\ (forall n, faults w = S n -> failure e -> Φ (with_faults w n) s x)
             end) ->
  loop_wpm step (call r) s w Φ.
Proof.
  intros Hr HΦ. apply lw_call. intros x w' Hs. specialize (Hr _ _ _ Hs). specialize (HΦ x). destruct (ask x) as [a|e].
  - destruct Hr as [-> ?]. auto.
  - destruct HΦ as [H1 H2]. destruct Hr as [[-> ?]|(? & n & ? & ->)]; auto.
Qed.

(** A read that may show anything, and fails only when a request does. *)
Definition anything {A} (_ : W) (_ : A) : Prop := True.
Definition no_error (_ : W) (_ : error) : Prop := False.

Lemma lw_read {St} r {A} (ask : answer r -> res A) (s : St) w (Φ : W -> St -> answer r -> Prop) :
  answers r ask anything no_error ->
  (forall x, match ask x with
             | Ok _ => Φ w s x
             | Err e => forall n, faults w = S n -> failure e -> Φ (with_faults w n) s x
             end) ->
  loop_wpm step (call r) s w Φ.
Proof.
  intros Hr HΦ. eapply lw_answers; [exact Hr|]. intros x. specialize (HΦ x). destruct (ask x); [done|]. by split.
Qed.
End Answers.

(** A request answered truthfully in the world as it is, or failed. *)
Ltac solve_answers :=
  intros w x w' [Ht|(n0 & Hn & (e & -> & He) & Hw)];
  [ cbn in Ht; first
    [ by destruct Ht as [-> ->] | by destruct Ht as (-> & y & ->) | by destruct Ht as (-> & y & -> & ?)
    | destruct Ht as [-> Ht]; destruct x; auto ]
  | right; split; [done|]; exists n0; split; [done|]; destruct Hw as [->|[x' Ht]]; [done|]; cbn in Ht; by destruct Ht as [-> _] ].

(** ** Sums over a list, for measures *)

Lemma sum_imap_le {A} (f : A -> nat) (g : nat -> A -> A) l :
  (forall j t, l !! j = Some t -> (f (g j t) <= f t)%nat) ->
  (sum_list_with f (imap g l) <= sum_list_with f l)%nat.
Proof.
  revert g. induction l as [|x l IH]; intros g H; [done|]. rewrite imap_cons. cbn.
  pose proof (H 0%nat x eq_refl). specialize (IH (g ∘ S) (fun j t => H (S j) t)). lia.
Qed.

Lemma sum_imap_lt {A} (f : A -> nat) (g : nat -> A -> A) l k t :
  (forall j t, l !! j = Some t -> (f (g j t) <= f t)%nat) ->
  l !! k = Some t -> (f (g k t) < f t)%nat ->
  (sum_list_with f (imap g l) < sum_list_with f l)%nat.
Proof.
  revert g k. induction l as [|x l IH]; intros g k H Hk Ht; [done|]. rewrite imap_cons. cbn.
  pose proof (H 0%nat x eq_refl). destruct k as [|k].
  - injection Hk as ->. pose proof (sum_imap_le f (g ∘ S) l (fun j t => H (S j) t)). lia.
  - specialize (IH (g ∘ S) k (fun j t => H (S j) t) Hk Ht). lia.
Qed.

Lemma sum_bound {A} (f : A -> nat) b l :
  (forall j t, l !! j = Some t -> (f t <= b)%nat) -> (sum_list_with f l <= length l * b)%nat.
Proof.
  induction l as [|x l IH]; intros H; [done|]. cbn.
  pose proof (H 0%nat x eq_refl). specialize (IH (fun j t => H (S j) t)). lia.
Qed.

Lemma fmap_is_imap {A B} (f : A -> B) l : f <$> l = imap (fun _ => f) l.
Proof. induction l as [|x l IH]; [done|]. rewrite imap_cons. cbn. by rewrite IH. Qed.

Lemma sum_insert {A} (f : A -> nat) l k x y :
  l !! k = Some x -> (sum_list_with f (<[ k := y ]> l) + f x = sum_list_with f l + f y)%nat.
Proof.
  revert k. induction l as [|z l IH]; intros [|k]; cbn; try done; [intros [= ->]; lia|].
  intros Hk. rewrite <-!Nat.add_assoc. f_equal. exact (IH k Hk).
Qed.

(** Rounds go on for as long as wanted. *)
Lemma rounds_extend {W} (round : W -> W -> Prop) (ok : W -> Prop) N w :
  (forall w, ok w -> exists w', round w w' /\ ok w') -> ok w -> exists w', nsteps round N w w'.
Proof.
  intros Ht. revert w. induction N as [|N IH]; intros w Hok; [exists w; constructor|].
  destruct (Ht w Hok) as (w1 & H1 & Hok1). destruct (IH w1 Hok1) as [w' ?]. exists w'. by econstructor.
Qed.

(** ** Loops that terminate *)

(** [goal] is reached: [ok] is preserved, [goal] is stable, and a round that starts without it
    decreases the measure. *)
Class Measured {W} (round : W -> W -> Prop) (ok goal : W -> Prop) (distance : W -> nat) : Prop := {
  measured_ok : forall w w', ok w -> round w w' -> ok w';
  measured_stable : forall w w', ok w -> round w w' -> goal w -> goal w';
  measured_closer : forall w w', ok w -> round w w' -> goal w \/ (distance w' < distance w)%nat;
  measured_end : forall w, ok w -> distance w = 0%nat -> goal w;
}.

Section Measured.
Context {W} (round : W -> W -> Prop) (ok goal : W -> Prop) (distance : W -> nat).
Context {Hm : Measured round ok goal distance}.

Lemma rounds_ok N w w' : ok w -> nsteps round N w w' -> ok w'.
Proof. intros Hok Hr. induction Hr as [w|N w w1 w' H1 _ IH]; [done|]. by eapply IH, measured_ok. Qed.

(** As many rounds as the measure are enough. *)
Lemma rounds_reach N w w' :
  ok w -> nsteps round N w w' -> goal w \/ (distance w <= N)%nat -> goal w'.
Proof.
  intros Hok Hr. revert Hok. induction Hr as [w|N w w1 w' H1 _ IH]; intros Hok Hd.
  - destruct Hd as [?|Hd]; [done|]. apply measured_end; [done | lia].
  - apply IH; [by eapply measured_ok|]. destruct Hd as [Hg|Hd]; [left; by eapply measured_stable|].
    destruct (measured_closer _ _ Hok H1) as [Hg|?]; [left; by eapply measured_stable | right; lia].
Qed.

(** There is no run without end: the rounds before the goal are well founded. *)
Lemma rounds_well_founded : well_founded (fun w' w => ok w /\ ~ goal w /\ round w w').
Proof.
  apply (wf_projected lt distance); [|apply lt_wf].
  intros w' w (Hok & Hg & Hr). by destruct (measured_closer _ _ Hok Hr).
Qed.

Lemma rounds_go_on N w :
  (forall w, ok w -> exists w', round w w') -> ok w -> exists w', nsteps round N w w'.
Proof.
  intros Ht. apply rounds_extend. intros v Hv. destruct (Ht v Hv) as [v' H]. exists v'. split; [done|].
  by eapply measured_ok.
Qed.
End Measured.
