(* ===== verification/K8sTypes.v ===== *)
(** * Kubernetes API objects the operator reads and writes

    The fields of [k8s.io/api] types the source reads or sets; a field whose contents the
    operator only copies is one opaque string ([..._rest]). A Go slice or map is a list or
    [gmap] (nil and empty are not told apart, as in [equality.Semantic]), a pointer field
    an [option]. [StatefulSet.Spec.Replicas] and [RollingUpdate.Partition] are pointers the
    API server always sets (they default to 1 and 0), so they are plain numbers here. *)

From S2P Require Import Prelude.

Abbreviation labels := (gmap string string).

(** A map index in Go: the zero value when the key is missing. *)
Definition index (m : labels) (k : string) : string := default "" (m !! k).

(** ** Metadata *)

Record OwnerRef := MkOwnerRef {
  or_Kind : string; or_Name : string; or_UID : string; or_Controller : bool }.
#[export] Instance OwnerRef_eq_dec : EqDecision OwnerRef.
Proof. solve_decision. Defined.

(** [metav1.Condition]. *)
Inductive CondStatus := CondTrue | CondFalse | CondUnknown.
#[export] Instance CondStatus_eq_dec : EqDecision CondStatus.
Proof. solve_decision. Defined.

Record Condition := MkCondition {
  cond_Type : string; cond_Status : CondStatus; cond_Reason : string;
  cond_Message : string; cond_ObservedGeneration : Z }.
#[export] Instance Condition_eq_dec : EqDecision Condition.
Proof. solve_decision. Defined.

(** [intstr.IntOrString]. *)
Inductive IntOrString := IntVal (z : Z) | StrVal (s : string).
#[export] Instance IntOrString_eq_dec : EqDecision IntOrString.
Proof. solve_decision. Defined.

(** ** Pod templates *)

Inductive EnvVarSource :=
| FieldRef (path : string)
| SecretKeyRef (secret key : string)
| OtherEnvSource (rest : string).
#[export] Instance EnvVarSource_eq_dec : EqDecision EnvVarSource.
Proof. solve_decision. Defined.

Record EnvVar := MkEnvVar {
  env_Name : string; env_Value : string; env_ValueFrom : option EnvVarSource }.
#[export] Instance EnvVar_eq_dec : EqDecision EnvVar.
Proof. solve_decision. Defined.

(** A [resource.Quantity], by its value in thousandths. *)
Abbreviation Quantity := Z (only parsing).

Record ResourceRequirements := MkResources {
  rr_Requests : gmap string Quantity; rr_Limits : gmap string Quantity }.
#[export] Instance ResourceRequirements_eq_dec : EqDecision ResourceRequirements.
Proof. solve_decision. Defined.

Inductive URIScheme := URISchemeHTTP | URISchemeHTTPS.
#[export] Instance URIScheme_eq_dec : EqDecision URIScheme.
Proof. solve_decision. Defined.

Record ProbeHandler := MkProbeHandler {
  ph_Scheme : URIScheme; ph_Path : string; ph_Port : IntOrString }.
#[export] Instance ProbeHandler_eq_dec : EqDecision ProbeHandler.
Proof. solve_decision. Defined.

Record Probe := MkProbe {
  pr_Handler : ProbeHandler; pr_InitialDelaySeconds : Z; pr_PeriodSeconds : Z;
  pr_FailureThreshold : Z; pr_TimeoutSeconds : Z; pr_SuccessThreshold : Z }.
#[export] Instance Probe_eq_dec : EqDecision Probe.
Proof. solve_decision. Defined.

Record SecurityContext := MkSecurityContext {
  sc_AllowPrivilegeEscalation : option bool;
  sc_CapabilitiesDrop : option (list string);
  sc_ReadOnlyRootFilesystem : option bool;
  sc_rest : string }.
#[export] Instance SecurityContext_eq_dec : EqDecision SecurityContext.
Proof. solve_decision. Defined.

Record PodSecurityContext := MkPodSecurityContext {
  psc_RunAsNonRoot : option bool; psc_SeccompProfile : option string; psc_rest : string }.
#[export] Instance PodSecurityContext_eq_dec : EqDecision PodSecurityContext.
Proof. solve_decision. Defined.

Record VolumeMount := MkVolumeMount {
  vm_Name : string; vm_MountPath : string; vm_ReadOnly : bool; vm_SubPathExpr : string }.
#[export] Instance VolumeMount_eq_dec : EqDecision VolumeMount.
Proof. solve_decision. Defined.

Inductive VolumeSource :=
| VConfigMap (name : string) (items : list (string * string)) (optional : option bool) (mode : Z)
| VEmptyDir
| VHostPath (path type : string)
| VSecret (name : string) (mode : Z)
| VCSI (driver : string) (attributes : labels) (readonly : bool)
| VNone.
#[export] Instance VolumeSource_eq_dec : EqDecision VolumeSource.
Proof. solve_decision. Defined.

Record Volume := MkVolume { vol_Name : string; vol_Source : VolumeSource }.
#[export] Instance Volume_eq_dec : EqDecision Volume.
Proof. solve_decision. Defined.

Record ContainerPort := MkContainerPort {
  cp_Name : string; cp_ContainerPort : Z; cp_HostPort : Z }.
#[export] Instance ContainerPort_eq_dec : EqDecision ContainerPort.
Proof. solve_decision. Defined.

Record Container := MkContainer {
  ct_Name : string; ct_Image : string; ct_ImagePullPolicy : string;
  ct_Command : list string; ct_Args : list string; ct_Env : list EnvVar;
  ct_Ports : list ContainerPort; ct_Resources : ResourceRequirements;
  ct_SecurityContext : option SecurityContext; ct_VolumeMounts : list VolumeMount;
  ct_StartupProbe : option Probe; ct_LivenessProbe : option Probe;
  ct_ReadinessProbe : option Probe }.
#[export] Instance Container_eq_dec : EqDecision Container.
Proof. solve_decision. Defined.

Record Toleration := MkToleration {
  tol_Key : string; tol_Operator : string; tol_Value : string; tol_Effect : string;
  tol_Seconds : option Z }.
#[export] Instance Toleration_eq_dec : EqDecision Toleration.
Proof. solve_decision. Defined.

Record Taint := MkTaint { taint_Key : string; taint_Value : string; taint_Effect : string }.
#[export] Instance Taint_eq_dec : EqDecision Taint.
Proof. solve_decision. Defined.

(** A pod affinity: the required pod anti-affinity terms (match labels, topology key), the
    one part the operator fills in. *)
Record Affinity := MkAffinity {
  aff_PodAntiAffinity : option (list (labels * string)); aff_rest : string }.
#[export] Instance Affinity_eq_dec : EqDecision Affinity.
Proof. solve_decision. Defined.

Record PodSpec := MkPodSpec {
  ps_InitContainers : list Container; ps_Containers : list Container;
  ps_HostNetwork : bool; ps_DNSPolicy : string; ps_ServiceAccountName : string;
  ps_AutomountServiceAccountToken : option bool; ps_ImagePullSecrets : list string;
  ps_SecurityContext : option PodSecurityContext; ps_Affinity : option Affinity;
  ps_NodeSelector : labels; ps_Volumes : list Volume; ps_Tolerations : list Toleration;
  ps_PriorityClassName : string }.
#[export] Instance PodSpec_eq_dec : EqDecision PodSpec.
Proof. solve_decision. Defined.

Record PodTemplateSpec := MkPodTemplate {
  pt_Labels : labels; pt_Annotations : labels; pt_Spec : PodSpec }.
#[export] Instance PodTemplateSpec_eq_dec : EqDecision PodTemplateSpec.
Proof. solve_decision. Defined.

(** ** Workloads *)

Record PVCSpec := MkPVCSpec {
  pvcs_Name : string; pvcs_StorageClassName : option string;
  pvcs_Selector : option labels; pvcs_Storage : option Quantity }.
#[export] Instance PVCSpec_eq_dec : EqDecision PVCSpec.
Proof. solve_decision. Defined.

Inductive RetentionPolicyType := RetainPolicy | DeletePolicy.
#[export] Instance RetentionPolicyType_eq_dec : EqDecision RetentionPolicyType.
Proof. solve_decision. Defined.

Record PVCRetentionPolicy := MkPVCRetentionPolicy {
  WhenDeleted : RetentionPolicyType; WhenScaled : RetentionPolicyType }.
#[export] Instance PVCRetentionPolicy_eq_dec : EqDecision PVCRetentionPolicy.
Proof. solve_decision. Defined.

Inductive UpdateStrategyType := DefaultStrategy | RollingUpdateStrategy | OnDeleteStrategy.
#[export] Instance UpdateStrategyType_eq_dec : EqDecision UpdateStrategyType.
Proof. solve_decision. Defined.

(** [us_RollingUpdate] is the partition of the rolling-update parameters, if any are set. *)
Record UpdateStrategy := MkUpdateStrategy {
  us_Type : UpdateStrategyType; us_RollingUpdate : option Z }.
#[export] Instance UpdateStrategy_eq_dec : EqDecision UpdateStrategy.
Proof. solve_decision. Defined.

Record StatefulSetSpec := MkSSSpec {
  sss_Replicas : Z; sss_Selector : labels; sss_ServiceName : string;
  sss_PodManagementPolicy : string; sss_UpdateStrategy : UpdateStrategy;
  sss_VolumeClaimTemplates : list PVCSpec; sss_Template : PodTemplateSpec;
  sss_PVCRetentionPolicy : option PVCRetentionPolicy }.
#[export] Instance StatefulSetSpec_eq_dec : EqDecision StatefulSetSpec.
Proof. solve_decision. Defined.

Record StatefulSetStatus := MkSSStatus {
  ssst_ObservedGeneration : Z; ssst_Replicas : Z; ssst_ReadyReplicas : Z;
  ssst_CurrentReplicas : Z; ssst_UpdatedReplicas : Z;
  ssst_CurrentRevision : string; ssst_UpdateRevision : string }.
#[export] Instance StatefulSetStatus_eq_dec : EqDecision StatefulSetStatus.
Proof. solve_decision. Defined.

Record StatefulSet := MkSS {
  ss_Name : nsname; ss_Labels : labels; ss_Annotations : labels; ss_Generation : Z;
  ss_Spec : StatefulSetSpec; ss_Status : StatefulSetStatus }.
#[export] Instance StatefulSet_eq_dec : EqDecision StatefulSet.
Proof. solve_decision. Defined.

(** In-place updates of a StatefulSet the controllers perform on their copies. *)
Definition ss_set_spec (ss : StatefulSet) (sp : StatefulSetSpec) : StatefulSet :=
  MkSS (ss_Name ss) (ss_Labels ss) (ss_Annotations ss) (ss_Generation ss) sp (ss_Status ss).
Definition ss_set_replicas (ss : StatefulSet) (n : Z) : StatefulSet :=
  let sp := ss_Spec ss in
  ss_set_spec ss (MkSSSpec n (sss_Selector sp) (sss_ServiceName sp)
    (sss_PodManagementPolicy sp) (sss_UpdateStrategy sp) (sss_VolumeClaimTemplates sp)
    (sss_Template sp) (sss_PVCRetentionPolicy sp)).
Definition ss_set_strategy (ss : StatefulSet) (u : UpdateStrategy) : StatefulSet :=
  let sp := ss_Spec ss in
  ss_set_spec ss (MkSSSpec (sss_Replicas sp) (sss_Selector sp) (sss_ServiceName sp)
    (sss_PodManagementPolicy sp) u (sss_VolumeClaimTemplates sp)
    (sss_Template sp) (sss_PVCRetentionPolicy sp)).
Definition ss_set_template (ss : StatefulSet) (t : PodTemplateSpec) : StatefulSet :=
  let sp := ss_Spec ss in
  ss_set_spec ss (MkSSSpec (sss_Replicas sp) (sss_Selector sp) (sss_ServiceName sp)
    (sss_PodManagementPolicy sp) (sss_UpdateStrategy sp) (sss_VolumeClaimTemplates sp)
    t (sss_PVCRetentionPolicy sp)).
Definition ss_set_retention (ss : StatefulSet) (p : option PVCRetentionPolicy) : StatefulSet :=
  let sp := ss_Spec ss in
  ss_set_spec ss (MkSSSpec (sss_Replicas sp) (sss_Selector sp) (sss_ServiceName sp)
    (sss_PodManagementPolicy sp) (sss_UpdateStrategy sp) (sss_VolumeClaimTemplates sp)
    (sss_Template sp) p).

Record Deployment := MkDeployment {
  dep_Name : nsname; dep_Labels : labels; dep_Annotations : labels;
  dep_Owners : list OwnerRef; dep_Replicas : Z; dep_Selector : labels;
  dep_Template : PodTemplateSpec }.
#[export] Instance Deployment_eq_dec : EqDecision Deployment.
Proof. solve_decision. Defined.

(** A batch Job as the cleanup reads it. *)
Record Job := MkJob {
  job_Name : nsname; job_CreationTimestamp : Z; job_Succeeded : Z }.
#[export] Instance Job_eq_dec : EqDecision Job.
Proof. solve_decision. Defined.

(** A batch Job as the cleanup creates it; [js_NodeAffinity] is the required node affinity. *)
Record NodeSelectorRequirement := MkNodeRequirement {
  nr_Key : string; nr_Operator : string; nr_Values : list string }.
#[export] Instance NodeSelectorRequirement_eq_dec : EqDecision NodeSelectorRequirement.
Proof. solve_decision. Defined.

Record JobContainer := MkJobContainer {
  jc_Name : string; jc_Image : string; jc_Command : list string; jc_VolumeMounts : list VolumeMount }.
#[export] Instance JobContainer_eq_dec : EqDecision JobContainer.
Proof. solve_decision. Defined.

Record JobSpec := MkJobSpec {
  js_GenerateName : string; js_Namespace : string; js_TTLSecondsAfterFinished : Z;
  js_NodeAffinity : list NodeSelectorRequirement; js_Containers : list JobContainer;
  js_Volumes : list Volume; js_Tolerations : list Toleration; js_RestartPolicy : string }.
#[export] Instance JobSpec_eq_dec : EqDecision JobSpec.
Proof. solve_decision. Defined.

(** ** Pods, nodes, services *)

Record PodCondition := MkPodCondition {
  pc_Type : string; pc_Status : CondStatus; pc_Reason : string }.
#[export] Instance PodCondition_eq_dec : EqDecision PodCondition.
Proof. solve_decision. Defined.

(** [pod_Waiting]: per container status, the reason of its waiting state if it is waiting. *)
Record Pod := MkPod {
  pod_Name : nsname; pod_Labels : labels; pod_Deleting : bool; pod_NodeName : string;
  pod_Phase : string; pod_HostIP : string; pod_Conditions : list PodCondition;
  pod_Waiting : list (option string) }.
#[export] Instance Pod_eq_dec : EqDecision Pod.
Proof. solve_decision. Defined.

Record NodeAddress := MkNodeAddress { na_Type : string; na_Address : string }.
#[export] Instance NodeAddress_eq_dec : EqDecision NodeAddress.
Proof. solve_decision. Defined.

Record Node := MkNode {
  node_Name : string; node_Labels : labels; node_Taints : list Taint;
  node_Addresses : list NodeAddress }.
#[export] Instance Node_eq_dec : EqDecision Node.
Proof. solve_decision. Defined.

Record Ingress := MkIngress { ing_IP : string; ing_Hostname : string }.
#[export] Instance Ingress_eq_dec : EqDecision Ingress.
Proof. solve_decision. Defined.

(** A Service as it is read. *)
Record Service := MkService {
  svc_Name : nsname; svc_Labels : labels; svc_Ingress : list Ingress }.
#[export] Instance Service_eq_dec : EqDecision Service.
Proof. solve_decision. Defined.

(** A Service as it is applied. *)
Record ServicePort := MkServicePort {
  sp_Name : string; sp_Port : Z; sp_TargetPort : IntOrString }.
#[export] Instance ServicePort_eq_dec : EqDecision ServicePort.
Proof. solve_decision. Defined.

Record ServiceApply := MkServiceApply {
  sa_Name : nsname; sa_Owner : OwnerRef; sa_Annotations : labels; sa_Labels : labels;
  sa_Type : string; sa_ClusterIP : string; sa_PublishNotReadyAddresses : bool;
  sa_Ports : list ServicePort; sa_Selector : labels }.
#[export] Instance ServiceApply_eq_dec : EqDecision ServiceApply.
Proof. solve_decision. Defined.

(** An EndpointSlice: the [Ready] condition of each endpoint. *)
Abbreviation EndpointSlice := (list (option bool)) (only parsing).

Record ConfigMap := MkConfigMap {
  cm_Name : nsname; cm_Owners : list OwnerRef; cm_Data : labels }.
#[export] Instance ConfigMap_eq_dec : EqDecision ConfigMap.
Proof. solve_decision. Defined.

Record PVC := MkPVC {
  pvc_Name : nsname; pvc_Labels : labels; pvc_StorageClassName : option string }.
#[export] Instance PVC_eq_dec : EqDecision PVC.
Proof. solve_decision. Defined.

Record PDB := MkPDB {
  pdb_Name : nsname; pdb_Labels : labels; pdb_MaxUnavailable : IntOrString;
  pdb_Selector : labels }.
#[export] Instance PDB_eq_dec : EqDecision PDB.
Proof. solve_decision. Defined.

Record PolicyRule := MkPolicyRule {
  rule_APIGroups : list string; rule_Resources : list string; rule_Verbs : list string }.
#[export] Instance PolicyRule_eq_dec : EqDecision PolicyRule.
Proof. solve_decision. Defined.

Record Role := MkRole { role_Name : nsname; role_Owner : OwnerRef; role_Rules : list PolicyRule }.
#[export] Instance Role_eq_dec : EqDecision Role.
Proof. solve_decision. Defined.

Record RoleBinding := MkRoleBinding {
  rb_Name : nsname; rb_Owner : OwnerRef; rb_RoleName : string; rb_Subject : nsname }.
#[export] Instance RoleBinding_eq_dec : EqDecision RoleBinding.
Proof. solve_decision. Defined.

Record ServiceAccount := MkServiceAccount {
  sacc_Name : nsname; sacc_Owner : OwnerRef; sacc_ImagePullSecrets : list string }.
#[export] Instance ServiceAccount_eq_dec : EqDecision ServiceAccount.
Proof. solve_decision. Defined.

(** cert-manager Certificate; durations in nanoseconds. *)
Record Certificate := MkCertificate {
  cert_Name : nsname; cert_Owner : OwnerRef; cert_SecretName : string;
  cert_IssuerName : string; cert_IssuerKind : string; cert_IssuerGroup : string;
  cert_Usages : list string; cert_DNSNames : list string; cert_IPAddresses : list string;
  cert_Duration : option Z; cert_RenewBefore : option Z }.
#[export] Instance Certificate_eq_dec : EqDecision Certificate.
Proof. solve_decision. Defined.

(** ** Objects sent to the API server *)

Inductive kind :=
| KStatefulSet | KService | KConfigMap | KPod | KPVC | KJob | KPDB | KDeployment
| KRole | KRoleBinding | KServiceAccount | KCertificate.
#[export] Instance kind_eq_dec : EqDecision kind.
Proof. solve_decision. Defined.

Inductive object :=
| OStatefulSet (ss : StatefulSet)
| OService (svc : ServiceApply)
| OConfigMap (cm : ConfigMap)
| OJob (job : JobSpec)
| OPDB (pdb : PDB)
| ODeployment (d : Deployment)
| ORole (r : Role)
| ORoleBinding (rb : RoleBinding)
| OServiceAccount (sa : ServiceAccount)
| OCertificate (c : Certificate).
#[export] Instance object_eq_dec : EqDecision object.
Proof. solve_decision. Defined.

(** An object with the controller owner reference the operator sets on it, if any. *)
Abbreviation owned := (option OwnerRef * object)%type.

Definition object_name (o : object) : nsname :=
  match o with
  | OStatefulSet ss => ss_Name ss | OService s => sa_Name s | OConfigMap c => cm_Name c
  | OJob j => NN (js_Namespace j) (js_GenerateName j) | OPDB p => pdb_Name p
  | ODeployment d => dep_Name d | ORole r => role_Name r | ORoleBinding r => rb_Name r
  | OServiceAccount s => sacc_Name s | OCertificate c => cert_Name c
  end.

Definition object_kind (o : object) : kind :=
  match o with
  | OStatefulSet _ => KStatefulSet | OService _ => KService | OConfigMap _ => KConfigMap
  | OJob _ => KJob | OPDB _ => KPDB | ODeployment _ => KDeployment | ORole _ => KRole
  | ORoleBinding _ => KRoleBinding | OServiceAccount _ => KServiceAccount
  | OCertificate _ => KCertificate
  end.

(** ** Results of a reconciliation *)

(** [ctrl.Result]; [RequeueAfter] in nanoseconds. *)
Record Result := MkResult { RequeueAfter : Z }.
#[export] Instance Result_eq_dec : EqDecision Result.
Proof. solve_decision. Defined.

Definition zero_result : Result := MkResult 0.
Definition result_is_zero (r : Result) : bool := RequeueAfter r =? 0.

(** Go durations, in nanoseconds. *)
Definition second : Z := 1000000000.
Definition minute : Z := 60 * second.
Definition hour : Z := 60 * minute.
