(* ===== verification/AISConfig.v ===== *)
(** * The configuration of an AIS cluster

    [api/aistore/v1beta1/aisconfig.go]: the sections of [ConfigToUpdate]. Pointers are options,
    durations nanoseconds, sizes bytes. The operator reads or changes five sections; the others
    it forwards to the cluster, as the fields of [ForwardedConf]. *)

From S2P Require Import Prelude.

(** ** Sections the operator reads or writes *)

Record XactConfToUpdate := MkXactConf {
  xc_Compression : option string; xc_SbundleMult : option Z; xc_Burst : option Z }.
#[export] Instance XactConfToUpdate_eq_dec : EqDecision XactConfToUpdate.
Proof. solve_decision. Defined.

Record RebalanceConfToUpdate := MkRebalanceConf {
  reb_Xact : XactConfToUpdate; reb_Enabled : option bool; reb_DestRetryTime : option Z }.
#[export] Instance RebalanceConfToUpdate_eq_dec : EqDecision RebalanceConfToUpdate.
Proof. solve_decision. Defined.

Record LogConfToUpdate := MkLogConf {
  log_Level : option string; log_ToStderr : option bool; log_MaxSize : option Z;
  log_MaxTotal : option Z; log_FlushTime : option Z; log_StatsTime : option Z }.
#[export] Instance LogConfToUpdate_eq_dec : EqDecision LogConfToUpdate.
Proof. solve_decision. Defined.

Record HTTPConfToUpdate := MkHTTPConf {
  http_Certificate : option string; http_CertKey : option string;
  http_ServerNameTLS : option string; http_ClientCA : option string;
  http_IdleConnTimeout : option Z; http_MaxIdleConnsPerHost : option Z;
  http_MaxIdleConns : option Z; http_WriteBufferSize : option Z;
  http_ReadBufferSize : option Z; http_ClientAuthTLS : option Z;
  http_UseHTTPS : option bool; http_SkipVerifyCrt : option bool; http_Chunked : option bool }.
#[export] Instance HTTPConfToUpdate_eq_dec : EqDecision HTTPConfToUpdate.
Proof. solve_decision. Defined.

Record NetConfToUpdate := MkNetConf { net_HTTP : option HTTPConfToUpdate }.
#[export] Instance NetConfToUpdate_eq_dec : EqDecision NetConfToUpdate.
Proof. solve_decision. Defined.

Record AuthSignatureConfToUpdate := MkAuthSignatureConf {
  sig_Key : option string; sig_Method : option string }.
#[export] Instance AuthSignatureConfToUpdate_eq_dec : EqDecision AuthSignatureConfToUpdate.
Proof. solve_decision. Defined.

Record RequiredClaimsConfToUpdate := MkRequiredClaimsConf { rc_Aud : option (list string) }.
#[export] Instance RequiredClaimsConfToUpdate_eq_dec : EqDecision RequiredClaimsConfToUpdate.
Proof. solve_decision. Defined.

Record OIDCConfToUpdate := MkOIDCConf {
  oidc_AllowedIssuers : option (list string); oidc_IssuerCA : option string }.
#[export] Instance OIDCConfToUpdate_eq_dec : EqDecision OIDCConfToUpdate.
Proof. solve_decision. Defined.

Record ClusterKeyConfToUpdate := MkClusterKeyConf {
  ck_Enabled : option bool; ck_TTL : option Z; ck_NonceWindow : option Z;
  ck_RotationGrace : option Z }.
#[export] Instance ClusterKeyConfToUpdate_eq_dec : EqDecision ClusterKeyConfToUpdate.
Proof. solve_decision. Defined.

Record AuthConfToUpdate := MkAuthConf {
  ac_Enabled : option bool; ac_Signature : option AuthSignatureConfToUpdate;
  ac_RequiredClaims : option RequiredClaimsConfToUpdate; ac_OIDC : option OIDCConfToUpdate;
  ac_ClusterKey : option ClusterKeyConfToUpdate }.
#[export] Instance AuthConfToUpdate_eq_dec : EqDecision AuthConfToUpdate.
Proof. solve_decision. Defined.

(** ** Sections the operator does not look into *)

Record TraceExporterAuthConfToUpdate := MkTraceExporterAuthConf {
  tea_TokenHeader : option string; tea_TokenFile : option string }.
#[export] Instance TraceExporterAuthConfToUpdate_eq_dec : EqDecision TraceExporterAuthConfToUpdate.
Proof. solve_decision. Defined.

Record KeepaliveTrackerConfToUpdate := MkKeepaliveTrackerConf {
  kat_Interval : option Z; kat_Name : option string; kat_Factor : option Z }.
#[export] Instance KeepaliveTrackerConfToUpdate_eq_dec : EqDecision KeepaliveTrackerConfToUpdate.
Proof. solve_decision. Defined.

Record RateLimitBaseToUpdate := MkRateLimitBase {
  rlb_Verbs : option string; rlb_Interval : option Z; rlb_MaxTokens : option Z;
  rlb_Enabled : option bool }.
#[export] Instance RateLimitBaseToUpdate_eq_dec : EqDecision RateLimitBaseToUpdate.
Proof. solve_decision. Defined.

Record AdaptiveToUpdate := MkAdaptive {
  ada_NumRetries : option Z; ada_Base : RateLimitBaseToUpdate }.
#[export] Instance AdaptiveToUpdate_eq_dec : EqDecision AdaptiveToUpdate.
Proof. solve_decision. Defined.

Record BurstyToUpdate := MkBursty {
  bst_Size : option Z; bst_Base : RateLimitBaseToUpdate }.
#[export] Instance BurstyToUpdate_eq_dec : EqDecision BurstyToUpdate.
Proof. solve_decision. Defined.

Record MirrorConfToUpdate := MkMirrorConf {
  mir_Enabled : option bool; mir_Copies : option Z; mir_Burst : option Z }.
#[export] Instance MirrorConfToUpdate_eq_dec : EqDecision MirrorConfToUpdate.
Proof. solve_decision. Defined.

Record ECConfToUpdate := MkECConf {
  ec_Xact : XactConfToUpdate; ec_ObjSizeLimit : option Z; ec_DataSlices : option Z;
  ec_ParitySlices : option Z; ec_Enabled : option bool; ec_DiskOnly : option bool }.
#[export] Instance ECConfToUpdate_eq_dec : EqDecision ECConfToUpdate.
Proof. solve_decision. Defined.

Record GetBatchConfToUpdate := MkGetBatchConf {
  gb_Xact : XactConfToUpdate; gb_MaxWait : option Z; gb_NumWarmupWorkers : option Z;
  gb_MaxSoftErrs : option Z; gb_MaxGFN : option Z }.
#[export] Instance GetBatchConfToUpdate_eq_dec : EqDecision GetBatchConfToUpdate.
Proof. solve_decision. Defined.

Record PeriodConfToUpdate := MkPeriodConf {
  per_StatsTime : option Z; per_RetrySyncTime : option Z; per_NotifTime : option Z }.
#[export] Instance PeriodConfToUpdate_eq_dec : EqDecision PeriodConfToUpdate.
Proof. solve_decision. Defined.

Record TracingConfToUpdate := MkTracingConf {
  trc_ExporterEndpoint : option string;
  trc_ExporterAuth : option TraceExporterAuthConfToUpdate;
  trc_ServiceNamePrefix : option string; trc_ExtraAttributes : gmap string string;
  trc_SamplerProbabilityStr : option string; trc_Enabled : option bool;
  trc_SkipVerify : option bool }.
#[export] Instance TracingConfToUpdate_eq_dec : EqDecision TracingConfToUpdate.
Proof. solve_decision. Defined.

Record TimeoutConfToUpdate := MkTimeoutConf {
  tmo_CplaneOperation : option Z; tmo_MaxKeepalive : option Z; tmo_MaxHostBusy : option Z;
  tmo_Startup : option Z; tmo_JoinAtStartup : option Z; tmo_SendFile : option Z;
  tmo_EcStreams : option Z; tmo_ObjectMD : option Z; tmo_ColdGetConflict : option Z }.
#[export] Instance TimeoutConfToUpdate_eq_dec : EqDecision TimeoutConfToUpdate.
Proof. solve_decision. Defined.

Record ClientConfToUpdate := MkClientConf {
  cli_Timeout : option Z; cli_TimeoutLong : option Z; cli_ListObjTimeout : option Z }.
#[export] Instance ClientConfToUpdate_eq_dec : EqDecision ClientConfToUpdate.
Proof. solve_decision. Defined.

Record ProxyConfToUpdate := MkProxyConf {
  prx_PrimaryURL : option string; prx_OriginalURL : option string;
  prx_DiscoveryURL : option string; prx_NonElectable : option bool }.
#[export] Instance ProxyConfToUpdate_eq_dec : EqDecision ProxyConfToUpdate.
Proof. solve_decision. Defined.

Record SpaceConfToUpdate := MkSpaceConf {
  spc_CleanupWM : option Z; spc_LowWM : option Z; spc_HighWM : option Z; spc_OOS : option Z;
  spc_BatchSize : Z; spc_DontCleanupTime : option Z }.
#[export] Instance SpaceConfToUpdate_eq_dec : EqDecision SpaceConfToUpdate.
Proof. solve_decision. Defined.

Record LRUConfToUpdate := MkLRUConf {
  lru_Enabled : option bool; lru_DontEvictTime : option Z; lru_CapacityUpdTime : option Z;
  lru_BatchSize : option Z }.
#[export] Instance LRUConfToUpdate_eq_dec : EqDecision LRUConfToUpdate.
Proof. solve_decision. Defined.

Record DiskConfToUpdate := MkDiskConf {
  dsk_DiskUtilLowWM : option Z; dsk_DiskUtilHighWM : option Z; dsk_DiskUtilMaxWM : option Z;
  dsk_IostatTimeLong : option Z; dsk_IostatTimeShort : option Z;
  dsk_IostatTimeSmooth : option Z }.
#[export] Instance DiskConfToUpdate_eq_dec : EqDecision DiskConfToUpdate.
Proof. solve_decision. Defined.

Record ResilverConfToUpdate := MkResilverConf {
  rsl_Enabled : option bool }.
#[export] Instance ResilverConfToUpdate_eq_dec : EqDecision ResilverConfToUpdate.
Proof. solve_decision. Defined.

Record CksumConfToUpdate := MkCksumConf {
  cks_Type : option string; cks_ValidateColdGet : option bool;
  cks_ValidateWarmGet : option bool; cks_ValidateObjMove : option bool;
  cks_EnableReadRange : option bool }.
#[export] Instance CksumConfToUpdate_eq_dec : EqDecision CksumConfToUpdate.
Proof. solve_decision. Defined.

Record VersionConfToUpdate := MkVersionConf {
  ver_Enabled : option bool; ver_ValidateWarmGet : option bool; ver_Sync : option bool }.
#[export] Instance VersionConfToUpdate_eq_dec : EqDecision VersionConfToUpdate.
Proof. solve_decision. Defined.

Record FSHCConfToUpdate := MkFSHCConf {
  fsh_TestFileCount : option Z; fsh_HardErrs : option Z; fsh_IOErrs : option Z;
  fsh_IOErrTime : option Z; fsh_Enabled : option bool }.
#[export] Instance FSHCConfToUpdate_eq_dec : EqDecision FSHCConfToUpdate.
Proof. solve_decision. Defined.

Record ChunksConfToUpdate := MkChunksConf {
  chk_ObjSizeLimit : option Z; chk_MaxMonolithicSize : option Z; chk_ChunkSize : option Z;
  chk_CheckpointEvery : Z; chk_Flags : Z }.
#[export] Instance ChunksConfToUpdate_eq_dec : EqDecision ChunksConfToUpdate.
Proof. solve_decision. Defined.

Record KeepaliveConfToUpdate := MkKeepaliveConf {
  kal_Proxy : option KeepaliveTrackerConfToUpdate;
  kal_Target : option KeepaliveTrackerConfToUpdate; kal_NumRetries : option Z;
  kal_RetryFactor : option Z }.
#[export] Instance KeepaliveConfToUpdate_eq_dec : EqDecision KeepaliveConfToUpdate.
Proof. solve_decision. Defined.

Record DownloaderConfToUpdate := MkDownloaderConf {
  dld_Timeout : option Z }.
#[export] Instance DownloaderConfToUpdate_eq_dec : EqDecision DownloaderConfToUpdate.
Proof. solve_decision. Defined.

Record DSortConfToUpdate := MkDSortConf {
  dst_Xact : XactConfToUpdate; dst_DuplicatedRecords : option string;
  dst_MissingShards : option string; dst_EKMMalformedLine : option string;
  dst_EKMMissingKey : option string; dst_DefaultMaxMemUsage : option string;
  dst_CallTimeout : option Z; dst_DSorterMemThreshold : option string }.
#[export] Instance DSortConfToUpdate_eq_dec : EqDecision DSortConfToUpdate.
Proof. solve_decision. Defined.

Record TransportConfToUpdate := MkTransportConf {
  trp_MaxHeaderSize : option Z; trp_Burst : option Z; trp_IdleTeardown : option Z;
  trp_QuiesceTime : option Z; trp_LZ4BlockMaxSize : option Z;
  trp_LZ4FrameChecksum : option bool }.
#[export] Instance TransportConfToUpdate_eq_dec : EqDecision TransportConfToUpdate.
Proof. solve_decision. Defined.

Record MemsysConfToUpdate := MkMemsysConf {
  msy_MinFree : option Z; msy_DefaultBufSize : option Z; msy_SizeToGC : option Z;
  msy_HousekeepTime : option Z; msy_MinPctTotal : option Z; msy_MinPctFree : option Z }.
#[export] Instance MemsysConfToUpdate_eq_dec : EqDecision MemsysConfToUpdate.
Proof. solve_decision. Defined.

Record TCBConfToUpdate := MkTCBConf {
  tcb_Xact : XactConfToUpdate }.
#[export] Instance TCBConfToUpdate_eq_dec : EqDecision TCBConfToUpdate.
Proof. solve_decision. Defined.

Record TCOConfToUpdate := MkTCOConf {
  tco_Xact : XactConfToUpdate }.
#[export] Instance TCOConfToUpdate_eq_dec : EqDecision TCOConfToUpdate.
Proof. solve_decision. Defined.

Record ArchConfToUpdate := MkArchConf {
  arc_Xact : XactConfToUpdate }.
#[export] Instance ArchConfToUpdate_eq_dec : EqDecision ArchConfToUpdate.
Proof. solve_decision. Defined.

Record WritePolicyConfToUpdate := MkWritePolicyConf {
  wrp_Data : option string; wrp_MD : option string }.
#[export] Instance WritePolicyConfToUpdate_eq_dec : EqDecision WritePolicyConfToUpdate.
Proof. solve_decision. Defined.

Record RateLimitConfToUpdate := MkRateLimitConf {
  rtl_Backend : option AdaptiveToUpdate; rtl_Frontend : option BurstyToUpdate }.
#[export] Instance RateLimitConfToUpdate_eq_dec : EqDecision RateLimitConfToUpdate.
Proof. solve_decision. Defined.

(** The sections the operator only forwards to the cluster. *)
Record ForwardedConf := MkForwardedConf {
  fw_Mirror : option MirrorConfToUpdate; fw_EC : option ECConfToUpdate;
  fw_GetBatch : option GetBatchConfToUpdate; fw_Periodic : option PeriodConfToUpdate;
  fw_Tracing : option TracingConfToUpdate; fw_Timeout : option TimeoutConfToUpdate;
  fw_Client : option ClientConfToUpdate; fw_Space : option SpaceConfToUpdate;
  fw_LRU : option LRUConfToUpdate; fw_Disk : option DiskConfToUpdate;
  fw_Resilver : option ResilverConfToUpdate; fw_Cksum : option CksumConfToUpdate;
  fw_Versioning : option VersionConfToUpdate; fw_FSHC : option FSHCConfToUpdate;
  fw_Chunks : option ChunksConfToUpdate; fw_Keepalive : option KeepaliveConfToUpdate;
  fw_Downloader : option DownloaderConfToUpdate; fw_DSort : option DSortConfToUpdate;
  fw_Transport : option TransportConfToUpdate; fw_Memsys : option MemsysConfToUpdate;
  fw_TCB : option TCBConfToUpdate; fw_TCO : option TCOConfToUpdate;
  fw_Arch : option ArchConfToUpdate; fw_WritePolicy : option WritePolicyConfToUpdate;
  fw_Proxy : option ProxyConfToUpdate; fw_RateLimit : option RateLimitConfToUpdate;
  fw_Features : option string }.
#[export] Instance ForwardedConf_eq_dec : EqDecision ForwardedConf.
Proof. solve_decision. Defined.

Definition no_forwarded : ForwardedConf :=
  MkForwardedConf None None None None None None None None None None None None None
    None None None None None None None None None None None None None None.

(** [Backend] is a set of provider names. *)
Record ConfigToUpdate := MkConfigToUpdate {
  cu_Backend : option (gset string); cu_Log : option LogConfToUpdate;
  cu_Rebalance : option RebalanceConfToUpdate; cu_Net : option NetConfToUpdate;
  cu_Auth : option AuthConfToUpdate; cu_Forwarded : ForwardedConf }.
#[export] Instance ConfigToUpdate_eq_dec : EqDecision ConfigToUpdate.
Proof. solve_decision. Defined.
