(* ===== verification/AIStoreTypes.v ===== *)
(** * The AIStore custom resource

    The types of [api/aistore/v1beta1/aistore_types.go] and the parts of
    [aisconfig.go] the operator itself inspects or rewrites; the other sections of
    [ConfigToUpdate] it only forwards, by JSON key. *)

From S2P Require Import Prelude K8sTypes AISConfig.

(** ** States and conditions *)

Inductive ClusterState :=
| NoState  (* "" *)
| ClusterInitialized | ClusterCreated | ClusterReady | ClusterInitializingLBService
| ClusterPendingLBService | ClusterUpgrading | ClusterShuttingDown | ClusterShutdown
| ClusterDecommissioning | ClusterCleanup | HostCleanup | ClusterFinalized.
#[export] Instance ClusterState_eq_dec : EqDecision ClusterState.
Proof. solve_decision. Defined.

Inductive ClusterConditionType :=
| ConditionInitialized | ConditionCreated | ConditionReady | ConditionReadyRebalance.
#[export] Instance ClusterConditionType_eq_dec : EqDecision ClusterConditionType.
Proof. solve_decision. Defined.

Definition condition_name (c : ClusterConditionType) : string :=
  match c with
  | ConditionInitialized => "Initialized" | ConditionCreated => "Created"
  | ConditionReady => "Ready" | ConditionReadyRebalance => "ReadyRebalance"
  end.

Inductive ClusterConditionReason := ReasonUpgrading | ReasonScaling | ReasonShutdown.

Definition reason_name (r : ClusterConditionReason) : string :=
  match r with
  | ReasonUpgrading => "Upgrading" | ReasonScaling => "Scaling" | ReasonShutdown => "Shutdown"
  end.

(** ** Spec *)

Inductive PubNetDNSMode := PubNetDNSModeIP | PubNetDNSModeNode | PubNetDNSModePod.
#[export] Instance PubNetDNSMode_eq_dec : EqDecision PubNetDNSMode.
Proof. solve_decision. Defined.

Record AuthTLSConfig := MkAuthTLS { atls_CACertPath : string; atls_InsecureSkipVerify : bool }.
#[export] Instance AuthTLSConfig_eq_dec : EqDecision AuthTLSConfig.
Proof. solve_decision. Defined.

Record AuthServerLoginConf := MkLoginConf { lc_ClientID : string; lc_Scope : option string }.
#[export] Instance AuthServerLoginConf_eq_dec : EqDecision AuthServerLoginConf.
Proof. solve_decision. Defined.

Record UsernamePasswordAuth := MkUserPass {
  up_SecretName : string; up_SecretNamespace : option string;
  up_LoginConf : option AuthServerLoginConf }.
#[export] Instance UsernamePasswordAuth_eq_dec : EqDecision UsernamePasswordAuth.
Proof. solve_decision. Defined.

Record TokenExchangeAuth := MkTokenExchange {
  te_TokenPath : option string; te_TokenExchangeEndpoint : option string }.
#[export] Instance TokenExchangeAuth_eq_dec : EqDecision TokenExchangeAuth.
Proof. solve_decision. Defined.

Record AuthSpec := MkAuthSpec {
  as_ProfileRef : option string; as_ServiceURL : option string;
  as_UsernamePassword : option UsernamePasswordAuth;
  as_TokenExchange : option TokenExchangeAuth; as_TLS : option AuthTLSConfig }.
#[export] Instance AuthSpec_eq_dec : EqDecision AuthSpec.
Proof. solve_decision. Defined.

Record CAConfigMapRef := MkCARef { ca_Name : string; ca_Key : option string }.
#[export] Instance CAConfigMapRef_eq_dec : EqDecision CAConfigMapRef.
Proof. solve_decision. Defined.

Record AdminClientSpec := MkAdminClient {
  adm_Enabled : option bool; adm_Image : option string; adm_ImagePullPolicy : option string;
  adm_Resources : ResourceRequirements; adm_Annotations : labels; adm_Labels : labels;
  adm_NodeSelector : labels; adm_Affinity : option Affinity;
  adm_Tolerations : list Toleration; adm_Env : list EnvVar;
  adm_CAConfigMap : option CAConfigMapRef }.
#[export] Instance AdminClientSpec_eq_dec : EqDecision AdminClientSpec.
Proof. solve_decision. Defined.

(** [StateStorage]: host path prefix, PVC storage class, emptyDir. *)
Record StateStorage := MkStateStorage {
  st_HostPath : option string; st_PVC : option string; st_EmptyDir : bool }.
#[export] Instance StateStorage_eq_dec : EqDecision StateStorage.
Proof. solve_decision. Defined.

Inductive TLSCertificateMode := TLSCertificateModeUnset | TLSCertificateModeSecret | TLSCertificateModeCSI.
#[export] Instance TLSCertificateMode_eq_dec : EqDecision TLSCertificateMode.
Proof. solve_decision. Defined.

Record CertIssuerRef := MkIssuer { ir_Name : string; ir_Kind : string }.
#[export] Instance CertIssuerRef_eq_dec : EqDecision CertIssuerRef.
Proof. solve_decision. Defined.

Record TLSCertificateConfig := MkTLSCert {
  tc_IssuerRef : CertIssuerRef; tc_AdditionalDNSNames : list string;
  tc_Duration : option Z; tc_RenewBefore : option Z; tc_Mode : TLSCertificateMode }.
#[export] Instance TLSCertificateConfig_eq_dec : EqDecision TLSCertificateConfig.
Proof. solve_decision. Defined.

Record TLSSpec := MkTLS {
  tls_SecretName : option string; tls_Certificate : option TLSCertificateConfig }.
#[export] Instance TLSSpec_eq_dec : EqDecision TLSSpec.
Proof. solve_decision. Defined.

Record ServiceSpec := MkServiceSpec {
  svs_ServicePort : IntOrString; svs_PublicPort : IntOrString;
  svs_IntraControlPort : IntOrString; svs_IntraDataPort : IntOrString }.
#[export] Instance ServiceSpec_eq_dec : EqDecision ServiceSpec.
Proof. solve_decision. Defined.

Record AutoScaleConf := MkAutoScaleConf {
  asc_SizeLimit : option Z; asc_MaxUnavailable : option Z }.
#[export] Instance AutoScaleConf_eq_dec : EqDecision AutoScaleConf.
Proof. solve_decision. Defined.

Record ProbeSpec := MkProbeSpec {
  prs_PeriodSeconds : option Z; prs_TimeoutSeconds : option Z;
  prs_FailureThreshold : option Z; prs_InitialDelaySeconds : option Z }.
#[export] Instance ProbeSpec_eq_dec : EqDecision ProbeSpec.
Proof. solve_decision. Defined.

Record ProbeConfSpec := MkProbeConf {
  pcs_Liveness : option ProbeSpec; pcs_Readiness : option ProbeSpec;
  pcs_Startup : option ProbeSpec }.
#[export] Instance ProbeConfSpec_eq_dec : EqDecision ProbeConfSpec.
Proof. solve_decision. Defined.

(** [ExternalAccessSpec] is its annotations. [ds_NodeSelector] tells a missing selector
    ([None]) from an empty one, as the validation does. *)
Record DaemonSpec := MkDaemonSpec {
  ds_ServiceSpec : ServiceSpec; ds_SecurityContext : option PodSecurityContext;
  ds_Size : option Z; ds_AutoScaleConf : option AutoScaleConf; ds_Annotations : labels;
  ds_Labels : labels; ds_Resources : ResourceRequirements;
  ds_Capabilities : option SecurityContext;
  ds_AISContainerSecurityContext : option SecurityContext; ds_Env : list EnvVar;
  ds_Affinity : option Affinity; ds_NodeSelector : option labels;
  ds_Tolerations : list Toleration; ds_HostPort : option Z;
  ds_PVCRetentionPolicy : option PVCRetentionPolicy; ds_Probes : option ProbeConfSpec;
  ds_ExternalAccess : option labels }.
#[export] Instance DaemonSpec_eq_dec : EqDecision DaemonSpec.
Proof. solve_decision. Defined.

Definition node_selector (ds : DaemonSpec) : labels := default ∅ (ds_NodeSelector ds).

Inductive ScaleDownMode :=
| ScaleDownModeUnset | ScaleDownModeDecommission | ScaleDownModeRetain
| ScaleDownModeSafeDecommission.
#[export] Instance ScaleDownMode_eq_dec : EqDecision ScaleDownMode.
Proof. solve_decision. Defined.

(** [mnt_Size] in thousandths, like any quantity. *)
Record Mount := MkMount {
  mnt_Path : string; mnt_Size : option Quantity; mnt_StorageClass : option string;
  mnt_UseHostPath : option bool; mnt_Selector : option labels; mnt_Label : option string }.
#[export] Instance Mount_eq_dec : EqDecision Mount.
Proof. solve_decision. Defined.

Record PDBSpec := MkPDBSpec { pdbs_Enabled : bool; pdbs_MaxUnavailable : option IntOrString }.
#[export] Instance PDBSpec_eq_dec : EqDecision PDBSpec.
Proof. solve_decision. Defined.

Record TargetSpec := MkTargetSpec {
  ts_DaemonSpec : DaemonSpec; ts_Mounts : list Mount;
  ts_DisablePodAntiAffinity : option bool; ts_HostNetwork : option bool;
  ts_PodDisruptionBudget : option PDBSpec; ts_ScaleDownMode : ScaleDownMode }.
#[export] Instance TargetSpec_eq_dec : EqDecision TargetSpec.
Proof. solve_decision. Defined.

Record LogSidecarSpec := MkLogSidecar {
  ls_Image : string; ls_Resources : option ResourceRequirements }.
#[export] Instance LogSidecarSpec_eq_dec : EqDecision LogSidecarSpec.
Proof. solve_decision. Defined.

Record AIStoreSpec := MkSpec {
  Size : option Z; NodeImage : string; InitImage : string;
  LogSidecar : option LogSidecarSpec; spec_StateStorage : option StateStorage;
  HostpathPrefix : option string; StateStorageClass : option string;
  spec_ConfigToUpdate : option ConfigToUpdate; IssuerCAConfigMap : option string;
  HostnameMap : option labels; APIMode : option string; NetAttachment : option string;
  ProxySpec : DaemonSpec; spec_TargetSpec : TargetSpec;
  ShutdownCluster : option bool; CleanupMetadata : option bool; CleanupData : option bool;
  spec_ClusterDomain : option string; GCPSecretName : option string;
  AWSSecretName : option string; OCISecretName : option string; LogsDirectory : string;
  TLS : option TLSSpec; TracingTokenSecretName : option string;
  AuthNSecretName : option string; Auth : option AuthSpec;
  OperatorSkipVerifyCrt : option bool; ImagePullSecrets : list string;
  EnableExternalLB : bool; PublicNetDNSMode : option PubNetDNSMode;
  AdminClient : option AdminClientSpec; PriorityClassName : option string }.
#[export] Instance AIStoreSpec_eq_dec : EqDecision AIStoreSpec.
Proof. solve_decision. Defined.

(** The target's embedded daemon spec. *)
Definition target_ds (s : AIStoreSpec) : DaemonSpec := ts_DaemonSpec (spec_TargetSpec s).

(** ** Status and object *)

Record AutoScaleStatus := MkAutoScaleStatus {
  ExpectedProxyNodes : list string; ExpectedTargetNodes : list string }.
#[export] Instance AutoScaleStatus_eq_dec : EqDecision AutoScaleStatus.
Proof. solve_decision. Defined.

Record AIStoreStatus := MkStatus {
  State : ClusterState; status_AutoScale : AutoScaleStatus; IntraClusterURL : string;
  ClusterID : string; Conditions : list Condition }.
#[export] Instance AIStoreStatus_eq_dec : EqDecision AIStoreStatus.
Proof. solve_decision. Defined.

Record AIStore := MkAIStore {
  ais_Name : nsname; ais_UID : string; ais_Generation : Z; ais_Annotations : labels;
  ais_Finalizers : list string; ais_Deleting : bool;
  Spec : AIStoreSpec; Status : AIStoreStatus }.
#[export] Instance AIStore_eq_dec : EqDecision AIStore.
Proof. solve_decision. Defined.

(** Field updates the handlers perform on the CR in memory. *)
Definition set_status (a : AIStore) (st : AIStoreStatus) : AIStore :=
  MkAIStore (ais_Name a) (ais_UID a) (ais_Generation a) (ais_Annotations a)
    (ais_Finalizers a) (ais_Deleting a) (Spec a) st.
Definition set_annotations (a : AIStore) (m : labels) : AIStore :=
  MkAIStore (ais_Name a) (ais_UID a) (ais_Generation a) m
    (ais_Finalizers a) (ais_Deleting a) (Spec a) (Status a).
Definition set_finalizers (a : AIStore) (l : list string) : AIStore :=
  MkAIStore (ais_Name a) (ais_UID a) (ais_Generation a) (ais_Annotations a)
    l (ais_Deleting a) (Spec a) (Status a).
Definition set_conditions (a : AIStore) (c : list Condition) : AIStore :=
  let s := Status a in
  set_status a (MkStatus (State s) (status_AutoScale s) (IntraClusterURL s) (ClusterID s) c).
Definition set_autoscale (a : AIStore) (x : AutoScaleStatus) : AIStore :=
  let s := Status a in
  set_status a (MkStatus (State s) x (IntraClusterURL s) (ClusterID s) (Conditions s)).
Definition set_url (a : AIStore) (u : string) : AIStore :=
  let s := Status a in
  set_status a (MkStatus (State s) (status_AutoScale s) u (ClusterID s) (Conditions s)).
Definition set_cluster_id (a : AIStore) (u : string) : AIStore :=
  let s := Status a in
  set_status a (MkStatus (State s) (status_AutoScale s) (IntraClusterURL s) u (Conditions s)).

(** ** AIS cluster map ([meta.Smap] and [meta.Snode] of the AIS API)

    A Go map is visited in an unspecified order: a node map is the list of its nodes in the
    order of one traversal, and statements quantify over that order. *)
Record Snode := MkSnode {
  sn_ID : string; sn_ControlHostname : string; sn_PubURL : string; sn_Flags : Z }.
#[export] Instance Snode_eq_dec : EqDecision Snode.
Proof. solve_decision. Defined.

Record Smap := MkSmap {
  sm_UUID : string; sm_Version : Z; Pmap : list Snode; Tmap : list Snode;
  Primary : option Snode }.
#[export] Instance Smap_eq_dec : EqDecision Smap.
Proof. solve_decision. Defined.

(** [apc.ActValRmNode]. *)
Record ActValRmNode := MkRmNode {
  rm_DaemonID : string; rm_SkipRebalance : bool; rm_RmUserData : bool }.
#[export] Instance ActValRmNode_eq_dec : EqDecision ActValRmNode.
Proof. solve_decision. Defined.

(** [cmn.ConfigToSet], the AIS API's update message: the proxy URLs and the sections of
    [ConfigToUpdate] it is converted from. *)
Record ProxyConfToSet := MkProxyConf {
  px_PrimaryURL : string; px_OriginalURL : string; px_DiscoveryURL : string }.
#[export] Instance ProxyConfToSet_eq_dec : EqDecision ProxyConfToSet.
Proof. solve_decision. Defined.

Record ConfigToSet := MkConfigToSet {
  cs_Proxy : option ProxyConfToSet; cs_Sections : ConfigToUpdate }.
#[export] Instance ConfigToSet_eq_dec : EqDecision ConfigToSet.
Proof. solve_decision. Defined.

(** The AIS node roles, [apc.Proxy] and [apc.Target]. *)
(** [aiscmn.LocalConfig] and [LocalNetConfig]; the paths are absent until one is named. *)
Record LocalNetConfig := MkLocalNetConfig {
  ln_Hostname : string; ln_HostnameIntraControl : string; ln_HostnameIntraData : string;
  ln_Port : Z; ln_PortIntraControl : Z; ln_PortIntraData : Z }.
Record LocalConfig := MkLocalConfig {
  lo_ConfigDir : string; lo_LogDir : string; lo_HostNet : LocalNetConfig;
  lo_Paths : option labels }.

Definition apc_Proxy : string := "proxy".
Definition apc_Target : string := "target".
