(* ===== verification/ThirdParty.v ===== *)
(** * Code outside the repository, as an interface

    The library functions the operator calls ([k8s.io/apimachinery], [k8s.io/api], the AIS
    Go module, JSON encoding, SHA-256, IP parsing) are the fields of the class [ThirdParty];
    every definition that uses one takes the class as a parameter. [ThirdPartyLaws] states
    the documented behaviour some theorems rely on. [Reference] is a concrete instance of
    both, at which the witnesses evaluate. *)

From S2P Require Import Prelude K8sTypes AISConfig AIStoreTypes.

Class ThirdParty := {
  (** [equality.Semantic.DeepEqual]; the representation already identifies nil and empty
      containers and quantities of equal value. *)
  DeepEqual : forall {A : Type} `{EqDecision A}, A -> A -> bool;
  (** [equality.Semantic.DeepDerivative] on string maps and on objects. *)
  DeepDerivative : labels -> labels -> bool;
  DeepDerivativeObject : owned -> owned -> bool;
  (** [labels.Set(sel).AsSelector().Matches(labels)]. *)
  SelectorMatches : labels -> labels -> bool;
  (** [corev1.Toleration.ToleratesTaint] and [MatchToleration]. *)
  ToleratesTaint : Toleration -> Taint -> bool;
  MatchToleration : Toleration -> Toleration -> bool;
  (** [metav1.IsControlledBy], on the owner references of an object and the UID of the owner,
      and the finalizer operations of [controllerutil]. *)
  metav1_IsControlledBy : list OwnerRef -> string -> bool;
  ContainsFinalizer : list string -> string -> bool;
  AddFinalizer : list string -> string -> list string;
  RemoveFinalizer : list string -> string -> list string;
  (** [meta.SetStatusCondition], [meta.IsStatusConditionTrue]. *)
  SetStatusCondition : list Condition -> Condition -> list Condition;
  IsStatusConditionTrue : list Condition -> string -> bool;
  (** [intstr.IntOrString] methods. *)
  IntValue : IntOrString -> Z;
  IntOrStringString : IntOrString -> string;
  (** [validation.IsValidPortNum]: the complaints about a port number. *)
  IsValidPortNum : Z -> list string;
  (** [field.ErrorList.ToAggregate] on (path, value, complaint) errors. *)
  ToAggregate : list (string * Z * string) -> option error;
  (** [meta.Smap.InMaint], [meta.Smap.InMaintOrDecomm]. *)
  InMaint : Smap -> Snode -> bool;
  InMaintOrDecomm : Smap -> string -> bool;
  (** [cos.MorphMarshal] from [ConfigToUpdate], [ConfigToSet.Merge]. *)
  MorphMarshal : ConfigToUpdate -> res ConfigToSet;
  Merge : ConfigToSet -> ConfigToSet -> ConfigToSet;
  (** [jsoniter.Marshal] of the values the operator serializes. *)
  MarshalConfig : ConfigToSet -> res string;
  MarshalHTTP : HTTPConfToUpdate -> res string;
  MarshalStringMap : labels -> res string;
  MarshalLocalConf : LocalConfig -> res string;
  (** The hexadecimal SHA-256 digest. *)
  sha256_hex : string -> string;
  (** [net.ParseIP(s) != nil]. *)
  ParseIP : string -> bool;
  (** The environment variable names of the AIS module's [env] package. *)
  aisenv_AisAuthSecretKey : string;
  aisenv_AisEndpoint : string;
  aisenv_AisAuthURL : string;
  aisenv_AisClientCA : string;
  (** [opinfo.ClusterDomain()], resolved once when the operator starts. *)
  opinfo_ClusterDomain : string;
}.

Class ThirdPartyLaws (T : ThirdParty) : Prop := {
  DeepEqual_spec : forall A (H : EqDecision A) (x y : A), DeepEqual x y = true <-> x = y;
  (** Empty strings of the first map are unset fields, which are not compared. *)
  DeepDerivative_spec : forall m1 m2,
    DeepDerivative m1 m2 = true <->
    (forall k v, m1 !! k = Some v -> exists w, m2 !! k = Some w /\ (v = "" \/ v = w));
  SelectorMatches_spec : forall sel ls, SelectorMatches sel ls = true <-> sel ⊆ ls;
  MatchToleration_refl : forall t, MatchToleration t t = true;
  ContainsFinalizer_Remove : forall l f, ContainsFinalizer (RemoveFinalizer l f) f = false;
  SetStatusCondition_spec : forall cs c t,
    IsStatusConditionTrue (SetStatusCondition cs c) t =
    if decide (cond_Type c = t) then bool_decide (cond_Status c = CondTrue)
    else IsStatusConditionTrue cs t;
  SetStatusCondition_not_empty : forall cs c, SetStatusCondition cs c ≠ [];
  IntValue_int : forall z, IntValue (IntVal z) = z;
  IsValidPortNum_spec : forall z, IsValidPortNum z = [] <-> 1 <= z <= 65535;
  ToAggregate_spec : forall l, ToAggregate l = None <-> l = [];
  InMaint_InMaintOrDecomm : forall m n,
    n ∈ Tmap m -> InMaint m n = true -> InMaintOrDecomm m (sn_ID n) = true;
  MorphMarshal_sections : forall c s, MorphMarshal c = Ok s -> cs_Sections s = c;
  (** Set sections of the second argument override the first. *)
  Merge_rebalance : forall a b r,
    cu_Rebalance (cs_Sections b) = Some r -> cu_Rebalance (cs_Sections (Merge a b)) = Some r;
  Merge_proxy : forall a b, cs_Proxy b = None -> cs_Proxy (Merge a b) = cs_Proxy a;
}.

(** ** A reference instance *)

Module Reference.

Definition derives (m2 : labels) (k v : string) : bool :=
  match m2 !! k with Some w => bool_decide (v = "" \/ v = w) | None => false end.

Definition deep_derivative (m1 m2 : labels) : bool :=
  bool_decide (map_Forall (fun k v => derives m2 k v = true) m1).

Definition same_type (c d : Condition) : bool := bool_decide (cond_Type c = cond_Type d).

Fixpoint set_condition (cs : list Condition) (c : Condition) : list Condition :=
  match cs with
  | [] => [c]
  | d :: cs' => if same_type c d then c :: cs' else d :: set_condition cs' c
  end.

Fixpoint condition_true (cs : list Condition) (t : string) : bool :=
  match cs with
  | [] => false
  | d :: cs' => if decide (cond_Type d = t) then bool_decide (cond_Status d = CondTrue)
                else condition_true cs' t
  end.

Definition controlled_by (owners : list OwnerRef) (uid : string) : bool :=
  match List.find or_Controller owners with
  | Some o => bool_decide (or_UID o = uid)
  | None => false
  end.

Definition tolerates (t : Toleration) (n : Taint) : bool :=
  (bool_decide (tol_Effect t = "") || bool_decide (tol_Effect t = taint_Effect n)) &&
  (bool_decide (tol_Key t = "") || bool_decide (tol_Key t = taint_Key n)) &&
  (bool_decide (tol_Operator t = "Exists") ||
   bool_decide (tol_Operator t ∈ [""; "Equal"] /\ tol_Value t = taint_Value n)).

(** Flag bits of a node: 1 maintenance, 2 decommissioning. *)
Definition in_maint (m : Smap) (n : Snode) : bool := Z.testbit (sn_Flags n) 0.
Definition in_maint_or_decomm (m : Smap) (id : string) : bool :=
  existsb (fun n => bool_decide (sn_ID n = id) &&
                    (Z.testbit (sn_Flags n) 0 || Z.testbit (sn_Flags n) 1)) (Tmap m ++ Pmap m).

Definition or_first {A} (x y : option A) : option A :=
  match x with Some a => Some a | None => y end.

Definition merge_forwarded (s t : ForwardedConf) : ForwardedConf :=
  MkForwardedConf
    (or_first (fw_Mirror t) (fw_Mirror s))
    (or_first (fw_EC t) (fw_EC s))
    (or_first (fw_GetBatch t) (fw_GetBatch s))
    (or_first (fw_Periodic t) (fw_Periodic s))
    (or_first (fw_Tracing t) (fw_Tracing s))
    (or_first (fw_Timeout t) (fw_Timeout s))
    (or_first (fw_Client t) (fw_Client s))
    (or_first (fw_Space t) (fw_Space s))
    (or_first (fw_LRU t) (fw_LRU s))
    (or_first (fw_Disk t) (fw_Disk s))
    (or_first (fw_Resilver t) (fw_Resilver s))
    (or_first (fw_Cksum t) (fw_Cksum s))
    (or_first (fw_Versioning t) (fw_Versioning s))
    (or_first (fw_FSHC t) (fw_FSHC s))
    (or_first (fw_Chunks t) (fw_Chunks s))
    (or_first (fw_Keepalive t) (fw_Keepalive s))
    (or_first (fw_Downloader t) (fw_Downloader s))
    (or_first (fw_DSort t) (fw_DSort s))
    (or_first (fw_Transport t) (fw_Transport s))
    (or_first (fw_Memsys t) (fw_Memsys s))
    (or_first (fw_TCB t) (fw_TCB s))
    (or_first (fw_TCO t) (fw_TCO s))
    (or_first (fw_Arch t) (fw_Arch s))
    (or_first (fw_WritePolicy t) (fw_WritePolicy s))
    (or_first (fw_Proxy t) (fw_Proxy s))
    (or_first (fw_RateLimit t) (fw_RateLimit s))
    (or_first (fw_Features t) (fw_Features s)).

Definition merge (a b : ConfigToSet) : ConfigToSet :=
  let s := cs_Sections a in let t := cs_Sections b in
  MkConfigToSet (or_first (cs_Proxy b) (cs_Proxy a))
    (MkConfigToUpdate (or_first (cu_Backend t) (cu_Backend s)) (or_first (cu_Log t) (cu_Log s))
       (or_first (cu_Rebalance t) (cu_Rebalance s)) (or_first (cu_Net t) (cu_Net s))
       (or_first (cu_Auth t) (cu_Auth s)) (merge_forwarded (cu_Forwarded s) (cu_Forwarded t))).

(** A text that names the parts of a configuration the examples change. *)
Definition marshal (c : ConfigToSet) : res string :=
  Ok (match cu_Rebalance (cs_Sections c) with
      | Some r => match reb_Enabled r with
                  | Some true => "rebalance" | Some false => "no-rebalance" | None => "" end
      | None => ""
      end).

#[export] Instance third_party : ThirdParty := {|
  DeepEqual A _ x y := bool_decide (x = y);
  DeepDerivative := deep_derivative;
  DeepDerivativeObject x y := bool_decide (x = y);
  SelectorMatches sel ls := bool_decide (sel ⊆ ls);
  ToleratesTaint := tolerates;
  MatchToleration t u := bool_decide (t = u);
  metav1_IsControlledBy := controlled_by;
  ContainsFinalizer l f := bool_decide (f ∈ l);
  AddFinalizer l f := if bool_decide (f ∈ l) then l else l ++ [f];
  RemoveFinalizer l f := filter (fun x => x ≠ f) l;
  SetStatusCondition := set_condition;
  IsStatusConditionTrue := condition_true;
  IntValue x := match x with IntVal z => z | StrVal _ => 0 end;
  IntOrStringString x := match x with IntVal z => pretty z | StrVal s => s end;
  IsValidPortNum z := if (1 <=? z) && (z <=? 65535) then []
                      else ["must be between 1 and 65535, inclusive"];
  ToAggregate l := match l with [] => None | _ => Some (errorf (join ", " (l.*2))) end;
  InMaint := in_maint;
  InMaintOrDecomm := in_maint_or_decomm;
  MorphMarshal c := Ok (MkConfigToSet None c);
  Merge := merge;
  MarshalConfig := marshal;
  MarshalHTTP c := Ok (if decide (http_UseHTTPS c = Some true) then "https" else "http");
  MarshalStringMap m := Ok (join "," (map_to_list m).*1);
  MarshalLocalConf c := Ok (lo_ConfigDir c +:+ "," +:+ lo_LogDir c +:+ "," +:+ pretty (ln_Port (lo_HostNet c)));
  sha256_hex s := s +:+ "#";
  ParseIP s := bool_decide (String.index 0 ":" s ≠ None);
  aisenv_AisAuthSecretKey := "AUTH_SECRET_KEY";
  aisenv_AisEndpoint := "ENDPOINT";
  aisenv_AisAuthURL := "AUTH_URL";
  aisenv_AisClientCA := "CLIENT_CA";
  opinfo_ClusterDomain := "cluster.local";
|}.

#[export] Instance third_party_laws : ThirdPartyLaws third_party.
Proof.
  split; cbn.
  - intros A H x y. apply bool_decide_eq_true.
  - intros m1 m2. unfold deep_derivative. rewrite bool_decide_eq_true. unfold map_Forall, derives.
    split; intros H k v Hk; specialize (H k v Hk).
    + destruct (m2 !! k) as [w|]; reflect_bools; [eauto | done].
    + destruct H as (w & -> & H). by apply bool_decide_eq_true.
  - intros. apply bool_decide_eq_true.
  - intros. by apply bool_decide_eq_true.
  - intros l f. apply bool_decide_eq_false. rewrite list_elem_of_filter. naive_solver.
  - intros cs c t. induction cs as [|d cs IH]; cbn; [done|].
    unfold same_type.
    destruct (bool_decide (cond_Type c = cond_Type d)) eqn:E; reflect_bools; cbn.
    + repeat case_decide; congruence.
    + rewrite IH. repeat case_decide; congruence.
  - intros [|d cs] c; cbn; [done|]. by destruct (same_type c d).
  - done.
  - intros z. destruct ((1 <=? z) && (z <=? 65535)) eqn:E.
    + reflect_bools. split; [lia | done].
    + apply andb_false_iff in E. rewrite !Z.leb_gt in E. split; [done | lia].
  - by intros [].
  - intros m n Hn Hm. unfold in_maint_or_decomm. apply existsb_exists.
    exists n. split; [apply list_elem_of_In, elem_of_app; by left|].
    apply andb_true_iff. split; [by apply bool_decide_eq_true|].
    apply orb_true_iff. by left.
  - by intros c s [= <-].
  - intros a b r H. cbn. by rewrite H.
  - intros a b H. cbn. by rewrite H.
Qed.

End Reference.
