(* ===== verification/AuthConf.v ===== *)
(** * Auth provider configuration

    [api/aisauth/v1alpha1/aistoreauthprofile_types.go] and the two implementations of the
    [AuthConfig] interface, [internal/services/auth_spec.go] and [auth_profile.go].
    [ResolveAuthConfig] chooses between them. *)

From S2P Require Import Prelude K8sTypes AISConfig AIStoreTypes.

(** ** AIStoreAuthProfile *)

Record AuthProfileSecret := MkAuthProfileSecret {
  aps_Name : string; aps_Namespace : string; aps_UserKey : string; aps_PassKey : string }.
Record AuthProfileLoginConf := MkAuthProfileLogin {
  apl_ClientID : string; apl_Endpoint : string; apl_Scope : option string }.
Record AuthProfileUsernamePassword := MkAuthProfileUserPass {
  apu_Secret : AuthProfileSecret; apu_LoginConf : option AuthProfileLoginConf }.
Record AuthProfileTokenExchange := MkAuthProfileExchange {
  ape_Endpoint : string; ape_SubjectTokenAudience : string }.
Record AuthProfileCAConfigMapRef := MkAuthProfileCA {
  apc_Namespace : string; apc_Name : string; apc_Key : string }.
Record AuthProfileTLSConfig := MkAuthProfileTLS {
  apt_CAConfigMapRef : option AuthProfileCAConfigMapRef; apt_InsecureSkipVerify : bool }.

Record AIStoreAuthProfile := MkAuthProfile {
  ap_Name : string; ap_Deleting : bool; ap_ServiceURL : string; ap_TLS : option AuthProfileTLSConfig;
  ap_UsernamePassword : option AuthProfileUsernamePassword;
  ap_TokenExchange : option AuthProfileTokenExchange }.

Definition DefaultAuthProfileUserKey : string := "SU-NAME".
Definition DefaultAuthProfilePassKey : string := "SU-PASS".

Definition TokenExchangeEndpoint (p : AIStoreAuthProfile) : string :=
  match ap_TokenExchange p with Some t => ape_Endpoint t | None => "" end.

Definition LoginEndpoint (p : AIStoreAuthProfile) : string :=
  match ap_UsernamePassword p with
  | Some u => match apu_LoginConf u with Some l => apl_Endpoint l | None => "" end
  | None => ""
  end.

Definition UserKeyOrDefault (s : AuthProfileSecret) : string :=
  if bool_decide (aps_UserKey s ≠ "") then aps_UserKey s else DefaultAuthProfileUserKey.

Definition PassKeyOrDefault (s : AuthProfileSecret) : string :=
  if bool_decide (aps_PassKey s ≠ "") then aps_PassKey s else DefaultAuthProfilePassKey.

(** ** The [AuthConfig] interface *)

Record OAuthLoginConf := MkOAuthLogin {
  oa_ClientID : string; oa_Endpoint : string; oa_Scope : option string }.

(** [AuthSpecConfig] carries the inline spec and the cluster namespace. *)
Inductive AuthConfig :=
| AuthProfileConfig (profile : AIStoreAuthProfile)
| AuthSpecConfig (spec : AuthSpec) (namespace : string).

Definition DefaultAuthNServiceURL : string := "https://ais-authn.ais:52001".
Definition DefaultTokenExchangeEndpoint : string := "/token".
Definition AuthNSecretRefName : string := "SU-NAME".
Definition AuthNSecretRefPass : string := "SU-PASS".

(** The methods of [AuthProfileConfig]. *)
Module ProfileConfig.

Definition loginSecret (p : AIStoreAuthProfile) : option AuthProfileSecret :=
  apu_Secret <$> ap_UsernamePassword p.

Definition GetServiceURL (p : AIStoreAuthProfile) : string := ap_ServiceURL p.
Definition IsTokenExchange (p : AIStoreAuthProfile) : bool := bool_decide (is_Some (ap_TokenExchange p)).
Definition GetTokenPath (p : AIStoreAuthProfile) : string := "".

Definition GetSubjectTokenAudience (p : AIStoreAuthProfile) : string :=
  match ap_TokenExchange p with Some t => ape_SubjectTokenAudience t | None => "" end.

Definition GetTokenExchangeEndpoint (p : AIStoreAuthProfile) : string :=
  let endpoint := TokenExchangeEndpoint p in
  if bool_decide (endpoint ≠ "") then endpoint else DefaultTokenExchangeEndpoint.

Definition GetOAuthLoginConf (p : AIStoreAuthProfile) : option OAuthLoginConf :=
  u ← ap_UsernamePassword p; l ← apu_LoginConf u;
  Some (MkOAuthLogin (apl_ClientID l) (apl_Endpoint l) (apl_Scope l)).

Definition GetSecretName (p : AIStoreAuthProfile) : string :=
  match loginSecret p with Some s => aps_Name s | None => "" end.

Definition GetSecretNamespace (p : AIStoreAuthProfile) : string :=
  match loginSecret p with Some s => aps_Namespace s | None => "" end.

Definition GetUserKey (p : AIStoreAuthProfile) : string :=
  match loginSecret p with Some s => UserKeyOrDefault s | None => "" end.

Definition GetPassKey (p : AIStoreAuthProfile) : string :=
  match loginSecret p with Some s => PassKeyOrDefault s | None => "" end.

End ProfileConfig.

(** The methods of [AuthSpecConfig]. *)
Module SpecConfig.

Definition GetServiceURL (s : AuthSpec) : string := default DefaultAuthNServiceURL (as_ServiceURL s).
Definition IsTokenExchange (s : AuthSpec) : bool := bool_decide (is_Some (as_TokenExchange s)).

Definition GetTokenPath (s : AuthSpec) : string :=
  match as_TokenExchange s with Some t => default "" (te_TokenPath t) | None => "" end.

Definition GetSubjectTokenAudience (s : AuthSpec) : string := "".

Definition GetTokenExchangeEndpoint (s : AuthSpec) : string :=
  match as_TokenExchange s with
  | Some t => default DefaultTokenExchangeEndpoint (te_TokenExchangeEndpoint t)
  | None => DefaultTokenExchangeEndpoint
  end.

Definition GetOAuthLoginConf (s : AuthSpec) : option OAuthLoginConf :=
  u ← as_UsernamePassword s; l ← up_LoginConf u;
  Some (MkOAuthLogin (lc_ClientID l) "" (lc_Scope l)).

Definition GetSecretName (s : AuthSpec) : string :=
  match as_UsernamePassword s with Some u => up_SecretName u | None => "" end.

Definition GetSecretNamespace (s : AuthSpec) (ns : string) : string :=
  match as_UsernamePassword s with Some u => default ns (up_SecretNamespace u) | None => ns end.

Definition GetUserKey (s : AuthSpec) : string := AuthNSecretRefName.
Definition GetPassKey (s : AuthSpec) : string := AuthNSecretRefPass.

Definition GetCACertPath (s : AuthSpec) : string :=
  match as_TLS s with Some t => atls_CACertPath t | None => "" end.
Definition GetInsecureSkipVerify (s : AuthSpec) : bool :=
  match as_TLS s with Some t => atls_InsecureSkipVerify t | None => false end.

End SpecConfig.

(** The interface: a call goes to the implementation. *)

Definition GetServiceURL (c : AuthConfig) : string :=
  match c with
  | AuthProfileConfig p => ProfileConfig.GetServiceURL p
  | AuthSpecConfig s _ => SpecConfig.GetServiceURL s
  end.

Definition IsTokenExchange (c : AuthConfig) : bool :=
  match c with
  | AuthProfileConfig p => ProfileConfig.IsTokenExchange p
  | AuthSpecConfig s _ => SpecConfig.IsTokenExchange s
  end.

Definition GetTokenPath (c : AuthConfig) : string :=
  match c with
  | AuthProfileConfig p => ProfileConfig.GetTokenPath p
  | AuthSpecConfig s _ => SpecConfig.GetTokenPath s
  end.

Definition GetSubjectTokenAudience (c : AuthConfig) : string :=
  match c with
  | AuthProfileConfig p => ProfileConfig.GetSubjectTokenAudience p
  | AuthSpecConfig s _ => SpecConfig.GetSubjectTokenAudience s
  end.

Definition GetTokenExchangeEndpoint (c : AuthConfig) : string :=
  match c with
  | AuthProfileConfig p => ProfileConfig.GetTokenExchangeEndpoint p
  | AuthSpecConfig s _ => SpecConfig.GetTokenExchangeEndpoint s
  end.

Definition GetOAuthLoginConf (c : AuthConfig) : option OAuthLoginConf :=
  match c with
  | AuthProfileConfig p => ProfileConfig.GetOAuthLoginConf p
  | AuthSpecConfig s _ => SpecConfig.GetOAuthLoginConf s
  end.

Definition GetSecretName (c : AuthConfig) : string :=
  match c with
  | AuthProfileConfig p => ProfileConfig.GetSecretName p
  | AuthSpecConfig s _ => SpecConfig.GetSecretName s
  end.

Definition GetSecretNamespace (c : AuthConfig) : string :=
  match c with
  | AuthProfileConfig p => ProfileConfig.GetSecretNamespace p
  | AuthSpecConfig s ns => SpecConfig.GetSecretNamespace s ns
  end.

Definition GetUserKey (c : AuthConfig) : string :=
  match c with
  | AuthProfileConfig p => ProfileConfig.GetUserKey p
  | AuthSpecConfig s _ => SpecConfig.GetUserKey s
  end.

Definition GetPassKey (c : AuthConfig) : string :=
  match c with
  | AuthProfileConfig p => ProfileConfig.GetPassKey p
  | AuthSpecConfig s _ => SpecConfig.GetPassKey s
  end.
