(* ===== verification/AIStoreMethods.v ===== *)
(** * Methods of the AIStore resource

    [api/aistore/v1beta1/aistore_types.go] (methods) and the rebalance, backend and auth
    helpers of [aisconfig.go]. A size is [None] where the Go method would dereference a nil
    pointer. *)

From S2P Require Import Prelude K8sTypes AISConfig AIStoreTypes ThirdParty.

Definition is_true_ptr (b : option bool) : bool := default false b.

(** ** Conditions and state *)

Section Conditions.
Context `{T : ThirdParty}.

Definition AddOrUpdateCondition (ais : AIStore) (c : Condition) : AIStore :=
  set_conditions ais (SetStatusCondition (Conditions (Status ais))
    (MkCondition (cond_Type c) (cond_Status c) (cond_Reason c) (cond_Message c)
       (ais_Generation ais))).

Definition IsConditionTrue (ais : AIStore) (t : ClusterConditionType) : bool :=
  IsStatusConditionTrue (Conditions (Status ais)) (condition_name t).

Definition SetCondition (t : ClusterConditionType) (ais : AIStore) : AIStore :=
  let msg := match t with
    | ConditionInitialized => "Success initializing cluster"
    | ConditionCreated => "Success creating AIS cluster"
    | ConditionReady => "Cluster is ready"
    | ConditionReadyRebalance => "Cluster is ready to rebalance"
    end in
  AddOrUpdateCondition ais (MkCondition (condition_name t) CondTrue (condition_name t) msg 0).

Definition SetConditionFalse (t : ClusterConditionType) (reason : ClusterConditionReason)
    (msg : string) (ais : AIStore) : AIStore :=
  AddOrUpdateCondition ais (MkCondition (condition_name t) CondFalse (reason_name reason) msg 0).
End Conditions.

Definition SetState (state : ClusterState) (ais : AIStore) : AIStore :=
  let s := Status ais in
  set_status ais (MkStatus state (status_AutoScale s) (IntraClusterURL s) (ClusterID s) (Conditions s)).

Definition HasState (ais : AIStore) (state : ClusterState) : bool :=
  bool_decide (State (Status ais) = state).

Definition ProxyStatefulSetName (ais : AIStore) : string :=
  nn_name (ais_Name ais) +:+ "-" +:+ apc_Proxy.

Definition DefaultPrimaryName (ais : AIStore) : string := ProxyStatefulSetName ais +:+ "-0".

(** ** Cluster size *)

Definition IsTargetAutoScaling (ais : AIStore) : bool :=
  bool_decide (Size (Spec ais) = Some (-1)) ||
  bool_decide (ds_Size (target_ds (Spec ais)) = Some (-1)).

Definition IsProxyAutoScaling (ais : AIStore) : bool :=
  bool_decide (Size (Spec ais) = Some (-1)) ||
  bool_decide (ds_Size (ProxySpec (Spec ais)) = Some (-1)).

(** The node count of an autoscaled daemon, capped by the configured limit. *)
Definition autoscaled_size (nodes : list string) (conf : option AutoScaleConf) : Z :=
  let n := i32 (Z.of_nat (length nodes)) in
  match conf with
  | Some c => match asc_SizeLimit c with Some lim => Z.min n lim | None => n end
  | None => n
  end.

Definition GetProxySize (ais : AIStore) : option Z :=
  if IsProxyAutoScaling ais then
    Some (autoscaled_size (ExpectedProxyNodes (status_AutoScale (Status ais)))
            (ds_AutoScaleConf (ProxySpec (Spec ais))))
  else match ds_Size (ProxySpec (Spec ais)) with
       | Some n => Some n
       | None => Size (Spec ais)
       end.

Definition GetTargetSize (ais : AIStore) : option Z :=
  if IsTargetAutoScaling ais then
    Some (autoscaled_size (ExpectedTargetNodes (status_AutoScale (Status ais)))
            (ds_AutoScaleConf (target_ds (Spec ais))))
  else match ds_Size (target_ds (Spec ais)) with
       | Some n => Some n
       | None => Size (Spec ais)
       end.

Definition autoScaleMaxUnavailable (s : DaemonSpec) : Z :=
  match ds_AutoScaleConf s with Some c => default 0 (asc_MaxUnavailable c) | None => 0 end.

Definition GetProxyMaxUnavailable (ais : AIStore) : Z :=
  autoScaleMaxUnavailable (ProxySpec (Spec ais)).
Definition GetTargetMaxUnavailable (ais : AIStore) : Z :=
  autoScaleMaxUnavailable (target_ds (Spec ais)).

Definition GetMinReadyProxies (ais : AIStore) : option Z :=
  size ← GetProxySize ais;
  Some (if IsProxyAutoScaling ais then Z.max 1 (i32 (size - GetProxyMaxUnavailable ais)) else size).

Definition GetMinReadyTargets (ais : AIStore) : option Z :=
  size ← GetTargetSize ais;
  Some (if IsTargetAutoScaling ais then Z.max 1 (i32 (size - GetTargetMaxUnavailable ais)) else size).

(** ** Spec accessors *)

Definition GetPublicNetDNSMode (ais : AIStore) : PubNetDNSMode :=
  default PubNetDNSModeIP (PublicNetDNSMode (Spec ais)).

Definition UseNodeNameForPublicNet (ais : AIStore) : bool :=
  bool_decide (GetPublicNetDNSMode ais = PubNetDNSModeNode).

Definition ProxyExternalAccessEnabled (ais : AIStore) : bool :=
  match ds_ExternalAccess (ProxySpec (Spec ais)) with
  | Some _ => true | None => EnableExternalLB (Spec ais) end.

Definition TargetExternalAccessEnabled (ais : AIStore) : bool :=
  match ds_ExternalAccess (target_ds (Spec ais)) with
  | Some _ => true | None => EnableExternalLB (Spec ais) end.

Definition ShouldBeShutdown (ais : AIStore) : bool := is_true_ptr (ShutdownCluster (Spec ais)).

Definition ShouldStartShutdown (ais : AIStore) : bool :=
  ShouldBeShutdown ais && HasState ais ClusterReady.

Definition UseHostNetwork (ais : AIStore) : bool :=
  is_true_ptr (ts_HostNetwork (spec_TargetSpec (Spec ais))).

Definition http_conf (ais : AIStore) : option HTTPConfToUpdate :=
  c ← spec_ConfigToUpdate (Spec ais); n ← cu_Net c; net_HTTP n.

(** [tls.NoClientCert] is 0. *)
Definition ShouldIncludeClientCert (ais : AIStore) : bool :=
  match h ← http_conf ais; http_ClientAuthTLS h with Some z => 0 <? z | None => false end.

Definition GetLogSidecarImage (ais : AIStore) : string :=
  match LogSidecar (Spec ais) with Some l => ls_Image l | None => "" end.

Definition GetLogSidecarResources (ais : AIStore) : option ResourceRequirements :=
  match LogSidecar (Spec ais) with Some l => ls_Resources l | None => None end.

Definition StateStoragePVCStorageClass (s : AIStoreSpec) : option string :=
  match spec_StateStorage s with
  | Some st => st_PVC st
  | None => StateStorageClass s
  end.

Definition StateStorageHostPathPrefix (s : AIStoreSpec) : option string :=
  match spec_StateStorage s with
  | Some st => st_HostPath st
  | None => match StateStorageClass s with None => HostpathPrefix s | Some _ => None end
  end.

Definition UsesStatePVC (s : AIStoreSpec) : bool :=
  bool_decide (is_Some (StateStoragePVCStorageClass s)).
Definition UsesStateHostPath (s : AIStoreSpec) : bool :=
  bool_decide (is_Some (StateStorageHostPathPrefix s)).
Definition UsesStateEmptyDir (s : AIStoreSpec) : bool :=
  match spec_StateStorage s with Some st => st_EmptyDir st | None => false end.

(** ** Target mounts *)

Definition IsHostPath (m : Mount) : bool := is_true_ptr (mnt_UseHostPath m).

Fixpoint replace_slash (s : string) : string :=
  match s with
  | EmptyString => EmptyString
  | String c s' => String (if Ascii.eqb c "/"%char then "-"%char else c) (replace_slash s')
  end.

Definition GetPVCName (m : Mount) (aisName : string) : string :=
  aisName +:+ replace_slash (mnt_Path m).

(** [big.Int.Int64] keeps the low 64 bits. *)
Definition i64 (z : Z) : Z :=
  (z + 9223372036854775808) `mod` 18446744073709551616 - 9223372036854775808.

(** Whole bytes, rounded towards zero. *)
Definition GetPVCResources (m : Mount) : option Quantity :=
  size ← mnt_Size m;
  let bytes := i64 (Z.quot size 1000) in
  if 0 <? bytes then Some (bytes * 1000) else None.

Definition BuildPVC (m : Mount) (aisName : string) : PVCSpec :=
  MkPVCSpec (GetPVCName m aisName) (mnt_StorageClass m) (mnt_Selector m) (GetPVCResources m).

Definition GetTargetDNSPolicy (ais : AIStore) : string :=
  if UseHostNetwork ais then "ClusterFirstWithHostNet" else "ClusterFirst".

(** ** Deletion *)

Definition IsMarkedForDeletion (ais : AIStore) : bool := ais_Deleting ais.

Definition IsDecommissioningOrCleaning (ais : AIStore) : bool :=
  HasState ais ClusterDecommissioning || HasState ais ClusterCleanup ||
  HasState ais HostCleanup || HasState ais ClusterFinalized.

Definition ShouldDecommission (ais : AIStore) : bool :=
  negb (IsDecommissioningOrCleaning ais) && IsMarkedForDeletion ais.

Definition ShouldCleanupMetadata (ais : AIStore) : bool :=
  is_true_ptr (CleanupMetadata (Spec ais)).

Section Tolerations.
Context `{T : ThirdParty}.

(** One iteration per toleration of [b]: appended unless one of [out] matches it. *)
Fixpoint merge_into (out b : list Toleration) : list Toleration :=
  match b with
  | [] => out
  | tb :: b' =>
      if existsb (fun o => MatchToleration o tb) out then merge_into out b'
      else merge_into (out ++ [tb]) b'
  end.

Definition mergeTolerationsUnique (a b : list Toleration) : list Toleration := merge_into a b.

Definition GetAllTolerations (ais : AIStore) : list Toleration :=
  mergeTolerationsUnique (ds_Tolerations (ProxySpec (Spec ais)))
    (ds_Tolerations (target_ds (Spec ais))).
End Tolerations.

Definition AllowTargetSharedNodes (ais : AIStore) : bool :=
  is_true_ptr (ts_DisablePodAntiAffinity (spec_TargetSpec (Spec ais))).

Definition TargetPDBEnabled (ais : AIStore) : bool :=
  match ts_PodDisruptionBudget (spec_TargetSpec (Spec ais)) with
  | Some p => pdbs_Enabled p | None => false end.

Definition GetTargetPDBMaxUnavailable (ais : AIStore) : IntOrString :=
  match ts_PodDisruptionBudget (spec_TargetSpec (Spec ais)) with
  | Some p => default (IntVal 0) (pdbs_MaxUnavailable p) | None => IntVal 0 end.

Definition AdminClientEnabled (ais : AIStore) : bool :=
  match AdminClient (Spec ais) with
  | None => false
  | Some c => match adm_Enabled c with None => true | Some b => b end
  end.

Definition AdminClientName (ais : AIStore) : string := nn_name (ais_Name ais) +:+ "-client".

(** ** Cloud backends *)

Definition apc_AWS : string := "aws".
Definition apc_GCP : string := "gcp".
Definition apc_OCI : string := "oci".
Definition apc_Azure : string := "azure".

Definition GetBackendConfig (s : AIStoreSpec) : option (gset string) :=
  c ← spec_ConfigToUpdate s; cu_Backend c.

Definition isProviderInConf (s : AIStoreSpec) (provider : string) : bool :=
  match GetBackendConfig s with Some b => bool_decide (provider ∈ b) | None => false end.

Definition HasAzureConfig (s : AIStoreSpec) : bool :=
  existsb (fun e => existsb (fun key => bool_decide (env_Name e = key))
      ["AZURE_STORAGE_ACCOUNT"; "AZURE_STORAGE_KEY"; "AIS_AZURE_URL"])
    (ds_Env (target_ds s)).

Definition hasAWSBackend (s : AIStoreSpec) : bool :=
  bool_decide (is_Some (AWSSecretName s)) || isProviderInConf s apc_AWS.
Definition HasGCPBackend (s : AIStoreSpec) : bool :=
  bool_decide (is_Some (GCPSecretName s)) || isProviderInConf s apc_GCP.
Definition HasOCIBackend (s : AIStoreSpec) : bool :=
  bool_decide (is_Some (OCISecretName s)) || isProviderInConf s apc_OCI.
Definition hasAzureBackend (s : AIStoreSpec) : bool :=
  HasAzureConfig s || isProviderInConf s apc_Azure.
Definition HasCloudBackend (s : AIStoreSpec) : bool :=
  hasAWSBackend s || HasGCPBackend s || HasOCIBackend s || hasAzureBackend s.

(** ** TLS *)

Definition UseHTTPS (ais : AIStore) : bool :=
  match http_conf ais with Some h => is_true_ptr (http_UseHTTPS h) | None => false end.

Definition HasTLSEnabled (ais : AIStore) : bool := bool_decide (is_Some (TLS (Spec ais))).

Definition GetTLSCertificate (ais : AIStore) : option TLSCertificateConfig :=
  match TLS (Spec ais) with Some t => tls_Certificate t | None => None end.

Definition UseTLSSecret (ais : AIStore) : bool :=
  match TLS (Spec ais) with
  | Some t => match tls_SecretName t with Some n => bool_decide (n ≠ "") | None => false end
  | None => false
  end.

Definition UseTLSCertificate (ais : AIStore) : bool :=
  match GetTLSCertificate ais with
  | None => false
  | Some c => bool_decide (tc_Mode c ≠ TLSCertificateModeCSI)
  end.

Definition UseTLSCSI (ais : AIStore) : bool :=
  match GetTLSCertificate ais with
  | None => false
  | Some c => bool_decide (tc_Mode c = TLSCertificateModeCSI)
  end.

Definition GetTLSSecretName (ais : AIStore) : string :=
  if UseTLSSecret ais then
    match TLS (Spec ais) with Some t => default "" (tls_SecretName t) | None => "" end
  else if UseTLSCertificate ais then nn_name (ais_Name ais) +:+ "-tls"
  else "".

Definition GetAPIMode (ais : AIStore) : string := default "" (APIMode (Spec ais)).

Definition MaxLogTotal (ais : AIStore) : option Z :=
  c ← spec_ConfigToUpdate (Spec ais); l ← cu_Log c; log_MaxTotal l.

Definition GetRequiredAudiences (ais : AIStore) : list string :=
  default [] (c ← spec_ConfigToUpdate (Spec ais); a ← cu_Auth c; r ← ac_RequiredClaims a; rc_Aud r).

Definition RetainOnScaleDown (t : TargetSpec) : bool :=
  bool_decide (ts_ScaleDownMode t = ScaleDownModeRetain).

Definition SafeDecommissionOnScaleDown (t : TargetSpec) : bool :=
  bool_decide (ts_ScaleDownMode t = ScaleDownModeSafeDecommission).
