(* ===== verification/AIStoreFacts.v ===== *)
(** * Facts about the AIStore methods

    Conditions and state updates, sizes and their bounds. *)

From S2P Require Import Prelude K8sTypes AISConfig AIStoreTypes ThirdParty AIStoreMethods.

#[export] Instance condition_name_inj : Inj (=) (=) condition_name.
Proof. by intros [] []. Qed.

Section ConditionFacts.
Context `{T : ThirdParty, L : !ThirdPartyLaws T}.

Lemma IsConditionTrue_set ais c d :
  IsConditionTrue (SetCondition c ais) d =
  if decide (c = d) then true else IsConditionTrue ais d.
Proof.
  unfold IsConditionTrue, SetCondition, AddOrUpdateCondition. cbn.
  rewrite SetStatusCondition_spec. cbn.
  destruct (decide (c = d)) as [->|Hne]; [by rewrite decide_True|].
  rewrite decide_False; [done|]. intros ?. by apply Hne, (inj condition_name).
Qed.

Lemma IsConditionTrue_set_false ais c r m d :
  IsConditionTrue (SetConditionFalse c r m ais) d =
  if decide (c = d) then false else IsConditionTrue ais d.
Proof.
  unfold IsConditionTrue, SetConditionFalse, AddOrUpdateCondition. cbn.
  rewrite SetStatusCondition_spec. cbn.
  destruct (decide (c = d)) as [->|Hne]; [by rewrite decide_True|].
  rewrite decide_False; [done|]. intros ?. by apply Hne, (inj condition_name).
Qed.
End ConditionFacts.

Lemma HasState_spec ais s : HasState ais s = true <-> State (Status ais) = s.
Proof. unfold HasState. apply bool_decide_eq_true. Qed.

Lemma GetTargetSize_fixed ais :
  IsTargetAutoScaling ais = false ->
  GetTargetSize ais = match ds_Size (target_ds (Spec ais)) with
                      | Some n => Some n | None => Size (Spec ais) end.
Proof. unfold GetTargetSize. by intros ->. Qed.

Lemma GetProxySize_fixed ais :
  IsProxyAutoScaling ais = false ->
  GetProxySize ais = match ds_Size (ProxySpec (Spec ais)) with
                     | Some n => Some n | None => Size (Spec ais) end.
Proof. unfold GetProxySize. by intros ->. Qed.

(** A daemon group is never declared ready with no member, nor with more members than it
    has nodes, when the unavailability budget is not negative and the size is positive. *)
Lemma min_ready_bounds size budget :
  is_i32 size -> 0 <= budget < 2147483648 -> 0 <= size ->
  1 <= Z.max 1 (i32 (size - budget)) <= Z.max 1 size.
Proof.
  intros Hs Hb Hp. rewrite i32_id; [lia|]. unfold is_i32 in *. lia.
Qed.
