(* ===== verification/Validation.v ===== *)
(** * Validation of an AIStore spec

    [api/aistore/v1beta1/aistore_validation.go]: the checks run by the admission webhook
    and again by every reconciliation ([reconcileResources]). A check returns its warnings
    and possibly an error. *)

From S2P Require Import Prelude K8sTypes AISConfig AIStoreTypes ThirdParty AIStoreMethods AIStoreFacts.

Definition Warnings : Type := list string.
Definition Check : Type := Warnings * option error.

(** ** Errors *)

Definition errInvalidClusterSize (size : option Z) : error :=
  match size with
  | None => errorf "cluster size is not specified"
  | Some n => errorf ("invalid cluster size " +:+ pretty n +:+
                      ", should be at least 1 or -1 for autoScaling")
  end.

Definition errInvalidDaemonSize (size : Z) (daeType : string) : error :=
  errorf ("invalid " +:+ daeType +:+ " daemon size " +:+ pretty size +:+ ", should be at least 1").

Definition errUndefinedStateStorage : error :=
  errorf "AIS spec does not define stateStorage. Set stateStorage.hostPath, stateStorage.pvc, or stateStorage.emptyDir".

Definition errInvalidStateStorage : error :=
  errorf "AIS spec stateStorage must define exactly one of hostPath, pvc, or emptyDir".

Definition errUndefinedNodeSelector (spec : string) : error :=
  errorf ("missing nodeSelector for " +:+ spec +:+
          "; nodeSelector is required when autoScale is enabled").

(** ** Checks *)

(** [*size <= 0] on a set pointer. *)
Definition not_positive (size : option Z) : bool :=
  match size with Some n => n <=? 0 | None => false end.

Definition bad_cluster_size (size : option Z) : bool :=
  match size with None => true | Some n => (n <=? -2) || (n =? 0) end.

Definition validateSize (ais : AIStore) : Check :=
  let psize := ds_Size (ProxySpec (Spec ais)) in
  let tsize := ds_Size (target_ds (Spec ais)) in
  if not_positive psize && negb (IsProxyAutoScaling ais)
  then ([], Some (errInvalidDaemonSize (default 0 psize) apc_Proxy))
  else if not_positive tsize && negb (IsTargetAutoScaling ais)
  then ([], Some (errInvalidDaemonSize (default 0 tsize) apc_Target))
  else if (bool_decide (tsize = None) || bool_decide (psize = None)) &&
          bad_cluster_size (Size (Spec ais))
  then ([], Some (errInvalidClusterSize (Size (Spec ais))))
  else ([], None).

Definition hasExactlyOneStateStorageMode (s : AIStoreSpec) : bool :=
  match spec_StateStorage s with
  | None => false
  | Some st =>
      let count := Z.b2z (bool_decide (is_Some (st_HostPath st)))
                 + Z.b2z (bool_decide (is_Some (st_PVC st)))
                 + Z.b2z (st_EmptyDir st) in
      count =? 1
  end.

Definition validateStateStorage (ais : AIStore) : Check :=
  let s := Spec ais in
  match spec_StateStorage s with
  | Some _ =>
      if bool_decide (is_Some (StateStorageClass s)) || bool_decide (is_Some (HostpathPrefix s)) then
        let warnings := ["spec.stateStorage is set; ignoring legacy hostpathPrefix and stateStorageClass fields"] in
        if negb (hasExactlyOneStateStorageMode s) then (warnings, Some errInvalidStateStorage)
        else (warnings, None)
      else if negb (hasExactlyOneStateStorageMode s) then ([], Some errInvalidStateStorage)
      else ([], None)
  | None =>
      match StateStorageClass s, HostpathPrefix s with
      | Some sc, Some _ =>
          (["Spec defines both hostpathPrefix and stateStorageClass. Using stateStorageClass " +:+ sc], None)
      | None, None => ([], Some errUndefinedStateStorage)
      | _, _ => ([], None)
      end
  end.

Definition validateShutdownWithEmptyDir (ais : AIStore) : Check :=
  if UsesStateEmptyDir (Spec ais) && ShouldBeShutdown ais
  then ([], Some (errorf "shutdownCluster cannot be enabled when stateStorage.emptyDir is used; emptyDir state is ephemeral and is lost when the cluster is shut down"))
  else ([], None).

(** A set size other than -1. *)
Definition fixed_size (size : option Z) : bool :=
  match size with Some n => negb (n =? -1) | None => false end.

Definition validateAutoScaling (ais : AIStore) : Check :=
  let s := Spec ais in
  let all := bool_decide (Size s = Some (-1)) in
  let warns :=
    (if all && fixed_size (ds_Size (target_ds s))
     then ["spec.targetSpec.size is set when spec.Size is -1; defaulting to use the -1 of spec.Size"] else []) ++
    (if all && fixed_size (ds_Size (ProxySpec s))
     then ["spec.proxySpec.size is set when spec.Size is -1; defaulting to use the -1 of spec.Size"] else []) in
  if IsTargetAutoScaling ais && bool_decide (ds_NodeSelector (target_ds s) = None)
  then ([], Some (errUndefinedNodeSelector "target"))
  else if IsProxyAutoScaling ais && bool_decide (ds_NodeSelector (ProxySpec s) = None)
  then ([], Some (errUndefinedNodeSelector "proxy"))
  else (warns, None).

(** Methods of [ConfigToUpdate] on the rebalance section ([aisconfig.go]); the receiver of
    [RebalanceEnabled] may be nil. *)
Definition IsRebalanceEnabledSet (c : ConfigToUpdate) : bool :=
  match cu_Rebalance c with None => false | Some r => bool_decide (is_Some (reb_Enabled r)) end.

Definition RebalanceEnabled (c : option ConfigToUpdate) : bool :=
  match c ≫= cu_Rebalance with
  | None => true
  | Some r => default true (reb_Enabled r)
  end.

Definition validateSafeDecommission (ais : AIStore) : Check :=
  if negb (SafeDecommissionOnScaleDown (spec_TargetSpec (Spec ais))) then ([], None)
  else if negb (RebalanceEnabled (spec_ConfigToUpdate (Spec ais)))
  then (["scaleDownMode is " +:+ quoted "safe_decommission" +:+
         " but rebalance is disabled; enable configToUpdate.rebalance.enabled so target data is migrated on scale-down"], None)
  else ([], None).

Definition empty_auth : AuthSpec := MkAuthSpec None None None None None.

Definition deprecated_fields (ais : AIStore) : list (bool * string * string) :=
  let s := Spec ais in
  let auth := default empty_auth (Auth s) in
  let set {A : Type} (o : option A) : bool := match o with Some _ => true | None => false end in
  [ (set (as_ServiceURL auth), "spec.auth.serviceURL", "spec.auth.profileRef");
    (set (as_UsernamePassword auth), "spec.auth.usernamePassword", "spec.auth.profileRef");
    (set (as_TokenExchange auth), "spec.auth.tokenExchange", "spec.auth.profileRef");
    (set (as_TLS auth), "spec.auth.tls", "spec.auth.profileRef");
    (set (spec_ClusterDomain s), "spec.clusterDomain", "the operator's configured or discovered cluster domain");
    (set (HostpathPrefix s), "spec.hostpathPrefix", "spec.stateStorage.hostPath.prefix");
    (set (StateStorageClass s), "spec.stateStorageClass", "spec.stateStorage.pvc.storageClass");
    (EnableExternalLB s, "spec.enableExternalLB", "spec.proxySpec.externalAccess and/or spec.targetSpec.externalAccess");
    (set (ds_Capabilities (ProxySpec s)), "spec.proxySpec.capabilities", "spec.proxySpec.aisContainerSecurityContext");
    (set (ds_Capabilities (target_ds s)), "spec.targetSpec.capabilities", "spec.targetSpec.aisContainerSecurityContext") ].

Definition validateDeprecatedFields (ais : AIStore) : Check :=
  (omap (fun '(inUse, fld, replacement) =>
     if inUse : bool
     then Some (fld +:+ " is deprecated and will be removed in a future release; use " +:+
                replacement +:+ " instead")
     else None) (deprecated_fields ais), None).

Section Ports.
Context `{T : ThirdParty}.

Definition port_errors (path : string) (p : IntOrString) : list (string * Z * string) :=
  (fun msg => (path, IntValue p, msg)) <$> IsValidPortNum (IntValue p).

(** [ServiceSpec.validate]. *)
Definition validate_service (ss : ServiceSpec) (path : string) : list (string * Z * string) :=
  port_errors (path +:+ ".servicePort") (svs_ServicePort ss) ++
  port_errors (path +:+ ".portPublic") (svs_PublicPort ss) ++
  port_errors (path +:+ ".portIntraControl") (svs_IntraControlPort ss) ++
  port_errors (path +:+ ".portIntraData") (svs_IntraDataPort ss).

Definition validateServiceSpec (ais : AIStore) : Check :=
  ([], ToAggregate
     (validate_service (ds_ServiceSpec (ProxySpec (Spec ais))) "spec.proxySpec" ++
      validate_service (ds_ServiceSpec (target_ds (Spec ais))) "spec.targetSpec")).
End Ports.

Definition validateTLSCertPaths (ais : AIStore) : Check :=
  match TLS (Spec ais), http_conf ais with
  | Some _, Some http =>
      let conflicts :=
        (if http_Certificate http is Some _ then ["server_crt"] else []) ++
        (if http_CertKey http is Some _ then ["server_key"] else []) ++
        (if http_ClientCA http is Some _ then ["client_ca_tls"] else []) in
      match conflicts with
      | [] => ([], None)
      | _ => ([], Some (errorf ("configToUpdate.net.http.[" +:+ join "," conflicts +:+
                "] cannot be set together with spec.tls; the operator manages cert paths under /var/certs")))
      end
  | _, _ => ([], None)
  end.

Definition validateCleanupConfig (ais : AIStore) : Check :=
  if negb (ShouldCleanupMetadata ais) then ([], None)
  else if negb (UsesStateHostPath (Spec ais)) then ([], None)
  else if bool_decide (node_selector (target_ds (Spec ais)) = ∅) ||
          bool_decide (node_selector (ProxySpec (Spec ais)) = ∅)
  then (["cleanupMetadata is enabled with hostpath state and empty nodeSelector; host cleanup jobs will run on ALL nodes in the cluster"], None)
  else ([], None).

(** ** The sequence of checks *)

Section ValidateSpec.
Context `{T : ThirdParty}.

Definition validations (ais : AIStore) : list Check :=
  [ validateDeprecatedFields ais; validateSize ais; validateStateStorage ais;
    validateShutdownWithEmptyDir ais; validateAutoScaling ais; validateServiceSpec ais;
    validateCleanupConfig ais; validateTLSCertPaths ais; validateSafeDecommission ais ].

(** Warnings accumulate; the first error ends the run, its own warnings dropped. *)
Fixpoint run_checks (allWarnings : Warnings) (l : list Check) : Check :=
  match l with
  | [] => (allWarnings, None)
  | (warnings, None) :: l' => run_checks (allWarnings ++ warnings) l'
  | (_, Some err) :: _ => (allWarnings, Some err)
  end.

Definition ValidateSpec (ais : AIStore) : Check := run_checks [] (validations ais).
End ValidateSpec.

(** ** Facts *)

Section Facts.
Context `{T : ThirdParty}.

(** The run succeeds exactly when no check errs, and then reports every warning. *)
Lemma run_checks_ok w0 l w :
  run_checks w0 l = (w, None) <-> Forall (fun c => c.2 = None) l /\ w = w0 ++ (l ≫= fst).
Proof.
  revert w0. induction l as [|[ws [e|]] l IH]; intros w0; cbn [run_checks].
  - rewrite app_nil_r. split; [intros [= ->]; by split; [constructor|] | by intros [_ ->]].
  - split; [done|]. intros [H _]. by apply Forall_cons_1 in H as [? _].
  - rewrite IH, Forall_cons. cbn. rewrite (assoc_L app). tauto.
Qed.

(** The error reported is that of the first check that errs. *)
Lemma run_checks_err w0 l w e :
  run_checks w0 l = (w, Some e) ->
  exists l1 ws l2, l = l1 ++ (ws, Some e) :: l2 /\
    Forall (fun c => c.2 = None) l1 /\ w = w0 ++ (l1 ≫= fst).
Proof.
  revert w0. induction l as [|[ws [e'|]] l IH]; intros w0; cbn [run_checks].
  - done.
  - intros [= -> ->]. exists [], ws, l. cbn. by rewrite app_nil_r.
  - intros H. destruct (IH _ H) as (l1 & ws' & l2 & -> & Hl & ->).
    exists ((ws, None) :: l1), ws', l2. cbn. rewrite (assoc_L app). auto.
Qed.

Lemma ValidateSpec_checks ais :
  (ValidateSpec ais).2 = None -> Forall (fun c => c.2 = None) (validations ais).
Proof.
  unfold ValidateSpec. destruct (run_checks _ _) as [w o] eqn:E. cbn. intros ->.
  by apply run_checks_ok in E as [? _].
Qed.

(** What an accepted size configuration guarantees of the two daemon sizes. *)
Lemma validateSize_target ais :
  (validateSize ais).2 = None ->
  exists n, GetTargetSize ais = Some n /\ (IsTargetAutoScaling ais = false -> 1 <= n).
Proof.
  unfold validateSize, GetTargetSize.
  destruct (IsTargetAutoScaling ais) eqn:Ea; [intros _; by eexists|].
  unfold IsTargetAutoScaling in Ea. destruct (_ && negb (IsProxyAutoScaling ais)); [done|].
  destruct (ds_Size (target_ds (Spec ais))) as [n|] eqn:Et; cbn.
  - destruct (n <=? 0) eqn:?; cbn; [done|]. intros _. exists n. reflect_bools. split; [done | lia].
  - destruct (Size (Spec ais)) as [n|]; cbn; [|done].
    destruct ((n <=? -2) || (n =? 0)) eqn:E; cbn; [done|]. intros _.
    exists n. split; [done|]. intros _. reflect_bools. assert (n ≠ -1) by congruence. lia.
Qed.

Lemma validateSize_proxy ais :
  (validateSize ais).2 = None ->
  exists n, GetProxySize ais = Some n /\ (IsProxyAutoScaling ais = false -> 1 <= n).
Proof.
  unfold validateSize, GetProxySize.
  destruct (IsProxyAutoScaling ais) eqn:Ea; [intros _; by eexists|].
  unfold IsProxyAutoScaling in Ea.
  destruct (ds_Size (ProxySpec (Spec ais))) as [n|] eqn:Ep; cbn.
  - destruct (n <=? 0) eqn:?; cbn; [done|]. intros _. exists n. reflect_bools. split; [done | lia].
  - destruct (_ && negb (IsTargetAutoScaling ais)); [done|].
    rewrite orb_true_r. destruct (Size (Spec ais)) as [n|]; cbn; [|done].
    destruct ((n <=? -2) || (n =? 0)) eqn:E; cbn; [done|]. intros _.
    exists n. split; [done|]. intros _. reflect_bools. assert (n ≠ -1) by congruence. lia.
Qed.
End Facts.
