(* ===== verification/GlobalConfig.v ===== *)
(** * The cluster configuration derived from the CR

    [internal/resources/aistore/cmn/config.go] and [url.go], the [ConfigToUpdate] methods
    of [aisconfig.go], and the restart annotation computed by [calcRestartConfigAnnotation]
    of the cluster controller. *)

From S2P Require Import Prelude K8sTypes AISConfig AIStoreTypes ThirdParty AIStoreMethods AIStoreFacts Validation.

Definition ConfigHashAnnotation : string := "config.aistore.nvidia.com/hash".
Definition RestartConfigHashAnnotation : string := "config.aistore.nvidia.com/restart-hash".
Definition RestartConfigHashInitial : string := ".initial".
Definition defaultRebalanceState : bool := true.

(** ** Sections of [ConfigToUpdate] *)

Definition empty_xact : XactConfToUpdate := MkXactConf None None None.
Definition empty_rebalance : RebalanceConfToUpdate := MkRebalanceConf empty_xact None None.
Definition empty_http : HTTPConfToUpdate :=
  MkHTTPConf None None None None None None None None None None None None None.
Definition empty_net : NetConfToUpdate := MkNetConf None.
Definition empty_authconf : AuthConfToUpdate := MkAuthConf None None None None None.
Definition empty_config : ConfigToUpdate := MkConfigToUpdate None None None None None no_forwarded.

Definition with_rebalance (c : ConfigToUpdate) (r : RebalanceConfToUpdate) : ConfigToUpdate :=
  MkConfigToUpdate (cu_Backend c) (cu_Log c) (Some r) (cu_Net c) (cu_Auth c) (cu_Forwarded c).
Definition with_net (c : ConfigToUpdate) (n : NetConfToUpdate) : ConfigToUpdate :=
  MkConfigToUpdate (cu_Backend c) (cu_Log c) (cu_Rebalance c) (Some n) (cu_Auth c) (cu_Forwarded c).
Definition with_backend (c : ConfigToUpdate) (b : gset string) : ConfigToUpdate :=
  MkConfigToUpdate (Some b) (cu_Log c) (cu_Rebalance c) (cu_Net c) (cu_Auth c) (cu_Forwarded c).
Definition with_auth (c : ConfigToUpdate) (a : AuthConfToUpdate) : ConfigToUpdate :=
  MkConfigToUpdate (cu_Backend c) (cu_Log c) (cu_Rebalance c) (cu_Net c) (Some a) (cu_Forwarded c).

Definition UpdateRebalanceEnabled (c : ConfigToUpdate) (enabled : option bool) : ConfigToUpdate :=
  let r := default empty_rebalance (cu_Rebalance c) in
  with_rebalance c (MkRebalanceConf (reb_Xact r) enabled (reb_DestRetryTime r)).

Definition add_if (b : bool) (k : string) (s : gset string) : gset string :=
  if b then {[k]} ∪ s else s.

Definition ConfigureBackend (c : ConfigToUpdate) (spec : AIStoreSpec) : ConfigToUpdate :=
  let b0 := default ∅ (cu_Backend c) in
  let b1 := add_if (bool_decide (is_Some (AWSSecretName spec))) apc_AWS b0 in
  let b2 := add_if (bool_decide (is_Some (GCPSecretName spec))) apc_GCP b1 in
  let b3 := add_if (bool_decide (is_Some (OCISecretName spec))) apc_OCI b2 in
  with_backend c (add_if (HasAzureConfig spec) apc_Azure b3).

Definition ConfigureAuth (c : ConfigToUpdate) (authSpec : option AuthSpec)
    (issuerCAPath : string) : ConfigToUpdate :=
  match authSpec with
  | None => c
  | Some _ =>
      let a := default empty_authconf (cu_Auth c) in
      let enabled := match ac_Enabled a with None => Some true | Some b => Some b end in
      let oidc :=
        if bool_decide (issuerCAPath ≠ "")
        then Some (MkOIDCConf (ac_OIDC a ≫= oidc_AllowedIssuers) (Some issuerCAPath))
        else ac_OIDC a in
      with_auth c (MkAuthConf enabled (ac_Signature a) (ac_RequiredClaims a) oidc (ac_ClusterKey a))
  end.

(** The cert paths the operator manages, under [/var/certs]. *)
Definition manage_cert_paths (c : ConfigToUpdate) : ConfigToUpdate :=
  let n := default empty_net (cu_Net c) in
  let h := default empty_http (net_HTTP n) in
  with_net c (MkNetConf (Some
    (MkHTTPConf (Some "/var/certs/tls.crt") (Some "/var/certs/tls.key") (http_ServerNameTLS h)
       (Some "/var/certs/ca.crt") (http_IdleConnTimeout h) (http_MaxIdleConnsPerHost h)
       (http_MaxIdleConns h) (http_WriteBufferSize h) (http_ReadBufferSize h)
       (http_ClientAuthTLS h) (http_UseHTTPS h) (http_SkipVerifyCrt h) (http_Chunked h)))).

Section Config.
Context `{T : ThirdParty}.

(** ** URLs ([url.go]) *)

Definition ClusterDomain (ais : AIStore) : string :=
  default opinfo_ClusterDomain (spec_ClusterDomain (Spec ais)).

Definition urlScheme (ais : AIStore) : string := if UseHTTPS ais then "https" else "http".

Definition controlSvcSuffix (ais : AIStore) : string :=
  "svc." +:+ ClusterDomain ais +:+ ":" +:+
  IntOrStringString (svs_IntraControlPort (ds_ServiceSpec (ProxySpec (Spec ais)))).

Definition publicSvcSuffix (ais : AIStore) : string :=
  "svc." +:+ ClusterDomain ais +:+ ":" +:+
  IntOrStringString (svs_PublicPort (ds_ServiceSpec (ProxySpec (Spec ais)))).

Definition DefaultProxyURL (ais : AIStore) : string :=
  urlScheme ais +:+ "://" +:+ DefaultPrimaryName ais +:+ "." +:+ ProxyStatefulSetName ais +:+
  "." +:+ nn_namespace (ais_Name ais) +:+ "." +:+ controlSvcSuffix ais.

Definition IntraClusterURL (ais : AIStore) : string :=
  urlScheme ais +:+ "://" +:+ ProxyStatefulSetName ais +:+ "." +:+
  nn_namespace (ais_Name ais) +:+ "." +:+ publicSvcSuffix ais.

Definition DiscoveryProxyURL (ais : AIStore) : string :=
  urlScheme ais +:+ "://" +:+ ProxyStatefulSetName ais +:+ "." +:+
  nn_namespace (ais_Name ais) +:+ "." +:+ controlSvcSuffix ais.

(** ** Configuration ([config.go]) *)

Definition newInitialConfig (ais : AIStore) : ConfigToSet :=
  MkConfigToSet
    (Some (MkProxyConf (DefaultProxyURL ais) (DefaultProxyURL ais) (DiscoveryProxyURL ais)))
    empty_config.

(** Rebalance is off unless the cluster is ready for it; then the spec decides. *)
Definition configure_rebalance (ais : AIStore) (c : ConfigToUpdate) : ConfigToUpdate :=
  if IsConditionTrue ais ConditionReadyRebalance then
    if IsRebalanceEnabledSet c then c
    else UpdateRebalanceEnabled c (Some defaultRebalanceState)
  else UpdateRebalanceEnabled c (Some false).

(** The spec's configuration with the operator's changes, before conversion. *)
Definition spec_config (ais : AIStore) : ConfigToUpdate :=
  let c0 := default empty_config (spec_ConfigToUpdate (Spec ais)) in
  let c1 := if HasTLSEnabled ais then manage_cert_paths c0 else c0 in
  let c2 := configure_rebalance ais c1 in
  let c3 := if HasCloudBackend (Spec ais) then ConfigureBackend c2 (Spec ais) else c2 in
  let issuerCAPath :=
    match IssuerCAConfigMap (Spec ais) with Some _ => "/etc/ais/oidc-ca/ca.crt" | None => "" end in
  ConfigureAuth c3 (Auth (Spec ais)) issuerCAPath.

Definition Convert (c : ConfigToUpdate) : res ConfigToSet := MorphMarshal c.

Definition GenerateConfigToSet (ais : AIStore) : res ConfigToSet := Convert (spec_config ais).

Definition GenerateGlobalConfig (ais : AIStore) : res ConfigToSet :=
  configToSet ← GenerateConfigToSet ais;
  Ok (Merge (newInitialConfig ais) configToSet).

Definition HashGlobalConfig (c : ConfigToSet) : res string :=
  data ← MarshalConfig c; Ok (sha256_hex data).

Definition HashRestartConfigs (c : ConfigToSet) : res string :=
  match n ← cu_Net (cs_Sections c); net_HTTP n with
  | None => Ok (sha256_hex "")
  | Some h => data ← MarshalHTTP h; Ok (sha256_hex data)
  end.

(** ** The restart annotation *)

(** The annotation to store, from the one stored and the current restart hash. *)
Definition restart_annotation (annot restartHash : string) : string :=
  if bool_decide (annot = "") then restartHash +:+ RestartConfigHashInitial
  else if has_suffix annot RestartConfigHashInitial then
    let currentHash := trim_suffix annot RestartConfigHashInitial in
    if bool_decide (currentHash = restartHash) then annot else restartHash
  else restartHash.

Definition calcRestartConfigAnnotation (annot : string) (conf : ConfigToSet) : res string :=
  restartHash ← HashRestartConfigs conf; Ok (restart_annotation annot restartHash).
End Config.

(** ** Facts *)

(** Whether a configuration to be set turns rebalance on or off. *)
Definition rebalance_of (c : ConfigToSet) : option bool :=
  r ← cu_Rebalance (cs_Sections c); reb_Enabled r.

Section Facts.
Context `{T : ThirdParty, L : !ThirdPartyLaws T}.

Lemma ConfigureBackend_rebalance c s : cu_Rebalance (ConfigureBackend c s) = cu_Rebalance c.
Proof. done. Qed.

Lemma ConfigureAuth_rebalance c a p : cu_Rebalance (ConfigureAuth c a p) = cu_Rebalance c.
Proof. by destruct a. Qed.

Lemma spec_config_rebalance ais :
  cu_Rebalance (spec_config ais) =
  cu_Rebalance (configure_rebalance ais
    (let c0 := default empty_config (spec_ConfigToUpdate (Spec ais)) in
     if HasTLSEnabled ais then manage_cert_paths c0 else c0)).
Proof.
  unfold spec_config. rewrite ConfigureAuth_rebalance. by destruct (HasCloudBackend _).
Qed.

Lemma manage_cert_paths_rebalance (b : bool) c :
  cu_Rebalance (if b then manage_cert_paths c else c) = cu_Rebalance c.
Proof. by destruct b. Qed.

(** The rebalance switch of the generated configuration, in every case. *)
Lemma GenerateGlobalConfig_rebalance ais conf :
  GenerateGlobalConfig ais = Ok conf ->
  rebalance_of conf =
  Some (if IsConditionTrue ais ConditionReadyRebalance
        then RebalanceEnabled (spec_ConfigToUpdate (Spec ais)) else false).
Proof.
  unfold GenerateGlobalConfig, GenerateConfigToSet, Convert.
  intros (cts & Hc & [= <-])%res_bind_Ok. apply MorphMarshal_sections in Hc.
  set (on := IsConditionTrue ais ConditionReadyRebalance).
  assert (exists r, cu_Rebalance (cs_Sections cts) = Some r /\
    reb_Enabled r = Some (if on then RebalanceEnabled (spec_ConfigToUpdate (Spec ais)) else false))
    as (r & Hr & He).
  { rewrite Hc, spec_config_rebalance. cbv zeta. unfold configure_rebalance. fold on.
    unfold RebalanceEnabled. destruct on; [|by eexists].
    unfold IsRebalanceEnabledSet. rewrite manage_cert_paths_rebalance.
    destruct (spec_ConfigToUpdate (Spec ais)) as [c|]; cbn; [|by eexists].
    destruct (cu_Rebalance c) as [r|] eqn:Hr; cbn; [|by eexists].
    destruct (reb_Enabled r) as [e|] eqn:He; cbn; [|by eexists].
    rewrite manage_cert_paths_rebalance, Hr. eauto. }
  unfold rebalance_of. rewrite (Merge_rebalance _ _ _ Hr). exact He.
Qed.

(** The restart annotation either is the hash, tagged initial on the first computation and
    as long as the hash it holds does not change, or is the plain hash. *)
Lemma restart_annotation_spec annot h :
  restart_annotation annot h = h \/
  restart_annotation annot h = h +:+ RestartConfigHashInitial.
Proof.
  unfold restart_annotation. case_bool_decide as Ha; [by right|].
  destruct (has_suffix _ _) eqn:Hs; [|by left].
  case_bool_decide as Hh; [right | by left].
  rewrite <-Hh. by apply has_suffix_inv.
Qed.
End Facts.
