(* ===== verification/CmnResources.v ===== *)
(** * Resource builders shared by proxies and targets

    [internal/resources/aistore/cmn] (labels, environment, probes, volumes, containers,
    service accounts, config maps, cleanup jobs), [internal/resources/ownerref] and
    [internal/resources/aistore/statsd]. *)

From S2P Require Import Prelude K8sTypes AISConfig AIStoreTypes ThirdParty AIStoreMethods GlobalConfig.

(** ** Paths ([path.Join]) *)

Fixpoint split_on (c : ascii) (s : string) : list string :=
  match s with
  | EmptyString => [""]
  | String d s' =>
      if Ascii.eqb d c then "" :: split_on c s'
      else match split_on c s' with
           | x :: l => String d x :: l
           | [] => [String d EmptyString]
           end
  end.

(** One step of [path.Clean]; [out] is the cleaned prefix, last element first. *)
Definition clean_step (rooted : bool) (out : list string) (e : string) : list string :=
  if bool_decide (e = "") || bool_decide (e = ".") then out
  else if bool_decide (e = "..") then
    match out with
    | x :: out' => if bool_decide (x = "..") then e :: out else out'
    | [] => if rooted then [] else [e]
    end
  else e :: out.

Definition path_clean (p : string) : string :=
  if bool_decide (p = "") then "." else
  let rooted := has_prefix p "/" in
  let out := reverse (fold_left (clean_step rooted) (split_on "/"%char p) []) in
  if rooted then "/" +:+ join "/" out
  else match out with [] => "." | _ => join "/" out end.

Definition path_join (elems : list string) : string :=
  match filter (fun e => e ≠ "") elems with
  | [] => ""
  | l => path_clean (join "/" l)
  end.

(** ** Names and constants *)

Definition InitContainerName : string := "populate-env".
Definition AISContainerName : string := "ais-node".
Definition LabelApp : string := "app".
Definition LabelComponent : string := "component".
Definition LabelAppPrefixed : string := "app.kubernetes.io/name".
Definition LabelComponentPrefixed : string := "app.kubernetes.io/component".
Definition LabelManagedBy : string := "app.kubernetes.io/managed-by".
Definition LabelManagedByValue : string := "ais-operator".
Definition MiB : Z := 1048576.
Definition DefaultConfigStorageReq : Z := 16 * MiB.
Definition DefaultLogsStorageReq : Z := 512 * MiB.
Definition DefaultMiscStorageReq : Z := 128 * MiB.
Definition StateDir : string := "/etc/ais".
Definition InitConfTemplateDir : string := "/var/ais_config_template".
Definition AisConfigDir : string := "/var/ais_config".
Definition LogsDir : string := "/var/log/ais".
Definition InitGlobalConfDir : string := "/var/global_config".
Definition hostnameMapFileName : string := "hostname_map.json".
Definition AISGlobalConfigName : string := "ais.json".
Definition AISLocalConfigName : string := "ais_local.json".
Definition CMDefaultMode : Z := 420.
Definition CleanupPrefix : string := "cleanup".

(** The object's namespace and a derived name. *)
Definition in_ns (ais : AIStore) (name : string) : nsname := NN (nn_namespace (ais_Name ais)) name.
Definition aname (ais : AIStore) : string := nn_name (ais_Name ais).

(** ** Labels ([labels.go], [services.go]) *)

Definition LegacyLabels (name component : string) : labels :=
  {[ LabelApp := name; LabelAppPrefixed := name;
     LabelComponent := component; LabelComponentPrefixed := component ]}.

Definition SelectorLabels (name component : string) : labels :=
  {[ LabelAppPrefixed := name; LabelComponentPrefixed := component ]}.

(** The labels of the spec win. *)
Definition MergePodLabels (userLabels specLabels : labels) : labels := specLabels ∪ userLabels.

Definition NewServiceLabels (aisName component : string) : labels :=
  {[ LabelApp := aisName; LabelAppPrefixed := aisName; LabelComponentPrefixed := component ]}.

(** [ownerref.NewControllerRef]. *)
Definition NewControllerRef (ais : AIStore) : OwnerRef :=
  MkOwnerRef "AIStore" (aname ais) (ais_UID ais) true.

(** ** Environment ([utils.go], [env.go]) *)

Definition EnvFromFieldPath (envName path : string) : EnvVar :=
  MkEnvVar envName "" (Some (FieldRef path)).
Definition EnvFromValue (envName value : string) : EnvVar := MkEnvVar envName value None.
Definition EnvFromSecret (envName secret key : string) : EnvVar :=
  MkEnvVar envName "" (Some (SecretKeyRef secret key)).

Definition MergeEnvVars (defaults overrides : list EnvVar) : list EnvVar :=
  overrides ++ filter (fun v => env_Name v ∉ (env_Name <$> overrides)) defaults.

Definition CommonEnv : list EnvVar :=
  [ EnvFromFieldPath "MY_NODE" "spec.nodeName"; EnvFromFieldPath "MY_POD" "metadata.name";
    EnvFromFieldPath "K8S_NS" "metadata.namespace" ].

Definition format_bool (b : bool) : string := if b then "true" else "false".

Definition dns_mode_name (m : PubNetDNSMode) : string :=
  match m with PubNetDNSModeIP => "IP" | PubNetDNSModeNode => "Node" | PubNetDNSModePod => "Pod" end.

(** ** Security contexts and annotations ([statefulset.go]) *)

Definition DefaultPodSecurityContext : PodSecurityContext :=
  MkPodSecurityContext (Some false) (Some "RuntimeDefault") "".
Definition DefaultAISContainerSecurityContext : SecurityContext :=
  MkSecurityContext (Some false) (Some ["ALL"]) None "".
Definition RestrictedSecurityContext : SecurityContext :=
  let sc := DefaultAISContainerSecurityContext in
  MkSecurityContext (sc_AllowPrivilegeEscalation sc) (sc_CapabilitiesDrop sc) (Some true) (sc_rest sc).

Definition GetPodSecurityContext (s : DaemonSpec) : PodSecurityContext :=
  default DefaultPodSecurityContext (ds_SecurityContext s).

Definition GetAISSecurityContext (s : DaemonSpec) : SecurityContext :=
  match ds_AISContainerSecurityContext s, ds_Capabilities s with
  | Some sc, _ => sc
  | None, Some sc => sc
  | None, None => DefaultAISContainerSecurityContext
  end.

Definition NetworkAttachmentAnnot : string := "k8s.v1.cni.cncf.io/networks".

(** User annotations override the operator's. *)
Definition PrepareAnnotations (annotations : labels) (netAttachment restartHash : option string) : labels :=
  let base : labels := match netAttachment with Some n => {[ NetworkAttachmentAnnot := n ]} | None => ∅ end in
  let base := match restartHash with
              | Some h => <[ RestartConfigHashAnnotation := h ]> base | None => base end in
  annotations ∪ base.

(** ** Probes and ports ([res.go]) *)

Definition probeLivenessEndpoint : string := "/v1/health".
Definition probeReadinessEndpoint : string := "/v1/health?readiness=true".

(** [int32] of a port or other Go [int]. *)
Definition int32_of (z : Z) : Z := i32 z.

Definition daemon_spec (ais : AIStore) (daemonRole : string) : option DaemonSpec :=
  if bool_decide (daemonRole = apc_Proxy) then Some (ProxySpec (Spec ais))
  else if bool_decide (daemonRole = apc_Target) then Some (target_ds (Spec ais))
  else None.

Definition newHTTPProbeHandle (ais : AIStore) (daemonRole probeEndpoint : string) : ProbeHandler :=
  MkProbeHandler (if UseHTTPS ais then URISchemeHTTPS else URISchemeHTTP) probeEndpoint
    (match daemon_spec ais daemonRole with
     | Some d => svs_PublicPort (ds_ServiceSpec d) | None => IntVal 0 end).

Definition empty_probe_spec : ProbeSpec := MkProbeSpec None None None None.

Definition getProbeSpec (ais : AIStore) (daemonRole : string)
    (selector : ProbeConfSpec -> option ProbeSpec) : ProbeSpec :=
  default empty_probe_spec
    (d ← daemon_spec ais daemonRole; conf ← ds_Probes d; selector conf).

Definition int32ValOrDefault (v : option Z) (def : Z) : Z := default def v.

Definition NewLivenessProbe (ais : AIStore) (daemonRole : string) : Probe :=
  let spec := getProbeSpec ais daemonRole pcs_Liveness in
  MkProbe (newHTTPProbeHandle ais daemonRole probeLivenessEndpoint)
    (int32ValOrDefault (prs_InitialDelaySeconds spec) 60)
    (int32ValOrDefault (prs_PeriodSeconds spec) 5)
    (int32ValOrDefault (prs_FailureThreshold spec) 10)
    (int32ValOrDefault (prs_TimeoutSeconds spec) 5) 1.

Definition NewReadinessProbe (ais : AIStore) (daemonRole : string) : Probe :=
  let spec := getProbeSpec ais daemonRole pcs_Readiness in
  MkProbe (newHTTPProbeHandle ais daemonRole probeReadinessEndpoint)
    (int32ValOrDefault (prs_InitialDelaySeconds spec) 0)
    (int32ValOrDefault (prs_PeriodSeconds spec) 5)
    (int32ValOrDefault (prs_FailureThreshold spec) 5)
    (int32ValOrDefault (prs_TimeoutSeconds spec) 5) 1.

Definition NewStartupProbe (ais : AIStore) (daemonRole : string) : Probe :=
  let spec := getProbeSpec ais daemonRole pcs_Startup in
  MkProbe (newHTTPProbeHandle ais daemonRole probeReadinessEndpoint)
    (int32ValOrDefault (prs_InitialDelaySeconds spec) 0)
    (int32ValOrDefault (prs_PeriodSeconds spec) 5)
    (int32ValOrDefault (prs_FailureThreshold spec) 30)
    (int32ValOrDefault (prs_TimeoutSeconds spec) 5) 1.

Definition createPodAntiAffinity (ls : labels) : list (labels * string) :=
  [(ls, "kubernetes.io/hostname")].

Definition CreateAISAffinity (affinity : option Affinity) (ls : labels) : Affinity :=
  let a := default (MkAffinity None "") affinity in
  match aff_PodAntiAffinity a with
  | None => MkAffinity (Some (createPodAntiAffinity ls)) (aff_rest a)
  | Some _ => a
  end.

Definition getStatePVCName (ais : AIStore) : string :=
  nn_namespace (ais_Name ais) +:+ "-" +:+ aname ais +:+ "-state".

Definition Gi : Quantity := 1073741824 * 1000.

Definition DefineStatePVC (ais : AIStore) (storageClass : option string) : PVCSpec :=
  MkPVCSpec (getStatePVCName ais) storageClass None (Some Gi).

(** ** Containers ([statefulset.go]) *)

Definition getHostMountSubPath (daeType : string) : string :=
  if bool_decide (daeType = apc_Target) then "$(MY_POD)" else "".

Definition newLogsVolumeMount (daeType : string) : VolumeMount :=
  MkVolumeMount "logs-dir" LogsDir false (getHostMountSubPath daeType).

Definition empty_resources : ResourceRequirements := MkResources ∅ ∅.

Definition NewLogSidecar (ais : AIStore) (daeType : string) : Container :=
  MkContainer "ais-logs" (GetLogSidecarImage ais) "IfNotPresent" []
    [path_join [LogsDir; "ais" +:+ daeType +:+ ".INFO"]]
    [EnvFromFieldPath "MY_POD" "metadata.name"] []
    (default empty_resources (GetLogSidecarResources ais))
    (Some RestrictedSecurityContext) [newLogsVolumeMount daeType] None None None.

Definition NewInitContainerArgs (daeType : string) (hostnameMap : option labels) : list string :=
  [ "-role=" +:+ daeType;
    "-local_config_template=" +:+ path_join [InitConfTemplateDir; AISLocalConfigName];
    "-output_local_config=" +:+ path_join [AisConfigDir; AISLocalConfigName];
    "-cluster_config_override=" +:+ path_join [InitGlobalConfDir; AISGlobalConfigName];
    "-output_cluster_config=" +:+ path_join [AisConfigDir; AISGlobalConfigName] ] ++
  (if bool_decide (default ∅ hostnameMap = ∅) then []
   else ["-hostname_map_file=" +:+ path_join [InitGlobalConfDir; hostnameMapFileName]]).

Definition NewAISContainerArgs (targetSize : Z) (daeType : string) : list string :=
  [ "-config=" +:+ path_join [AisConfigDir; AISGlobalConfigName];
    "-local_config=" +:+ path_join [AisConfigDir; AISLocalConfigName];
    "-role=" +:+ daeType ] ++
  (if bool_decide (daeType = apc_Proxy) then ["-ntargets=" +:+ pretty targetSize] else []).

Definition NewInitResourceReq : ResourceRequirements :=
  MkResources
    {[ "cpu" := 1000; "memory" := Gi; "ephemeral-storage" := DefaultConfigStorageReq * 3 * 1000 ]}
    {[ "cpu" := 1000; "memory" := Gi ]}.

Definition NewResourceReq (ais : AIStore) (reqs : ResourceRequirements) : ResourceRequirements :=
  if bool_decide (default 0 (rr_Requests reqs !! "ephemeral-storage") ≠ 0) then reqs
  else
    let storageBytes := default DefaultLogsStorageReq (MaxLogTotal ais) in
    let storageBytes := i64 (storageBytes + DefaultConfigStorageReq + DefaultMiscStorageReq) in
    MkResources (<[ "ephemeral-storage" := storageBytes * 1000 ]> (rr_Requests reqs)) (rr_Limits reqs).

(** ** Volumes ([volumes.go]) *)

Definition StateHostPath (ais : AIStore) (daeType : string) : string :=
  match StateStorageHostPathPrefix (Spec ais) with
  | None => ""
  | Some prefix => path_join [prefix; nn_namespace (ais_Name ais); aname ais; daeType]
  end.

Definition globalConfigMapName (ais : AIStore) : string := aname ais +:+ "-global-cm".
Definition AISConfigMapName (ais : AIStore) (daeType : string) : string := aname ais +:+ "-" +:+ daeType.

Definition newLogsVolume (ais : AIStore) (daeType : string) : Volume :=
  MkVolume "logs-dir"
    (if bool_decide (LogsDirectory (Spec ais) ≠ "") then
       VHostPath (path_join [LogsDirectory (Spec ais); nn_namespace (ais_Name ais); aname ais; daeType])
         "DirectoryOrCreate"
     else VEmptyDir).

Definition getTLSSecretVolumeSource (ais : AIStore) : VolumeSource :=
  VSecret (GetTLSSecretName ais) CMDefaultMode.

Definition AppendSimpleReadOnlyMount (mounts : list VolumeMount) (name mountPath : string) : list VolumeMount :=
  mounts ++ [MkVolumeMount name mountPath true ""].

Definition state_mount (ais : AIStore) (daeType : string) : list VolumeMount :=
  if UsesStateEmptyDir (Spec ais) then [MkVolumeMount "state-mount" StateDir false ""]
  else if UsesStatePVC (Spec ais) then [MkVolumeMount (getStatePVCName ais) StateDir false ""]
  else if UsesStateHostPath (Spec ais)
  then [MkVolumeMount "state-mount" StateDir false (getHostMountSubPath daeType)]
  else [].

Definition NewAISVolumeMounts (ais : AIStore) (daeType : string) : list VolumeMount :=
  let m := [MkVolumeMount "config-mount" AisConfigDir false ""; newLogsVolumeMount daeType] ++
           state_mount ais daeType in
  let m := if HasTLSEnabled ais then AppendSimpleReadOnlyMount m "tls-certs" "/var/certs" else m in
  match TracingTokenSecretName (Spec ais) with
  | Some _ => AppendSimpleReadOnlyMount m "tracing-token" "/var/traces"
  | None => m
  end.

Definition NewInitVolumeMounts : list VolumeMount :=
  [ MkVolumeMount "config-template" InitConfTemplateDir false "";
    MkVolumeMount "config-mount" AisConfigDir false "";
    MkVolumeMount "config-global" InitGlobalConfDir false "" ].

(** ** RBAC ([rbac.go]) and statsd *)

Definition roleName (ais : AIStore) : string := aname ais +:+ "-role".
Definition roleBindingName (ais : AIStore) : string := aname ais +:+ "-rb".
Definition ServiceAccountName (ais : AIStore) : string := aname ais +:+ "-sa".

Definition NewAISRBACRole (ais : AIStore) : Role :=
  MkRole (in_ns ais (roleName ais)) (NewControllerRef ais)
    [ MkPolicyRule [""] ["pods"; "services"] ["get"; "list"; "watch"; "create"; "update"; "delete"];
      MkPolicyRule [""] ["pods/log"] ["get"] ].

Definition NewAISRBACRoleBinding (ais : AIStore) : RoleBinding :=
  MkRoleBinding (in_ns ais (roleBindingName ais)) (NewControllerRef ais) (roleName ais)
    (in_ns ais (ServiceAccountName ais)).

Definition NewAISServiceAccount (ais : AIStore) : ServiceAccount :=
  MkServiceAccount (in_ns ais (ServiceAccountName ais)) (NewControllerRef ais)
    (ImagePullSecrets (Spec ais)).

Definition statsd_ConfigMapNSName (ais : AIStore) : nsname := in_ns ais (aname ais +:+ "-statsd").

(** ** External access ([externalaccess.go]) *)

Definition mergeServiceAnnotations (base extra : labels) : labels := extra ∪ base.

Definition ExternalAccessLBAnnotations (ea : option labels) : labels :=
  mergeServiceAnnotations {[ "prometheus.io/scrape" := "true" ]} (default ∅ ea).

Definition ingress_assigned (i : Ingress) : bool :=
  bool_decide (ing_IP i ≠ "") || bool_decide (ing_Hostname i ≠ "").

Definition LoadBalancerIngressReady (ingress : list Ingress) : bool := existsb ingress_assigned ingress.

(** ** Builders that read the cluster environment *)

Section Builders.
Context `{T : ThirdParty}.

Definition CommonInitEnv (ais : AIStore) (externalAccessEnabled : bool) : list EnvVar :=
  [ EnvFromFieldPath "HOST_IPS" "status.hostIPs";
    EnvFromValue "AIS_K8S_CLUSTER_DOMAIN" (ClusterDomain ais);
    EnvFromValue "ENABLE_EXTERNAL_ACCESS" (format_bool externalAccessEnabled) ] ++
  (match PublicNetDNSMode (Spec ais) with
   | Some m => [EnvFromValue "AIS_PUBLIC_DNS_MODE" (dns_mode_name m)] | None => [] end) ++
  CommonEnv.

Definition NewDaemonPorts (spec : DaemonSpec) : list ContainerPort :=
  [ MkContainerPort "http" (int32_of (IntValue (svs_ServicePort (ds_ServiceSpec spec))))
      (default 0 (ds_HostPort spec)) ].

(** [NewGlobalCM]. *)
Definition NewGlobalCM (ais : AIStore) : res ConfigMap :=
  globalConf ← GenerateGlobalConfig ais;
  conf ← MarshalConfig globalConf;
  data ← match HostnameMap (Spec ais) with
         | Some m => hostnameMap ← MarshalStringMap m;
             Ok (<[ hostnameMapFileName := hostnameMap ]> {[ AISGlobalConfigName := conf ]})
         | None => Ok ({[ AISGlobalConfigName := conf ]} : labels)
         end;
  Ok (MkConfigMap (in_ns ais (globalConfigMapName ais)) [NewControllerRef ais] data).

(** [NewCleanupJob]. *)
Fixpoint replace_dot (s : string) : string :=
  match s with
  | EmptyString => EmptyString
  | String c s' => String (if Ascii.eqb c "."%char then "-"%char else c) (replace_dot s')
  end.

Definition createNodeAffinitySpec (nodeName : string) : list NodeSelectorRequirement :=
  [MkNodeRequirement "kubernetes.io/hostname" "In" [nodeName]].

Definition createContainerSpec (stateDir : string) : list JobContainer :=
  [MkJobContainer "cleanup" "docker.io/aistorage/ais-operator-helper:latest"
     ["/cleanup-helper"; "-dir=" +:+ stateDir] [MkVolumeMount "hostpath" stateDir false ""]].

Definition createVolumeSpec (stateDir : string) : list Volume :=
  [MkVolume "hostpath" (VHostPath stateDir "")].

Definition NewCleanupJob (ais : AIStore) (nodeName : string) : JobSpec :=
  let stateDir := StateHostPath ais "" in
  MkJobSpec (CleanupPrefix +:+ "-" +:+ replace_dot nodeName +:+ "-") (nn_namespace (ais_Name ais)) 0
    (createNodeAffinitySpec nodeName) (createContainerSpec stateDir) (createVolumeSpec stateDir)
    (GetAllTolerations ais) "Never".
End Builders.

Example path_join_clean : path_join ["/ais/"; "ns"; ""; "../x"] = "/ais/x".
Proof. reflexivity. Qed.
