(* ===== verification/Certificates.v ===== *)
(** * TLS certificates

    [internal/resources/certificates] (certificate specs, CSI attributes, subject alternative
    names), [internal/resources/aistore/cmn/certificate.go], and the pod volumes of
    [cmn/volumes.go], which embed the CSI request. *)

From S2P Require Import Prelude K8sTypes AISConfig AIStoreTypes ThirdParty AIStoreMethods GlobalConfig CmnResources.

(** ** [time.Duration.String] *)

(** [prec] low decimal digits of [v] as a fraction without trailing zeros, and [v / 10^prec]. *)
Fixpoint fmt_frac (prec : nat) (v : Z) (printing : bool) (acc : string) : string * Z :=
  match prec with
  | O => (if printing then "." +:+ acc else acc, v)
  | S prec' =>
      let digit := v `mod` 10 in
      let printing := printing || negb (digit =? 0) in
      fmt_frac prec' (v / 10) printing (if printing then pretty digit +:+ acc else acc)
  end.

Definition fmt_unit (prec : nat) (v : Z) (unit : string) : string :=
  let '(frac, n) := fmt_frac prec v false "" in pretty n +:+ frac +:+ unit.

Definition micro : string :=
  String (Ascii.ascii_of_nat 194) (String (Ascii.ascii_of_nat 181) "s").

Definition duration_string (d : Z) : string :=
  let u := Z.abs d in
  let body :=
    if u =? 0 then "0s"
    else if u <? 1000 then fmt_unit 0 u "ns"
    else if u <? 1000000 then fmt_unit 3 u micro
    else if u <? second then fmt_unit 6 u "ms"
    else
      let '(frac, n) := fmt_frac 9 u false "" in
      let secs := pretty (n `mod` 60) +:+ frac +:+ "s" in
      let m := n / 60 in
      if m =? 0 then secs
      else
        let mins := pretty (m `mod` 60) +:+ "m" +:+ secs in
        let h := m / 60 in
        if h =? 0 then mins else pretty h +:+ "h" +:+ mins in
  if d <? 0 then "-" +:+ body else body.

Example duration_string_ex :
  duration_string (90 * minute) = "1h30m0s" /\ duration_string 1500000000 = "1.5s" /\
  duration_string 1100000 = "1.1ms".
Proof. vm_compute. done. Qed.

(** ** Specs ([certificate.go], [csi.go]) *)

Record SpecConfig := MkSpecConfig {
  scf_SecretName : string; scf_IssuerName : string; scf_IssuerKind : string;
  scf_Duration : option Z; scf_RenewBefore : option Z; scf_Usages : list string }.

(** [NewSpec], completed with the object's name and owner by its callers. *)
Definition NewSpec (name : nsname) (owner : OwnerRef) (config : SpecConfig)
    (dnsNames ipAddresses : list string) : Certificate :=
  let issuerKind := if bool_decide (scf_IssuerKind config = "") then "ClusterIssuer"
                    else scf_IssuerKind config in
  MkCertificate name owner (scf_SecretName config) (scf_IssuerName config) issuerKind
    "cert-manager.io" (scf_Usages config) dnsNames ipAddresses
    (scf_Duration config) (scf_RenewBefore config).

Record CSIConfig := MkCSIConfig {
  csi_IssuerName : string; csi_IssuerKind : string; csi_CommonName : string;
  csi_DNSNames : list string; csi_Duration : option Z; csi_RenewBefore : option Z;
  csi_Usages : list string }.

Definition set_if (b : bool) (k v : string) (m : labels) : labels := if b then <[k := v]> m else m.

Definition ToVolumeAttributes (c : CSIConfig) : labels :=
  let m : labels :=
    {[ "csi.cert-manager.io/issuer-name" := csi_IssuerName c;
       "csi.cert-manager.io/common-name" := csi_CommonName c;
       "csi.cert-manager.io/dns-names" := join "," (csi_DNSNames c) ]} in
  let m := set_if (bool_decide (csi_IssuerKind c ≠ "")) "csi.cert-manager.io/issuer-kind" (csi_IssuerKind c) m in
  let m := match csi_Duration c with
           | Some d => <[ "csi.cert-manager.io/duration" := duration_string d ]> m | None => m end in
  let m := match csi_RenewBefore c with
           | Some d => <[ "csi.cert-manager.io/renew-before" := duration_string d ]> m | None => m end in
  set_if (0 <? Z.of_nat (length (csi_Usages c))) "csi.cert-manager.io/key-usages" (join "," (csi_Usages c)) m.

(** ** Subject alternative names *)

(** The external addresses of one Service: per ingress point, the IP then the hostname. *)
Definition ingress_endpoints (i : Ingress) : list string :=
  filter (fun s => s ≠ "") [ing_IP i; ing_Hostname i].

Definition LoadBalancerEndpoints (services : list Service) : list string :=
  services ≫= fun s => svc_Ingress s ≫= ingress_endpoints.

Definition normalize (values : list string) : list string :=
  compact (sort_strings (filter (fun v => v ≠ "") values)).

Definition NormalizeSANs (sans : list string * list string) : list string * list string :=
  (normalize sans.1, normalize sans.2).

(** [strings.TrimSpace] on ASCII text. *)
Fixpoint trim_left (s : string) : string :=
  match s with
  | String c s' => if Ascii.is_space c then trim_left s' else s
  | EmptyString => s
  end.
Fixpoint trim_right (s : string) : string :=
  match s with
  | String c s' =>
      let t := trim_right s' in
      if bool_decide (t = "") && Ascii.is_space c then "" else String c t
  | EmptyString => s
  end.
Definition trim_space (s : string) : string := trim_right (trim_left s).

Definition certificateName (ais : AIStore) : string := aname ais +:+ "-tls-cert".
Definition CertificateSecretName (ais : AIStore) : string := aname ais +:+ "-tls".
Definition CertificateNSName (ais : AIStore) : nsname := in_ns ais (certificateName ais).
Definition certUsages : list string :=
  ["digital signature"; "key encipherment"; "server auth"; "client auth"].

Definition addServiceDNSNames (svcName namespace clusterDomain : string) : list string :=
  [ svcName; svcName +:+ "." +:+ namespace;
    svcName +:+ "." +:+ namespace +:+ ".svc." +:+ clusterDomain ].

Section SANs.
Context `{T : ThirdParty}.

(** One host is appended to the DNS names or to the IP addresses; an empty one to neither. *)
Definition append_host (sans : list string * list string) (host : string) : list string * list string :=
  if bool_decide (host = "") then sans
  else if ParseIP host then (sans.1, sans.2 ++ [host])
  else (sans.1 ++ [host], sans.2).

Definition AppendHosts (sans : list string * list string) (hosts : list string)
    : list string * list string := fold_left append_host hosts sans.

(** The hosts of the hostname map, whose entries a [range] visits in the order [entries]. *)
Definition map_hosts (entries : list (string * string)) : list string :=
  entries ≫= fun e => trim_space <$> split_on ","%char e.2.

(** [buildCertificateSANs], for one traversal order of [Spec.HostnameMap]. *)
Definition SANs_of (ais : AIStore) (entries : list (string * string)) (publicHosts : list string)
    : list string * list string :=
  let clusterDomain := ClusterDomain ais in
  let ns := nn_namespace (ais_Name ais) in
  let dnsNames :=
    addServiceDNSNames (aname ais +:+ "-proxy") ns clusterDomain ++
    addServiceDNSNames (aname ais +:+ "-target") ns clusterDomain ++
    [ "*." +:+ aname ais +:+ "-proxy." +:+ ns +:+ ".svc." +:+ clusterDomain;
      "*." +:+ aname ais +:+ "-target." +:+ ns +:+ ".svc." +:+ clusterDomain ] in
  let sans := AppendHosts (dnsNames, []) (map_hosts entries) in
  let sans := AppendHosts sans publicHosts in
  let sans := match GetTLSCertificate ais with
              | Some c => (sans.1 ++ tc_AdditionalDNSNames c, sans.2)
              | None => sans
              end in
  NormalizeSANs sans.

Definition buildCertificateSANs (ais : AIStore) (publicHosts : list string) : list string * list string :=
  SANs_of ais (map_to_list (default ∅ (HostnameMap (Spec ais)))) publicHosts.

Definition NewCertificate (ais : AIStore) (publicHosts : list string) : option Certificate :=
  certConfig ← GetTLSCertificate ais;
  let '(dnsNames, ipAddresses) := buildCertificateSANs ais publicHosts in
  Some (NewSpec (CertificateNSName ais) (NewControllerRef ais)
    (MkSpecConfig (CertificateSecretName ais) (ir_Name (tc_IssuerRef certConfig))
       (ir_Kind (tc_IssuerRef certConfig)) (tc_Duration certConfig)
       (tc_RenewBefore certConfig) certUsages) dnsNames ipAddresses).

(** ** Pod volumes ([volumes.go]) *)

Definition getTLSCSIVolumeSource (ais : AIStore) (daeType : string) : VolumeSource :=
  match GetTLSCertificate ais with
  | None => VNone
  | Some c =>
      VCSI "csi.cert-manager.io"
        (ToVolumeAttributes (MkCSIConfig (ir_Name (tc_IssuerRef c)) (ir_Kind (tc_IssuerRef c))
           (aname ais +:+ "-" +:+ daeType +:+ "." +:+ nn_namespace (ais_Name ais))
           (buildCertificateSANs ais []).1 (tc_Duration c) (tc_RenewBefore c) certUsages)) true
  end.

Definition getTLSVolume (ais : AIStore) (daeType : string) : option Volume :=
  if UseTLSCSI ais then Some (MkVolume "tls-certs" (getTLSCSIVolumeSource ais daeType))
  else if UseTLSCertificate ais || UseTLSSecret ais
  then Some (MkVolume "tls-certs" (getTLSSecretVolumeSource ais))
  else None.

Definition state_volume (ais : AIStore) (daeType : string) : list Volume :=
  if UsesStateEmptyDir (Spec ais) then [MkVolume "state-mount" VEmptyDir]
  else if UsesStateHostPath (Spec ais)
  then [MkVolume "state-mount" (VHostPath (StateHostPath ais daeType) "DirectoryOrCreate")]
  else [].

Definition NewAISVolumes (ais : AIStore) (daeType : string) : list Volume :=
  [ MkVolume "config-template" (VConfigMap (AISConfigMapName ais daeType) [] None CMDefaultMode);
    MkVolume "config-mount" VEmptyDir;
    MkVolume "config-global" (VConfigMap (globalConfigMapName ais) [] None CMDefaultMode);
    newLogsVolume ais daeType ] ++
  state_volume ais daeType ++
  option_list (getTLSVolume ais daeType) ++
  match TracingTokenSecretName (Spec ais) with
  | Some n => [MkVolume "tracing-token" (VSecret n CMDefaultMode)]
  | None => []
  end.
End SANs.

(** ** Facts *)

Lemma elem_of_normalize x l : x ∈ normalize l <-> x ∈ l /\ x ≠ "".
Proof.
  unfold normalize. rewrite elem_of_compact, elem_of_sort_strings, list_elem_of_filter. tauto.
Qed.

Lemma normalize_sorted l : StronglySorted String.le (normalize l).
Proof. apply compact_sorted, sort_strings_sorted. Qed.

Lemma normalize_NoDup l : NoDup (normalize l).
Proof. apply compact_NoDup, sort_strings_sorted. Qed.

(** Normalization depends on the set of names only. *)
Lemma normalize_ext l1 l2 : (forall x, x ∈ l1 <-> x ∈ l2) -> normalize l1 = normalize l2.
Proof.
  intros Heq. apply sorted_set_unique; auto using normalize_sorted, normalize_NoDup.
  intros x. rewrite !elem_of_normalize. by rewrite Heq.
Qed.

Section SANFacts.
Context `{T : ThirdParty}.

(** A host joins the list of its class, unless it is empty. *)
Lemma elem_of_append_host sans h x :
  (x ∈ (append_host sans h).1 <-> x ∈ sans.1 \/ (x = h /\ x ≠ "" /\ ParseIP x = false)) /\
  (x ∈ (append_host sans h).2 <-> x ∈ sans.2 \/ (x = h /\ x ≠ "" /\ ParseIP x = true)).
Proof.
  unfold append_host. case_bool_decide as Hh; [naive_solver|].
  destruct (ParseIP h) eqn:Hp; cbn; rewrite elem_of_app, list_elem_of_singleton;
    split; naive_solver congruence.
Qed.

Lemma elem_of_AppendHosts hosts : forall sans x,
  (x ∈ (AppendHosts sans hosts).1 <->
     x ∈ sans.1 \/ (x ∈ hosts /\ x ≠ "" /\ ParseIP x = false)) /\
  (x ∈ (AppendHosts sans hosts).2 <->
     x ∈ sans.2 \/ (x ∈ hosts /\ x ≠ "" /\ ParseIP x = true)).
Proof.
  unfold AppendHosts. induction hosts as [|h hosts IH]; intros sans x; cbn [fold_left].
  { rewrite elem_of_nil. naive_solver. }
  destruct (IH (append_host sans h) x) as [-> ->]. clear IH.
  destruct (elem_of_append_host sans h x) as [-> ->]. rewrite elem_of_cons. naive_solver.
Qed.

(** The order in which the hostname map is visited does not matter. *)
Lemma SANs_of_perm ais e1 e2 hosts : e1 ≡ₚ e2 -> SANs_of ais e1 hosts = SANs_of ais e2 hosts.
Proof.
  intros Hp. unfold SANs_of, NormalizeSANs. cbv zeta.
  assert (forall x, x ∈ map_hosts e1 <-> x ∈ map_hosts e2) as Hm.
  { intros x. unfold map_hosts. by rewrite Hp. }
  destruct (GetTLSCertificate ais); cbn [fst snd]; f_equal; apply normalize_ext; intros x;
    rewrite ?elem_of_app;
    setoid_rewrite (proj1 (elem_of_AppendHosts _ _ _)) ||
    setoid_rewrite (proj2 (elem_of_AppendHosts _ _ _));
    setoid_rewrite (proj1 (elem_of_AppendHosts _ _ _)) ||
    setoid_rewrite (proj2 (elem_of_AppendHosts _ _ _));
    setoid_rewrite Hm; tauto.
Qed.

Lemma SANs_of_normal ais entries hosts :
  let '(dns, ips) := SANs_of ais entries hosts in
  (StronglySorted String.le dns /\ NoDup dns /\ "" ∉ dns) /\
  (StronglySorted String.le ips /\ NoDup ips /\ "" ∉ ips).
Proof.
  unfold SANs_of, NormalizeSANs. cbv zeta.
  repeat split; auto using normalize_sorted, normalize_NoDup; rewrite elem_of_normalize; tauto.
Qed.
End SANFacts.
