(* ===== verification/ProxyResources.v ===== *)
(** * Proxy resources

    [internal/resources/aistore/proxy]: names, labels, services, config map and the desired
    StatefulSet of the proxies. A builder is [None] where the cluster size it reads is an
    undefined pointer. *)

From S2P Require Import Prelude K8sTypes AISConfig AIStoreTypes ThirdParty AIStoreMethods GlobalConfig CmnResources Certificates.

(** The four ports of a daemon's headless service and its local configuration. *)
Definition svc_port {T : ThirdParty} (name : string) (p target : IntOrString) : ServicePort :=
  MkServicePort name (int32_of (IntValue p)) target.

(** The host names are filled in by the init container. *)
Definition local_net_config {T : ThirdParty} (s : ServiceSpec) : LocalNetConfig :=
  MkLocalNetConfig "${AIS_PUBLIC_HOSTNAME}" "${AIS_INTRA_HOSTNAME}" "${AIS_DATA_HOSTNAME}"
    (IntValue (svs_PublicPort s)) (IntValue (svs_IntraControlPort s)) (IntValue (svs_IntraDataPort s)).

Module Proxy.

Definition headlessSVCName (aisName : string) : string := aisName +:+ "-" +:+ apc_Proxy.
Definition HeadlessSVCNSName (ais : AIStore) : nsname := in_ns ais (headlessSVCName (aname ais)).
Definition loadBalancerSVCName (ais : AIStore) : string := aname ais +:+ "-" +:+ apc_Proxy +:+ "-lb".
Definition LoadBalancerSVCNSName (ais : AIStore) : nsname := in_ns ais (loadBalancerSVCName ais).
Definition StatefulSetNSName (ais : AIStore) : nsname := in_ns ais (ProxyStatefulSetName ais).
Definition PodName (ais : AIStore) (idx : Z) : string :=
  ProxyStatefulSetName ais +:+ "-" +:+ pretty idx.
Definition BasicLabels (ais : AIStore) : labels := LegacyLabels (aname ais) apc_Proxy.
Definition SelectorLabels (ais : AIStore) : labels := CmnResources.SelectorLabels (aname ais) apc_Proxy.
Definition DefaultPrimaryNSName (ais : AIStore) : nsname := in_ns ais (DefaultPrimaryName ais).
Definition ConfigMapNSName (ais : AIStore) : nsname := in_ns ais (AISConfigMapName ais apc_Proxy).

Definition newOIDCCAVolume (configMapName : string) : Volume :=
  MkVolume "oidc-ca" (VConfigMap configMapName [] None CMDefaultMode).
Definition newOIDCCAVolumeMount : VolumeMount := MkVolumeMount "oidc-ca" "/etc/ais/oidc-ca" true "".

Definition newVolumeMounts (ais : AIStore) : list VolumeMount :=
  NewAISVolumeMounts ais apc_Proxy ++
  match IssuerCAConfigMap (Spec ais) with Some _ => [newOIDCCAVolumeMount] | None => [] end.

Definition proxyVC (ais : AIStore) : list PVCSpec :=
  match StateStoragePVCStorageClass (Spec ais) with
  | Some c => [DefineStatePVC ais (Some c)]
  | None => []
  end.

Section Build.
Context `{T : ThirdParty}.

Definition newVolumes (ais : AIStore) : list Volume :=
  NewAISVolumes ais apc_Proxy ++
  match IssuerCAConfigMap (Spec ais) with Some n => [newOIDCCAVolume n] | None => [] end.

Definition NewProxyHeadlessSvc (ais : AIStore) : ServiceApply :=
  let s := ds_ServiceSpec (ProxySpec (Spec ais)) in
  MkServiceApply (HeadlessSVCNSName ais) (NewControllerRef ais)
    {[ "prometheus.io/scrape" := "true" ]} (NewServiceLabels (aname ais) "proxy-svc")
    "" "None" true
    [ svc_port "pub" (svs_ServicePort s) (svs_ServicePort s);
      svc_port "control" (svs_IntraControlPort s) (svs_IntraControlPort s);
      svc_port "data" (svs_IntraDataPort s) (svs_IntraDataPort s) ]
    (SelectorLabels ais).

Definition NewProxyLoadBalancerSVC (ais : AIStore) : ServiceApply :=
  let s := ds_ServiceSpec (ProxySpec (Spec ais)) in
  MkServiceApply (LoadBalancerSVCNSName ais) (NewControllerRef ais)
    (ExternalAccessLBAnnotations (ds_ExternalAccess (ProxySpec (Spec ais))))
    (NewServiceLabels (aname ais) "proxy-lb") "LoadBalancer" "" false
    [svc_port "pub" (svs_ServicePort s) (svs_PublicPort s)] (SelectorLabels ais).

Definition localConfTemplate (s : ServiceSpec) : LocalConfig :=
  MkLocalConfig StateDir LogsDir (local_net_config s) None.

Definition NewProxyCM (ais : AIStore) : res ConfigMap :=
  confLocal ← MarshalLocalConf (localConfTemplate (ds_ServiceSpec (ProxySpec (Spec ais))));
  Ok (MkConfigMap (ConfigMapNSName ais) [NewControllerRef ais] {[ AISLocalConfigName := confLocal ]}).

Definition public_hostname_env (ais : AIStore) : EnvVar :=
  EnvFromFieldPath "AIS_PUBLIC_HOSTNAME"
    (if UseNodeNameForPublicNet ais then "spec.nodeName" else "status.hostIP").

Definition NewInitContainerEnv (ais : AIStore) : list EnvVar :=
  CommonInitEnv ais (ProxyExternalAccessEnabled ais) ++
  [EnvFromValue "MY_SERVICE" (headlessSVCName (aname ais))] ++
  match ds_HostPort (ProxySpec (Spec ais)) with
  | Some _ => [public_hostname_env ais] | None => [] end.

Definition NewAISContainerEnv (ais : AIStore) : list EnvVar :=
  let baseEnv := CommonEnv ++
    match AuthNSecretName (Spec ais) with
    | Some n => [EnvFromSecret aisenv_AisAuthSecretKey n "SIGNING-KEY"] | None => [] end in
  MergeEnvVars baseEnv (ds_Env (ProxySpec (Spec ais))).

Definition proxyPodSpec (ais : AIStore) : option PodSpec :=
  targetSize ← GetTargetSize ais;
  let spec := ProxySpec (Spec ais) in
  let init := MkContainer InitContainerName (InitImage (Spec ais)) "Always" []
    (NewInitContainerArgs apc_Proxy (HostnameMap (Spec ais))) (NewInitContainerEnv ais) []
    NewInitResourceReq (Some RestrictedSecurityContext) NewInitVolumeMounts None None None in
  let node := MkContainer AISContainerName (NodeImage (Spec ais)) "Always" ["aisnode"]
    (NewAISContainerArgs targetSize apc_Proxy) (NewAISContainerEnv ais) (NewDaemonPorts spec)
    (NewResourceReq ais (ds_Resources spec)) (Some (GetAISSecurityContext spec))
    (newVolumeMounts ais) (Some (NewStartupProbe ais apc_Proxy))
    (Some (NewLivenessProbe ais apc_Proxy)) (Some (NewReadinessProbe ais apc_Proxy)) in
  let sidecar := if bool_decide (GetLogSidecarImage ais ≠ "")
                 then [NewLogSidecar ais apc_Proxy] else [] in
  Some (MkPodSpec [init] (node :: sidecar) false "" (ServiceAccountName ais) None []
    (Some (GetPodSecurityContext spec))
    (Some (CreateAISAffinity (ds_Affinity spec) (SelectorLabels ais)))
    (node_selector spec) (newVolumes ais) (ds_Tolerations spec)
    (default "" (PriorityClassName (Spec ais)))).

Definition podLabels (ais : AIStore) : labels :=
  MergePodLabels (ds_Labels (ProxySpec (Spec ais)))
    (<[ LabelManagedBy := LabelManagedByValue ]> (BasicLabels ais)).

Definition NewProxyStatefulSet (ais : AIStore) (size : Z) : option StatefulSet :=
  pod ← proxyPodSpec ais;
  let spec := ProxySpec (Spec ais) in
  Some (MkSS (StatefulSetNSName ais) (<[ LabelManagedBy := LabelManagedByValue ]> (BasicLabels ais))
    ∅ 0
    (MkSSSpec size (SelectorLabels ais) (headlessSVCName (aname ais)) "Parallel"
       (MkUpdateStrategy DefaultStrategy None) (proxyVC ais)
       (MkPodTemplate (podLabels ais)
          (PrepareAnnotations (ds_Annotations spec) (NetAttachment (Spec ais))
             (Some (index (ais_Annotations ais) RestartConfigHashAnnotation))) pod)
       (ds_PVCRetentionPolicy spec))
    (MkSSStatus 0 0 0 0 0 "" "")).
End Build.
End Proxy.
