(* ===== verification/TargetResources.v ===== *)
(** * Target resources

    [internal/resources/aistore/target]: names, labels, services, config map, disruption
    budget and the desired StatefulSet of the targets. *)

From S2P Require Import Prelude K8sTypes AISConfig AIStoreTypes ThirdParty AIStoreMethods GlobalConfig CmnResources Certificates ProxyResources.

Module Target.

Definition statefulSetName (ais : AIStore) : string := aname ais +:+ "-" +:+ apc_Target.
Definition StatefulSetNSName (ais : AIStore) : nsname := in_ns ais (statefulSetName ais).
Definition headlessSVCName (aisName : string) : string := aisName +:+ "-" +:+ apc_Target.
Definition HeadlessSVCNSName (ais : AIStore) : nsname := in_ns ais (headlessSVCName (aname ais)).
Definition loadBalancerSVCName (ais : AIStore) (index : Z) : string :=
  statefulSetName ais +:+ "-" +:+ pretty index.
Definition LoadBalancerSVCNSName (ais : AIStore) (index : Z) : nsname :=
  in_ns ais (loadBalancerSVCName ais index).
Definition PodName (ais : AIStore) (index : Z) : string :=
  statefulSetName ais +:+ "-" +:+ pretty index.
Definition BasicLabels (ais : AIStore) : labels := LegacyLabels (aname ais) apc_Target.
Definition SelectorLabels (ais : AIStore) : labels := CmnResources.SelectorLabels (aname ais) apc_Target.
Definition ConfigMapNSName (ais : AIStore) : nsname := in_ns ais (AISConfigMapName ais apc_Target).

(** ** Disruption budget *)

Definition PDBNSName (ais : AIStore) : nsname := StatefulSetNSName ais.

Definition NewTargetPDB (ais : AIStore) : PDB :=
  MkPDB (PDBNSName ais) (BasicLabels ais) (GetTargetPDBMaxUnavailable ais) (SelectorLabels ais).

(** ** Volumes *)

Definition getHostPathVolumeName (index : nat) : string := "host-data-mount" +:+ "-" +:+ pretty index.

(** Secret, volume name and mount point of each cloud provider. *)
Definition cloud_secrets (spec : AIStoreSpec) : list (option string * string * string) :=
  [ (AWSSecretName spec, "aws-creds", "/root/.aws"); (GCPSecretName spec, "gcp-creds", "/var/gcp");
    (OCISecretName spec, "oci-creds", "/root/.oci") ].

Definition appendCloudVolumes (ais : AIStore) (volumes : list Volume) : list Volume :=
  volumes ++ (cloud_secrets (Spec ais) ≫= fun s =>
    match s.1.1 with Some n => [MkVolume s.1.2 (VSecret n CMDefaultMode)] | None => [] end).

Definition appendHostPathDataVolumes (ais : AIStore) (volumes : list Volume) : list Volume :=
  volumes ++ mjoin (imap (fun i mnt =>
    if IsHostPath mnt then
      [MkVolume (getHostPathVolumeName i)
         (VHostPath (path_join [mnt_Path mnt; nn_namespace (ais_Name ais); aname ais; apc_Target])
            "DirectoryOrCreate")]
    else []) (ts_Mounts (spec_TargetSpec (Spec ais)))).

Definition newTargetPVCs (ais : AIStore) : list PVCSpec :=
  (ts_Mounts (spec_TargetSpec (Spec ais)) ≫= fun mnt =>
     if IsHostPath mnt then [] else [BuildPVC mnt (aname ais)]) ++
  match StateStoragePVCStorageClass (Spec ais) with
  | Some c => [DefineStatePVC ais (Some c)] | None => [] end.

Definition appendCloudVolumeMounts (spec : AIStoreSpec) (mounts : list VolumeMount) : list VolumeMount :=
  fold_left (fun m s => match s.1.1 with
    | Some _ => AppendSimpleReadOnlyMount m s.1.2 s.2 | None => m end) (cloud_secrets spec) mounts.

Definition appendDataVolumeMounts (ais : AIStore) (vm : list VolumeMount) : list VolumeMount :=
  vm ++ imap (fun i mnt =>
    let name := if IsHostPath mnt then getHostPathVolumeName i else GetPVCName mnt (aname ais) in
    MkVolumeMount name (mnt_Path mnt) false "") (ts_Mounts (spec_TargetSpec (Spec ais))).

Definition newVolumeMounts (ais : AIStore) : list VolumeMount :=
  appendDataVolumeMounts ais
    (appendCloudVolumeMounts (Spec ais) (NewAISVolumeMounts ais apc_Target)).

Definition createTargetAffinity (ais : AIStore) (ls : labels) : option Affinity :=
  let a := ds_Affinity (target_ds (Spec ais)) in
  if AllowTargetSharedNodes ais then a else Some (CreateAISAffinity a ls).

(** ** Local configuration *)

(** The mount paths with their labels. *)
Definition definePathsWithLabels (spec : TargetSpec) (conf : LocalConfig) : LocalConfig :=
  match ts_Mounts spec with
  | [] => conf
  | mounts =>
      MkLocalConfig (lo_ConfigDir conf) (lo_LogDir conf) (lo_HostNet conf)
        (Some (fold_left (fun m mnt => <[ mnt_Path mnt := default "" (mnt_Label mnt) ]> m) mounts ∅))
  end.

Definition templateLocalConf (spec : AIStoreSpec) (netConfig : LocalNetConfig) : LocalConfig :=
  let localConf := MkLocalConfig StateDir LogsDir netConfig None in
  if bool_decide (ts_Mounts (spec_TargetSpec spec) ≠ [])
  then definePathsWithLabels (spec_TargetSpec spec) localConf else localConf.

Section Build.
Context `{T : ThirdParty}.

Definition newVolumes (ais : AIStore) : list Volume :=
  appendHostPathDataVolumes ais (appendCloudVolumes ais (NewAISVolumes ais apc_Target)).

Definition buildLocalConf (ais : AIStore) : res string :=
  MarshalLocalConf (templateLocalConf (Spec ais) (local_net_config (ds_ServiceSpec (target_ds (Spec ais))))).

Definition NewTargetCM (ais : AIStore) : res ConfigMap :=
  confLocal ← buildLocalConf ais;
  Ok (MkConfigMap (ConfigMapNSName ais) [NewControllerRef ais] {[ AISLocalConfigName := confLocal ]}).

Definition NewTargetHeadlessSvc (ais : AIStore) : ServiceApply :=
  let s := ds_ServiceSpec (target_ds (Spec ais)) in
  MkServiceApply (HeadlessSVCNSName ais) (NewControllerRef ais)
    {[ "prometheus.io/scrape" := "true" ]} (NewServiceLabels (aname ais) "target-svc")
    "" "None" true
    [ svc_port "pub" (svs_ServicePort s) (svs_ServicePort s);
      svc_port "control" (svs_IntraControlPort s) (svs_IntraControlPort s);
      svc_port "data" (svs_IntraDataPort s) (svs_IntraDataPort s) ]
    (SelectorLabels ais).

Definition NewTargetLoadBalancerSVC (ais : AIStore) (targetIndex : Z) : ServiceApply :=
  let s := ds_ServiceSpec (target_ds (Spec ais)) in
  MkServiceApply (LoadBalancerSVCNSName ais targetIndex) (NewControllerRef ais)
    (ExternalAccessLBAnnotations (ds_ExternalAccess (target_ds (Spec ais))))
    (NewServiceLabels (aname ais) "target-lb") "LoadBalancer" "" false
    [svc_port "pub" (svs_ServicePort s) (svs_PublicPort s)]
    (<[ "statefulset.kubernetes.io/pod-name" := PodName ais targetIndex ]> (SelectorLabels ais)).

(** Indices [first], ..., [first + size - 1]. *)
Definition LoadBalancerSVCList (ais : AIStore) (first size : Z) : list ServiceApply :=
  (fun i => NewTargetLoadBalancerSVC ais i) <$> seqZ first size.

Definition NewLoadBalancerSVCList (ais : AIStore) : option (list ServiceApply) :=
  size ← GetTargetSize ais; Some (LoadBalancerSVCList ais 0 size).

Definition NewInitContainerEnv (ais : AIStore) : list EnvVar :=
  CommonInitEnv ais (TargetExternalAccessEnabled ais) ++
  [EnvFromValue "MY_SERVICE" (headlessSVCName (aname ais))] ++
  (match ds_HostPort (target_ds (Spec ais)) with
   | Some _ => if TargetExternalAccessEnabled ais then [] else [Proxy.public_hostname_env ais]
   | None => [] end) ++
  (if UseHostNetwork ais then [EnvFromValue "HOST_NETWORK" "true"] else []).

Definition NewAISContainerEnv (ais : AIStore) : list EnvVar :=
  let baseEnv := CommonEnv ++
    (if HasGCPBackend (Spec ais)
     then [EnvFromValue "GOOGLE_APPLICATION_CREDENTIALS" "/var/gcp/gcp.json"] else []) ++
    (if HasOCIBackend (Spec ais)
     then [EnvFromValue "OCI_CLI_CONFIG_FILE" "/root/.oci/config"] else []) in
  MergeEnvVars baseEnv (ds_Env (target_ds (Spec ais))).

Definition targetPodSpec (ais : AIStore) : option PodSpec :=
  targetSize ← GetTargetSize ais;
  let spec := target_ds (Spec ais) in
  let init := MkContainer InitContainerName (InitImage (Spec ais)) "Always" []
    (NewInitContainerArgs apc_Target (HostnameMap (Spec ais))) (NewInitContainerEnv ais) []
    NewInitResourceReq (Some RestrictedSecurityContext) NewInitVolumeMounts None None None in
  let node := MkContainer AISContainerName (NodeImage (Spec ais)) "Always" ["aisnode"]
    (NewAISContainerArgs targetSize apc_Target) (NewAISContainerEnv ais) (NewDaemonPorts spec)
    (NewResourceReq ais (ds_Resources spec)) (Some (GetAISSecurityContext spec))
    (newVolumeMounts ais) (Some (NewStartupProbe ais apc_Target))
    (Some (NewLivenessProbe ais apc_Target)) (Some (NewReadinessProbe ais apc_Target)) in
  let sidecar := if bool_decide (GetLogSidecarImage ais ≠ "")
                 then [NewLogSidecar ais apc_Target] else [] in
  Some (MkPodSpec [init] (node :: sidecar) (UseHostNetwork ais) (GetTargetDNSPolicy ais)
    (ServiceAccountName ais) None [] (Some (GetPodSecurityContext spec))
    (createTargetAffinity ais (SelectorLabels ais)) (node_selector spec) (newVolumes ais)
    (ds_Tolerations spec) (default "" (PriorityClassName (Spec ais)))).

Definition podLabels (ais : AIStore) : labels :=
  MergePodLabels (ds_Labels (target_ds (Spec ais)))
    (<[ LabelManagedBy := LabelManagedByValue ]> (BasicLabels ais)).

Definition NewTargetSS (ais : AIStore) (expectedSize : Z) : option StatefulSet :=
  pod ← targetPodSpec ais;
  let spec := target_ds (Spec ais) in
  let hash := index (ais_Annotations ais) RestartConfigHashAnnotation in
  Some (MkSS (StatefulSetNSName ais) (<[ LabelManagedBy := LabelManagedByValue ]> (BasicLabels ais))
    {[ RestartConfigHashAnnotation := hash ]} 0
    (MkSSSpec expectedSize (SelectorLabels ais) (headlessSVCName (aname ais)) "Parallel"
       (MkUpdateStrategy OnDeleteStrategy None) (newTargetPVCs ais)
       (MkPodTemplate (podLabels ais)
          (PrepareAnnotations (ds_Annotations spec) (NetAttachment (Spec ais)) (Some hash)) pod)
       (ds_PVCRetentionPolicy spec))
    (MkSSStatus 0 0 0 0 0 "" "")).
End Build.
End Target.
