(* ===== verification/AdminClient.v ===== *)
(** * The admin client deployment

    [internal/resources/aistore/adminclient/deployment.go]: the desired Deployment and its
    in-place synchronization. *)

From S2P Require Import Prelude K8sTypes AISConfig AIStoreTypes ThirdParty AuthConf AIStoreMethods GlobalConfig CmnResources.

Definition DefaultClientImage : string := "docker.io/aistorage/ais-util:latest".
Definition DefaultCABundleKey : string := "trust-bundle.pem".
Definition ClientCAMountPath : string := "/etc/ais-ca".
Definition CAVolumeName : string := "ais-ca".

Definition DeploymentNSName (ais : AIStore) : nsname := in_ns ais (AdminClientName ais).

Definition ca_key (r : CAConfigMapRef) : string := default DefaultCABundleKey (ca_Key r).

Definition caVolumes (caConfigMap : option CAConfigMapRef) : list Volume :=
  match caConfigMap with
  | None => []
  | Some r => [MkVolume CAVolumeName
                 (VConfigMap (ca_Name r) [(ca_key r, ca_key r)] (Some true) CMDefaultMode)]
  end.

Definition caVolumeMounts (caConfigMap : option CAConfigMapRef) : list VolumeMount :=
  match caConfigMap with
  | None => []
  | Some _ => [MkVolumeMount CAVolumeName ClientCAMountPath true ""]
  end.

Definition selectorLabels (ais : AIStore) : labels :=
  {[ LabelAppPrefixed := AdminClientName ais; LabelComponentPrefixed := "client" ]}.

Section Deployment.
Context `{T : ThirdParty}.

Definition caEnvVars (caConfigMap : option CAConfigMapRef) : list EnvVar :=
  match caConfigMap with
  | None => []
  | Some r => [EnvFromValue aisenv_AisClientCA (path_join [ClientCAMountPath; ca_key r])]
  end.

Definition authnEnvVars (authConf : option AuthConfig) : list EnvVar :=
  match authConf with
  | None => []
  | Some c => let url := GetServiceURL c in
      if bool_decide (url ≠ "") then [EnvFromValue aisenv_AisAuthURL url] else []
  end.

Definition buildClientEnv (ais : AIStore) (clientSpec : AdminClientSpec)
    (authConf : option AuthConfig) : list EnvVar :=
  [EnvFromValue aisenv_AisEndpoint (IntraClusterURL ais)] ++ adm_Env clientSpec ++
  caEnvVars (adm_CAConfigMap clientSpec) ++ authnEnvVars authConf.

Definition NewClientDeployment (ais : AIStore) (authConf : option AuthConfig) : option Deployment :=
  clientSpec ← AdminClient (Spec ais);
  let matchLabels := selectorLabels ais in
  let podLabels := adm_Labels clientSpec ∪ selectorLabels ais in
  let container := MkContainer "ais-client" (default DefaultClientImage (adm_Image clientSpec))
    (default "" (adm_ImagePullPolicy clientSpec)) ["sleep"; "infinity"] []
    (buildClientEnv ais clientSpec authConf) [] (adm_Resources clientSpec) None
    (caVolumeMounts (adm_CAConfigMap clientSpec)) None None None in
  Some (MkDeployment (DeploymentNSName ais) matchLabels (adm_Annotations clientSpec) [] 1 matchLabels
    (MkPodTemplate podLabels (adm_Annotations clientSpec)
       (MkPodSpec [] [container] false "" "default" (Some false) (ImagePullSecrets (Spec ais)) None
          (adm_Affinity clientSpec) (adm_NodeSelector clientSpec)
          (caVolumes (adm_CAConfigMap clientSpec)) (adm_Tolerations clientSpec) ""))).

(** ** Synchronization

    Each field is overwritten, and its reason recorded, only when it differs. *)

Definition sync_field {A} `{EqDecision A} (desired current : A) (reason : string) : A * list string :=
  if DeepEqual desired current then (current, []) else (desired, [reason]).

(** Plain string comparison. *)
Definition sync_string (desired current reason : string) : string * list string :=
  if bool_decide (desired = current) then (current, []) else (desired, [reason]).

Definition client_syncContainerSpec (d c : Container) : Container * list string :=
  let '(image, r1) := sync_string (ct_Image d) (ct_Image c) "image" in
  let '(pull, r2) := if bool_decide (ct_ImagePullPolicy d ≠ "")
    then sync_string (ct_ImagePullPolicy d) (ct_ImagePullPolicy c) "imagePullPolicy"
    else (ct_ImagePullPolicy c, []) in
  let '(env, r3) := sync_field (ct_Env d) (ct_Env c) "env" in
  let '(res, r4) := sync_field (ct_Resources d) (ct_Resources c) "resources" in
  let '(vm, r5) := sync_field (ct_VolumeMounts d) (ct_VolumeMounts c) "volumeMounts" in
  (MkContainer (ct_Name c) image pull (ct_Command c) (ct_Args c) env (ct_Ports c) res
     (ct_SecurityContext c) vm (ct_StartupProbe c) (ct_LivenessProbe c) (ct_ReadinessProbe c),
   r1 ++ r2 ++ r3 ++ r4 ++ r5).

(** The template synchronized, given its containers already are. *)
Definition client_syncPodTemplateSpec (d m : PodTemplateSpec) (containers : list Container)
    : PodTemplateSpec * list string :=
  let ds := pt_Spec d in let ms := pt_Spec m in
  let '(sa, r1) := sync_string (ps_ServiceAccountName ds) (ps_ServiceAccountName ms) "serviceAccountName" in
  let '(am, r2) := sync_field (ps_AutomountServiceAccountToken ds)
    (ps_AutomountServiceAccountToken ms) "automountServiceAccountToken" in
  let '(ips, r3) := sync_field (ps_ImagePullSecrets ds) (ps_ImagePullSecrets ms) "imagePullSecrets" in
  let '(vol, r4) := sync_field (ps_Volumes ds) (ps_Volumes ms) "volumes" in
  let '(sel, r5) := sync_field (ps_NodeSelector ds) (ps_NodeSelector ms) "nodeSelector" in
  let '(aff, r6) := sync_field (ps_Affinity ds) (ps_Affinity ms) "affinity" in
  let '(tol, r7) := sync_field (ps_Tolerations ds) (ps_Tolerations ms) "tolerations" in
  let '(ls, r8) := sync_field (pt_Labels d) (pt_Labels m) "pod labels" in
  let '(an, r9) := sync_field (pt_Annotations d) (pt_Annotations m) "annotations" in
  (MkPodTemplate ls an
     (MkPodSpec (ps_InitContainers ms) containers (ps_HostNetwork ms) (ps_DNSPolicy ms) sa am ips
        (ps_SecurityContext ms) aff sel vol tol (ps_PriorityClassName ms)),
   r1 ++ r2 ++ r3 ++ r4 ++ r5 ++ r6 ++ r7 ++ r8 ++ r9).

(** [None]: one of the deployments has no container (an index panic). The second component
    is the list of reasons; an update is needed when there is one. *)
Definition SyncDeployment (desired modified : Deployment) : option (Deployment * bool * string) :=
  match ps_Containers (pt_Spec (dep_Template desired)), ps_Containers (pt_Spec (dep_Template modified)) with
  | d :: _, m :: ms =>
      let '(c, r1) := client_syncContainerSpec d m in
      let '(t, r2) := client_syncPodTemplateSpec (dep_Template desired) (dep_Template modified) (c :: ms) in
      let '(ls, r3) := sync_field (dep_Labels desired) (dep_Labels modified) "deployment labels" in
      let reasons := r1 ++ r2 ++ r3 in
      let dep := MkDeployment (dep_Name modified) ls (dep_Annotations modified) (dep_Owners modified)
        (dep_Replicas modified) (dep_Selector modified) t in
      Some (dep, negb (bool_decide (reasons = [])), join ", " reasons)
  | _, _ => None
  end.
End Deployment.

(** ** Facts *)

Section SyncFacts.
Context `{T : ThirdParty, L : !ThirdPartyLaws T}.

Lemma sync_field_fst {A} `{EqDecision A} (d c : A) r : (sync_field d c r).1 = d.
Proof.
  unfold sync_field. destruct (DeepEqual d c) eqn:E; [|done].
  apply DeepEqual_spec in E. by subst.
Qed.
Lemma sync_field_snd {A} `{EqDecision A} (d c : A) r : (sync_field d c r).2 = [] <-> c = d.
Proof.
  unfold sync_field. destruct (DeepEqual d c) eqn:E; cbn.
  - apply DeepEqual_spec in E. by subst.
  - split; [done|]. intros ->. by rewrite (proj2 (DeepEqual_spec _ _ d d)) in E.
Qed.
Lemma sync_string_fst d c r : (sync_string d c r).1 = d.
Proof. unfold sync_string. by case_bool_decide. Qed.
Lemma sync_string_snd d c r : (sync_string d c r).2 = [] <-> c = d.
Proof. unfold sync_string. case_bool_decide; cbn; naive_solver. Qed.
End SyncFacts.
