(* ===== verification/Templates.v ===== *)
(** * Pod template comparison and synchronization

    The first half of [internal/controller/aistore/common.go]: which differences between the
    desired and the current pod template start a rollout ([shouldUpdatePodTemplate]), and
    the copy that brings the current template to the desired one ([syncPodTemplate]). *)

From S2P Require Import Prelude K8sTypes AISConfig AIStoreTypes ThirdParty AIStoreMethods GlobalConfig CmnResources.

(** What a check answers: whether to roll out, and why. *)
Abbreviation verdict := (bool * string)%type.
Definition no_update : verdict := (false, "").

(** The first positive verdict, else none. *)
Definition first_update (vs : list verdict) : verdict :=
  match List.find fst vs with Some v => v | None => no_update end.

Record containerChecks := MkChecks {
  chk_env : bool; chk_resources : bool; chk_probes : bool; chk_securityContext : bool }.

Definition primaryContainerChecks : containerChecks := MkChecks true true true true.
Definition sidecarContainerChecks : containerChecks := MkChecks false true false true.
Definition initContainerChecks : containerChecks := MkChecks false false false true.

Definition containerChecksFor (name : string) : containerChecks :=
  if bool_decide (name = AISContainerName) then primaryContainerChecks else sidecarContainerChecks.

Definition envSliceToMap (envs : list EnvVar) : labels :=
  fold_left (fun m e => <[ env_Name e := env_Value e ]> m) envs ∅.

(** Volumes by name: the last one wins. *)
Definition volume_map (vs : list Volume) : gmap string Volume :=
  fold_left (fun m v => <[ vol_Name v := v ]> m) vs ∅.

Inductive SyncMode := SyncModeIgnoreNone | SyncModeIgnoreRemovedEnv | SyncModeIgnoreAddedEnv.

Section Checks.
Context `{T : ThirdParty}.

Definition shouldUpdateProbes (desired current : Container) : bool :=
  negb (DeepEqual (ct_LivenessProbe desired) (ct_LivenessProbe current)) ||
  negb (DeepEqual (ct_ReadinessProbe desired) (ct_ReadinessProbe current)) ||
  negb (DeepEqual (ct_StartupProbe desired) (ct_StartupProbe current)).

Definition shouldUpdateContainerSpec (desired current : Container) (c : containerChecks) : verdict :=
  let reason detail := "container " +:+ quoted (ct_Name desired) +:+ ": " +:+ detail in
  if bool_decide (ct_Name desired ≠ ct_Name current)
  then (true, reason ("renamed from " +:+ quoted (ct_Name current)))
  else if bool_decide (ct_Image desired ≠ ct_Image current) then (true, reason "updating image")
  else if chk_env c && negb (DeepEqual (ct_Env desired) (ct_Env current))
  then (true, reason "updating env variables")
  else if chk_resources c && negb (DeepEqual (ct_Resources desired) (ct_Resources current))
  then (true, reason "updating resource requests/limits")
  else if chk_probes c && shouldUpdateProbes desired current
  then (true, reason "updating health probes")
  else if chk_securityContext c &&
          negb (DeepEqual (ct_SecurityContext desired) (ct_SecurityContext current))
  then (true, reason "updating security context")
  else no_update.

Definition shouldUpdateInitContainers (desired current : PodTemplateSpec) : verdict :=
  let d := ps_InitContainers (pt_Spec desired) in let c := ps_InitContainers (pt_Spec current) in
  if negb (length d =? length c)%nat then (true, "updating desired init containers")
  else first_update (zip_with (fun x y => shouldUpdateContainerSpec x y initContainerChecks) d c).

Definition shouldUpdateContainers (desired current : PodTemplateSpec) : verdict :=
  let d := ps_Containers (pt_Spec desired) in let c := ps_Containers (pt_Spec current) in
  if negb (length d =? length c)%nat then (true, "updating desired containers")
  else first_update
    (zip_with (fun x y => shouldUpdateContainerSpec x y (containerChecksFor (ct_Name x))) d c).

Definition shouldUpdatePodSecurityContext (desired current : PodTemplateSpec) : verdict :=
  if negb (DeepEqual (ps_SecurityContext (pt_Spec desired)) (ps_SecurityContext (pt_Spec current)))
  then (true, "updating security context for pod") else no_update.

Definition shouldUpdateAnnotations (desired current : PodTemplateSpec) : verdict :=
  let desiredAnn := pt_Annotations desired in let currentAnn := pt_Annotations current in
  if DeepDerivative desiredAnn currentAnn then no_update
  else
    let reason := "updating annotations" in
    match desiredAnn !! RestartConfigHashAnnotation with
    | None => (true, reason)
    | Some restartHash =>
        let nonInitial := negb (has_suffix restartHash RestartConfigHashInitial) in
        if nonInitial && bool_decide (restartHash ≠ index currentAnn RestartConfigHashAnnotation)
        then (true, "updating annotations due to changed restart config hash")
        else (negb (DeepDerivative (delete RestartConfigHashAnnotation desiredAnn) currentAnn), reason)
    end.

Definition onlyManagedByLabelAdded (desired current : labels) : bool :=
  if bool_decide (index current LabelManagedBy = LabelManagedByValue) then false
  else if bool_decide (index desired LabelManagedBy ≠ LabelManagedByValue) then false
  else DeepEqual (delete LabelManagedBy desired) current.

Definition shouldUpdateLabels (desired current : PodTemplateSpec) : verdict :=
  if DeepEqual (pt_Labels desired) (pt_Labels current) then no_update
  else if onlyManagedByLabelAdded (pt_Labels desired) (pt_Labels current) then no_update
  else (true, "updating labels").

Definition volume_verdict (currentMap : gmap string Volume) (dv : Volume) : verdict :=
  match currentMap !! vol_Name dv with
  | Some cv => if DeepEqual dv cv then no_update
               else (true, "updating volumes (" +:+ vol_Name dv +:+ " changed)")
  | None => (true, "updating volumes (" +:+ vol_Name dv +:+ " changed)")
  end.

Definition shouldUpdateVolumes (desired current : PodTemplateSpec) : verdict :=
  let d := ps_Volumes (pt_Spec desired) in let c := ps_Volumes (pt_Spec current) in
  if (length c <? length d)%nat then (true, "updating volumes (new volumes)")
  else if (length d <? length c)%nat then (true, "updating volumes (removed volumes)")
  else first_update (volume_verdict (volume_map c) <$> d).

Definition shouldUpdatePriorityClass (desired current : PodTemplateSpec) : verdict :=
  if bool_decide (ps_PriorityClassName (pt_Spec desired) ≠ ps_PriorityClassName (pt_Spec current))
  then (true, "updating priority class name") else no_update.

Definition shouldUpdateTolerations (desired current : PodTemplateSpec) : verdict :=
  if negb (DeepEqual (ps_Tolerations (pt_Spec desired)) (ps_Tolerations (pt_Spec current)))
  then (true, "updating tolerations") else no_update.

Definition shouldUpdate (desired current : PodTemplateSpec)
    (funcs : list (PodTemplateSpec -> PodTemplateSpec -> verdict)) : verdict :=
  first_update ((fun f => f desired current) <$> funcs).

Definition shouldUpdatePodTemplate (desired current : PodTemplateSpec) : verdict :=
  shouldUpdate desired current
    [ shouldUpdateInitContainers; shouldUpdateContainers; shouldUpdatePodSecurityContext;
      shouldUpdateAnnotations; shouldUpdateLabels; shouldUpdateVolumes;
      shouldUpdatePriorityClass; shouldUpdateTolerations ].

(** [compareEnvWithIgnored]: [ignored] is the set of variables the mode applies to. *)
Definition compareEnvWithIgnored (des cur : list EnvVar) (ignored : gset string)
    (mode : SyncMode) : bool :=
  let desired := envSliceToMap des in let current := envSliceToMap cur in
  let normalize (m : labels) : labels := filter (fun kv => kv.1 ∉ ignored) m in
  if negb (DeepEqual (normalize desired) (normalize current)) then true
  else existsb (fun env =>
    match mode, desired !! env, current !! env with
    | SyncModeIgnoreRemovedEnv, None, _ => false
    | SyncModeIgnoreAddedEnv, _, None => false
    | _, d, c => bool_decide (default "" d ≠ default "" c)
    end) (elements ignored).

(** ** Synchronization *)

Definition syncContainer (desired current : Container) : Container * bool :=
  if DeepEqual desired current then (current, false) else (desired, true).

Definition syncContainers (desired current : list Container) : list Container * bool :=
  if negb (length desired =? length current)%nat then (desired, true)
  else
    let l := zip_with syncContainer desired current in
    (l.*1, existsb snd l).

(** A field overwritten when the comparison tells the two apart. *)
Definition sync_if {A} (differ : bool) (desired current : A) : A * bool :=
  if differ then (desired, true) else (current, false).

Definition syncPodTemplate (desired current : PodTemplateSpec) : PodTemplateSpec * bool :=
  let d := pt_Spec desired in let c := pt_Spec current in
  let '(ic, u1) := syncContainers (ps_InitContainers d) (ps_InitContainers c) in
  let '(cs, u2) := syncContainers (ps_Containers d) (ps_Containers c) in
  let '(an, u3) := sync_if (negb (DeepDerivative (pt_Annotations desired) (pt_Annotations current)))
                     (pt_Annotations desired) (pt_Annotations current) in
  let '(ls, u4) := sync_if (negb (DeepEqual (pt_Labels desired) (pt_Labels current)))
                     (pt_Labels desired) (pt_Labels current) in
  let '(sc, u5) := sync_if (negb (DeepEqual (ps_SecurityContext d) (ps_SecurityContext c)))
                     (ps_SecurityContext d) (ps_SecurityContext c) in
  let '(vs, u6) := sync_if (negb (DeepEqual (ps_Volumes d) (ps_Volumes c)))
                     (ps_Volumes d) (ps_Volumes c) in
  let '(pc, u7) := sync_if (bool_decide (ps_PriorityClassName d ≠ ps_PriorityClassName c))
                     (ps_PriorityClassName d) (ps_PriorityClassName c) in
  let '(tl, u8) := sync_if (negb (DeepEqual (ps_Tolerations d) (ps_Tolerations c)))
                     (ps_Tolerations d) (ps_Tolerations c) in
  (MkPodTemplate ls an
     (MkPodSpec ic cs (ps_HostNetwork c) (ps_DNSPolicy c) (ps_ServiceAccountName c)
        (ps_AutomountServiceAccountToken c) (ps_ImagePullSecrets c) sc (ps_Affinity c)
        (ps_NodeSelector c) vs tl pc),
   u1 || u2 || u3 || u4 || u5 || u6 || u7 || u8).

(** [desired] unset: the current policy must be unset or the default. *)
Definition shouldUpdatePVCRetentionPolicy (desired current : option PVCRetentionPolicy) : bool :=
  match desired with
  | None =>
      match current with
      | None => false
      | Some c => bool_decide (WhenDeleted c ≠ RetainPolicy) || bool_decide (WhenScaled c ≠ RetainPolicy)
      end
  | Some _ => negb (DeepEqual desired current)
  end.
End Checks.

(** ** Facts *)

Lemma first_update_true vs : (first_update vs).1 = true <-> Exists (fun v => v.1 = true) vs.
Proof.
  unfold first_update. induction vs as [|v vs IH]; cbn.
  { by rewrite Exists_nil. }
  rewrite Exists_cons. destruct v.1 eqn:Hv; [rewrite Hv|]; naive_solver.
Qed.

Lemma first_update_none vs : Forall (fun v => v.1 = false) vs -> first_update vs = no_update.
Proof. unfold first_update. induction 1 as [|v vs Hv _ IH]; cbn; [done|]. by rewrite Hv. Qed.

Lemma volume_map_lookup vs v :
  NoDup (vol_Name <$> vs) -> v ∈ vs -> volume_map vs !! vol_Name v = Some v.
Proof.
  unfold volume_map. induction vs as [|x vs IH] using rev_ind; [by intros _ ?%elem_of_nil|].
  rewrite fmap_app, fold_left_app, NoDup_app. cbn. intros (Hnd & Hx & _).
  rewrite elem_of_app, list_elem_of_singleton. intros [Hv| ->]; [|by rewrite lookup_insert_eq].
  rewrite lookup_insert_ne; [by apply IH|]. intros Heq.
  apply (Hx (vol_Name v)); [by apply list_elem_of_fmap_2 | rewrite <-Heq; by left].
Qed.

Section Facts.
Context `{T : ThirdParty, L : !ThirdPartyLaws T}.

Lemma DeepEqual_refl {A} `{EqDecision A} (x : A) : DeepEqual x x = true.
Proof. by apply DeepEqual_spec. Qed.
Lemma DeepEqual_false {A} `{EqDecision A} (x y : A) : DeepEqual x y = false <-> x ≠ y.
Proof. rewrite <-not_true_iff_false. by rewrite DeepEqual_spec. Qed.
Lemma DeepDerivative_refl (m : labels) : DeepDerivative m m = true.
Proof. apply DeepDerivative_spec. eauto. Qed.

(** The template a StatefulSet has once it is synchronized with the desired one. *)
Definition in_sync (d c : PodTemplateSpec) : Prop :=
  ps_InitContainers (pt_Spec d) = ps_InitContainers (pt_Spec c) /\
  ps_Containers (pt_Spec d) = ps_Containers (pt_Spec c) /\
  DeepDerivative (pt_Annotations d) (pt_Annotations c) = true /\
  pt_Labels d = pt_Labels c /\
  ps_SecurityContext (pt_Spec d) = ps_SecurityContext (pt_Spec c) /\
  ps_Volumes (pt_Spec d) = ps_Volumes (pt_Spec c) /\
  ps_PriorityClassName (pt_Spec d) = ps_PriorityClassName (pt_Spec c) /\
  ps_Tolerations (pt_Spec d) = ps_Tolerations (pt_Spec c).

Lemma syncContainer_fst d c : (syncContainer d c).1 = d.
Proof. unfold syncContainer. destruct (DeepEqual d c) eqn:E; [|done]. by apply DeepEqual_spec in E. Qed.
Lemma syncContainer_snd d c : (syncContainer d c).2 = false <-> d = c.
Proof.
  unfold syncContainer. destruct (DeepEqual d c) eqn:E; cbn.
  - by apply DeepEqual_spec in E.
  - apply DeepEqual_false in E. naive_solver.
Qed.

Lemma syncContainers_fst d c : (syncContainers d c).1 = d.
Proof.
  unfold syncContainers. destruct (Nat.eqb_spec (length d) (length c)) as [Hl|]; cbn; [|done].
  revert c Hl. induction d as [|x d IH]; intros [|y c] Hl; cbn in *; [done..|].
  by rewrite syncContainer_fst, IH by lia.
Qed.
Lemma syncContainers_snd d c : (syncContainers d c).2 = false <-> d = c.
Proof.
  unfold syncContainers. destruct (Nat.eqb_spec (length d) (length c)) as [Hl|Hl]; cbn.
  - revert c Hl. induction d as [|x d IH]; intros [|y c] Hl; cbn in *; [done..|].
    rewrite orb_false_iff, syncContainer_snd, IH by lia. naive_solver.
  - split; [done | by intros ->].
Qed.

Lemma sync_if_snd {A} b (d c : A) : (sync_if b d c).2 = b.
Proof. by destruct b. Qed.
Lemma sync_if_deep {A} `{EqDecision A} (d c : A) : (sync_if (negb (DeepEqual d c)) d c).1 = d.
Proof.
  destruct (DeepEqual d c) eqn:E; cbn; [|done]. by apply DeepEqual_spec in E.
Qed.

(** The synchronized template is in sync, and synchronization reports a change exactly when
    the template was not. *)
Lemma syncPodTemplate_in_sync d c : in_sync d (syncPodTemplate d c).1.
Proof.
  unfold in_sync, syncPodTemplate.
  pose proof (syncContainers_fst (ps_InitContainers (pt_Spec d)) (ps_InitContainers (pt_Spec c))).
  pose proof (syncContainers_fst (ps_Containers (pt_Spec d)) (ps_Containers (pt_Spec c))).
  pose proof (sync_if_deep (pt_Labels d) (pt_Labels c)).
  pose proof (sync_if_deep (ps_SecurityContext (pt_Spec d)) (ps_SecurityContext (pt_Spec c))).
  pose proof (sync_if_deep (ps_Volumes (pt_Spec d)) (ps_Volumes (pt_Spec c))).
  pose proof (sync_if_deep (ps_Tolerations (pt_Spec d)) (ps_Tolerations (pt_Spec c))).
  do 2 destruct (syncContainers _ _). do 4 destruct (sync_if (negb (DeepEqual _ _)) _ _).
  destruct (DeepDerivative (pt_Annotations d) (pt_Annotations c)) eqn:Ha; case_bool_decide;
    cbn in *; subst; repeat split; auto using DeepDerivative_refl; by apply dec_stable.
Qed.

Lemma syncPodTemplate_changed d c : (syncPodTemplate d c).2 = false <-> in_sync d c.
Proof.
  unfold syncPodTemplate, in_sync.
  rewrite <-(syncContainers_snd (ps_InitContainers _)), <-(syncContainers_snd (ps_Containers _)).
  destruct (syncContainers (ps_InitContainers _) _), (syncContainers (ps_Containers _) _).
  rewrite <-(DeepEqual_spec _ _ (pt_Labels d)), <-(DeepEqual_spec _ _ (ps_SecurityContext _)),
    <-(DeepEqual_spec _ _ (ps_Volumes _)), <-(DeepEqual_spec _ _ (ps_Tolerations _)).
  unfold sync_if. cbn.
  repeat match goal with |- context [DeepEqual ?x ?y] => destruct (DeepEqual x y) end;
    destruct (DeepDerivative _ _); case_bool_decide; cbn; rewrite ?orb_true_r, ?orb_false_r, ?orb_false_iff;
    naive_solver.
Qed.

Lemma shouldUpdateContainerSpec_refl x k : (shouldUpdateContainerSpec x x k).1 = false.
Proof.
  unfold shouldUpdateContainerSpec, shouldUpdateProbes. rewrite !bool_decide_eq_false_2 by auto.
  rewrite !DeepEqual_refl. cbn. by rewrite !andb_false_r.
Qed.

Lemma containers_refl (f : Container -> containerChecks) l :
  first_update (zip_with (fun x y => shouldUpdateContainerSpec x y (f x)) l l) = no_update.
Proof.
  apply first_update_none. induction l; constructor; [apply shouldUpdateContainerSpec_refl | done].
Qed.

(** A template in sync starts no rollout. *)
Lemma in_sync_no_update d c :
  NoDup (vol_Name <$> ps_Volumes (pt_Spec d)) -> in_sync d c ->
  shouldUpdatePodTemplate d c = no_update.
Proof.
  intros Hnd (Hi & Hc & Ha & Hl & Hs & Hv & Hp & Ht).
  unfold shouldUpdatePodTemplate, shouldUpdate. apply first_update_none. cbn.
  rewrite !Forall_cons; split_and!; try by apply Forall_nil.
  - unfold shouldUpdateInitContainers. rewrite <-Hi, Nat.eqb_refl. cbn.
    by rewrite (containers_refl (fun _ => initContainerChecks)).
  - unfold shouldUpdateContainers. rewrite <-Hc, Nat.eqb_refl. cbn.
    by rewrite (containers_refl (fun x => containerChecksFor (ct_Name x))).
  - unfold shouldUpdatePodSecurityContext. by rewrite <-Hs, DeepEqual_refl.
  - unfold shouldUpdateAnnotations. by rewrite Ha.
  - unfold shouldUpdateLabels. by rewrite <-Hl, DeepEqual_refl.
  - unfold shouldUpdateVolumes. rewrite <-Hv, Nat.ltb_irrefl.
    rewrite first_update_none; [done|]. apply Forall_fmap, Forall_forall. intros v Hin.
    unfold compose, volume_verdict. by rewrite volume_map_lookup, DeepEqual_refl.
  - unfold shouldUpdatePriorityClass. rewrite Hp. by case_bool_decide.
  - unfold shouldUpdateTolerations. by rewrite <-Ht, DeepEqual_refl.
Qed.
End Facts.
