(* ===== verification/Rollout.v ===== *)
(** * Progress predicates

    The second half of [internal/controller/aistore/common.go]: the status of StatefulSets
    and pods, when a StatefulSet may be scaled, the matching of AIS nodes with pods, taints,
    and the public hosts of nodes ([NodePrimaryIP] of [internal/client/api.go]). *)

From S2P Require Import Prelude K8sTypes AISConfig AIStoreTypes ThirdParty AIStoreMethods.

(** ** StatefulSets *)

Definition isStatusCurrent (ss : StatefulSet) : bool :=
  ss_Generation ss <=? ssst_ObservedGeneration (ss_Status ss).

Definition isRolloutInProgress (ss : StatefulSet) : bool :=
  let st := ss_Status ss in
  if bool_decide (ssst_UpdateRevision st = "") then false
  else if bool_decide (ssst_CurrentRevision st = ssst_UpdateRevision st) then false
  else if bool_decide (us_Type (sss_UpdateStrategy (ss_Spec ss)) = OnDeleteStrategy)
  then ssst_UpdatedReplicas st <? Z.min (sss_Replicas (ss_Spec ss)) (ssst_Replicas st)
  else true.

Definition isScalingInProgress (ss : StatefulSet) : bool :=
  if isRolloutInProgress ss then false
  else negb (ssst_Replicas (ss_Status ss) =? sss_Replicas (ss_Spec ss)).

Definition statefulsetScalingNeeded (ss : StatefulSet) (desired maxUnavailable : Z)
    (autoScaling : bool) : bool :=
  let specReplicas := sss_Replicas (ss_Spec ss) in
  if specReplicas <? desired then true
  else if desired =? specReplicas then false
  else if negb autoScaling then true
  else if isRolloutInProgress ss || isScalingInProgress ss then false
  else
    let unavailable := i32 (specReplicas - ssst_ReadyReplicas (ss_Status ss)) in
    (unavailable =? 0) || (maxUnavailable <? unavailable).

Definition isStatefulSetFullyReady (desiredSize : Z) (ss : StatefulSet) : bool :=
  let specReplicas := sss_Replicas (ss_Spec ss) in
  let st := ss_Status ss in
  if negb (specReplicas =? desiredSize) then false
  else if bool_decide (ssst_UpdateRevision st ≠ "") && negb (specReplicas =? ssst_UpdatedReplicas st) then false
  else if negb (ssst_Replicas st =? specReplicas) then false
  else specReplicas =? ssst_ReadyReplicas st.

Definition isStatefulSetReady (ss : StatefulSet) (desired minReady : Z) (autoScaling : bool) : bool :=
  if isStatefulSetFullyReady desired ss then true
  else if negb autoScaling then false
  else if isRolloutInProgress ss || isScalingInProgress ss then false
  else minReady <=? ssst_ReadyReplicas (ss_Status ss).

(** ** Pods ([nil] is [None]) *)

Definition ControllerRevisionHashLabelKey : string := "controller-revision-hash".

Definition isPodActive (pod : option Pod) : bool :=
  match pod with Some p => negb (pod_Deleting p) | None => false end.

Definition isPodReady (pod : option Pod) : bool :=
  match pod with
  | Some p => if negb (isPodActive pod) then false
      else existsb (fun c => bool_decide (pc_Type c = "Ready") && bool_decide (pc_Status c = CondTrue))
             (pod_Conditions p)
  | None => false
  end.

Definition isPodOnRevision (pod : option Pod) (revision : string) : bool :=
  match pod with
  | Some p => bool_decide (revision ≠ "") &&
              bool_decide (index (pod_Labels p) ControllerRevisionHashLabelKey = revision)
  | None => false
  end.

Definition isPodUnschedulable (pod : option Pod) : bool :=
  match pod with
  | Some p => existsb (fun c => bool_decide (pc_Type c = "PodScheduled") &&
                bool_decide (pc_Status c = CondFalse) && bool_decide (pc_Reason c = "Unschedulable"))
              (pod_Conditions p)
  | None => false
  end.

Definition isPodInCrashLoopBackOff (pod : Pod) : bool :=
  existsb (fun w => bool_decide (w = Some "CrashLoopBackOff")) (pod_Waiting pod).

(** [target_controllers.go] *)
Definition isPodRolloutCompleted (pod : option Pod) : bool :=
  if negb (isPodActive pod) then false
  else if isPodUnschedulable pod then true
  else isPodReady pod.

(** ** AIS nodes and pods *)

Definition hostnameMatchesPod (hostname podName : string) : bool :=
  bool_decide (hostname = podName) || has_prefix hostname (podName +:+ ".").

Definition findAISNodeByPodName (nodeMap : list Snode) (podName : string) : res Snode :=
  match List.find (fun n => hostnameMatchesPod (sn_ControlHostname n) podName) nodeMap with
  | Some n => Ok n
  | None => Err (errorf ("no matching AIS node found for pod " +:+ quoted podName))
  end.

(** ** Nodes *)

(** The first address of the given type that is not empty. *)
Definition address_of_type (node : Node) (t : string) : option string :=
  na_Address <$> List.find (fun a => bool_decide (na_Type a = t) && bool_decide (na_Address a ≠ ""))
                   (node_Addresses node).

Definition NodePrimaryIP (node : Node) : string :=
  match address_of_type node "InternalIP" with
  | Some a => a
  | None => default "" (address_of_type node "ExternalIP")
  end.

Definition publicHostsForNodes (nodes : list Node) (mode : PubNetDNSMode) : list string :=
  match mode with
  | PubNetDNSModePod => []
  | PubNetDNSModeNode => node_Name <$> nodes
  | PubNetDNSModeIP => filter (fun ip => ip ≠ "") (NodePrimaryIP <$> nodes)
  end.

Section Taints.
Context `{T : ThirdParty}.

Definition toleratesTaints (tolerations : list Toleration) (node : Node) : bool :=
  forallb (fun taint =>
    (bool_decide (taint_Effect taint ≠ "NoSchedule") && bool_decide (taint_Effect taint ≠ "NoExecute")) ||
    existsb (fun t => ToleratesTaint t taint) tolerations) (node_Taints node).
End Taints.

(** ** Facts *)

(** A rollout and a scaling operation are never in progress together. *)
Lemma rollout_scaling_exclusive ss :
  isRolloutInProgress ss = true -> isScalingInProgress ss = false.
Proof. unfold isScalingInProgress. by intros ->. Qed.

(** Neither scaling nor a rollout: the pods counted are those of the spec. *)
Lemma settled_replicas ss :
  isRolloutInProgress ss = false -> isScalingInProgress ss = false ->
  ssst_Replicas (ss_Status ss) = sss_Replicas (ss_Spec ss).
Proof. unfold isScalingInProgress. intros -> H. by reflect_bools. Qed.

Lemma fully_ready_spec desired ss :
  isStatefulSetFullyReady desired ss = true <->
  sss_Replicas (ss_Spec ss) = desired /\
  (ssst_UpdateRevision (ss_Status ss) ≠ "" -> ssst_UpdatedReplicas (ss_Status ss) = desired) /\
  ssst_Replicas (ss_Status ss) = desired /\ ssst_ReadyReplicas (ss_Status ss) = desired.
Proof.
  unfold isStatefulSetFullyReady.
  destruct (Z.eqb_spec (sss_Replicas (ss_Spec ss)) desired) as [->|]; cbn; [|naive_solver].
  case_bool_decide as Hr; cbn.
  - destruct (Z.eqb_spec desired (ssst_UpdatedReplicas (ss_Status ss))) as [<-|]; cbn; [|naive_solver].
    destruct (Z.eqb_spec (ssst_Replicas (ss_Status ss)) desired) as [->|]; cbn; [|naive_solver].
    rewrite Z.eqb_eq. naive_solver.
  - destruct (Z.eqb_spec (ssst_Replicas (ss_Status ss)) desired) as [->|]; cbn; [|naive_solver].
    rewrite Z.eqb_eq. naive_solver.
Qed.

(** A ready StatefulSet has at least [minReady] ready pods, has no pod to add or remove, and is
    not rolling out a revision pod by pod. *)
Lemma ready_spec ss desired minReady autoScaling :
  minReady <= desired ->
  isStatefulSetReady ss desired minReady autoScaling = true ->
  minReady <= ssst_ReadyReplicas (ss_Status ss) /\
  ssst_Replicas (ss_Status ss) = sss_Replicas (ss_Spec ss) /\
  (autoScaling = false -> sss_Replicas (ss_Spec ss) = desired /\ ssst_ReadyReplicas (ss_Status ss) = desired).
Proof.
  intros Hm. unfold isStatefulSetReady.
  destruct (isStatefulSetFullyReady desired ss) eqn:Hf.
  { apply fully_ready_spec in Hf as (? & ? & ? & ?). intros _. lia. }
  destruct autoScaling; cbn; [|done].
  destruct (isRolloutInProgress ss) eqn:Hr; cbn; [done|].
  destruct (isScalingInProgress ss) eqn:Hs; cbn; [done|].
  intros H. reflect_bools. split_and!; [done | by apply settled_replicas | done].
Qed.

(** Exactly when scaling is needed. *)
Lemma scaling_needed_spec ss desired maxUnavailable autoScaling :
  is_i32 (sss_Replicas (ss_Spec ss) - ssst_ReadyReplicas (ss_Status ss)) ->
  let spec := sss_Replicas (ss_Spec ss) in
  let unavailable := spec - ssst_ReadyReplicas (ss_Status ss) in
  statefulsetScalingNeeded ss desired maxUnavailable autoScaling = true <->
  spec < desired \/
  (desired < spec /\
   (autoScaling = false \/
    isRolloutInProgress ss = false /\ isScalingInProgress ss = false /\
    (unavailable = 0 \/ maxUnavailable < unavailable))).
Proof.
  cbv zeta. intros Hi. unfold statefulsetScalingNeeded. rewrite i32_id by done.
  destruct (Z.ltb_spec (sss_Replicas (ss_Spec ss)) desired); [naive_solver lia|].
  destruct (Z.eqb_spec desired (sss_Replicas (ss_Spec ss))); [naive_solver lia|].
  destruct autoScaling; cbn; [|naive_solver lia].
  rewrite <-Z.eqb_eq, <-Z.ltb_lt.
  destruct (isRolloutInProgress ss), (isScalingInProgress ss); cbn; rewrite ?orb_true_iff;
    naive_solver lia.
Qed.

Lemma findAISNode_Ok nodes pod n :
  findAISNodeByPodName nodes pod = Ok n ->
  n ∈ nodes /\ hostnameMatchesPod (sn_ControlHostname n) pod = true.
Proof.
  unfold findAISNodeByPodName. destruct (List.find _ _) eqn:E; [|done]. intros [= <-].
  apply List.find_some in E as [? ?]. by rewrite list_elem_of_In.
Qed.

Lemma findAISNode_Err nodes pod e :
  findAISNodeByPodName nodes pod = Err e ->
  forall n, n ∈ nodes -> hostnameMatchesPod (sn_ControlHostname n) pod = false.
Proof.
  unfold findAISNodeByPodName. destruct (List.find _ _) eqn:E; [done|]. intros _ n Hn.
  apply (List.find_none _ _ E). by apply list_elem_of_In.
Qed.

Lemma toleratesTaints_spec `{T : ThirdParty} tols node :
  toleratesTaints tols node = true <->
  forall t, t ∈ node_Taints node -> taint_Effect t ∈ ["NoSchedule"; "NoExecute"] ->
  exists tol, tol ∈ tols /\ ToleratesTaint tol t = true.
Proof.
  unfold toleratesTaints. rewrite List.forallb_forall.
  setoid_rewrite <-list_elem_of_In. setoid_rewrite orb_true_iff. setoid_rewrite andb_true_iff.
  setoid_rewrite bool_decide_eq_true. setoid_rewrite List.existsb_exists.
  setoid_rewrite <-list_elem_of_In. setoid_rewrite elem_of_cons. setoid_rewrite list_elem_of_singleton.
  split; intros H t Ht.
  - specialize (H t Ht). naive_solver.
  - destruct (decide (taint_Effect t = "NoSchedule")), (decide (taint_Effect t = "NoExecute")); naive_solver.
Qed.
