(* ===== verification/ResourceFacts.v ===== *)
(** * Facts about the resources

    Volume and pod names of the generated workloads are distinct, which the comparison of
    templates and the attribution of AIS nodes to pods rely on. *)

From S2P Require Import Prelude K8sTypes AISConfig AIStoreTypes ThirdParty AIStoreMethods GlobalConfig CmnResources Certificates ProxyResources TargetResources Rollout.

(** The volume names that do not depend on the CR. *)
Definition fixed_volume_names : list string :=
  [ "config-template"; "config-mount"; "config-global"; "logs-dir"; "state-mount"; "tls-certs";
    "tracing-token"; "aws-creds"; "gcp-creds"; "oci-creds"; "oidc-ca" ].

Lemma fixed_volume_names_NoDup : NoDup fixed_volume_names.
Proof. apply (bool_decide_unpack _). by vm_compute. Qed.

#[export] Instance string_app_inj a : Inj (=) (=) (String.append a).
Proof. induction a as [|c a IH]; intros x y H; [done|]. cbn in H. injection H as H. by apply IH. Qed.

Section Names.
Context `{T : ThirdParty}.

Lemma NewAISVolumes_names ais d :
  vol_Name <$> NewAISVolumes ais d `sublist_of` take 7 fixed_volume_names.
Proof.
  unfold NewAISVolumes, fixed_volume_names. cbn [app fmap list_fmap vol_Name take].
  do 4 (apply sublist_skip || (unfold newLogsVolume; cbn; apply sublist_skip)).
  rewrite !fmap_app.
  apply (sublist_app _ ["state-mount"]).
  { unfold state_volume. repeat case_match; cbn; auto using sublist_nil_l. }
  apply (sublist_app _ ["tls-certs"]).
  { unfold getTLSVolume. repeat case_match; cbn; auto using sublist_nil_l. }
  case_match; cbn; auto using sublist_nil_l.
Qed.

Lemma appendCloudVolumes_names ais d :
  vol_Name <$> Target.appendCloudVolumes ais (NewAISVolumes ais d) `sublist_of` take 10 fixed_volume_names.
Proof.
  unfold Target.appendCloudVolumes. rewrite fmap_app.
  apply (sublist_app _ (take 7 fixed_volume_names) _ ["aws-creds"; "gcp-creds"; "oci-creds"]);
    [apply NewAISVolumes_names|].
  unfold Target.cloud_secrets. cbn. repeat case_match; cbn; auto 10 using sublist_nil_l, sublist_skip, sublist_cons.
Qed.

Lemma hostPath_names ais vs :
  exists js, vol_Name <$> Target.appendHostPathDataVolumes ais vs =
             (vol_Name <$> vs) ++ (Target.getHostPathVolumeName <$> js) /\ NoDup js.
Proof.
  unfold Target.appendHostPathDataVolumes. set (ms := ts_Mounts _). clearbody ms.
  set (F := fun (i : nat) (mnt : Mount) => if IsHostPath mnt then
      [MkVolume (Target.getHostPathVolumeName i)
         (VHostPath (path_join [mnt_Path mnt; nn_namespace (ais_Name ais); aname ais; apc_Target])
            "DirectoryOrCreate")] else []).
  assert (forall k, exists js, vol_Name <$> mjoin (imap (fun i => F (k + i)%nat) ms) =
            Target.getHostPathVolumeName <$> js /\ NoDup js /\ Forall (fun j => (k <= j)%nat) js) as H.
  { induction ms as [|m ms IH]; intros k; [by exists []; repeat constructor|].
    destruct (IH (S k)) as (js & Hj & Hnd & Hk).
    rewrite imap_cons.
    change (mjoin (?x :: ?l)) with (x ++ mjoin l). rewrite fmap_app.
    assert (imap ((fun i => F (k + i)%nat) ∘ S) ms = imap (fun i => F (S k + i)%nat) ms) as ->.
    { apply imap_ext. intros i x _. cbn. by rewrite Nat.add_succ_r. }
    rewrite Hj.
    assert (Forall (fun j => (k <= j)%nat) js).
    { eapply Forall_impl; [done|]. cbn. lia. }
    rewrite Nat.add_0_r. unfold F at 1. destruct (IsHostPath m); [|by exists js].
    exists (k :: js). cbn. split_and!; [done| |by constructor].
    constructor; [|done]. intros Hin. rewrite Forall_forall in Hk. specialize (Hk k Hin). lia. }
  destruct (H 0%nat) as (js & Hj & Hnd & _). exists js.
  rewrite fmap_app. split; [|done]. f_equal. exact Hj.
Qed.

Lemma host_not_fixed j : Target.getHostPathVolumeName j ∉ fixed_volume_names.
Proof.
  unfold Target.getHostPathVolumeName, fixed_volume_names. cbn. rewrite !elem_of_cons, elem_of_nil.
  intros H. repeat destruct H as [H|H]; discriminate H || done.
Qed.

(** The volumes of a target pod have distinct names. *)
Lemma target_volumes_NoDup ais : NoDup (vol_Name <$> Target.newVolumes ais).
Proof.
  unfold Target.newVolumes.
  destruct (hostPath_names ais (Target.appendCloudVolumes ais (NewAISVolumes ais apc_Target)))
    as (js & -> & Hnd).
  pose proof (appendCloudVolumes_names ais apc_Target) as Hs.
  apply NoDup_app. split_and!.
  - eapply sublist_NoDup; [|exact Hs]. eapply sublist_NoDup; [|apply sublist_take].
    apply fixed_volume_names_NoDup.
  - intros x Hx (j & -> & _)%list_elem_of_fmap. eapply host_not_fixed.
    eapply elem_of_submseteq; [|apply sublist_submseteq, sublist_take].
    eapply elem_of_submseteq; [exact Hx | by apply sublist_submseteq].
  - apply NoDup_fmap_2; [|done]. intros i j Hij. unfold Target.getHostPathVolumeName in Hij.
    by apply (inj (String.append _)), (inj (String.append _)), (inj pretty) in Hij.
Qed.
End Names.

(** ** Pod ordinals and host names *)

Fixpoint no_dot (s : string) : bool :=
  match s with
  | EmptyString => true
  | String c s' => negb (Ascii.eqb c "."%char) && no_dot s'
  end.

Lemma pretty_N_char_no_dot x : Ascii.eqb (pretty_N_char x) "."%char = false.
Proof. destruct x as [|p]; [done|]. do 4 (destruct p as [p|p|]; try done). Qed.

Lemma pretty_N_go_no_dot x : forall s, no_dot s = true -> no_dot (pretty_N_go x s) = true.
Proof.
  induction (N.lt_wf_0 x) as [x _ IH]. intros s Hs.
  destruct (decide (x = 0)%N) as [->|Hx]; [by rewrite pretty_N_go_0|].
  rewrite pretty_N_go_step by lia. apply IH; [by apply N.div_lt; lia|].
  cbn. by rewrite pretty_N_char_no_dot.
Qed.

Lemma pretty_no_dot (z : Z) : no_dot (pretty z) = true.
Proof.
  assert (forall x : N, no_dot (pretty x) = true) as HN.
  { intros x. unfold pretty, pretty_N. case_decide; [done|]. by apply pretty_N_go_no_dot. }
  destruct z as [|p|p]; [done | apply (HN (N.pos p)) | apply (HN (N.pos p))].
Qed.

Lemma no_dot_head (a b t u : string) :
  no_dot a = true -> no_dot b = true ->
  t = "" \/ (exists t', t = String "." t') -> u = "" \/ (exists u', u = String "." u') ->
  a +:+ t = b +:+ u -> a = b.
Proof.
  revert b. induction a as [|c a IH]; intros [|d b]; cbn; intros Ha Hb Ht Hu; [done| | |].
  - change ("" +:+ t) with t. rewrite string_app_cons. intros ->.
    destruct Ht as [Ht|[t' Ht]]; [done|]. injection Ht as -> _. done.
  - change ("" +:+ u) with u. rewrite string_app_cons. intros <-.
    destruct Hu as [Hu|[u' Hu]]; [done|]. injection Hu as -> _. done.
  - rewrite !string_app_cons. intros [= -> H]. reflect_bools. f_equal. by apply (IH b).
Qed.

Lemma has_prefix_inv s p : has_prefix s p = true -> exists t, s = p +:+ t.
Proof.
  unfold has_prefix. revert s. induction p as [|c p IH]; intros s; [by exists s|].
  destruct s as [|d s]; cbn; [done|]. destruct (Ascii.ascii_dec c d) as [->|]; [|done].
  intros [t ->]%IH. by exists t.
Qed.

Lemma string_app_nil_r (s : string) : s +:+ "" = s.
Proof. induction s as [|c s IH]; [done|]. by rewrite string_app_cons, IH. Qed.

(** The part of a matching host name after the common prefix. *)
Lemma hostname_tail h base i :
  hostnameMatchesPod h (base +:+ "-" +:+ pretty (i : Z)) = true ->
  exists t, h = base +:+ "-" +:+ (pretty i +:+ t) /\ (t = "" \/ exists t', t = String "." t').
Proof.
  unfold hostnameMatchesPod. intros [H|H]%orb_true_iff.
  - reflect_bools. exists "". split; [by rewrite string_app_nil_r | by left].
  - apply has_prefix_inv in H as [t ->]. exists ("." +:+ t).
    split; [by rewrite !string_app_assoc | right; by exists t].
Qed.

(** A host name belongs to at most one ordinal of a StatefulSet. *)
Lemma hostname_ordinal_unique h base i j :
  hostnameMatchesPod h (base +:+ "-" +:+ pretty (i : Z)) = true ->
  hostnameMatchesPod h (base +:+ "-" +:+ pretty (j : Z)) = true -> i = j.
Proof.
  intros (t & -> & Ht)%hostname_tail (u & Heq & Hu)%hostname_tail.
  do 2 apply (inj (String.append _)) in Heq.
  apply (inj pretty). exact (no_dot_head _ _ _ _ (pretty_no_dot i) (pretty_no_dot j) Ht Hu Heq).
Qed.
