(* ===== verification/Requests.v ===== *)
(** * Requests of the operator

    Every interaction of the controllers with the outside: the Kubernetes API server
    (prefix [K]), the AIS cluster through the client the client manager hands out (prefix
    [A]), the event recorder and the clock (prefix [E]). [answer] gives the type of what
    comes back.

    A patch or a status patch of the AIStore answers with the object the API server stored,
    which replaces the one in memory, as controller-runtime decodes the response into it. *)

From S2P Require Import Prelude Effects K8sTypes AISConfig AIStoreTypes ThirdParty AuthConf AIStoreMethods CmnResources.

(** A handle on an AIS API client ([services.AIStoreClientInterface]). *)
Abbreviation api_client := Z (only parsing).

Inductive req :=
(* reads through the informer cache *)
| KGetAIStore (name : nsname)
| KListAIStore
| KGetStatefulSet (name : nsname)
| KGetPod (name : nsname)
| KGetService (name : nsname)
| KGetDeployment (name : nsname)
| KGetConfigMap (name : nsname)
| KGetObject (k : kind) (name : nsname)
| KGetAuthProfile (name : string)
| KGetSecret (name : nsname)
| KListEndpointSlices (service : nsname)
| KListPods (namespace : string) (sel : labels)
| KListNodes (sel : labels)
| KListServices (namespace : string) (sel : labels)
| KListJobs (namespace : string)
| KListPVCs (namespace : string) (sel : labels)
(* a read straight from the API server *)
| KGetStatefulSetDirect (name : nsname)
(* writes *)
| KCreate (o : owned)
| KUpdate (o : owned)
| KApply (o : object)
| KDelete (k : kind) (name : nsname)
| KPatchStatefulSet (original modified : StatefulSet)
| KPatchDeployment (original modified : Deployment)
| KPatchAIStore (original modified : AIStore)
| KPatchStatus (name : nsname) (status : AIStoreStatus)
(* the AIS cluster *)
| AGetClient (ais : AIStore)
| AHealth (c : api_client) (readyToRebalance : bool)
| AGetClusterMap (c : api_client)
| ASetClusterConfig (c : api_client) (conf : ConfigToSet) (transient : bool)
| ASetPrimaryProxy (c : api_client) (id url : string) (force : bool)
| ADecommissionNode (c : api_client) (act : ActValRmNode)
| AStartMaintenance (c : api_client) (act : ActValRmNode)
| ADecommissionCluster (c : api_client) (rmUserData : bool)
| AShutdownCluster (c : api_client)
(* the rest *)
| EEvent (warning : bool) (reason action note : string)
| ENow
(* helpers of the client that no controller calls *)
| KListAIStoreIn (namespace : string)
| KDeleteGrace (k : kind) (name : nsname) (gracePeriod : Z).

Definition answer (r : req) : Type :=
  match r with
  | KGetAIStore _ => res AIStore
  | KListAIStore | KListAIStoreIn _ => res (list AIStore)
  | KGetStatefulSet _ | KGetStatefulSetDirect _ => res StatefulSet
  | KGetPod _ => res Pod
  | KGetService _ => res Service
  | KGetDeployment _ => res Deployment
  | KGetConfigMap _ => res ConfigMap
  | KGetObject _ _ => res owned
  | KGetAuthProfile _ => res AIStoreAuthProfile
  | KGetSecret _ => res labels
  | KListEndpointSlices _ => res (list EndpointSlice)
  | KListPods _ _ => res (list Pod)
  | KListNodes _ => res (list Node)
  | KListServices _ _ => res (list Service)
  | KListJobs _ => res (list Job)
  | KListPVCs _ _ => res (list PVC)
  | KCreate _ | KUpdate _ | KApply _ | KDelete _ _ | KDeleteGrace _ _ _
  | KPatchStatefulSet _ _ | KPatchDeployment _ _ => res unit
  | KPatchAIStore _ _ | KPatchStatus _ _ => res AIStore
  | AGetClient _ => res api_client
  | AHealth _ _ | ASetClusterConfig _ _ _ | ASetPrimaryProxy _ _ _ _
  | ADecommissionCluster _ _ | AShutdownCluster _ => res unit
  | AGetClusterMap _ => res Smap
  | ADecommissionNode _ _ | AStartMaintenance _ _ => res string
  | EEvent _ _ _ _ => unit
  | ENow => Z
  end.

(** Every request can be answered. *)
Definition some_answer (r : req) : answer r.
Proof. destruct r; first [exact (Err (errorf "unavailable")) | exact tt | exact 0]. Defined.

(** An error that says what was asked for does not exist. *)
Definition missing (e : error) : bool := is_not_found e || is_no_match e.

(** A request that failed says so, and not that something is missing or exists already. *)
Definition failure (e : error) : Prop := missing e = false /\ is_already_exists e = false.
Definition failed_with {A} (x : res A) : Prop := exists e, x = Err e /\ failure e.
Definition fails (r : req) : answer r -> Prop :=
  match r return answer r -> Prop with
  | KGetAIStore _ | KPatchAIStore _ _ | KPatchStatus _ _ => failed_with
  | KListAIStore | KListAIStoreIn _ => failed_with
  | KGetStatefulSet _ | KGetStatefulSetDirect _ => failed_with
  | KGetPod _ => failed_with
  | KGetService _ => failed_with
  | KGetDeployment _ => failed_with
  | KGetConfigMap _ => failed_with
  | KGetObject _ _ => failed_with
  | KGetAuthProfile _ => failed_with
  | KGetSecret _ => failed_with
  | KListEndpointSlices _ => failed_with
  | KListPods _ _ => failed_with
  | KListNodes _ => failed_with
  | KListServices _ _ => failed_with
  | KListJobs _ => failed_with
  | KListPVCs _ _ => failed_with
  | KCreate _ | KUpdate _ | KApply _ | KDelete _ _ | KDeleteGrace _ _ _
  | KPatchStatefulSet _ _ | KPatchDeployment _ _ => failed_with
  | AGetClient _ => failed_with
  | AHealth _ _ | ASetClusterConfig _ _ _ | ASetPrimaryProxy _ _ _ _
  | ADecommissionCluster _ _ | AShutdownCluster _ => failed_with
  | AGetClusterMap _ => failed_with
  | ADecommissionNode _ _ | AStartMaintenance _ _ => failed_with
  | EEvent _ _ _ _ | ENow => fun _ => False
  end.

(** Handlers run over the AIStore object in memory. *)
Abbreviation H := (@M req answer AIStore).
Abbreviation trace := (list (@event req answer)).

(** Go's [(ctrl.Result, error)], which may both be set. *)
Abbreviation outcome := (Result * option error)%type.

Definition finished : outcome := (zero_result, None).
Definition requeue (d : Z) : outcome := (MkResult d, None).
Definition failed (e : error) : outcome := (zero_result, Some e).

(** Go's [if res, err := f(); err != nil || !res.IsZero() { return res, err }]. *)
Definition unless_done (m : H outcome) (k : H outcome) : H outcome :=
  m ≫= fun o => match o with
    | (r, None) => if result_is_zero r then k else mret o
    | (_, Some _) => mret o
    end.

(** [err] returned as the only result of a handler step. *)
Definition of_res {A} (r : res A) : outcome :=
  match r with Ok _ => finished | Err e => failed e end.

(** ** Which requests change the outside world *)

Definition is_read (r : req) : bool :=
  match r with
  | KCreate _ | KUpdate _ | KApply _ | KDelete _ _ | KDeleteGrace _ _ _ | KPatchStatefulSet _ _
  | KPatchDeployment _ _ | KPatchAIStore _ _ | KPatchStatus _ _
  | ASetClusterConfig _ _ _ | ASetPrimaryProxy _ _ _ _ | ADecommissionNode _ _
  | AStartMaintenance _ _ | ADecommissionCluster _ _ | AShutdownCluster _ | EEvent _ _ _ _ => false
  | _ => true
  end.

Section EmitsFacts.
Context (P : req -> Prop).

Lemma emits_unless_done (m k : H outcome) :
  emits P m -> emits P k -> emits P (unless_done m k).
Proof.
  intros Hm Hk. apply emits_bind; [done|]. intros [r [e|]]; [apply emits_ret|].
  destruct (result_is_zero r); [done | apply emits_ret].
Qed.

End EmitsFacts.

#[export] Hint Resolve emits_unless_done : emits.
