(* ===== verification/K8sClient.v ===== *)
(** * The Kubernetes client wrapper

    [internal/client/api.go]: reads, the scaling of StatefulSets, create-or-update, and the
    deletions that tolerate a missing object. *)

From S2P Require Import Prelude Effects K8sTypes AISConfig AIStoreTypes ThirdParty AuthConf AIStoreMethods CmnResources Requests.

(** ** Requests under the names of the client *)

Definition GetAIStoreCR (name : nsname) : H (res AIStore) := call (KGetAIStore name).
Definition ListAIStoreCR (namespace : string) : H (res (list AIStore)) := call (KListAIStoreIn namespace).
Definition GetConfigMap (name : nsname) : H (res ConfigMap) := call (KGetConfigMap name).
Definition GetSecret (name : nsname) : H (res labels) := call (KGetSecret name).
Definition GetPDB (name : nsname) : H (res owned) := call (KGetObject KPDB name).
Definition GetStatefulSet (name : nsname) : H (res StatefulSet) := call (KGetStatefulSet name).
(** Past the informer cache. *)
Definition GetStatefulSetDirect (name : nsname) : H (res StatefulSet) := call (KGetStatefulSetDirect name).
Definition GetDeployment (name : nsname) : H (res Deployment) := call (KGetDeployment name).
Definition GetService (name : nsname) : H (res Service) := call (KGetService name).
Definition GetServiceEndpoints (svcName : nsname) : H (res (list EndpointSlice)) :=
  call (KListEndpointSlices svcName).
Definition GetPod (name : nsname) : H (res Pod) := call (KGetPod name).
Definition GetAuthProfile (name : string) : H (res AIStoreAuthProfile) := call (KGetAuthProfile name).
Definition ListJobsInNamespace (namespace : string) : H (res (list Job)) := call (KListJobs namespace).
Definition ListNodesMatchingSelector (nodeSelector : labels) : H (res (list Node)) :=
  call (KListNodes nodeSelector).
Definition Apply (o : object) : H (res unit) := call (KApply o).
Definition Create (o : owned) : H (res unit) := call (KCreate o).
Definition Update (o : owned) : H (res unit) := call (KUpdate o).

Ltac unfold_requests ::=
  progress unfold GetStatefulSet, GetStatefulSetDirect, GetDeployment, GetService, GetServiceEndpoints,
    GetPod, GetAuthProfile, ListJobsInNamespace, ListNodesMatchingSelector, Apply, Create, Update.
#[export] Hint Extern 1 (emits _ _) => emits_call : emits.

(** ** Reads *)

Definition pod_ready_condition (p : Pod) : bool :=
  existsb (fun c => bool_decide (pc_Type c = "Ready") && bool_decide (pc_Status c = CondTrue))
    (pod_Conditions p).

Definition ListPods (ais : AIStore) (ls : labels) : H (res (list Pod)) :=
  call (KListPods (nn_namespace (ais_Name ais)) ls).

Definition ListReadyPods (ais : AIStore) (ls : labels) : H (res (list Pod)) :=
  let? allPods := ListPods ais ls else e => mret (Err e) in
  mret (Ok (filter (fun p => pod_ready_condition p = true) allPods)).

Definition GetRunningPod (name : nsname) : H (res Pod) :=
  let? pod := GetPod name else e => mret (Err e) in
  if bool_decide (pod_Phase pod ≠ "Running")
  then mret (Err (errorf ("pod is not yet running (phase: " +:+ pod_Phase pod +:+ ")")))
  else mret (Ok pod).

(** The set of node names is returned in some order. *)
Definition ListNodesMatchingAISSelectors (ais : AIStore) : H (res (list string)) :=
  let? targets := ListNodesMatchingSelector (node_selector (target_ds (Spec ais))) else e => mret (Err e) in
  let? proxies := ListNodesMatchingSelector (node_selector (ProxySpec (Spec ais))) else e => mret (Err e) in
  mret (Ok (remove_dups (node_Name <$> (targets ++ proxies)))).

(** ** Scaling *)

Definition UpdateStatefulSetReplicas (name : nsname) (size : Z) : H (res bool) :=
  let? ss := GetStatefulSet name else e => mret (Err e) in
  if sss_Replicas (ss_Spec ss) =? size then mret (Ok false)
  else
    let? _ := call (KPatchStatefulSet ss (ss_set_replicas ss size)) else e => mret (Err e) in
    mret (Ok true).

Definition IsStatefulSetSize (name : nsname) (size : Z) : H (res bool) :=
  let? ss := GetStatefulSet name else e => mret (Err e) in
  mret (Ok (ssst_Replicas (ss_Status ss) =? size)).

(** ** Create and update *)

(** [Ok true] when the object already existed. *)
Definition CreateResourceIfNotExists (owner : AIStore) (o : object) : H (res bool) :=
  r ← Create (Some (NewControllerRef owner), o);
  mret (match r with
        | Ok _ => Ok false
        | Err e => if is_already_exists e then Ok true else Err e
        end).

Definition UpdateIfExists (o : owned) : H (res unit) :=
  r ← call (KUpdate o);
  mret (match r with Ok _ => Ok tt | Err e => if is_not_found e then Ok tt else Err e end).

Definition PatchIfExists (original modified : AIStore) : H (res unit) :=
  r ← call (KPatchAIStore original modified);
  match r with
  | Ok a => put a ≫= fun _ => mret (Ok tt)
  | Err e => mret (if is_not_found e then Ok tt else Err e)
  end.

Section CreateOrUpdate.
Context `{T : ThirdParty}.

(** [Ok true] when the object was created or updated. *)
Definition CreateOrUpdateResource (owner : AIStore) (o : object) : H (res bool) :=
  let res := (Some (NewControllerRef owner), o) in
  let? exists_ := CreateResourceIfNotExists owner o else e => mret (Err e) in
  if negb exists_ then mret (Ok true)
  else
    let? existingObj := call (KGetObject (object_kind o) (object_name o)) else e => mret (Err e) in
    if DeepDerivativeObject res existingObj then mret (Ok false)
    else
      let? _ := Update res else e => mret (Err e) in
      mret (Ok true).
End CreateOrUpdate.

(** ** Delete *)

Definition allowObjNotFound (name : nsname) (r : res unit) : res bool :=
  match r with
  | Ok _ => Ok true
  | Err e =>
      if is_not_found e || is_no_match e then Ok false
      else Err (errorf ("failed to delete " +:+ quoted (nn_name name) +:+ " (namespace " +:+
                        quoted (nn_namespace name) +:+ "); err " +:+ err_msg e))
  end.

Definition DeleteResourceIfExists (k : kind) (name : nsname) : H (res bool) :=
  r ← call (KDelete k name); mret (allowObjNotFound name r).

Definition DeleteResIfExistsWithGracePeriod (k : kind) (name : nsname) (gracePeriod : Z) : H (res bool) :=
  r ← call (KDeleteGrace k name gracePeriod); mret (allowObjNotFound name r).

Definition DeleteServiceIfExists (name : nsname) : H (res bool) := DeleteResourceIfExists KService name.
Definition DeleteStatefulSetIfExists (name : nsname) : H (res bool) := DeleteResourceIfExists KStatefulSet name.
Definition DeleteDeploymentIfExists (name : nsname) : H (res bool) := DeleteResourceIfExists KDeployment name.
Definition DeleteConfigMapIfExists (name : nsname) : H (res bool) := DeleteResourceIfExists KConfigMap name.
Definition DeletePodIfExists (name : nsname) : H (res bool) := DeleteResourceIfExists KPod name.
Definition DeletePDBIfExists (name : nsname) : H (res bool) := DeleteResourceIfExists KPDB name.

(** Delete objects in order until one deletion fails; whether any existed. *)
Fixpoint delete_all (k : kind) (names : list nsname) (anyExisted : bool) : H (res bool) :=
  match names with
  | [] => mret (Ok anyExisted)
  | n :: names' =>
      let? existed := DeleteResourceIfExists k n else e => mret (Err e) in
      delete_all k names' (anyExisted || existed)
  end.

Definition DeleteAllServicesIfExist (namespace : string) (ls : labels) : H (res bool) :=
  let? svcs := call (KListServices namespace ls)
    else e => mret (if is_not_found e then Ok false else Err e) in
  delete_all KService (svc_Name <$> svcs) false.

(** A claim is skipped when a storage class is asked for and the claim has another one. *)
Definition other_class (sc : option string) (p : PVC) : bool :=
  match sc, pvc_StorageClassName p with
  | Some c, Some d => bool_decide (d ≠ c)
  | _, _ => false
  end.

Definition deleteAllPVCsIfExist (pvcs : list PVC) (sc : option string) : H (res bool) :=
  delete_all KPVC (pvc_Name <$> filter (fun p => other_class sc p = false) pvcs) false.

Definition DeletePVCs (namespace : string) (ls : labels) (sc : option string) : H (res bool) :=
  let? pvcs := call (KListPVCs namespace ls)
    else e => mret (if is_not_found e then Ok false else Err e) in
  deleteAllPVCsIfExist pvcs sc.

(** [cmn.AnyFunc]: call each function in turn until one fails; whether any returned true. *)
Fixpoint any_func (funcs : list (H (res bool))) (atLeastOneTrue : bool) : H (res bool) :=
  match funcs with
  | [] => mret (Ok atLeastOneTrue)
  | f :: funcs' =>
      let? val := f else e => mret (Err e) in
      any_func funcs' (atLeastOneTrue || val)
  end.

Definition AnyFunc (funcs : list (H (res bool))) : H (res bool) :=
  match funcs with [] => panic | _ => any_func funcs false end.

(** ** Facts *)

(** A missing object (or a kind the server does not know) is not an error. *)
Lemma allowObjNotFound_spec n r b :
  allowObjNotFound n r = Ok b <->
  (r = Ok tt /\ b = true) \/
  (exists e, r = Err e /\ (is_not_found e || is_no_match e) = true /\ b = false).
Proof.
  destruct r as [[]|e]; cbn; [naive_solver|].
  destruct (is_not_found e || is_no_match e) eqn:E; split.
  - intros [= <-]. right. by exists e.
  - by intros [[? _]|(e' & [= <-] & _ & ->)].
  - done.
  - intros [[? _]|(e' & [= <-] & ? & _)]; congruence.
Qed.

Section Emits.
Context (P : req -> Prop).

Lemma emits_UpdateStatefulSetReplicas name size :
  P (KGetStatefulSet name) ->
  (forall ss, P (KPatchStatefulSet ss (ss_set_replicas ss size))) ->
  emits P (UpdateStatefulSetReplicas name size).
Proof.
  intros Hg Hp. unfold UpdateStatefulSetReplicas. apply emits_try; [by emits_call | intros; apply emits_ret|].
  intros ss. case_match; [apply emits_ret|]. auto with emits.
Qed.

Lemma emits_DeleteResourceIfExists k n : P (KDelete k n) -> emits P (DeleteResourceIfExists k n).
Proof. intros H. unfold DeleteResourceIfExists. apply emits_bind; [by emits_call | intros; apply emits_ret]. Qed.

Lemma emits_delete_all k ns b : (forall n, n ∈ ns -> P (KDelete k n)) -> emits P (delete_all k ns b).
Proof.
  revert b. induction ns as [|n ns IH]; intros b Hn; [apply emits_ret|].
  apply emits_try; [apply emits_DeleteResourceIfExists, Hn; by left | intros; apply emits_ret|].
  intros. apply IH. intros m Hm. apply Hn. by right.
Qed.

Lemma emits_any_func fs b : Forall (emits P) fs -> emits P (any_func fs b).
Proof.
  intros Hfs. revert b. induction Hfs as [|f fs Hf _ IH]; intros b; [apply emits_ret|].
  apply emits_try; [done | intros; apply emits_ret | intros; apply IH].
Qed.

Lemma emits_AnyFunc fs : Forall (emits P) fs -> emits P (AnyFunc fs).
Proof. intros H. destruct fs; [apply emits_panic | by apply emits_any_func]. Qed.
End Emits.

#[export] Hint Resolve emits_UpdateStatefulSetReplicas emits_DeleteResourceIfExists
  emits_delete_all emits_any_func emits_AnyFunc : emits.
