(* ===== verification/ClusterOps.v ===== *)
(** * Status, rebalance and configuration

    The operations of [internal/controller/aistore/cluster_controller.go] every stage of the
    reconciliation shares: status patches, the rebalance condition, and the synchronization
    of the cluster configuration. *)

From S2P Require Import Prelude Effects K8sTypes AISConfig AIStoreTypes ThirdParty AuthConf AIStoreMethods AIStoreFacts Validation GlobalConfig CmnResources Requests K8sClient.

Definition emit_event (reason action note : string) : H unit :=
  call (EEvent false reason action note).

Definition recordError (e : error) (msg : string) : H unit :=
  call (EEvent true "Failed" "Reconciled" (msg +:+ ", err: " +:+ err_msg e)).

(** Record the error and return it. *)
Definition record_fail {A} (msg : string) (e : error) : H (res A) :=
  recordError e msg ≫= fun _ => mret (Err e).

Definition patchStatus : H (res unit) :=
  ais ← get;
  r ← call (KPatchStatus (ais_Name ais) (Status ais));
  match r with
  | Ok a => put a ≫= fun _ => mret (Ok tt)
  | Err e => record_fail "Failed to patch CR status" e
  end.

Definition updateStatusWithState (state : ClusterState) : H (res unit) :=
  modify (SetState state) ≫= fun _ => patchStatus.

Definition patchAISAnnotations (confHash restartHash : string) : H (res unit) :=
  ais ← get;
  let m := if bool_decide (confHash ≠ "") then <[ ConfigHashAnnotation := confHash ]> (ais_Annotations ais)
           else ais_Annotations ais in
  let m := <[ RestartConfigHashAnnotation := restartHash ]> m in
  put (set_annotations ais m) ≫= fun _ =>
  let? a := call (KPatchAIStore ais (set_annotations ais m)) else e => mret (Err e) in
  put a ≫= fun _ => mret (Ok tt).

Definition updateAutoScaleStatus (status : AutoScaleStatus) : H (res unit) :=
  ais ← get;
  let cur := status_AutoScale (Status ais) in
  if bool_decide (ExpectedProxyNodes cur = ExpectedProxyNodes status) &&
     bool_decide (ExpectedTargetNodes cur = ExpectedTargetNodes status)
  then mret (Ok tt)
  else put (set_autoscale ais status) ≫= fun _ => patchStatus.

Section Ops.
Context `{T : ThirdParty}.

Definition updateIntraClusterURLStatus : H (res unit) :=
  modify (fun ais => set_url ais (IntraClusterURL ais)) ≫= fun _ => patchStatus.

(** ** Configuration *)

(** The configuration is sent unless its hash is the one recorded and nothing forces it;
    its hash is returned. *)
Definition updateClusterConfig (conf : ConfigToSet) (forceSync : bool) : H (res string) :=
  ais ← get;
  match HashGlobalConfig conf with
  | Err e => mret (Err e)
  | Ok confHash =>
      if negb forceSync && bool_decide (index (ais_Annotations ais) ConfigHashAnnotation = confHash)
      then mret (Ok confHash)
      else
        let? apiClient := call (AGetClient ais) else e => mret (Err e) in
        let? _ := call (ASetClusterConfig apiClient conf false)
          else e => mret (Err (wrap "failed to update cluster config" e)) in
        mret (Ok confHash)
  end.

Definition handleConfigState (forceSync : bool) : H (res unit) :=
  ais ← get;
  match GenerateGlobalConfig ais with
  | Err e => mret (Err e)
  | Ok conf =>
      let? newConfHash := updateClusterConfig conf forceSync else e => mret (Err e) in
      let annot := index (ais_Annotations ais) RestartConfigHashAnnotation in
      match calcRestartConfigAnnotation annot conf with
      | Err e => mret (Err e)
      | Ok restartAnnot =>
          let confChanged := bool_decide (newConfHash ≠ index (ais_Annotations ais) ConfigHashAnnotation) in
          let restartChanged := bool_decide (restartAnnot ≠ annot) in
          let requeue := restartChanged && negb (has_suffix restartAnnot RestartConfigHashInitial) in
          if negb requeue && negb confChanged then mret (Ok tt)
          else patchAISAnnotations newConfHash restartAnnot
      end
  end.

(** ** Rebalance *)

Definition disableRebalance (reason : ClusterConditionReason) (msg : string) : H (res unit) :=
  modify (SetConditionFalse ConditionReadyRebalance reason msg) ≫= fun _ =>
  let? _ := patchStatus else e => mret (Err e) in
  handleConfigState true.

Definition enableRebalanceCondition : H (res unit) :=
  ais ← get;
  if IsConditionTrue ais ConditionReadyRebalance then mret (Ok tt)
  else put (SetCondition ConditionReadyRebalance ais) ≫= fun _ => patchStatus.

(** ** Progress *)

Definition updateStatusAndRequeue (result : Result) : H outcome :=
  ais ← get;
  if negb (IsConditionTrue ais ConditionReady) then mret (result, None)
  else
    put (SetConditionFalse ConditionReady ReasonUpgrading "Waiting for cluster to upgrade" ais) ≫= fun _ =>
    let? _ := updateStatusWithState ClusterUpgrading else e => mret (failed e) in
    mret (result, None).

Definition handleSuccessfulReconcile : H (res unit) :=
  ais ← get;
  let notReady := negb (IsConditionTrue ais ConditionReady) in
  (if notReady then
     emit_event "Ready" "Reconciled" "Successfully reconciled AIStore cluster" ≫= fun _ =>
     put (SetCondition ConditionReady ais)
   else mret tt) ≫= fun _ =>
  if notReady || negb (HasState ais ClusterReady) then updateStatusWithState ClusterReady
  else mret (Ok tt).

Definition checkAISClusterReady : H (res bool) :=
  ais ← get;
  let? apiClient := call (AGetClient ais) else e => mret (Err e) in
  let? _ := call (AHealth apiClient true) else e => mret (Err e) in
  let? smap := call (AGetClusterMap apiClient) else e => mret (Err e) in
  let proxyCount := i32 (Z.of_nat (length (Pmap smap))) in
  let targetCount := i32 (Z.of_nat (length (Tmap smap))) in
  minProxies ← deref (GetMinReadyProxies ais);
  if proxyCount <? minProxies then mret (Ok false)
  else
    minTargets ← deref (GetMinReadyTargets ais);
    if targetCount <? minTargets then mret (Ok false)
    else if bool_decide (ClusterID (Status ais) ≠ sm_UUID smap) then
      put (set_cluster_id ais (sm_UUID smap)) ≫= fun _ =>
      let? _ := patchStatus else e => mret (Err e) in
      mret (Ok true)
    else mret (Ok true).
End Ops.
