(* ===== verification/Nodes.v ===== *)
(** * Nodes: autoscaling and certificate hosts

    The parts of [cluster_controller.go] that read the nodes: the discovery of the expected
    nodes of an autoscaled cluster, the public hosts of the TLS certificate, and the mapping
    of node and pod events to the clusters they concern. *)

From S2P Require Import Prelude Effects K8sTypes AISConfig AIStoreTypes ThirdParty AuthConf AIStoreMethods GlobalConfig CmnResources Certificates ProxyResources TargetResources Rollout Requests K8sClient ClusterOps.

Definition unionSorted (a b : list string) : list string := compact (sort_strings (a ++ b)).

Section Nodes.
Context `{T : ThirdParty}.

(** ** Discovery *)

Definition listMatchingNodes (selector : labels) (tolerations : list Toleration) : H (res (list Node)) :=
  let? nodes := ListNodesMatchingSelector selector else e => mret (Err e) in
  mret (Ok (filter (fun n => toleratesTaints tolerations n = true) nodes)).

Definition listMatchingNodeNames (selector : labels) (tolerations : list Toleration) : H (res (list string)) :=
  let? nodes := listMatchingNodes selector tolerations else e => mret (Err e) in
  mret (Ok (sort_strings (node_Name <$> nodes))).

(** The nodes that have a pod with the labels and the operator's managed-by label. *)
Definition pod_nodes (pods : list Pod) : list string :=
  sort_strings (remove_dups (filter (fun n => n ≠ "") (pod_NodeName <$> pods))).

Definition listNodesRunningDaemonPods (ais : AIStore) (podLabels : labels) : H (res (list string)) :=
  let? podList := ListPods ais (<[ LabelManagedBy := LabelManagedByValue ]> podLabels)
    else e => mret (Err e) in
  mret (Ok (pod_nodes podList)).

(** The expected nodes of one daemon: those that can host it and those that do. *)
Definition expected_nodes (ais : AIStore) (ds : DaemonSpec) (podLabels : labels) : H (res (list string)) :=
  let? schedulableNodes := listMatchingNodeNames (node_selector ds) (ds_Tolerations ds) else e => mret (Err e) in
  let? podNodes := listNodesRunningDaemonPods ais podLabels else e => mret (Err e) in
  mret (Ok (unionSorted schedulableNodes podNodes)).

Definition determineAutoScaleStatus : H (res unit) :=
  ais ← get;
  let? targets := (if IsTargetAutoScaling ais
                   then expected_nodes ais (target_ds (Spec ais)) (Target.SelectorLabels ais)
                   else mret (Ok [])) else e => mret (Err e) in
  let? proxies := (if IsProxyAutoScaling ais
                   then expected_nodes ais (ProxySpec (Spec ais)) (Proxy.SelectorLabels ais)
                   else mret (Ok [])) else e => mret (Err e) in
  updateAutoScaleStatus (MkAutoScaleStatus proxies targets).

(** ** Hosts of the TLS certificate *)

Definition externalEndpoints (ais : AIStore) (lbLabel : string) : H (res (list string)) :=
  let? svcs := call (KListServices (nn_namespace (ais_Name ais)) (NewServiceLabels (aname ais) lbLabel))
    else e => mret (Err e) in
  mret (Ok (LoadBalancerEndpoints svcs)).

(** The hosts of one daemon: [discovered] nodes are reused for autoscaled clusters in node
    mode; load balancer endpoints follow when external access is on. *)
Definition daemon_hosts (ais : AIStore) (ds : DaemonSpec) (mode : PubNetDNSMode)
    (autoScaling external : bool) (discovered : list string) (lbLabel : string) : H (res (list string)) :=
  let? hosts := (if bool_decide (mode = PubNetDNSModeNode) && autoScaling &&
                    bool_decide (discovered ≠ [])
                 then mret (Ok discovered)
                 else
                   let? nodes := listMatchingNodes (node_selector ds) (ds_Tolerations ds)
                     else e => mret (Err e) in
                   mret (Ok (publicHostsForNodes nodes mode))) else e => mret (Err e) in
  if negb external then mret (Ok hosts)
  else
    let? endpoints := externalEndpoints ais lbLabel else e => mret (Err e) in
    mret (Ok (hosts ++ endpoints)).

Definition targetPublicHosts (ais : AIStore) (mode : PubNetDNSMode) : H (res (list string)) :=
  daemon_hosts ais (target_ds (Spec ais)) mode (IsTargetAutoScaling ais) (TargetExternalAccessEnabled ais)
    (ExpectedTargetNodes (status_AutoScale (Status ais))) "target-lb".

Definition proxyPublicHosts (ais : AIStore) (mode : PubNetDNSMode) : H (res (list string)) :=
  daemon_hosts ais (ProxySpec (Spec ais)) mode (IsProxyAutoScaling ais) (ProxyExternalAccessEnabled ais)
    (ExpectedProxyNodes (status_AutoScale (Status ais))) "proxy-lb".

Definition discoverPublicNetHosts (ais : AIStore) : H (res (list string)) :=
  let mode := GetPublicNetDNSMode ais in
  if bool_decide (mode = PubNetDNSModePod) then mret (Ok [])
  else
    let? targetHosts := targetPublicHosts ais mode else e => mret (Err e) in
    let? proxyHosts := proxyPublicHosts ais mode else e => mret (Err e) in
    mret (Ok (compact (sort_strings (targetHosts ++ proxyHosts)))).

Definition reconcileTLSCertificate : H (res unit) :=
  ais ← get;
  if UseTLSCertificate ais then
    let? publicHosts := discoverPublicNetHosts ais else e => mret (Err e) in
    cert ← deref (NewCertificate ais publicHosts);
    Apply (OCertificate cert)
  else
    r ← DeleteResourceIfExists KCertificate (CertificateNSName ais);
    mret (match r with Ok _ => Ok tt | Err e => Err e end).

(** ** Event mapping *)

Definition nodeMatchesSelector (node : Node) (selector : labels) : bool :=
  SelectorMatches selector (node_Labels node).

Definition nodeMatchesForProxy (node : Node) (ais : AIStore) : bool :=
  if IsProxyAutoScaling ais &&
     bool_decide (node_Name node ∈ ExpectedProxyNodes (status_AutoScale (Status ais))) then true
  else IsProxyAutoScaling ais && nodeMatchesSelector node (node_selector (ProxySpec (Spec ais))).

Definition nodeMatchesForTarget (node : Node) (ais : AIStore) : bool :=
  if IsTargetAutoScaling ais &&
     bool_decide (node_Name node ∈ ExpectedTargetNodes (status_AutoScale (Status ais))) then true
  else IsTargetAutoScaling ais && nodeMatchesSelector node (node_selector (target_ds (Spec ais))).

Definition nodeAffectsTLSCertificate (node : Node) (ais : AIStore) : bool :=
  let hosts ds := nodeMatchesSelector node (node_selector ds) && toleratesTaints (ds_Tolerations ds) node in
  if negb (UseTLSCertificate ais) || bool_decide (GetPublicNetDNSMode ais = PubNetDNSModePod) then false
  else if hosts (ProxySpec (Spec ais)) then true
  else hosts (target_ds (Spec ais)).

(** Whether an event of [node] enqueues a reconciliation of [ais]. *)
Definition node_concerns (node : Node) (ais : AIStore) : bool :=
  if IsProxyAutoScaling ais && nodeMatchesForProxy node ais then true
  else if IsTargetAutoScaling ais && nodeMatchesForTarget node ais then true
  else nodeAffectsTLSCertificate node ais.

Definition findAISClustersForNode (node : Node) : H (list nsname) :=
  r ← call KListAIStore;
  mret (match r with
        | Err _ => []
        | Ok aisList => ais_Name <$> filter (fun ais => node_concerns node ais = true) aisList
        end).

Definition findAISClustersForPod (pod : Pod) : list nsname :=
  let aisName := index (pod_Labels pod) LabelAppPrefixed in
  if bool_decide (aisName = "") then [] else [NN (nn_namespace (pod_Name pod)) aisName].

(** [nodePredicate.UpdateFunc] and [podPredicate.UpdateFunc] of [SetupWithManager], for events
    whose objects have the expected type. Labels and taints are decoded from the API server,
    where a missing map or list is always nil, so [reflect.DeepEqual] is equality here. *)
Definition node_update_relevant (old new : Node) : bool :=
  if bool_decide (node_Labels old ≠ node_Labels new) then true
  else bool_decide (node_Taints old ≠ node_Taints new).
Definition pod_update_relevant (old new : Pod) : bool :=
  bool_decide (pod_NodeName old ≠ pod_NodeName new).
End Nodes.

(** ** Facts *)

(** The union has the elements of both lists, once each, in increasing order. *)
Lemma elem_of_unionSorted x a b : x ∈ unionSorted a b <-> x ∈ a \/ x ∈ b.
Proof. unfold unionSorted. by rewrite elem_of_compact, elem_of_sort_strings, elem_of_app. Qed.

Lemma unionSorted_sorted a b : StronglySorted String.le (unionSorted a b).
Proof. apply compact_sorted, sort_strings_sorted. Qed.

Lemma unionSorted_NoDup a b : NoDup (unionSorted a b).
Proof. apply compact_NoDup, sort_strings_sorted. Qed.

Lemma elem_of_pod_nodes x pods :
  x ∈ pod_nodes pods <-> x ≠ "" /\ exists p, p ∈ pods /\ pod_NodeName p = x.
Proof.
  unfold pod_nodes. rewrite elem_of_sort_strings, elem_of_remove_dups, list_elem_of_filter, list_elem_of_fmap.
  naive_solver.
Qed.
