(* ===== verification/ProxyController.v ===== *)
(** * The proxy controller

    [internal/controller/aistore/proxy_controller.go]: bootstrap, rollout and scaling of the
    proxies, and the choice of the primary proxy. *)

From S2P Require Import Prelude Effects K8sTypes AISConfig AIStoreTypes ThirdParty AuthConf AIStoreMethods GlobalConfig CmnResources Certificates ProxyResources Templates Rollout Requests K8sClient ClusterOps.

Definition proxyStartupInterval : Z := 5 * second.
Definition proxyDNSInterval : Z := 5 * second.
Definition statefulsetRequeueDelay : Z := second.

Definition shouldResetPartition (ss : StatefulSet) : bool :=
  match us_RollingUpdate (sss_UpdateStrategy (ss_Spec ss)) with
  | None => false
  | Some p => if p =? 0 then false else ssst_CurrentReplicas (ss_Status ss) =? 1
  end.

(** A rolling update that leaves the pods below the partition alone. *)
Definition partitioned (p : Z) : UpdateStrategy := MkUpdateStrategy RollingUpdateStrategy (Some p).

Definition findPrimaryPodIdx (ais : AIStore) (smap : Smap) (currentSize : Z) : option Z :=
  match Primary smap with
  | None => None
  | Some p => List.find (fun idx => hostnameMatchesPod (sn_ControlHostname p) (Proxy.PodName ais idx))
                (seqZ 0 currentSize)
  end.

(** Desired indices to be removed, highest first. *)
Definition removed_indices (currentSize desiredSize : Z) : list Z :=
  reverse (seqZ desiredSize (currentSize - desiredSize)).

(** Before scaling down by more than nothing, or scaling anyhow under autoscaling, the
    autoscaled decision is checked again against the API server. *)
Definition confirmScalingNeeded (key : nsname) (cached : StatefulSet)
    (desired maxUnavailable : Z) (autoScaling : bool) : H (res bool) :=
  if negb autoScaling || (sss_Replicas (ss_Spec cached) <=? desired) then mret (Ok true)
  else
    let? fresh := GetStatefulSetDirect key else e => mret (Err e) in
    mret (Ok (statefulsetScalingNeeded fresh desired maxUnavailable autoScaling)).

(** Patch a StatefulSet read earlier. *)
Definition patchStatefulSet (original modified : StatefulSet) : H (res unit) :=
  call (KPatchStatefulSet original modified).

(** ** The primary proxy *)

Definition setPrimaryTo (ais : AIStore) (podIdx : Z) : H (res unit) :=
  let podName := Proxy.PodName ais podIdx in
  let? apiClient := call (AGetClient ais) else e => mret (Err e) in
  let? smap := call (AGetClusterMap apiClient) else e => mret (Err e) in
  let already := match Primary smap with
                 | Some p => hostnameMatchesPod (sn_ControlHostname p) podName | None => false end in
  if already then mret (Ok tt)
  else
    match findAISNodeByPodName (Pmap smap) podName with
    | Err e => mret (Err e)
    | Ok node => call (ASetPrimaryProxy apiClient (sn_ID node) (sn_PubURL node) true)
    end.

Definition setHighestPodAsPrimary (ais : AIStore) (ss : StatefulSet) : H (res unit) :=
  setPrimaryTo ais (i32 (sss_Replicas (ss_Spec ss) - 1)).

Definition resetSSPartition (ss : StatefulSet) : H (res unit) :=
  patchStatefulSet ss (ss_set_strategy ss (partitioned 0)).

Section Controller.
Context `{T : ThirdParty}.

Definition isPodValidNewPrimary (name : nsname) (ss : StatefulSet) : H bool :=
  r ← GetPod name;
  mret (match r with
        | Err _ => false
        | Ok pod =>
            let rev := ssst_UpdateRevision (ss_Status ss) in
            if negb (isPodReady (Some pod)) then false
            else negb (bool_decide (rev ≠ "") && negb (isPodOnRevision (Some pod) rev))
        end).

Definition isIndexValidNewPrimary (ais : AIStore) (ss : StatefulSet) (smap : Smap) (idx : Z) : H bool :=
  let podName := Proxy.PodName ais idx in
  match findAISNodeByPodName (Pmap smap) podName with
  | Err _ => mret false
  | Ok node =>
      if InMaintOrDecomm smap (sn_ID node) then mret false
      else isPodValidNewPrimary (in_ns ais podName) ss
  end.

(** The loop over the candidate indices, lowest first. *)
Fixpoint try_primaries (ais : AIStore) (ss : StatefulSet) (smap : Smap) (idxs : list Z) : H (res unit) :=
  match idxs with
  | [] => mret (Err (errorf "no pod found to set as primary"))
  | idx :: idxs' =>
      valid ← isIndexValidNewPrimary ais ss smap idx;
      if negb valid then try_primaries ais ss smap idxs'
      else
        let? _ := setPrimaryTo ais idx else _e => try_primaries ais ss smap idxs' in
        mret (Ok tt)
  end.

Definition setLowestEligiblePodAsPrimary (ais : AIStore) (ss : StatefulSet) (smap : Smap)
    (desiredSize : Z) : H (res unit) :=
  try_primaries ais ss smap (seqZ 0 desiredSize).

Definition ensurePrimarySurvivesScaleDown (ais : AIStore) (ss : StatefulSet) (smap : Smap)
    (desiredSize : Z) : H (res unit) :=
  let stays := match findPrimaryPodIdx ais smap (sss_Replicas (ss_Spec ss)) with
               | Some idx => idx <? desiredSize | None => false end in
  if stays then mret (Ok tt) else setLowestEligiblePodAsPrimary ais ss smap desiredSize.

(** Best effort: missing nodes and failed calls are skipped. *)
Fixpoint decommission_indices (ais : AIStore) (smap : Smap) (apiClient : api_client) (idxs : list Z) : H unit :=
  match idxs with
  | [] => mret tt
  | idx :: idxs' =>
      match findAISNodeByPodName (Pmap smap) (Proxy.PodName ais idx) with
      | Err _ => decommission_indices ais smap apiClient idxs'
      | Ok node =>
          _ ← call (ADecommissionNode apiClient (MkRmNode (sn_ID node) false false));
          decommission_indices ais smap apiClient idxs'
      end
  end.

Definition decommissionProxies (ais : AIStore) (smap : Smap) (apiClient : api_client)
    (currentSize desiredSize : Z) : H unit :=
  decommission_indices ais smap apiClient (removed_indices currentSize desiredSize).

(** ** Scaling *)

Definition prepareProxyScaleDown (ss : StatefulSet) : H (res unit) :=
  ais ← get;
  desiredSize ← deref (GetProxySize ais);
  let? apiClient := call (AGetClient ais) else e => mret (Err e) in
  let? smap := call (AGetClusterMap apiClient) else e => mret (Err e) in
  let? _ := ensurePrimarySurvivesScaleDown ais ss smap desiredSize else e => mret (Err e) in
  decommissionProxies ais smap apiClient (sss_Replicas (ss_Spec ss)) desiredSize ≫= fun _ =>
  mret (Ok tt).

Definition handleProxyScale (ss : StatefulSet) : H (res unit) :=
  ais ← get;
  desiredReplicas ← deref (GetProxySize ais);
  let currentReplicas := sss_Replicas (ss_Spec ss) in
  if currentReplicas =? desiredReplicas then mret (Ok tt)
  else
    let? _ := (if desiredReplicas <? currentReplicas then prepareProxyScaleDown ss else mret (Ok tt))
      else e => mret (Err e) in
    let? _ := UpdateStatefulSetReplicas (Proxy.StatefulSetNSName ais) desiredReplicas
      else e => mret (Err e) in
    mret (Ok tt).

(** ** Rollout *)

(** The pod template of the desired StatefulSet. *)
Definition desired_proxy_template (ais : AIStore) : H PodTemplateSpec :=
  size ← deref (GetProxySize ais);
  ss ← deref (Proxy.NewProxyStatefulSet ais size);
  mret (sss_Template (ss_Spec ss)).

Definition syncProxyPodSpec (ss : StatefulSet) : H (res bool) :=
  ais ← get;
  desiredTemplate ← desired_proxy_template ais;
  let '(needsUpdate, reason) := shouldUpdatePodTemplate desiredTemplate (sss_Template (ss_Spec ss)) in
  if negb needsUpdate then mret (Ok false)
  else
    let active := 0 <? ssst_ReadyReplicas (ss_Status ss) in
    let? _ := (if active then setPrimaryTo ais 0 else mret (Ok tt)) else e => mret (Err e) in
    let updatedSS := if active then ss_set_strategy ss (partitioned 1) else ss in
    let updatedSS := ss_set_template updatedSS
      (syncPodTemplate desiredTemplate (sss_Template (ss_Spec ss))).1 in
    let? _ := patchStatefulSet ss updatedSS else e => mret (Err e) in
    mret (Ok true).

Definition syncProxyPVCRetentionPolicy (ss : StatefulSet) : H (res bool) :=
  ais ← get;
  let desiredPolicy := ds_PVCRetentionPolicy (ProxySpec (Spec ais)) in
  if negb (shouldUpdatePVCRetentionPolicy desiredPolicy (sss_PVCRetentionPolicy (ss_Spec ss)))
  then mret (Ok false)
  else
    let? _ := patchStatefulSet ss (ss_set_retention ss desiredPolicy) else e => mret (Err e) in
    mret (Ok true).

Definition handleProxyRollout (ss : StatefulSet) : H (res unit) :=
  ais ← get;
  let st := ss_Status ss in
  if bool_decide (ssst_UpdateRevision st = ssst_CurrentRevision st) then mret (Ok tt)
  else if negb (shouldResetPartition ss) then mret (Ok tt)
  else
    let? _ := setHighestPodAsPrimary ais ss else e => mret (Err e) in
    resetSSPartition ss.

(** ** Bootstrap *)

Definition endpoint_ready (slices : list EndpointSlice) : bool :=
  existsb (existsb (fun ready => bool_decide (ready = Some true))) slices.

Definition checkProxySvcEndpoints (ais : AIStore) : H outcome :=
  let? endpoints := GetServiceEndpoints (Proxy.HeadlessSVCNSName ais) else e => mret (failed e) in
  if endpoint_ready endpoints then mret finished
  else
    emit_event "Waiting" "InitProxies" "Waiting for proxy service to have registered endpoints" ≫= fun _ =>
    mret (requeue proxyDNSInterval).

Definition initProxies : H outcome :=
  ais ← get;
  ss ← deref (Proxy.NewProxyStatefulSet ais 1);
  let? exists_ := CreateResourceIfNotExists ais (OStatefulSet ss)
    else e => recordError e "Failed to deploy Primary proxy" ≫= fun _ => mret (failed e) in
  if negb exists_ then mret (requeue proxyStartupInterval)
  else
    let? _ := GetRunningPod (Proxy.DefaultPrimaryNSName ais)
      else _e => emit_event "Waiting" "InitProxies" "Waiting for primary proxy to come up" ≫= fun _ =>
                 mret (requeue proxyStartupInterval) in
    size ← deref (GetProxySize ais);
    let? changed := UpdateStatefulSetReplicas (Proxy.StatefulSetNSName ais) size
      else e => recordError e "Failed to deploy StatefulSet" ≫= fun _ => mret (failed e) in
    (if changed : bool then emit_event "Initialized" "InitProxies" "Successfully initialized proxy nodes"
     else mret tt) ≫= fun _ =>
    checkProxySvcEndpoints ais.

Definition ensureProxyPrereqs : H (res unit) :=
  ais ← get;
  match Proxy.NewProxyCM ais with
  | Err e => record_fail "Failed to generate valid proxy ConfigMap" e
  | Ok cm =>
      let? _ := Apply (OConfigMap cm) else e => record_fail "Failed to deploy ConfigMap" e in
      let? _ := Apply (OService (Proxy.NewProxyHeadlessSvc ais))
        else e => record_fail "Failed to deploy SVC" e in
      mret (Ok tt)
  end.

(** ** External access *)

Definition createProxyExternalService (ais : AIStore) : H (res unit) :=
  Apply (OService (Proxy.NewProxyLoadBalancerSVC ais)).

Definition proxyExternalSvcReady (ais : AIStore) : H (res bool) :=
  let? svc := GetService (Proxy.LoadBalancerSVCNSName ais) else e => mret (Err e) in
  mret (Ok (LoadBalancerIngressReady (svc_Ingress svc))).

(** ** The state machine of the proxy StatefulSet *)

Definition isProxyScalingNeeded (ais : AIStore) (size : Z) (ss : StatefulSet) : bool :=
  statefulsetScalingNeeded ss size (GetProxyMaxUnavailable ais) (IsProxyAutoScaling ais).

Definition isProxyStatefulSetReady (ais : AIStore) (size minReady : Z) (ss : StatefulSet) : bool :=
  isStatefulSetReady ss size minReady (IsProxyAutoScaling ais).

(** [if updated, err := m; err != nil { ... } else if updated { requeue }]. *)
Definition unless_updated (m : H (res bool)) (delay : Z) (k : H outcome) : H outcome :=
  let? updated := m else e => mret (failed e) in
  if updated : bool then mret (requeue delay) else k.

Definition handleProxyState : H outcome :=
  ais ← get;
  let? ss := GetStatefulSet (Proxy.StatefulSetNSName ais)
    else e => (if is_not_found e then initProxies else mret (failed e)) in
  if negb (isStatusCurrent ss) then mret (requeue statefulsetRequeueDelay)
  else
    size ← deref (GetProxySize ais);
    minReady ← deref (GetMinReadyProxies ais);
    desiredTemplate ← desired_proxy_template ais;
    let rolling := isRolloutInProgress ss in
    let scaling := isScalingInProgress ss in
    let rolloutNeeded := (shouldUpdatePodTemplate desiredTemplate (sss_Template (ss_Spec ss))).1 in
    let scalingNeeded := isProxyScalingNeeded ais size ss in
    unless_updated (if rolloutNeeded && negb scaling then syncProxyPodSpec ss else mret (Ok false))
      proxyStartupInterval
    (unless_updated (syncProxyPVCRetentionPolicy ss) statefulsetRequeueDelay
    (if scalingNeeded && negb rolling then
       let? proceed := confirmScalingNeeded (Proxy.StatefulSetNSName ais) ss size
           (GetProxyMaxUnavailable ais) (IsProxyAutoScaling ais) else e => mret (failed e) in
       if negb proceed then mret (requeue proxyStartupInterval)
       else
         let? _ := handleProxyScale ss else e => mret (failed e) in
         mret (requeue proxyStartupInterval)
     else if rolling then
       let? _ := handleProxyRollout ss else e => mret (failed e) in
       mret (requeue proxyStartupInterval)
     else if scaling then mret (requeue proxyStartupInterval)
     else if negb (isProxyStatefulSetReady ais size minReady ss) then mret (requeue proxyStartupInterval)
     else mret finished)).

Definition cleanupProxy (ais : AIStore) : H (res bool) :=
  AnyFunc
    [ DeleteStatefulSetIfExists (Proxy.StatefulSetNSName ais);
      DeleteServiceIfExists (Proxy.HeadlessSVCNSName ais);
      DeleteServiceIfExists (Proxy.LoadBalancerSVCNSName ais);
      DeleteConfigMapIfExists (Proxy.ConfigMapNSName ais) ].
End Controller.

(** ** Facts *)

Lemma elem_of_removed_indices i current desired :
  i ∈ removed_indices current desired <-> desired <= i < current.
Proof. unfold removed_indices. rewrite elem_of_reverse, elem_of_seqZ. lia. Qed.
