(* ===== verification/TargetController.v ===== *)
(** * The target controller

    [internal/controller/aistore/target_controllers.go]: the rollout of the targets one pod at
    a time, their scaling, and their services. *)

From S2P Require Import Prelude Effects K8sTypes AISConfig AIStoreTypes ThirdParty AuthConf AIStoreMethods GlobalConfig CmnResources Certificates ProxyResources TargetResources Templates Rollout Requests K8sClient ClusterOps ProxyController.

Definition targetLongRequeueDelay : Z := 10 * second.
Definition targetShortRequeueDelay : Z := 2 * second.

(** The indices a scale-down removes, highest first. *)
Definition indices_down (current desired : Z) : list Z := removed_indices current desired.

(** The pods by name; a later pod of the same name wins. *)
Definition pod_map (pods : list Pod) : gmap string Pod :=
  fold_left (fun m p => <[ nn_name (pod_Name p) := p ]> m) pods ∅.

(** The loop of [findPodNeedingUpdate] from index [i] on; the empty string means none. *)
Fixpoint find_pod_from (ais : AIStore) (updateRevision : string) (podMap : gmap string Pod)
    (i : Z) (fuel : nat) : string :=
  match fuel with
  | O => ""
  | S fuel' =>
      if (0 <? i) && negb (isPodRolloutCompleted (podMap !! Target.PodName ais (i - 1))) then ""
      else
        let podName := Target.PodName ais i in
        match podMap !! podName with
        | None => ""
        | Some pod =>
            if pod_Deleting pod then ""
            else if bool_decide (index (pod_Labels pod) ControllerRevisionHashLabelKey = updateRevision)
            then find_pod_from ais updateRevision podMap (i + 1) fuel'
            else podName
        end
  end.

Definition pod_needing_update (ais : AIStore) (ss : StatefulSet) (pods : list Pod) : string :=
  find_pod_from ais (ssst_UpdateRevision (ss_Status ss)) (pod_map pods) 0
    (Z.to_nat (sss_Replicas (ss_Spec ss))).

Definition findPodNeedingUpdate (ais : AIStore) (ss : StatefulSet) : H string :=
  r ← ListPods ais (Target.SelectorLabels ais);
  mret (match r with Err _ => "" | Ok podList => pod_needing_update ais ss podList end).

Section Controller.
Context `{T : ThirdParty}.

(** ** Rollout *)

Definition prepareTargetForRollout (ais : AIStore) (podName : string) : H (res bool) :=
  let? pod := GetPod (in_ns ais podName)
    else e => mret (Err (wrap ("failed to get pod " +:+ podName) e)) in
  if isPodUnschedulable (Some pod) then mret (Ok false)
  else
    let? apiClient := call (AGetClient ais) else e => mret (Err (wrap "failed to get API client" e)) in
    let? smap := call (AGetClusterMap apiClient)
      else e => mret (Err (wrap "failed to get cluster map" e)) in
    match findAISNodeByPodName (Tmap smap) podName with
    | Err e => mret (Err (wrap ("failed to find node for pod " +:+ podName) e))
    | Ok node =>
        if negb (InMaint smap node) then
          let? _ := call (AStartMaintenance apiClient (MkRmNode (sn_ID node) true false))
            else e => mret (Err (wrap ("failed to start maintenance for pod " +:+ podName) e)) in
          mret (Ok true)
        else mret (Ok false)
    end.

Definition handleTargetRollout (ss : StatefulSet) : H outcome :=
  ais ← get;
  let st := ss_Status ss in
  let replicas := sss_Replicas (ss_Spec ss) in
  if bool_decide (ssst_UpdateRevision st = "") ||
     bool_decide (ssst_CurrentRevision st = ssst_UpdateRevision st) then mret finished
  else if (replicas <=? ssst_UpdatedReplicas st) && (replicas <=? ssst_ReadyReplicas st) then mret finished
  else
    podName ← findPodNeedingUpdate ais ss;
    if bool_decide (podName = "") then mret (requeue targetShortRequeueDelay)
    else
      let? again := prepareTargetForRollout ais podName else e => mret (failed e) in
      if again : bool then mret (requeue targetShortRequeueDelay)
      else
        let? _ := DeletePodIfExists (in_ns ais podName)
          else e => mret (failed (wrap ("failed to delete pod " +:+ podName) e)) in
        mret (requeue targetShortRequeueDelay).

Definition desired_target_template (ais : AIStore) : H PodTemplateSpec :=
  size ← deref (GetTargetSize ais);
  ss ← deref (Target.NewTargetSS ais size);
  mret (sss_Template (ss_Spec ss)).

Definition syncTargetPodSpec (ss : StatefulSet) : H (res bool) :=
  ais ← get;
  desiredTemplate ← desired_target_template ais;
  let '(needsUpdate, reason) := shouldUpdatePodTemplate desiredTemplate (sss_Template (ss_Spec ss)) in
  if negb needsUpdate then mret (Ok false)
  else
    let? _ := disableRebalance ReasonUpgrading ("Disabled due to rolling upgrade: " +:+ reason)
      else e => mret (Err (wrap "failed to disable rebalance before rolling upgrade" e)) in
    let updatedSS := ss_set_template ss (syncPodTemplate desiredTemplate (sss_Template (ss_Spec ss))).1 in
    let? _ := patchStatefulSet ss updatedSS else e => mret (Err e) in
    mret (Ok true).

Definition syncTargetPVCRetentionPolicy (ss : StatefulSet) : H (res bool) :=
  ais ← get;
  let desiredPolicy := ds_PVCRetentionPolicy (target_ds (Spec ais)) in
  if negb (shouldUpdatePVCRetentionPolicy desiredPolicy (sss_PVCRetentionPolicy (ss_Spec ss)))
  then mret (Ok false)
  else
    let? _ := patchStatefulSet ss (ss_set_retention ss desiredPolicy) else e => mret (Err e) in
    mret (Ok true).

(** ** Scaling *)

(** Every target removed that is a member of the cluster is in maintenance. *)
Definition isReadyToScaleDownRetain (ais : AIStore) (desiredSize : Z) (smap : Smap) (currentSize : Z) : bool :=
  forallb (fun idx =>
    match findAISNodeByPodName (Tmap smap) (Target.PodName ais idx) with
    | Err _ => true
    | Ok node => InMaint smap node
    end) (indices_down currentSize desiredSize).

Definition isReadyToScaleDownDecommission (smap : Smap) (currentSize : Z) : bool :=
  if existsb (fun n => InMaintOrDecomm smap (sn_ID n) && negb (InMaint smap n)) (Tmap smap) then false
  else negb (i32 (Z.of_nat (length (Tmap smap))) =? currentSize).

Definition isReadyToScaleDown (ais : AIStore) (desiredSize currentSize : Z) : H (res bool) :=
  let? apiClient := call (AGetClient ais) else e => mret (Err e) in
  let? smap := call (AGetClusterMap apiClient) else e => mret (Err e) in
  mret (Ok (if RetainOnScaleDown (spec_TargetSpec (Spec ais))
            then isReadyToScaleDownRetain ais desiredSize smap currentSize
            else isReadyToScaleDownDecommission smap currentSize)).

(** The preparation of one target to be removed. *)
Definition prepare_target (ais : AIStore) (apiClient : api_client) (smap : Smap) (idx : Z) : H (res unit) :=
  let podName := Target.PodName ais idx in
  match findAISNodeByPodName (Tmap smap) podName with
  | Err _ =>
      r ← GetPod (in_ns ais podName);
      mret (match r with
            | Err podErr =>
                if is_not_found podErr then Ok tt
                else Err (wrap ("failed to get pod " +:+ podName) podErr)
            | Ok pod =>
                if isPodUnschedulable (Some pod) || isPodInCrashLoopBackOff pod then Ok tt
                else Err (errorf ("waiting for target " +:+ podName +:+ " to register in smap"))
            end)
  | Ok node =>
      if InMaintOrDecomm smap (sn_ID node) then mret (Ok tt)
      else if RetainOnScaleDown (spec_TargetSpec (Spec ais)) then
        let? _ := call (AStartMaintenance apiClient (MkRmNode (sn_ID node) true false))
          else e => mret (Err e) in
        mret (Ok tt)
      else
        let rmUserData := negb (SafeDecommissionOnScaleDown (spec_TargetSpec (Spec ais))) in
        let? _ := call (ADecommissionNode apiClient (MkRmNode (sn_ID node) false rmUserData))
          else e => mret (Err e) in
        mret (Ok tt)
  end.

Definition prepareTargetsForScaleDown (actualSize : Z) : H (res unit) :=
  ais ← get;
  let? apiClient := call (AGetClient ais) else e => mret (Err e) in
  let? smap := call (AGetClusterMap apiClient) else e => mret (Err e) in
  size ← deref (GetTargetSize ais);
  for_each (indices_down actualSize size) (prepare_target ais apiClient smap).

Definition createTargetExternalServices : H (res unit) :=
  ais ← get;
  svcs ← deref (Target.NewLoadBalancerSVCList ais);
  for_each svcs (fun svc => Apply (OService svc)).

Definition scaleUpLB : H (res unit) :=
  ais ← get;
  if TargetExternalAccessEnabled ais then createTargetExternalServices else mret (Ok tt).

Definition scaleDownLB (ss : StatefulSet) : H (res unit) :=
  ais ← get;
  if negb (TargetExternalAccessEnabled ais) then mret (Ok tt)
  else
    size ← deref (GetTargetSize ais);
    for_each (indices_down (sss_Replicas (ss_Spec ss)) size) (fun idx =>
      let? _ := DeleteServiceIfExists (Target.LoadBalancerSVCNSName ais idx)
        else e => mret (Err e) in
      mret (Ok tt)).

Definition startTargetScaling (ss : StatefulSet) : H (res unit) :=
  ais ← get;
  size ← deref (GetTargetSize ais);
  if sss_Replicas (ss_Spec ss) <? size then scaleUpLB
  else
    let? _ := (if RetainOnScaleDown (spec_TargetSpec (Spec ais)) then mret (Ok tt)
               else
                 let? _ := enableRebalanceCondition else e => mret (Err e) in
                 handleConfigState true) else e => mret (Err e) in
    let? _ := scaleDownLB ss else e => mret (Err e) in
    prepareTargetsForScaleDown (sss_Replicas (ss_Spec ss)).

(** Set the replica count: after the rebalance is off when several targets join an existing
    cluster, and only once the removed targets have left when scaling down. *)
Definition resolveStatefulSetScaling : H (res unit) :=
  ais ← get;
  expectedSize ← deref (GetTargetSize ais);
  let? current := GetStatefulSet (Target.StatefulSetNSName ais) else e => mret (Err e) in
  let currentSize := sss_Replicas (ss_Spec current) in
  let update : H (res unit) :=
    ais ← get;
    let? _ := UpdateStatefulSetReplicas (Target.StatefulSetNSName ais) expectedSize else e => mret (Err e) in
    mret (Ok tt) in
  if currentSize <? expectedSize then
    if (i32 (currentSize + 1) <? expectedSize) && (0 <? currentSize) then
      let? apiClient := call (AGetClient ais) else e => mret (Err e) in
      let? _ := call (AHealth apiClient true)
        else _e => mret (Err (errorf "cannot disable rebalance before target scaling, cluster not healthy")) in
      let? _ := disableRebalance ReasonScaling "Disabled due to target scale-up" else e => mret (Err e) in
      update
    else update
  else if expectedSize <? currentSize then
    let? ready := isReadyToScaleDown ais expectedSize currentSize else e => mret (Err e) in
    if negb ready then mret (Ok tt) else update
  else update.

Definition handleTargetScaling (ss : StatefulSet) : H outcome :=
  ais ← get;
  size ← deref (GetTargetSize ais);
  let? proceed := confirmScalingNeeded (Target.StatefulSetNSName ais) ss size
      (GetTargetMaxUnavailable ais) (IsTargetAutoScaling ais) else e => mret (failed e) in
  if negb proceed then mret (requeue targetLongRequeueDelay)
  else
    let? _ := startTargetScaling ss else e => mret (failed e) in
    let? _ := resolveStatefulSetScaling else e => mret (failed e) in
    mret (requeue targetLongRequeueDelay).

(** ** Bootstrap, disruption budget, readiness of the services *)

Definition initTargets : H outcome :=
  ais ← get;
  size ← deref (GetTargetSize ais);
  ss ← deref (Target.NewTargetSS ais size);
  let? exists_ := CreateResourceIfNotExists ais (OStatefulSet ss)
    else e => recordError e "Failed to deploy target statefulset" ≫= fun _ => mret (failed e) in
  if exists_ : bool then mret finished
  else
    emit_event "Initialized" "InitTargets" "Successfully initialized target nodes" ≫= fun _ =>
    mret (requeue targetShortRequeueDelay).

Definition reconcileTargetPDB (ais : AIStore) : H (res unit) :=
  if TargetPDBEnabled ais then
    let? _ := CreateOrUpdateResource ais (OPDB (Target.NewTargetPDB ais)) else e => mret (Err e) in
    mret (Ok tt)
  else
    let? _ := DeletePDBIfExists (Target.PDBNSName ais) else e => mret (Err e) in
    mret (Ok tt).

Definition ensureTargetPrereqs : H (res unit) :=
  ais ← get;
  match Target.NewTargetCM ais with
  | Err e => record_fail "Failed to generate valid target ConfigMap" e
  | Ok cm =>
      let? _ := Apply (OConfigMap cm) else e => record_fail "Failed to deploy target ConfigMap" e in
      let? _ := Apply (OService (Target.NewTargetHeadlessSvc ais))
        else e => record_fail "Failed to deploy target SVC" e in
      mret (Ok tt)
  end.

Definition targetExternalSvcReady (ais : AIStore) : H (res bool) :=
  let? svcs := call (KListServices (nn_namespace (ais_Name ais)) (NewServiceLabels (aname ais) "target-lb"))
    else e => mret (Err e) in
  expected ← deref (GetTargetSize ais);
  mret (Ok (if Z.of_nat (length svcs) <? expected then false
            else forallb (fun s => LoadBalancerIngressReady (svc_Ingress s)) svcs)).

(** ** The state machine of the target StatefulSet *)

Definition isTargetScalingNeeded (ais : AIStore) (size : Z) (ss : StatefulSet) : bool :=
  statefulsetScalingNeeded ss size (GetTargetMaxUnavailable ais) (IsTargetAutoScaling ais).

Definition isTargetStatefulSetReady (ais : AIStore) (size minReady : Z) (ss : StatefulSet) : bool :=
  isStatefulSetReady ss size minReady (IsTargetAutoScaling ais).

Definition handleTargetState : H outcome :=
  ais ← get;
  let? ss := GetStatefulSet (Target.StatefulSetNSName ais)
    else e => (if is_not_found e then initTargets else mret (failed e)) in
  let? _ := reconcileTargetPDB ais
    else e => recordError e "Failed to sync target PDB" ≫= fun _ => mret (failed e) in
  if negb (isStatusCurrent ss) then mret (requeue statefulsetRequeueDelay)
  else
    size ← deref (GetTargetSize ais);
    minReady ← deref (GetMinReadyTargets ais);
    desiredTemplate ← desired_target_template ais;
    let rolling := isRolloutInProgress ss in
    let scaling := isScalingInProgress ss in
    let rolloutNeeded := (shouldUpdatePodTemplate desiredTemplate (sss_Template (ss_Spec ss))).1 in
    let scalingNeeded := isTargetScalingNeeded ais size ss in
    unless_updated (syncTargetPVCRetentionPolicy ss) statefulsetRequeueDelay
    (unless_updated (if rolloutNeeded && negb scaling then syncTargetPodSpec ss else mret (Ok false))
       targetLongRequeueDelay
    (if scalingNeeded && negb rolling then handleTargetScaling ss
     else if rolling then
       unless_done (handleTargetRollout ss) (mret (requeue targetLongRequeueDelay))
     else if scaling then mret (requeue targetLongRequeueDelay)
     else if negb (isTargetStatefulSetReady ais size minReady ss)
     then mret (requeue targetLongRequeueDelay)
     else mret finished)).

Definition cleanupTargetSS (ais : AIStore) : H (res bool) :=
  DeleteStatefulSetIfExists (Target.StatefulSetNSName ais).

Definition cleanupTarget (ais : AIStore) : H (res bool) :=
  AnyFunc
    [ DeletePDBIfExists (Target.PDBNSName ais);
      cleanupTargetSS ais;
      DeleteServiceIfExists (Target.HeadlessSVCNSName ais);
      DeleteAllServicesIfExist (nn_namespace (ais_Name ais)) (NewServiceLabels (aname ais) "target-lb");
      DeleteConfigMapIfExists (Target.ConfigMapNSName ais) ].
End Controller.
