(* ===== verification/LoopStages.v ===== *)
(** * What the closed loops of [Reconcile] share

    The object they are about, serialization, and the stages that do the same in every world. *)

From S2P Require Import Prelude Effects ClosedLoop K8sTypes AISConfig AIStoreTypes ThirdParty AIStoreMethods GlobalConfig CmnResources ProxyResources TargetResources Requests K8sClient ClusterOps Nodes.

(** What the API server makes of a patch of the object: annotations and finalizers. *)
Definition patched (a m : AIStore) : AIStore :=
  set_annotations (set_finalizers a (ais_Finalizers m)) (ais_Annotations m).

(** The same object, not deleted, with any status, annotations and finalizers. *)
Record same_object (ais a : AIStore) : Prop := {
  so_name : ais_Name a = ais_Name ais; so_uid : ais_UID a = ais_UID ais;
  so_spec : Spec a = Spec ais; so_deleting : ais_Deleting a = false;
}.

(** Serialization succeeds, as it does on values without functions or cycles; a digest is not
    empty. *)
Record encodes (T : ThirdParty) : Prop := {
  enc_morph : forall c, exists s, MorphMarshal c = Ok s;
  enc_config : forall c, exists s, MarshalConfig c = Ok s;
  enc_http : forall c, exists s, MarshalHTTP c = Ok s;
  enc_map : forall m, exists s, MarshalStringMap m = Ok s;
  enc_local : forall c, exists s, MarshalLocalConf c = Ok s;
  enc_digest : forall s, sha256_hex s ≠ "";
}.

Lemma config_encodes `{T : ThirdParty} (enc : encodes T) a : exists c h r,
  GenerateGlobalConfig a = Ok c /\ HashGlobalConfig c = Ok h /\ h ≠ "" /\ HashRestartConfigs c = Ok r.
Proof.
  pose proof (enc_digest _ enc) as Hdig.
  unfold GenerateGlobalConfig, GenerateConfigToSet, Convert, HashGlobalConfig, HashRestartConfigs.
  destruct (enc_morph _ enc (spec_config a)) as [s ->]. cbn. eexists _.
  destruct (enc_config _ enc (Merge (newInitialConfig a) s)) as [h Hh]. exists (sha256_hex h).
  destruct (n ← cu_Net (cs_Sections (Merge (newInitialConfig a) s)); net_HTTP n) as [hc|] eqn:Hc.
  - destruct (enc_http _ enc hc) as [d Hd]. exists (sha256_hex d). split; [done|]. rewrite Hh, Hc. cbn. rewrite Hd. done.
  - exists (sha256_hex ""). split; [done|]. rewrite Hh, Hc. done.
Qed.

(** The two StatefulSets have different names. *)
Lemma sets_distinct ais : Proxy.StatefulSetNSName ais ≠ Target.StatefulSetNSName ais.
Proof.
  unfold Proxy.StatefulSetNSName, Target.StatefulSetNSName, in_ns, ProxyStatefulSetName,
    Target.statefulSetName, aname. intros [= H]. apply (inj (String.app _)) in H. by apply (inj (String.app _)) in H.
Qed.

Section Stages.
Context `{T : ThirdParty} {W : Type} (step : W -> forall r : req, answer r -> W -> Prop).
Context (faults : W -> nat) (with_faults : W -> nat -> W).
#[local] Abbreviation reads r := (answers step failure faults with_faults r (fun x => x) (anything (W := W)) no_error).
Context (read_nodes : forall sel, reads (KListNodes sel)) (read_pods : forall ns sel, reads (KListPods ns sel)).

Lemma loop_nodes_expected a ds ls s w :
  loop_wpm step (expected_nodes a ds ls) s w (fun w' s' r => s' = s /\
    match r with Ok _ => w' = w | Err _ => exists n, faults w = S n /\ w' = with_faults w n end).
Proof.
  unfold expected_nodes, listMatchingNodeNames, listMatchingNodes, listNodesRunningDaemonPods, ListPods, ListNodesMatchingSelector.
  do 3 apply lw_try. apply (lw_read step _ _ _ _ _ _ _ _ (read_nodes _)). intros [l|e]; cbn.
  - do 4 lw_step. apply (lw_read step _ _ _ _ _ _ _ _ (read_pods _ _)). intros [l'|e]; cbn; [by repeat lw_step|].
    intros n Hf _. repeat lw_step. eauto.
  - intros n Hf _. repeat lw_step. eauto.
Qed.

(** The autoscaling stage writes what it found, or a list failed. *)
Lemma loop_determine s w (Q : W -> AIStore -> res unit -> Prop) :
  (forall status, loop_wpm step (updateAutoScaleStatus status) s w Q) ->
  (forall n e, faults w = S n -> Q (with_faults w n) s (Err e)) ->
  loop_wpm step determineAutoScaleStatus s w Q.
Proof.
  intros Hu He. unfold determineAutoScaleStatus. lw_step. lw_step.
  assert (forall (b : bool) ds ls, loop_wpm step (if b then expected_nodes s ds ls else mret (Ok [])) s w
    (fun w' s' r => s' = s /\ match r with Ok _ => w' = w | Err _ => exists n, faults w = S n /\ w' = with_faults w n end)) as Hl.
  { intros [] ds ls; [by apply loop_nodes_expected | by lw_step]. }
  lw_step. eapply lw_mono; [apply Hl|]. intros w1 s1 [t|e] [-> H1].
  2: { destruct H1 as (n & Hn & ->). lw_step. by apply He. }
  subst w1. lw_step. eapply lw_mono; [apply Hl|]. intros w2 s2 [p|e] [-> H2]; [subst w2; apply Hu|].
  destruct H2 as (n & Hn & ->). lw_step. by apply He.
Qed.
End Stages.
