(* ===== verification/Cleanup.v ===== *)
(** * Cleanup of a deleted cluster

    [internal/controller/aistore/cluster_cleanup.go]: deletion of the Kubernetes resources,
    and the node-local jobs that remove the on-disk state. *)

From S2P Require Import Prelude Effects K8sTypes AISConfig AIStoreTypes ThirdParty AuthConf AIStoreMethods GlobalConfig CmnResources Certificates ProxyResources TargetResources AdminClient Requests K8sClient ClusterOps ProxyController TargetController.

Section Cleanup.
Context `{T : ThirdParty}.

Definition cleanupRBAC (ais : AIStore) : H (res bool) :=
  AnyFunc
    [ DeleteResourceIfExists KRoleBinding (in_ns ais (roleBindingName ais));
      DeleteResourceIfExists KRole (in_ns ais (roleName ais));
      DeleteResourceIfExists KServiceAccount (in_ns ais (ServiceAccountName ais)) ].

Definition cleanupAdminClient (ais : AIStore) : H (res bool) :=
  DeleteDeploymentIfExists (DeploymentNSName ais).

Definition cleanupTLS (ais : AIStore) : H (res bool) :=
  DeleteResourceIfExists KCertificate (CertificateNSName ais).

(** The result tells about the proxy claims only. *)
Definition deleteAllPVCs (ais : AIStore) : H (res bool) :=
  let ns := nn_namespace (ais_Name ais) in
  let? _ := DeletePVCs ns (Target.SelectorLabels ais) None else e => mret (Err e) in
  DeletePVCs ns (Proxy.SelectorLabels ais) None.

Definition cleanupPVC (ais : AIStore) : H (res bool) :=
  if negb (ShouldCleanupMetadata ais) then mret (Ok false) else deleteAllPVCs ais.

(** ** Host cleanup jobs *)

Fixpoint createCleanupJobs (ais : AIStore) (nodes : list string) : H (res unit) :=
  match nodes with
  | [] => mret (Ok tt)
  | nodeName :: nodes' =>
      r ← Create (None, OJob (NewCleanupJob ais nodeName));
      match r with
      | Ok _ => createCleanupJobs ais nodes'
      | Err e => if is_already_exists e then createCleanupJobs ais nodes' else mret (Err e)
      end
  end.

Definition cleanupHostStateMounts (ais : AIStore) : H (res unit) :=
  let? nodeNames := ListNodesMatchingAISSelectors ais else e => mret (Err e) in
  let? _ := createCleanupJobs ais nodeNames else e => mret (Err e) in
  updateStatusWithState HostCleanup.

Definition listCleanupJobs (namespace : string) : H (res (list Job)) :=
  let? jobs := ListJobsInNamespace namespace else e => mret (Err e) in
  mret (Ok (filter (fun j => has_prefix (nn_name (job_Name j)) CleanupPrefix = true) jobs)).

(** Jobs that succeeded, or are older than two minutes, are deleted; the others remain. The
    clock is read only for jobs that have not succeeded. *)
Fixpoint delete_finished (jobs remaining : list Job) : H (res (list Job)) :=
  match jobs with
  | [] => mret (Ok remaining)
  | job :: jobs' =>
      if 0 <? job_Succeeded job then
        let? _ := DeleteResourceIfExists KJob (job_Name job) else e => mret (Err e) in
        delete_finished jobs' remaining
      else
        now ← call ENow;
        if 2 * minute <? now - job_CreationTimestamp job then
          let? _ := DeleteResourceIfExists KJob (job_Name job) else e => mret (Err e) in
          delete_finished jobs' remaining
        else delete_finished jobs' (remaining ++ [job])
  end.

Definition deleteFinishedJobs (jobs : list Job) : H (res (list Job)) := delete_finished jobs [].

(** ** All resources, then the hosts *)

Definition cleanup : H (res bool) :=
  ais ← get;
  let? updated := AnyFunc
    [ cleanupTarget ais; cleanupProxy ais; cleanupAdminClient ais;
      DeleteConfigMapIfExists (statsd_ConfigMapNSName ais);
      cleanupRBAC ais; cleanupPVC ais; cleanupTLS ais ] else e => mret (Err e) in
  if ShouldCleanupMetadata ais && UsesStateHostPath (Spec ais) then
    let? _ := cleanupHostStateMounts ais else e => mret (Err e) in
    mret (Ok updated)
  else mret (Ok updated).
End Cleanup.
