(* ===== verification/HostHelper.v ===== *)
(** * The host clean-up command

    [ais-operator-helper/src/cleanup-helper.go]: the program the clean-up jobs run on each
    node, over the directory of the node-local state. [filepath.Walk] and [os.Remove] are those
    of Go's library; what the file system answers is a tree and the operations on it that fail.
    A path is the list of its cleaned components. *)

From S2P Require Import Prelude Effects K8sTypes AISConfig AIStoreTypes ThirdParty AuthConf AIStoreMethods GlobalConfig CmnResources.

Abbreviation path := (list string) (only parsing).

(** What [os.Lstat] tells apart: directories, with their entries in the order [readDirNames]
    sorts them, and everything else (files, links, devices). *)
Inductive entry := Leaf | Dir (entries : list (string * entry)).

Definition filepath_Base (p : path) : string := List.last p "/".
Definition filepath_Join (p : path) (name : string) : path := p ++ [name].

(** Induction with a hypothesis for each entry of a directory. *)
Lemma entry_tree_ind (P : entry -> Prop) :
  P Leaf -> (forall l, Forall (fun e => P e.2) l -> P (Dir l)) -> forall t, P t.
Proof.
  intros Hl Hd. fix IH 1. intros [|l]; [exact Hl|]. apply Hd.
  induction l as [|[name t] l IHl]; constructor; [apply IH | exact IHl].
Qed.

Section Helper.
(** The operations that fail, by path. *)
Context (lstat_fails readdir_fails remove_fails : path -> option error).

(** What a walk has done: the files removed, in order, and how it ended. *)
Abbreviation walked := (list path * res unit)%type.

(** [filepath.Walk] below a path whose [Lstat] succeeded; [fn p is_dir err] is the callback. *)
Section Walk.
Context (fn : path -> bool -> option error -> walked).

Definition and_then (w : walked) (k : walked) : walked :=
  match w with (d, Ok _) => (d ++ k.1, k.2) | (d, Err e) => (d, Err e) end.

Fixpoint walk (p : path) (t : entry) : walked :=
  match t with
  | Leaf => fn p false None
  | Dir entries =>
      match readdir_fails p with
      | Some e => fn p true (Some e)
      | None => and_then (fn p true None)
          ((fix each (l : list (string * entry)) : walked :=
              match l with
              | [] => ([], Ok tt)
              | (name, t') :: l' =>
                  let filename := filepath_Join p name in
                  and_then (match lstat_fails filename with
                            | Some e => fn filename false (Some e)
                            | None => walk filename t'
                            end) (each l')
              end) entries)
      end
  end.

Definition Walk (root : path) (t : entry) : walked :=
  match lstat_fails root with Some e => fn root false (Some e) | None => walk root t end.
End Walk.

Definition deletionFunc (p : path) (is_dir : bool) (err : option error) : walked :=
  match err with
  | Some e => ([], Err e)
  | None =>
      if negb is_dir && has_prefix (filepath_Base p) ".ais." then
        match remove_fails p with Some e => ([], Err e) | None => ([p], Ok tt) end
      else ([], Ok tt)
  end.

Definition deleteConfigFiles (dirPath : path) (t : entry) : walked := Walk deletionFunc dirPath t.

(** The exit status of the command. *)
Definition helper_main (dirPath : path) (t : entry) : list path * Z :=
  match deleteConfigFiles dirPath t with (d, Err _) => (d, 1) | (d, Ok _) => (d, 0) end.

(** ** What it removes *)

(** The files below a path, in the order of the walk. *)
Fixpoint files (p : path) (t : entry) : list path :=
  match t with
  | Leaf => [p]
  | Dir entries => concat (map (fun '(name, t') => files (filepath_Join p name) t') entries)
  end.
(** Everything below a path. *)
Fixpoint paths (p : path) (t : entry) : list path :=
  p :: match t with
       | Leaf => []
       | Dir entries => concat (map (fun '(name, t') => paths (filepath_Join p name) t') entries)
       end.
Definition state_file (p : path) : Prop := has_prefix (filepath_Base p) ".ais." = true.
#[export] Instance state_file_dec p : Decision (state_file p).
Proof. unfold state_file. apply _. Defined.

(** Some operation failed on one of the paths. *)
Definition some_failure (l : list path) (e : error) : Prop :=
  exists p, p ∈ l /\ (lstat_fails p = Some e \/ readdir_fails p = Some e \/ remove_fails p = Some e).
(** The state files of a list, removed up to a failure on one of the paths. *)
Definition removes (fs ps : list path) (w : list path * res unit) : Prop :=
  exists rest, w.1 ++ rest = filter state_file fs /\
    match w.2 with Ok _ => rest = [] | Err e => some_failure ps e end.

Lemma removes_nothing e ps fs : some_failure ps e -> removes fs ps ([], Err e).
Proof. intros Hf. by exists (filter state_file fs). Qed.

Lemma removes_then fs1 fs2 ps1 ps2 w1 w2 :
  removes fs1 ps1 w1 -> removes fs2 ps2 w2 -> removes (fs1 ++ fs2) (ps1 ++ ps2) (and_then w1 w2).
Proof.
  intros (r1 & H1 & He1) (r2 & H2 & He2). destruct w1 as [d1 [u|e]], w2 as [d2 o]; cbn in *.
  - subst r1. exists r2. rewrite filter_app, <-H1, <-H2, app_nil_r, (assoc_L app). split; [done|].
    destruct o as [|e]; [done|]. destruct He2 as (p & Hp & ?). exists p. split; [|done]. apply elem_of_app. by right.
  - exists (r1 ++ filter state_file fs2). rewrite filter_app, <-H1, (assoc_L app). split; [done|].
    destruct He1 as (p & Hp & ?). exists p. split; [|done]. apply elem_of_app. by left.
Qed.

Lemma removes_weaken fs ps ps' w : (forall p, p ∈ ps -> p ∈ ps') -> removes fs ps w -> removes fs ps' w.
Proof.
  intros Hps (r & H & He). exists r. split; [done|]. destruct w.2; [done|]. destruct He as (p & Hp & ?). exists p. auto.
Qed.

Lemma paths_here p t : p ∈ paths p t.
Proof. destruct t; by left. Qed.

Lemma walk_removes t p : removes (files p t) (paths p t) (walk deletionFunc p t).
Proof.
  revert p. induction t as [|l IH] using entry_tree_ind; intros p; cbn [walk files paths].
  - unfold removes, deletionFunc. cbn. destruct (has_prefix (filepath_Base p) ".ais.") eqn:Hp.
    + rewrite decide_True by done. destruct (remove_fails p) as [e|] eqn:Hr; cbn.
      * exists [p]. split; [done|]. exists p. split; [by left|auto].
      * by exists [].
    + rewrite decide_False by (unfold state_file; congruence). by exists [].
  - destruct (readdir_fails p) as [e|] eqn:Hr.
    { apply removes_nothing. exists p. split; [by left|auto]. }
    apply (removes_then [] _ [p] _ ([], Ok tt)); [by exists []|].
    induction IH as [|[name t'] l Ht _ IHl]; cbn [map concat]; [by exists []|].
    apply removes_then; [|exact IHl]. cbv zeta. destruct (lstat_fails _) as [e|] eqn:Hs; [|apply Ht].
    apply removes_nothing. exists (filepath_Join p name). split; [apply paths_here|auto].
Qed.

(** C40. The clean-up of a node removes state files only, in the order of the walk, and stops at
    the first failure of an operation on something under the directory. When it reports
    success, so that its job counts as finished, exactly the files that are no state files are
    left; it reports a failure only if there was one. *)
Theorem host_state_removed dirPath t :
  let '(removed, status) := helper_main dirPath t in
  removed `prefix_of` filter state_file (files dirPath t) /\
  (status = 0 -> filter (fun p => p ∉ removed) (files dirPath t) = filter (fun p => ~ state_file p) (files dirPath t)) /\
  (status ≠ 0 -> exists e, some_failure (paths dirPath t) e).
Proof.
  assert (removes (files dirPath t) (paths dirPath t) (deleteConfigFiles dirPath t)) as (r & Hr & He).
  { unfold deleteConfigFiles, Walk. destruct (lstat_fails dirPath) as [e|] eqn:Hs; [|apply walk_removes].
    apply removes_nothing. exists dirPath. split; [apply paths_here|auto]. }
  unfold helper_main. destruct (deleteConfigFiles dirPath t) as [d [u|e]]; cbn in *.
  - subst r. rewrite app_nil_r in Hr. split_and!; [by rewrite Hr | | done]. intros _.
    apply filter_same. intros p Hp. rewrite Hr, list_elem_of_filter. tauto.
  - split_and!; [by exists r | done | by exists e].
Qed.
End Helper.

Section Examples.
Let no_failure (p : path) : option error := None.
Let state : entry :=
  Dir [(".ais.bmd", Leaf); ("ais.db", Leaf); ("vmd", Dir [(".ais.vmd", Leaf); (".ais.vmd.old", Dir [])])].

Example everything_removed :
  helper_main no_failure no_failure no_failure ["etc"; "ais"] state =
    ([["etc"; "ais"; ".ais.bmd"]; ["etc"; "ais"; "vmd"; ".ais.vmd"]], 0).
Proof. reflexivity. Qed.

Example stopped_at_failure :
  helper_main no_failure (fun p => if bool_decide (p = ["etc"; "ais"; "vmd"]) then Some (errorf "denied") else None)
    no_failure ["etc"; "ais"] state = ([["etc"; "ais"; ".ais.bmd"]], 1).
Proof. reflexivity. Qed.
End Examples.
