(* ===== verification/Cluster.v ===== *)
(** * The cluster controller

    [internal/controller/aistore/cluster_controller.go]: the reconciliation of an AIStore, as
    a state machine over [Status.State], and the stages of a running cluster. *)

From S2P Require Import Prelude Effects K8sTypes AISConfig AIStoreTypes ThirdParty AuthConf AIStoreMethods AIStoreFacts Validation GlobalConfig CmnResources Certificates ProxyResources TargetResources AdminClient Requests K8sClient ClusterOps Nodes ProxyController TargetController Cleanup.

Definition aisFinalizer : string := "finalize.ais".
Definition aisShutdownRequeueDelay : Z := 5 * second.
Definition aisReadinessRequeueDelay : Z := 3 * second.
Definition cleanupJobDelay : Z := 5 * second.
Definition externalSvcDelay : Z := 2 * second.

Section Cluster.
Context `{T : ThirdParty}.

(** ** Initialization *)

Definition initializeCR : H (res unit) :=
  ais ← get;
  let? _ := (if ContainsFinalizer (ais_Finalizers ais) aisFinalizer then mret (Ok tt)
             else
               let ais' := set_finalizers ais (AddFinalizer (ais_Finalizers ais) aisFinalizer) in
               put ais' ≫= fun _ =>
               let? a := call (KPatchAIStore ais ais') else e => mret (Err e) in
               put a ≫= fun _ => mret (Ok tt)) else e => mret (Err e) in
  modify (SetCondition ConditionInitialized) ≫= fun _ =>
  updateStatusWithState ClusterInitialized.

(** ** Shutdown *)

(** Scale a StatefulSet to zero; [Some] is the outcome to return while it is not there yet. *)
Definition scale_to_zero (name : nsname) : H (option outcome) :=
  let? _ := UpdateStatefulSetReplicas name 0 else e => mret (Some (failed e)) in
  r ← IsStatefulSetSize name 0;
  mret (match r with
        | Err e => Some (MkResult aisShutdownRequeueDelay, Some e)
        | Ok done_ => if done_ : bool then None else Some (requeue aisShutdownRequeueDelay)
        end).

Definition shutdownCluster : H outcome :=
  ais ← get;
  p ← scale_to_zero (Proxy.StatefulSetNSName ais);
  match p with
  | Some o => mret o
  | None =>
      t ← scale_to_zero (Target.StatefulSetNSName ais);
      match t with
      | Some o => mret o
      | None =>
          let? _ := updateStatusWithState ClusterShutdown else e => mret (failed e) in
          emit_event "ShutdownCompleted" "FinishShutdown" "Shutdown completed" ≫= fun _ =>
          mret finished
      end
  end.

(** ** Decommission, cleanup, finalization *)

(** Assumed to have ready replicas when they cannot be read. *)
Definition ssHasReadyReplicas (name : nsname) : H bool :=
  r ← GetStatefulSet name;
  mret (match r with
        | Ok ss => 0 <? ssst_ReadyReplicas (ss_Status ss)
        | Err e => negb (is_not_found e)
        end).

Definition isClusterRunning (ais : AIStore) : H bool :=
  t ← ssHasReadyReplicas (Target.StatefulSetNSName ais);
  if negb t then mret false else ssHasReadyReplicas (Proxy.StatefulSetNSName ais).

Definition attemptGracefulDecommission (ais : AIStore) : H (res unit) :=
  let cleanupData := is_true_ptr (CleanupData (Spec ais)) in
  let? apiClient := call (AGetClient ais) else e => mret (Err e) in
  call (ADecommissionCluster apiClient cleanupData).

Definition attemptGracefulShutdown (ais : AIStore) : H (res unit) :=
  let? apiClient := call (AGetClient ais) else e => mret (Err e) in
  call (AShutdownCluster apiClient).

Definition decommissionAIS (ais : AIStore) : H (res unit) :=
  if ShouldCleanupMetadata ais then attemptGracefulDecommission ais else attemptGracefulShutdown ais.

Definition decommissionCluster : H outcome :=
  ais ← get;
  running ← isClusterRunning ais;
  if running : bool then
    decommissionAIS ais ≫= fun _ => mret (requeue (10 * second))
  else
    let? _ := updateStatusWithState ClusterCleanup else e => mret (failed e) in
    emit_event "DecommissionCompleted" "Delete" "Decommission completed" ≫= fun _ =>
    mret finished.

Definition cleanupClusterRes : H outcome :=
  ais ← get;
  if negb (ContainsFinalizer (ais_Finalizers ais) aisFinalizer) then mret finished
  else
    let? updated := cleanup
      else e => recordError e "Failed to cleanup AIS Resources" ≫= fun _ => mret (failed e) in
    if updated : bool then mret (requeue (10 * second))
    else r ← updateStatusWithState HostCleanup; mret (of_res r).

Definition cleanupHost : H outcome :=
  ais ← get;
  let? jobs := listCleanupJobs (nn_namespace (ais_Name ais)) else e => mret (failed e) in
  let? remainingJobs := deleteFinishedJobs jobs else e => mret (failed e) in
  if bool_decide (remainingJobs ≠ []) then mret (requeue cleanupJobDelay)
  else r ← updateStatusWithState ClusterFinalized; mret (of_res r).

Definition finalize : H outcome :=
  ais ← get;
  let ais' := set_finalizers ais (RemoveFinalizer (ais_Finalizers ais) aisFinalizer) in
  if negb (ContainsFinalizer (ais_Finalizers ais) aisFinalizer) then mret finished
  else
    put ais' ≫= fun _ =>
    let? _ := PatchIfExists ais ais'
      else e => recordError e "Failed to update instance" ≫= fun _ => mret (failed e) in
    mret finished.

(** ** Resources every stage needs *)

Definition createOrUpdateRBACResources : H (res unit) :=
  ais ← get;
  let? _ := Apply (OServiceAccount (NewAISServiceAccount ais))
    else e => record_fail "Failed to create ServiceAccount" e in
  let? _ := Apply (ORole (NewAISRBACRole ais)) else e => record_fail "Failed to create Role" e in
  let? _ := Apply (ORoleBinding (NewAISRBACRoleBinding ais))
    else e => record_fail "Failed to create RoleBinding" e in
  mret (Ok tt).

(** [AuthNClient.ResolveAuthConfig] of [services/authn_api.go]. *)
Definition ResolveAuthConfig (ais : AIStore) (spec : AuthSpec) : H (res AuthConfig) :=
  match as_ProfileRef spec with
  | Some name =>
      let? profile := GetAuthProfile name
        else e => mret (Err (wrap ("failed to get AIStoreAuthProfile " +:+ quoted name) e)) in
      mret (Ok (AuthProfileConfig profile))
  | None =>
      mret (match as_TokenExchange spec, as_UsernamePassword spec with
            | None, None => Err (errorf "invalid auth service configuration: exactly one of usernamePassword or tokenExchange must be specified")
            | _, _ => Ok (AuthSpecConfig spec (nn_namespace (ais_Name ais)))
            end)
  end.

Definition resolveAuthConf (ais : AIStore) : H (res (option AuthConfig)) :=
  match Auth (Spec ais) with
  | None => mret (Ok None)
  | Some spec => let? c := ResolveAuthConfig ais spec else e => mret (Err e) in mret (Ok (Some c))
  end.

Definition createClientDeployment (ais : AIStore) : H (res unit) :=
  let? authConf := resolveAuthConf ais else e => mret (Err e) in
  clientDeploy ← deref (NewClientDeployment ais authConf);
  let? _ := CreateOrUpdateResource ais (ODeployment clientDeploy) else e => mret (Err e) in
  mret (Ok tt).

Definition reconcileClientDeployment (ais : AIStore) (existing : Deployment) : H (res unit) :=
  let? authConf := resolveAuthConf ais else e => mret (Err e) in
  desired ← deref (NewClientDeployment ais authConf);
  s ← deref (SyncDeployment desired existing);
  let '(modified, changed, reason) := s in
  if negb changed then mret (Ok tt) else call (KPatchDeployment existing modified).

Definition removeClientDeployment (name : nsname) : H (res unit) :=
  let? _ := DeleteDeploymentIfExists name else e => mret (Err e) in mret (Ok tt).

Definition reconcileAdminClient : H (res unit) :=
  ais ← get;
  let name := DeploymentNSName ais in
  let enabled := AdminClientEnabled ais in
  r ← GetDeployment name;
  match r with
  | Err e =>
      if negb (is_not_found e) then mret (Err e)
      else if enabled then createClientDeployment ais else mret (Ok tt)
  | Ok existing =>
      if negb (metav1_IsControlledBy (dep_Owners existing) (ais_UID ais)) then mret (Ok tt)
      else if enabled then reconcileClientDeployment ais existing
      else removeClientDeployment name
  end.

(** [if err != nil { recordError(err, msg); return err }]. *)
Definition recording {A} (m : H (res A)) (msg : string) : H (res A) :=
  let? a := m else e => record_fail msg e in mret (Ok a).

Definition reconcileResources : H (res unit) :=
  ais ← get;
  match snd (ValidateSpec ais) with
  | Some e => record_fail "Failed to validate AIStore spec" e
  | None =>
      match NewGlobalCM ais with
      | Err e => record_fail "Failed to construct global config" e
      | Ok globalCM =>
          let? _ := recording createOrUpdateRBACResources "Failed to create/update RBAC resources"
            else e => mret (Err e) in
          let? _ := recording reconcileTLSCertificate "Failed to reconcile TLS certificate"
            else e => mret (Err e) in
          let? _ := recording (Apply (OConfigMap globalCM)) "Failed to deploy global cluster ConfigMap"
            else e => mret (Err e) in
          recording reconcileAdminClient "Failed to reconcile admin client"
      end
  end.

Definition reconcileDeprecatedStatsDCM : H (res unit) :=
  ais ← get;
  let cmName := statsd_ConfigMapNSName ais in
  let? cm := call (KGetConfigMap cmName)
    else e => mret (if is_not_found e then Ok tt else Err e) in
  if negb (metav1_IsControlledBy (cm_Owners cm) (ais_UID ais)) then mret (Ok tt)
  else let? _ := DeleteConfigMapIfExists cmName else e => mret (Err e) in mret (Ok tt).

(** ** External access *)

Definition createExternalServices : H (res unit) :=
  ais ← get;
  let? _ := (if ProxyExternalAccessEnabled ais then createProxyExternalService ais else mret (Ok tt))
    else e => mret (Err e) in
  if TargetExternalAccessEnabled ais then createTargetExternalServices else mret (Ok tt).

Definition waitForExternalSvcReady (ais : AIStore) : H (res bool) :=
  let? p := (if ProxyExternalAccessEnabled ais then proxyExternalSvcReady ais else mret (Ok true))
    else e => mret (Err e) in
  if negb p then mret (Ok false)
  else if TargetExternalAccessEnabled ais then targetExternalSvcReady ais
  else mret (Ok true).

Definition reconcileExternalAccess : H outcome :=
  ais ← get;
  if negb (ProxyExternalAccessEnabled ais) && negb (TargetExternalAccessEnabled ais) then mret finished
  else
    let? _ := createExternalServices
      else e => recordError e "Failed to create external services" ≫= fun _ => mret (failed e) in
    let? ready := waitForExternalSvcReady ais else e => mret (failed e) in
    if ready : bool then mret finished
    else
      r ← (if negb (HasState ais ClusterInitializingLBService) && negb (HasState ais ClusterPendingLBService)
           then
             let? _ := updateStatusWithState ClusterInitializingLBService else e => mret (Err e) in
             emit_event "Initialized" "InitExternalService" "Successfully initialized external services"
               ≫= fun _ => mret (Ok tt)
           else updateStatusWithState ClusterPendingLBService);
      mret (MkResult externalSvcDelay, err_of r).

Definition ensurePrereqs : H outcome :=
  let? _ := reconcileResources else e => mret (failed e) in
  unless_done reconcileExternalAccess
    (let? _ := ensureProxyPrereqs else e => mret (failed e) in
     r ← ensureTargetPrereqs; mret (of_res r)).

(** ** Bootstrap and steady state *)

(** [if result, err = m; err != nil { recordError; return } else if !result.IsZero() { return }]. *)
Definition bootstrap_stage (m : H outcome) (msg : string) (k : H outcome) : H outcome :=
  o ← m;
  match o with
  | (_, Some e) => recordError e msg ≫= fun _ => mret o
  | (r, None) => if result_is_zero r then k else mret o
  end.

Definition bootstrapNew : H outcome :=
  bootstrap_stage initProxies "Failed to create Proxy resources"
  (bootstrap_stage initTargets "Failed to create Target resources"
  (modify (SetCondition ConditionCreated) ≫= fun _ =>
   let? _ := updateStatusWithState ClusterCreated else e => mret (failed e) in
   emit_event "Created" "Create" "Successfully created AIS cluster" ≫= fun _ =>
   mret finished)).

(** [if res, err := m; err != nil { return } else if !res.IsZero() { updateStatusAndRequeue }]. *)
Definition requeue_stage (m : H outcome) (k : H outcome) : H outcome :=
  o ← m;
  match o with
  | (_, Some _) => mret o
  | (r, None) => if result_is_zero r then k else updateStatusAndRequeue r
  end.

Definition handleCREvents : H outcome :=
  requeue_stage handleProxyState
  (requeue_stage handleTargetState
  (let? ready := checkAISClusterReady else e => mret (failed e) in
   if negb ready then updateStatusAndRequeue (MkResult aisReadinessRequeueDelay)
   else
     let? _ := enableRebalanceCondition else e => mret (failed e) in
     let? _ := handleConfigState false else e => mret (failed e) in
     r ← handleSuccessfulReconcile; mret (of_res r))).

(** ** Reconcile *)

Definition start_decommission : H (res unit) :=
  ais ← get;
  if negb (ShouldDecommission ais) then mret (Ok tt)
  else
    let? _ := updateStatusWithState ClusterDecommissioning else e => mret (Err e) in
    emit_event "CRDeleted" "Decommissioning" "Decommissioning..." ≫= fun _ => mret (Ok tt).

Definition start_shutdown : H (res unit) :=
  ais ← get;
  if negb (ShouldStartShutdown ais) then mret (Ok tt)
  else
    let? _ := disableRebalance ReasonShutdown "Disabling rebalance before shutdown" else e => mret (Err e) in
    let? _ := updateStatusWithState ClusterShuttingDown else e => mret (Err e) in
    emit_event "CRUpdated" "StartShutdown" "Shutting down..." ≫= fun _ => mret (Ok tt).

(** The part of [Reconcile] after the state switch. *)
Definition reconcile_running : H outcome :=
  unless_done ensurePrereqs
    (ais ← get;
     let? _ := (if bool_decide (AIStoreTypes.IntraClusterURL (Status ais) = "") then updateIntraClusterURLStatus else mret (Ok tt))
       else e => mret (failed e) in
     ais ← get;
     if negb (IsConditionTrue ais ConditionCreated) then bootstrapNew
     else
       unless_done handleCREvents
         (let? _ := reconcileDeprecatedStatsDCM
            else e => recordError e "Failed to reconcile deletion of StatsD ConfigMap" ≫= fun _ =>
                      mret (failed e) in
          mret finished)).

Definition reconcile_state : H outcome :=
  ais ← get;
  match State (Status ais) with
  | ClusterShuttingDown =>
      if negb (ShouldBeShutdown ais) then r ← updateStatusWithState ClusterUpgrading; mret (of_res r)
      else shutdownCluster
  | ClusterShutdown => if ShouldBeShutdown ais then mret finished else reconcile_running
  | ClusterDecommissioning => decommissionCluster
  | ClusterCleanup => cleanupClusterRes
  | HostCleanup => cleanupHost
  | ClusterFinalized => finalize
  | _ => reconcile_running
  end.

(** Everything after the object was read. *)
Definition reconcile_object : H outcome :=
  ais ← get;
  let? _ := (if HasState ais NoState then initializeCR else mret (Ok tt)) else e => mret (failed e) in
  ais ← get;
  let? _ := (if IsTargetAutoScaling ais || IsProxyAutoScaling ais then determineAutoScaleStatus
             else mret (Ok tt)) else e => mret (failed e) in
  let? _ := start_decommission else e => mret (failed e) in
  let? _ := start_shutdown else e => mret (failed e) in
  reconcile_state.

Definition Reconcile (request : nsname) : @prog req answer outcome :=
  Do (KGetAIStore request) (fun r =>
    match r with
    | Err e => Ret (if is_not_found e then finished else failed e)
    | Ok ais => prog_bind (reconcile_object ais) (fun p => Ret p.2)
    end).
End Cluster.
