(* ===== verification/Executions.v ===== *)
(** * Reasoning about executions

    How properties of handlers are stated and proved: [guarded] (what precedes a request in
    every execution), [keeps] (handlers that leave the object in memory alone), the tactic
    [wp_step] that unrolls a handler, and the observations on traces the properties use. *)

From S2P Require Import Prelude Effects K8sTypes AISConfig AIStoreTypes ThirdParty AuthConf AIStoreMethods GlobalConfig CmnResources Requests.

(** ** Handlers that leave the object alone *)

Definition keeps (P : req -> Prop) {A} (m : H A) : Prop :=
  forall s h, wpm True (fun _ r => P r) m s h (fun _ s' _ => s' = s).

Section Keeps.
Context (P : req -> Prop).

Lemma keeps_bind {A B} (m : H A) (f : A -> H B) :
  keeps P m -> (forall a, keeps P (f a)) -> keeps P (m ≫= f).
Proof.
  intros Hm Hf s h. apply wpm_bind. eapply wpm_mono; [apply Hm|].
  intros h' s' a ->. apply Hf.
Qed.
Lemma keeps_try {A B} (m : H (res A)) (e : error -> H B) (k : A -> H B) :
  keeps P m -> (forall x, keeps P (e x)) -> (forall a, keeps P (k a)) -> keeps P (try_ m e k).
Proof. intros Hm He Hk. apply keeps_bind; [done|]. by intros []. Qed.
Lemma keeps_ret {A} (a : A) : keeps P (mret a).
Proof. by intros s h. Qed.
Lemma keeps_get : keeps P get.
Proof. by intros s h. Qed.
Lemma keeps_panic {A} : keeps P (@panic req answer AIStore A).
Proof. by intros s h. Qed.
Lemma keeps_deref {A} (o : option A) : keeps P (deref o).
Proof. by destruct o; intros s h. Qed.
Lemma keeps_call r : P r -> keeps P (call r).
Proof. intros Hr s h. by split. Qed.

Lemma keeps_unless_done (m k : H outcome) : keeps P m -> keeps P k -> keeps P (unless_done m k).
Proof.
  intros Hm Hk. apply keeps_bind; [done|]. intros [r [e|]]; [apply keeps_ret|].
  destruct (result_is_zero r); [done | apply keeps_ret].
Qed.
Lemma keeps_for_each {A} (l : list A) (f : A -> H (res unit)) :
  (forall x, x ∈ l -> keeps P (f x)) -> keeps P (for_each l f).
Proof.
  induction l as [|x l IH]; intros Hf; [apply keeps_ret|].
  apply keeps_try; [apply Hf; by left | intros; apply keeps_ret|].
  intros _. apply IH. intros y Hy. apply Hf. by right.
Qed.

(** Used inside the proof about a larger handler: the requests satisfy the larger guard, the
    object is unchanged and the history grows. *)
Lemma keeps_wpm {A} (m : H A) (G : trace -> req -> Prop) s h (Q : trace -> AIStore -> A -> Prop) :
  keeps P m -> (forall h r, P r -> G h r) ->
  (forall h' a, h `suffix_of` h' -> Q h' s a) ->
  wpm True G m s h Q.
Proof.
  intros Hk HG HQ. eapply wp_mono; [done| | |exact (wpm_suffix _ _ _ _ _ _ (Hk s h))].
  - intros h' r. apply HG.
  - intros h' [s' a] [Hs Hh]. cbn in *. subst. by apply HQ.
Qed.
End Keeps.

Create HintDb keeps discriminated.
#[export] Hint Resolve keeps_bind keeps_try keeps_ret keeps_get keeps_panic keeps_deref
  keeps_unless_done keeps_for_each : keeps.
Ltac keeps_request := lazymatch goal with |- keeps ?P (call ?r) => refine (keeps_call P r _) end.
Ltac keeps_call := first [keeps_request | unfold_requests; keeps_request].

Ltac head_of t := lazymatch t with ?f _ => head_of f | _ => t end.

(** Prove [keeps] by following the structure of the handler; [tac] closes the requests. *)
Ltac keeps_step :=
  lazymatch goal with
  | |- forall _, _ => intros ?
  | |- keeps _ (call _) => keeps_call
  | |- keeps _ (mret _) => apply keeps_ret
  | |- keeps _ get => apply keeps_get
  | |- keeps _ (deref _) => apply keeps_deref
  | |- keeps _ (try_ _ _ _) => apply keeps_try
  | |- keeps _ (unless_done _ _) => apply keeps_unless_done
  | |- keeps _ (mbind _ _) => apply keeps_bind
  | |- keeps _ (if ?b then _ else _) => destruct b
  | |- keeps _ (match ?x with _ => _ end) => destruct x
  | |- keeps _ (for_each _ _) => apply keeps_for_each; intros ? ?
  | |- keeps _ (let _ := _ in _) => cbv zeta
  | |- keeps _ ?m =>
      first [ solve [eauto 2 with keeps]
            | let f := head_of m in unfold f ]
  end.
Ltac keeps_auto := repeat keeps_step; try done.

(** Prove [emits P m]: known lemmas first, then the structure of the handler, then the
    definition of the handler called. Requests are left to the user. *)
Ltac emits_step :=
  lazymatch goal with
  | |- forall _, _ => intros ?
  | |- emits _ (call _) => emits_call
  | |- emits _ (mret _) => apply emits_ret
  | |- emits _ get => apply emits_get
  | |- emits _ (put _) => apply emits_put
  | |- emits _ (modify _) => apply emits_modify
  | |- emits _ (deref _) => apply emits_deref
  | |- emits _ panic => apply emits_panic
  | |- emits _ (try_ _ _ _) => apply emits_try
  | |- emits _ (unless_done _ _) => apply emits_unless_done
  | |- emits _ (for_each _ _) => apply emits_for_each; intros ? ?
  | |- emits _ (mbind _ _) => apply emits_bind
  | |- emits _ (if ?b then _ else _) => destruct b
  | |- emits _ (match ?x with _ => _ end) => destruct x
  | |- emits _ (let _ := _ in _) => cbv zeta
  | |- emits _ ?m =>
      first [ solve [eauto 2 with emits]
            | let f := head_of m in unfold f ]
  end.
Ltac emits_auto := repeat emits_step; try done.

(** A property of each element of an explicit list. *)
Ltac forall_list := repeat first [apply Forall_nil_2 | apply Forall_cons_2].

(** ** Observations on traces *)

(** The configuration the cluster accepted with this event. *)
Definition accepted_config (e : @event req answer) : option ConfigToSet :=
  match e with
  | existT r x =>
      match r return answer r -> option ConfigToSet with
      | ASetClusterConfig _ conf _ => fun x => match x with Ok _ => Some conf | Err _ => None end
      | _ => fun _ => None
      end x
  end.

(** The rebalance switch of the last configuration the cluster accepted. *)
Definition last_rebalance (t : trace) : option bool :=
  last (omap accepted_config t) ≫= rebalance_of.

Lemma last_rebalance_snoc e h :
  last_rebalance (rev (e :: h)) =
  match accepted_config e with Some c => rebalance_of c | None => last_rebalance (rev h) end.
Proof.
  unfold last_rebalance. cbn [rev]. rewrite omap_app. cbn.
  destruct (accepted_config e); [by rewrite last_snoc | by rewrite app_nil_r].
Qed.

(** The API server applies patches: a status patch is a JSON merge patch, which omits an
    empty state and an empty list of conditions; a patch of the object leaves its status. *)
Definition applied (e : @event req answer) : Prop :=
  match e with
  | existT r x =>
      match r return answer r -> Prop with
      | KPatchStatus _ st => fun x =>
          match x with
          | Ok a => (State st ≠ NoState -> State (Status a) = State st) /\
                    (Conditions st ≠ [] -> Conditions (Status a) = Conditions st)
          | Err _ => True
          end
      | KPatchAIStore o _ => fun x =>
          match x with
          | Ok a => State (Status a) = State (Status o) /\ Conditions (Status a) = Conditions (Status o)
          | Err _ => True
          end
      | _ => fun _ => True
      end x
  end.

(** Every patch of the trace was applied. *)
Definition patches_applied (t : trace) : Prop := Forall applied t.

Lemma patches_applied_snoc e h :
  patches_applied (rev (e :: h)) <-> applied e /\ patches_applied (rev h).
Proof. unfold patches_applied. cbn [rev]. rewrite Forall_app, Forall_singleton. tauto. Qed.

Lemma patches_applied_mono h h' :
  h `suffix_of` h' -> patches_applied (rev h') -> patches_applied (rev h).
Proof. intros [k ->]. unfold patches_applied. rewrite rev_app_distr, Forall_app. tauto. Qed.

(** Requests that touch neither the cluster configuration nor the AIStore object. *)
Definition quiet (r : req) : Prop :=
  match r with
  | ASetClusterConfig _ _ _ | KPatchStatus _ _ | KPatchAIStore _ _ => False
  | _ => True
  end.

(** After quiet requests the last configuration is what it was. *)
Lemma quiet_last_rebalance r x h :
  quiet r -> last_rebalance (rev (ev r x :: h)) = last_rebalance (rev h).
Proof. intros Hq. rewrite last_rebalance_snoc. by destruct r. Qed.

Lemma quiet_applied r x h :
  quiet r -> patches_applied (rev (ev r x :: h)) -> patches_applied (rev h).
Proof. rewrite patches_applied_snoc. tauto. Qed.

(** The AIStore the API server reported with this event. *)
Definition reported (e : @event req answer) : option AIStore :=
  match e with
  | existT r x =>
      match r return answer r -> option AIStore with
      | KGetAIStore _ | KPatchAIStore _ _ | KPatchStatus _ _ => fun x =>
          match x with Ok a => Some a | Err _ => None end
      | _ => fun _ => None
      end x
  end.

(** The AIStore last reported. *)
Definition last_object (t : trace) : option AIStore := last (omap reported t).

Lemma last_object_snoc e h :
  last_object (rev (e :: h)) =
  match reported e with Some a => Some a | None => last_object (rev h) end.
Proof.
  unfold last_object. cbn [rev]. rewrite omap_app. cbn.
  destruct (reported e); [by rewrite last_snoc | by rewrite app_nil_r].
Qed.

Lemma last_object_patch o m a h :
  last_object (rev (ev (KPatchAIStore o m) (Ok a) :: h)) = Some a.
Proof. by rewrite last_object_snoc. Qed.

(** Requests that neither read nor write the AIStore object. *)
Definition off_object (r : req) : Prop :=
  match r with
  | KGetAIStore _ | KPatchAIStore _ _ | KPatchStatus _ _ => False
  | _ => True
  end.

Lemma off_object_last_object r x h :
  off_object r -> last_object (rev (ev r x :: h)) = last_object (rev h).
Proof. intros Hq. rewrite last_object_snoc. by destruct r. Qed.
