(* ===== verification/TargetRollout.v ===== *)
(** * The rollout of the targets

    Properties of [findPodNeedingUpdate], [prepareTargetForRollout] and [handleTargetRollout]:
    which pod is chosen, and what was observed before it is deleted. *)

From S2P Require Import Prelude Effects K8sTypes AISConfig AIStoreTypes ThirdParty AuthConf AIStoreMethods GlobalConfig CmnResources TargetResources Rollout ResourceFacts Requests K8sClient ClusterOps ProxyController TargetController Executions.

(** ** The choice of the pod *)

(** Pod [i] exists, is not terminating and carries the revision [rev]. *)
Definition pod_on_revision (m : gmap string Pod) (ais : AIStore) (rev : string) (i : Z) : Prop :=
  exists p, m !! Target.PodName ais i = Some p /\ pod_Deleting p = false /\
            index (pod_Labels p) ControllerRevisionHashLabelKey = rev.

(** Pod [i] exists, is not terminating and carries another revision. *)
Definition pod_stale (m : gmap string Pod) (ais : AIStore) (rev : string) (i : Z) : Prop :=
  exists p, m !! Target.PodName ais i = Some p /\ pod_Deleting p = false /\
            index (pod_Labels p) ControllerRevisionHashLabelKey ≠ rev.

(** All pods below [i] are updated, and ready or unschedulable. *)
Definition rolled_below (m : gmap string Pod) (ais : AIStore) (rev : string) (i : Z) : Prop :=
  forall j, 0 <= j < i -> pod_on_revision m ais rev j /\
                         isPodRolloutCompleted (m !! Target.PodName ais j) = true.

Lemma pod_name_not_empty ais i : Target.PodName ais i ≠ "".
Proof.
  unfold Target.PodName, Target.statefulSetName. intros H.
  apply (f_equal String.length) in H. rewrite !string_length_app in H. cbn in H. lia.
Qed.

Lemma pod_name_inj ais i j : Target.PodName ais i = Target.PodName ais j -> i = j.
Proof.
  unfold Target.PodName. intros H. apply (inj (String.append _)), (inj (String.append _)) in H.
  by apply (inj pretty).
Qed.

(** The loop, from any index whose predecessors but the last are done. *)
Lemma find_pod_from_spec ais rev m fuel : forall i,
  0 <= i ->
  (forall j, 0 <= j < i -> pod_on_revision m ais rev j) ->
  (forall j, 0 <= j < i - 1 -> isPodRolloutCompleted (m !! Target.PodName ais j) = true) ->
  forall k, 0 <= k ->
  find_pod_from ais rev m i fuel = Target.PodName ais k <->
  i <= k < i + Z.of_nat fuel /\ rolled_below m ais rev k /\ pod_stale m ais rev k.
Proof.
  induction fuel as [|fuel IH]; intros i Hi Hrev Hdone k Hk; cbn [find_pod_from].
  { split; [intros H; by apply eq_sym, pod_name_not_empty in H | lia]. }
  destruct ((0 <? i) && negb _) eqn:Hprev.
  { split; [intros H; by apply eq_sym, pod_name_not_empty in H|].
    intros (Hik & Hb & _). reflect_bools. destruct (Hb (i - 1)) as [_ ?]; [lia|]. congruence. }
  assert (forall j, 0 <= j < i -> isPodRolloutCompleted (m !! Target.PodName ais j) = true) as Hdone'.
  { intros j Hj. destruct (decide (j = i - 1)) as [->|]; [|apply Hdone; lia].
    apply andb_false_iff in Hprev as [?|?]; reflect_bools; [lia | done]. }
  destruct (m !! Target.PodName ais i) as [p|] eqn:Hp.
  2:{ split; [intros H; by apply eq_sym, pod_name_not_empty in H|].
      intros (Hik & Hb & (q & Hq & _)). destruct (decide (k = i)) as [->|]; [congruence|].
      destruct (Hb i) as [(q' & ? & _) _]; [lia|]. congruence. }
  destruct (pod_Deleting p) eqn:Hd.
  { split; [intros H; by apply eq_sym, pod_name_not_empty in H|].
    intros (Hik & Hb & (q & Hq & Hqd & _)). destruct (decide (k = i)) as [->|]; [congruence|].
    destruct (Hb i) as [(q' & ? & ? & _) _]; [lia|]. congruence. }
  case_bool_decide as Hr.
  - rewrite (IH (i + 1)); [| lia | | |done].
    + split; intros (? & ? & Hs); split_and!; try done; try lia.
      destruct (decide (k = i)) as [->|]; [|lia]. destruct Hs as (q & ? & ? & ?). congruence.
    + intros j Hj. destruct (decide (j = i)) as [->|]; [by exists p | apply Hrev; lia].
    + intros j Hj. apply Hdone'. lia.
  - split.
    + intros ->%pod_name_inj. split_and!; [lia| lia | | by exists p].
      intros j Hj. split; [apply Hrev; lia | apply Hdone'; lia].
    + intros (Hik & Hb & _). destruct (decide (k = i)) as [->|]; [done|].
      destruct (Hb i) as [(q & ? & _ & ?) _]; [lia|]. congruence.
Qed.

Lemma find_pod_from_result ais rev m fuel : forall i, 0 <= i ->
  find_pod_from ais rev m i fuel = "" \/
  exists k, i <= k /\ find_pod_from ais rev m i fuel = Target.PodName ais k.
Proof.
  induction fuel as [|fuel IH]; intros i Hi; cbn [find_pod_from]; [by left|].
  destruct ((0 <? i) && _); [by left|].
  destruct (m !! Target.PodName ais i) as [p|]; [|by left].
  destruct (pod_Deleting p); [by left|].
  case_bool_decide; [|right; exists i; by split; [lia|]].
  destruct (IH (i + 1)) as [?|(k & ? & ?)]; [lia | by left | right; exists k; by split; [lia|]].
Qed.

(** ** What precedes the deletion *)

(** The pod was chosen from a listing of the target pods. *)
Definition chosen (t : trace) (ais : AIStore) (ss : StatefulSet) (podName : string) : Prop :=
  exists pods, ev (KListPods (nn_namespace (ais_Name ais)) (Target.SelectorLabels ais)) (Ok pods) ∈ t /\
               pod_needing_update ais ss pods = podName /\ podName ≠ "".

(** The target of the pod is in maintenance in a cluster map that was read. *)
Definition in_maintenance `{T : ThirdParty} (t : trace) (podName : string) : Prop :=
  exists c smap node, ev (AGetClusterMap c) (Ok smap) ∈ t /\
    findAISNodeByPodName (Tmap smap) podName = Ok node /\ InMaint smap node = true.

(** The pod was read and is unschedulable: it runs no daemon. *)
Definition seen_unschedulable (t : trace) (name : nsname) : Prop :=
  exists pod, ev (KGetPod name) (Ok pod) ∈ t /\ isPodUnschedulable (Some pod) = true.

(** The target of the pod is not in maintenance in a cluster map that was read. *)
Definition not_in_maintenance `{T : ThirdParty} (t : trace) (podName id : string) : Prop :=
  exists c smap node, ev (AGetClusterMap c) (Ok smap) ∈ t /\
    findAISNodeByPodName (Tmap smap) podName = Ok node /\ sn_ID node = id /\ InMaint smap node = false.

(** What a rollout step may do to the outside, and when. *)
Definition rollout_guard `{T : ThirdParty} (ais : AIStore) (ss : StatefulSet) (t : trace) (r : req) : Prop :=
  match r with
  | KDelete k n => k = KPod /\ exists podName, n = in_ns ais podName /\ chosen t ais ss podName /\
      (in_maintenance t podName \/ seen_unschedulable t n)
  | AStartMaintenance _ act => exists podName, chosen t ais ss podName /\
      rm_SkipRebalance act = true /\ not_in_maintenance t podName (rm_DaemonID act)
  | _ => is_read r = true
  end.

(** The pod chosen is none, or that of an ordinal. *)
Lemma pod_needing_update_ordinal ais ss pods :
  pod_needing_update ais ss pods = "" \/
  exists k : nat, pod_needing_update ais ss pods = Target.PodName ais (Z.of_nat k).
Proof.
  unfold pod_needing_update.
  destruct (find_pod_from_result ais (ssst_UpdateRevision (ss_Status ss)) (pod_map pods)
    (Z.to_nat (sss_Replicas (ss_Spec ss))) 0) as [->|(k & Hk & ->)]; [lia | by left | right].
  exists (Z.to_nat k). by rewrite Z2Nat.id by lia.
Qed.

Lemma pod_needing_update_chosen ais ss pods (k : nat) :
  let m := pod_map pods in
  let rev := ssst_UpdateRevision (ss_Status ss) in
  pod_needing_update ais ss pods = Target.PodName ais (Z.of_nat k) <->
  Z.of_nat k < sss_Replicas (ss_Spec ss) /\ rolled_below m ais rev (Z.of_nat k) /\
  pod_stale m ais rev (Z.of_nat k).
Proof.
  cbv zeta. unfold pod_needing_update. rewrite find_pod_from_spec; [|lia..].
  split; intros (? & ? & ?); split_and!; try done; lia.
Qed.

(** ** Theorems *)


Section Rollout.
Context `{T : ThirdParty}.

Lemma chosen_later t e ais ss p : chosen (rev t) ais ss p -> chosen (rev (e :: t)) ais ss p.
Proof. intros (pods & ? & ?). exists pods. auto with trace. Qed.

Lemma prepare_guarded ais ss podName s h :
  chosen (rev h) ais ss podName ->
  wpm True (fun h r => rollout_guard ais ss (rev h) r) (prepareTargetForRollout ais podName) s h
    (fun h' s' r => r = Ok false ->
      chosen (rev h') ais ss podName /\
      (in_maintenance (rev h') podName \/ seen_unschedulable (rev h') (in_ns ais podName))).
Proof.
  intros Hc. unfold prepareTargetForRollout.
  repeat wp_step; try done.
  - split; [by apply chosen_later|]. right. eexists; eauto with trace.
  - exists podName. split_and!; [by do 3 apply chosen_later | done |].
    reflect_bools. repeat eexists; eauto with trace.
  - split; [by do 3 apply chosen_later|]. left.
    reflect_bools. repeat eexists; eauto with trace.
Qed.

(** C7. A rollout step changes the outside in two ways only. It deletes a pod only if that
    pod was chosen as the next one to update from a listing of the target pods and, in the
    same step, its target was seen in maintenance in the cluster map or the pod was seen
    unschedulable. It starts maintenance only for the target of the chosen pod, which was
    seen not in maintenance, and without triggering a rebalance. *)
Theorem rollout_deletes_drained ais ss :
  guarded (rollout_guard ais ss) (handleTargetRollout ss ais).
Proof.
  apply (guarded_wp _ _ (fun _ _ => True)). unfold handleTargetRollout.
  change (wpm True (fun h r => rollout_guard ais ss (rev h) r) (handleTargetRollout ss) ais []
            (fun _ _ _ => True)).
  unfold handleTargetRollout, findPodNeedingUpdate, ListPods.
  do 2 wp_step. wp_step; [done|]. wp_step; [done|].
  do 3 wp_step; [done|]. intros r. wp_step. wp_step. { by wp_step. }
  destruct r as [pods|e]; [|done]. wp_step.
  assert (chosen (rev [ev (KListPods (nn_namespace (ais_Name ais)) (Target.SelectorLabels ais)) (Ok pods)])
            ais ss (pod_needing_update ais ss pods)) as Hc.
  { exists pods. reflect_bools. auto with trace. }
  eapply wpm_mono; [by apply prepare_guarded|]. cbn. intros h' s' [[]|e] Hd; try by repeat wp_step.
  wp_step. unfold DeletePodIfExists, DeleteResourceIfExists. do 2 wp_step.
  - split; [done|]. exists (pod_needing_update ais ss pods). naive_solver.
  - intros x. wp_step. by repeat wp_step.
Qed.
End Rollout.
