(* ===== verification/RebalanceFacts.v ===== *)
(** * The rebalance switch

    [disableRebalance] and [handleConfigState]: which requests they make, and that the
    cluster has accepted a configuration with rebalance off when [disableRebalance]
    succeeds. *)

From S2P Require Import Prelude Effects K8sTypes AISConfig AIStoreTypes ThirdParty AuthConf AIStoreMethods AIStoreFacts Validation GlobalConfig CmnResources Requests K8sClient ClusterOps Executions.

(** The requests of the configuration synchronization. *)
Definition config_request (r : req) : Prop :=
  match r with
  | KPatchStatus _ _ | KPatchAIStore _ _ | AGetClient _ | ASetClusterConfig _ _ _
  | EEvent _ _ _ _ => True
  | _ => False
  end.

(** Those that leave the status alone. *)
Definition sync_request (r : req) : Prop :=
  match r with
  | KPatchAIStore _ _ | AGetClient _ | ASetClusterConfig _ _ _ | EEvent _ _ _ _ => True
  | _ => False
  end.

Section Requests.
Context `{T : ThirdParty}.

Lemma emits_patchStatus : emits config_request patchStatus.
Proof.
  unfold patchStatus, record_fail, recordError. intros s h.
  repeat wp_step; done.
Qed.

Lemma emits_updateClusterConfig conf force : emits config_request (updateClusterConfig conf force).
Proof. unfold updateClusterConfig. intros s h. repeat wp_step; done. Qed.

Lemma emits_patchAISAnnotations a b : emits config_request (patchAISAnnotations a b).
Proof. unfold patchAISAnnotations. intros s h. repeat wp_step; done. Qed.

Lemma emits_handleConfigState force : emits config_request (handleConfigState force).
Proof.
  unfold handleConfigState. apply emits_bind; [apply emits_get|]. intros ais.
  destruct (GenerateGlobalConfig ais); [|apply emits_ret].
  apply emits_try; [apply emits_updateClusterConfig | intros; apply emits_ret|]. intros hash.
  destruct (calcRestartConfigAnnotation _ _); [|apply emits_ret]. cbv zeta.
  destruct (_ && _); [apply emits_ret | apply emits_patchAISAnnotations].
Qed.

Lemma emits_handleConfigState_sync force : emits sync_request (handleConfigState force).
Proof. emits_auto. Qed.
End Requests.
#[export] Hint Resolve emits_patchStatus emits_updateClusterConfig emits_patchAISAnnotations
  emits_handleConfigState : emits.

Section Off.
Context `{T : ThirdParty, L : !ThirdPartyLaws T}.
Context (G : trace -> req -> Prop) (HG : forall h r, sync_request r -> G h r).

(** A forced synchronization that succeeds has the cluster accept the generated
    configuration; the object keeps its conditions through the annotation patch. *)
Lemma handleConfigState_forced s h :
  wpm True G (handleConfigState true) s h (fun h' _ r =>
    r = Ok tt ->
    last_rebalance (rev h') =
    Some (if IsConditionTrue s ConditionReadyRebalance
          then RebalanceEnabled (spec_ConfigToUpdate (Spec s)) else false)).
Proof.
  unfold handleConfigState, updateClusterConfig, patchAISAnnotations.
  repeat wp_step; try (apply HG; done); try done.
  all: rewrite ?last_rebalance_snoc; cbn; rewrite ?last_rebalance_snoc; cbn.
  all: by eapply GenerateGlobalConfig_rebalance.
Qed.

(** A status patch that succeeds stores the state and the conditions in memory. *)
Lemma patchStatus_stores s h :
  G h (KPatchStatus (ais_Name s) (Status s)) ->
  wpm True G patchStatus s h (fun h' s' r =>
    h `suffix_of` h' /\ last_rebalance (rev h') = last_rebalance (rev h) /\
    (r = Ok tt -> patches_applied (rev h') ->
     (State (Status s) ≠ NoState -> State (Status s') = State (Status s)) /\
     (Conditions (Status s) ≠ [] -> Conditions (Status s') = Conditions (Status s)))).
Proof.
  intros Hp. unfold patchStatus, record_fail, recordError.
  repeat wp_step; try (apply HG; done); try done; split_and!; try done;
    rewrite ?last_rebalance_snoc; try done; try by repeat apply suffix_cons_r.
  intros _ Ha. apply patches_applied_snoc in Ha as [Ha _]. by subst.
Qed.

(** Turning the rebalance condition off: when it succeeds and the API server applies
    patches, the last configuration the cluster accepted has rebalance off. *)
Lemma disableRebalance_off reason msg s h :
  G h (KPatchStatus (ais_Name s) (Status (SetConditionFalse ConditionReadyRebalance reason msg s))) ->
  wpm True G (disableRebalance reason msg) s h (fun h' _ r =>
    h `suffix_of` h' /\
    (r = Ok tt -> patches_applied (rev h') -> last_rebalance (rev h') = Some false)).
Proof.
  intros Hp. unfold disableRebalance. do 3 wp_step.
  eapply wpm_mono; [by apply patchStatus_stores|]. intros h1 s1 r (Hs1 & _ & Hst).
  destruct r as [[]|e]; [|by wp_step].
  eapply wpm_mono; [apply wpm_suffix, handleConfigState_forced|].
  cbn. intros h2 _ r [Hr Hs2]. split; [by trans h1|]. intros -> Ha.
  destruct Hst as [_ Hc]; [done | by eapply patches_applied_mono|].
  rewrite Hr by done. f_equal. unfold IsConditionTrue in *.
  rewrite Hc by apply SetStatusCondition_not_empty.
  pose proof (IsConditionTrue_set_false s ConditionReadyRebalance reason msg ConditionReadyRebalance) as Hf.
  unfold IsConditionTrue in Hf. rewrite Hf. by rewrite decide_True.
Qed.
End Off.
