(* ===== verification/TargetTemplate.v ===== *)
(** * Template updates of the targets *)

From S2P Require Import Prelude Effects K8sTypes AISConfig AIStoreTypes ThirdParty AuthConf AIStoreMethods AIStoreFacts GlobalConfig CmnResources TargetResources Templates Rollout ResourceFacts Requests K8sClient ClusterOps ProxyController TargetController Executions RebalanceFacts.

(** A patch that changes the pod template comes after a configuration with rebalance off. *)
Definition template_guard (t : trace) (r : req) : Prop :=
  match r with
  | KPatchStatefulSet o m =>
      sss_Template (ss_Spec o) ≠ sss_Template (ss_Spec m) ->
      patches_applied t -> last_rebalance t = Some false
  | _ => True
  end.

(** Requests that change no pod template. *)
Definition template_kept (r : req) : Prop :=
  match r with
  | KPatchStatefulSet o m => sss_Template (ss_Spec o) = sss_Template (ss_Spec m)
  | _ => True
  end.

Section Template.
Context `{T : ThirdParty}.

Lemma config_template_kept r : config_request r -> template_kept r.
Proof. by destruct r. Qed.

Lemma emits_config_kept {A} (m : H A) : emits config_request m -> emits template_kept m.
Proof. apply emits_mono, config_template_kept. Qed.
End Template.
#[export] Hint Resolve emits_config_kept : emits.

Section Kept.
Context `{T : ThirdParty}.

Lemma initTargets_kept : emits template_kept initTargets.
Proof. emits_auto. Qed.
Lemma reconcileTargetPDB_kept ais : emits template_kept (reconcileTargetPDB ais).
Proof. emits_auto. Qed.
Lemma syncTargetPVCRetentionPolicy_kept ss : emits template_kept (syncTargetPVCRetentionPolicy ss).
Proof. emits_auto. Qed.
Lemma handleTargetScaling_kept ss : emits template_kept (handleTargetScaling ss).
Proof. emits_auto. Qed.
Lemma handleTargetRollout_kept ss : emits template_kept (handleTargetRollout ss).
Proof. emits_auto. Qed.
End Kept.
#[export] Hint Resolve initTargets_kept reconcileTargetPDB_kept syncTargetPVCRetentionPolicy_kept
  handleTargetScaling_kept handleTargetRollout_kept : emits.

(** ** Theorems *)

Section Theorems.
Context `{T : ThirdParty, L : !ThirdPartyLaws T}.

Lemma kept_template_guard h r : template_kept r -> template_guard (rev h) r.
Proof. destruct r; try done. by intros Heq Hne. Qed.

(** The whole handler outside the template update keeps the templates. *)
Lemma kept_guarded {A} (m : H A) s h :
  emits template_kept m ->
  wpm True (fun h r => template_guard (rev h) r) m s h (fun _ _ _ => True).
Proof.
  intros Hm. eapply wpm_mono; [|done].
  apply (emits_wpm template_kept); [done|]. intros. by apply kept_template_guard.
Qed.

Lemma syncTargetPodSpec_guarded ss s h :
  wpm True (fun h r => template_guard (rev h) r) (syncTargetPodSpec ss) s h (fun _ _ _ => True).
Proof.
  unfold syncTargetPodSpec, desired_target_template, patchStatefulSet.
  repeat (lazymatch goal with |- wpm _ _ (let '_ := _ in _) _ _ _ => fail | _ => wp_step end).
  destruct (shouldUpdatePodTemplate _ _) as [needs reason]. wp_step; [by wp_step|]. wp_step.
  eapply wpm_mono; [apply disableRebalance_off; [by intros ? [] | done]|].
  cbn. intros h1 s1 [[]|e] [_ Hoff]; [|by wp_step].
  wp_step. wp_call; [|intros x; by repeat wp_step]. intros _ Ha. by apply Hoff.
Qed.

(** C9. In every execution of the target handler, a patch of the target StatefulSet that changes
    its pod template, which starts a rollout, is sent only after the cluster accepted a
    configuration with rebalance off (given that the API server applies the status patches),
    whatever the configuration of the spec. *)
Theorem template_update_rebalance_off ais :
  guarded template_guard (handleTargetState ais).
Proof.
  apply (guarded_wp _ _ (fun _ _ => True)).
  change (wpm True (fun h r => template_guard (rev h) r) handleTargetState ais []
            (fun _ _ _ => True)).
  unfold handleTargetState, unless_updated.
  wp_step. wp_step. wp_step. wp_call; [done|]. intros [ss|e].
  2:{ apply kept_guarded. emits_auto. }
  wp_step. eapply wpm_mono; [apply kept_guarded; emits_auto|]. intros h1 s1 [[]|e] _.
  2:{ apply kept_guarded. emits_auto. }
  wp_step; [by wp_step|]. unfold desired_target_template.
  repeat (lazymatch goal with |- wpm _ _ (try_ _ _ _) _ _ _ => fail | _ => wp_step end).
  wp_step. eapply wpm_mono; [apply kept_guarded; emits_auto|]. intros h2 s2 [upd|e] _; [|by wp_step].
  wp_step; [by wp_step|]. wp_step.
  eapply wpm_mono.
  { wp_step; [apply syncTargetPodSpec_guarded | by wp_step]. }
  intros h3 s3 [upd'|e] _; [|by wp_step]. wp_step; [by wp_step|].
  apply kept_guarded. emits_auto.
Qed.
End Theorems.
