(* ===== verification/TargetScaling.v ===== *)
(** * Scaling of the targets

    Properties of [prepareTargetsForScaleDown], [resolveStatefulSetScaling] and
    [handleTargetScaling]: which targets leave the cluster and how, and what was observed
    before the replica count changes. *)

From S2P Require Import Prelude Effects K8sTypes AISConfig AIStoreTypes ThirdParty AuthConf AIStoreMethods AIStoreFacts GlobalConfig CmnResources TargetResources Rollout ResourceFacts Requests K8sClient ClusterOps ProxyController TargetController Executions TargetRollout RebalanceFacts.

Section Definitions.
Context `{T : ThirdParty}.

(** The node of the action is the target of an ordinal the scale-down removes, and of no
    other ordinal, and was seen neither in maintenance nor decommissioning. *)
Definition removes_target (ais : AIStore) (actualSize : Z) (t : trace) (act : ActValRmNode) : Prop :=
  exists c smap idx desired node,
    GetTargetSize ais = Some desired /\ desired <= idx < actualSize /\
    ev (AGetClusterMap c) (Ok smap) ∈ t /\
    findAISNodeByPodName (Tmap smap) (Target.PodName ais idx) = Ok node /\
    InMaintOrDecomm smap (sn_ID node) = false /\ rm_DaemonID act = sn_ID node /\
    forall j, j ≠ idx -> hostnameMatchesPod (sn_ControlHostname node) (Target.PodName ais j) = false.

(** What the preparation of a scale-down may do. *)
Definition prepare_guard (ais : AIStore) (actualSize : Z) (t : trace) (r : req) : Prop :=
  match r with
  | AStartMaintenance _ act =>
      RetainOnScaleDown (spec_TargetSpec (Spec ais)) = true /\
      removes_target ais actualSize t act
  | ADecommissionNode _ act =>
      RetainOnScaleDown (spec_TargetSpec (Spec ais)) = false /\ rm_SkipRebalance act = false /\
      rm_RmUserData act = negb (SafeDecommissionOnScaleDown (spec_TargetSpec (Spec ais))) /\
      removes_target ais actualSize t act
  | _ => is_read r = true
  end.

(** The cluster accepted the removal of the node. *)
Definition removal_accepted (t : trace) (id : string) : Prop :=
  exists c act x, rm_DaemonID act = id /\
    (ev (AStartMaintenance c act) (Ok x) ∈ t \/ ev (ADecommissionNode c act) (Ok x) ∈ t).

(** The pod runs no daemon that could still register. *)
Definition pod_gone (r : res Pod) : Prop :=
  match r with
  | Ok pod => isPodUnschedulable (Some pod) = true \/ isPodInCrashLoopBackOff pod = true
  | Err e => is_not_found e = true
  end.

(** A removed ordinal is taken care of: its target has left or is leaving, or has no daemon. *)
Definition handled (ais : AIStore) (t : trace) (idx : Z) : Prop :=
  exists c smap, ev (AGetClusterMap c) (Ok smap) ∈ t /\
    match findAISNodeByPodName (Tmap smap) (Target.PodName ais idx) with
    | Ok node => InMaintOrDecomm smap (sn_ID node) = true \/ removal_accepted t (sn_ID node)
    | Err _ => exists r, ev (KGetPod (in_ns ais (Target.PodName ais idx))) r ∈ t /\ pod_gone r
    end.

(** What [isReadyToScaleDown] saw: in a cluster map that was read the targets that a scale-down
    from [size] removes are all in maintenance, as far as they are members, or (when they are
    decommissioned) no member is being decommissioned and the members are not as many as the
    replicas. *)
Definition removal_judged_ready (ais : AIStore) (t : trace) (desired size : Z) : Prop :=
  exists c smap, ev (AGetClusterMap c) (Ok smap) ∈ t /\
    if RetainOnScaleDown (spec_TargetSpec (Spec ais))
    then forall idx node, desired <= idx < size ->
           findAISNodeByPodName (Tmap smap) (Target.PodName ais idx) = Ok node ->
           InMaint smap node = true
    else (forall n, n ∈ Tmap smap -> InMaintOrDecomm smap (sn_ID n) = true -> InMaint smap n = true) /\
         i32 (Z.of_nat (length (Tmap smap))) ≠ size.

(** When the replica count may change, and to what. *)
Definition resize_guard (ais : AIStore) (t : trace) (r : req) : Prop :=
  match r with
  | KPatchStatefulSet o m =>
      exists desired current name, GetTargetSize ais = Some desired /\
        ev (KGetStatefulSet (Target.StatefulSetNSName ais)) (Ok current) ∈ t /\
        ev (KGetStatefulSet name) (Ok o) ∈ t /\ m = ss_set_replicas o desired /\
        let size := sss_Replicas (ss_Spec current) in
        (desired < size -> removal_judged_ready ais t desired size) /\
        (0 < size -> is_i32 (size + 1) -> size + 1 < desired -> patches_applied t ->
         last_rebalance t = Some false)
  | _ => is_read r = true \/ config_request r
  end.

(** Under autoscaling, a scale-down the cache suggests was confirmed by the API server. *)
Definition confirmed (key : nsname) (cached : StatefulSet) (desired maxUnavailable : Z)
    (autoScaling : bool) (t : trace) : Prop :=
  autoScaling = true -> desired < sss_Replicas (ss_Spec cached) ->
  exists fresh, ev (KGetStatefulSetDirect key) (Ok fresh) ∈ t /\
    statefulsetScalingNeeded fresh desired maxUnavailable autoScaling = true.

Definition confirm_guard (ais : AIStore) (cached : StatefulSet) (t : trace) (r : req) : Prop :=
  is_read r = true \/
  exists desired, GetTargetSize ais = Some desired /\
    confirmed (Target.StatefulSetNSName ais) cached desired (GetTargetMaxUnavailable ais)
      (IsTargetAutoScaling ais) t.
End Definitions.

(** ** Facts *)

Section Facts.
Context `{T : ThirdParty}.

Lemma handled_later ais e h idx : handled ais (rev h) idx -> handled ais (rev (e :: h)) idx.
Proof.
  intros (c & smap & Hs & Hm). exists c, smap. split; [by apply in_trace_later|].
  destruct (findAISNodeByPodName _ _) as [node|].
  - destruct Hm as [?|(c' & act & x & ? & [?|?])]; [by left | right..];
      exists c', act, x; split; try done; [left|right]; by apply in_trace_later.
  - destruct Hm as (r & ? & ?). exists r. split; [by apply in_trace_later | done].
Qed.

Lemma handled_mono ais h h' idx :
  h `suffix_of` h' -> handled ais (rev h) idx -> handled ais (rev h') idx.
Proof. intros [k ->] Hh. induction k as [|e k IH]; [done|]. by apply handled_later. Qed.

Lemma target_host_unique ais node idx j :
  hostnameMatchesPod (sn_ControlHostname node) (Target.PodName ais idx) = true -> j ≠ idx ->
  hostnameMatchesPod (sn_ControlHostname node) (Target.PodName ais j) = false.
Proof.
  intros Hi Hj. apply not_true_is_false. intros Hm. apply Hj.
  unfold Target.PodName in *. by eapply hostname_ordinal_unique.
Qed.
End Facts.

Section Preparation.
Context `{T : ThirdParty}.

(** One removed ordinal. *)
Lemma prepare_target_wp ais c0 smap c desired actual idx s h :
  GetTargetSize ais = Some desired -> desired <= idx < actual ->
  ev (AGetClusterMap c0) (Ok smap) ∈ rev h ->
  wpm True (fun h r => prepare_guard ais actual (rev h) r) (prepare_target ais c smap idx) s h
    (fun h' s' r => match r with Ok _ => handled ais (rev h') idx | Err _ => True end).
Proof.
  intros Hd Hi Hs. unfold prepare_target. wp_step.
  - pose proof (findAISNode_Ok _ _ _ Heqr) as [_ Hhost].
    assert (forall act, rm_DaemonID act = sn_ID a -> InMaintOrDecomm smap (sn_ID a) = false ->
              removes_target ais actual (rev h) act) as Hrm.
    { intros act Hact Hout. exists c0, smap, idx, desired, a. split_and!; try done; try lia.
      intros j. by apply target_host_unique. }
    repeat wp_step; try done.
    + exists c0, smap. rewrite Heqr. eauto.
    + by split; [|apply Hrm].
    + exists c0, smap. split; [by apply in_trace_later|]. rewrite Heqr. right.
      repeat eexists; [|left; apply in_trace_here]. done.
    + split_and!; [done..|by apply Hrm].
    + exists c0, smap. split; [by apply in_trace_later|]. rewrite Heqr. right.
      repeat eexists; [|right; apply in_trace_here]. done.
  - wp_step. wp_call; [done|]. intros r. wp_step.
    assert (pod_gone r -> handled ais (rev (ev (KGetPod (in_ns ais (Target.PodName ais idx))) r :: h)) idx) as Hh.
    { intros Hg. exists c0, smap. split; [by apply in_trace_later|]. rewrite Heqr.
      exists r. split; [apply in_trace_here | done]. }
    destruct r as [pod|pe].
    + destruct (isPodUnschedulable (Some pod)) eqn:Hu; cbn [orb];
        [apply Hh; by left|].
      destruct (isPodInCrashLoopBackOff pod) eqn:Hc; [apply Hh; by right | done].
    + destruct (is_not_found pe) eqn:Hn; [by apply Hh | done].
Qed.

Lemma prepare_wp ais actual :
  wpm True (fun h r => prepare_guard ais actual (rev h) r) (prepareTargetsForScaleDown actual) ais []
    (fun h' _ r => r = Ok tt -> exists desired, GetTargetSize ais = Some desired /\
       forall idx, desired <= idx < actual -> handled ais (rev h') idx).
Proof.
  unfold prepareTargetsForScaleDown. do 2 wp_step. wp_step. wp_call; [done|]. intros [c|e].
  2:{ by wp_step. }
  wp_step. wp_call; [done|]. intros [smap|e]. 2:{ by wp_step. }
  wp_step. wp_step. intros desired Hd.
  match goal with |- wpm _ _ _ _ ?h0 _ => set (h0' := h0) in * end.
  eapply wpm_mono.
  - apply (wpm_for_each _ (fun done_ h _ => h0' `suffix_of` h /\
      forall idx, idx ∈ done_ -> handled ais (rev h) idx)).
    + split; [done|]. intros idx Hi. by apply not_elem_of_nil in Hi.
    + intros d x rest s h Hl [Hs Hh]. eapply wpm_mono.
      { apply wpm_suffix, (prepare_target_wp ais c smap c desired actual x); [done| |].
        - apply elem_of_removed_indices. unfold indices_down in Hl. rewrite Hl.
          apply elem_of_app. right. by left.
        - apply elem_of_rev. eapply elem_of_later; [exact Hs|]. by left. }
      cbn. intros h' s' [[]|e] [Hx Hs']; [|done]. split; [by trans h|].
      intros idx [Hi| ->%list_elem_of_singleton]%elem_of_app; [|done].
      eapply handled_mono; [exact Hs' | by apply Hh].
  - cbn. intros h s r Hr Hok. exists desired. split; [done|]. intros idx Hi.
    apply Hr; [done|]. by apply elem_of_removed_indices.
Qed.

(** C10. Preparing a scale-down touches the targets it removes and no other: every maintenance
    or decommission request is for the target of an ordinal in the removed range, whose host
    name belongs to no other pod, that was seen neither in maintenance nor decommissioning;
    whether data is kept follows the spec (maintenance when the targets are retained,
    otherwise decommission, with user data removed exactly when a safe decommission was not
    asked for). *)
Theorem scale_down_removes_only_surplus ais actual :
  guarded (prepare_guard ais actual) (prepareTargetsForScaleDown actual ais).
Proof.
  apply (guarded_wp _ _ (fun _ _ => True)). by eapply wp_mono, prepare_wp.
Qed.

(** C11. When the preparation succeeds, every ordinal that the scale-down removes is taken
    care of: its target was already leaving, or the cluster accepted its removal, or it has
    no running daemon. *)
Theorem scale_down_prepares_all ais actual t s :
  exec (prepareTargetsForScaleDown actual ais) t (Some (s, Ok tt)) ->
  exists desired, GetTargetSize ais = Some desired /\
    forall idx, desired <= idx < actual -> handled ais t idx.
Proof.
  intros Hex.
  refine (returns_wp _ (fun t p => p.2 = Ok tt -> exists desired, GetTargetSize ais = Some desired /\
    forall idx, desired <= idx < actual -> handled ais t idx) t (s, Ok tt) _ Hex eq_refl).
  by eapply wp_mono, prepare_wp.
Qed.
End Preparation.

Section Resize.
Context `{T : ThirdParty, L : !ThirdPartyLaws T}.

Lemma ready_to_scale_down_wp ais desired size s h :
  wpm True (fun h r => resize_guard ais (rev h) r) (isReadyToScaleDown ais desired size) s h
    (fun h' s' r => r = Ok true -> removal_judged_ready ais (rev h') desired size).
Proof.
  unfold isReadyToScaleDown. wp_step. wp_call; [by left|]. intros [c|e]; [|by wp_step].
  wp_step. wp_call; [by left|]. intros [smap|e]; [|by wp_step]. wp_step. intros [= Hr].
  exists c, smap. split; [apply in_trace_here|].
  destruct (RetainOnScaleDown _).
  - intros idx node Hi Hf. unfold isReadyToScaleDownRetain in Hr.
    rewrite List.forallb_forall in Hr. specialize (Hr idx). rewrite Hf in Hr. apply Hr.
    by apply list_elem_of_In, elem_of_removed_indices.
  - unfold isReadyToScaleDownDecommission in Hr. destruct (existsb _ _) eqn:He; [done|].
    reflect_bools. split; [|done]. intros n Hn Hout. apply not_false_is_true. intros Hin.
    apply not_true_iff_false in He. apply He, List.existsb_exists. exists n.
    split; [by apply list_elem_of_In|]. by rewrite Hout, Hin.
Qed.

(** The patch of the replica count, given what was observed before. *)
Lemma resize_wp ais desired current name s h :
  GetTargetSize ais = Some desired ->
  ev (KGetStatefulSet (Target.StatefulSetNSName ais)) (Ok current) ∈ h ->
  (desired < sss_Replicas (ss_Spec current) ->
   removal_judged_ready ais (rev h) desired (sss_Replicas (ss_Spec current))) ->
  (0 < sss_Replicas (ss_Spec current) -> is_i32 (sss_Replicas (ss_Spec current) + 1) ->
   sss_Replicas (ss_Spec current) + 1 < desired -> patches_applied (rev h) ->
   last_rebalance (rev h) = Some false) ->
  wpm True (fun h r => resize_guard ais (rev h) r) (UpdateStatefulSetReplicas name desired) s h
    (fun _ _ _ => True).
Proof.
  intros Hd Hcur Hdown Hup. unfold UpdateStatefulSetReplicas.
  wp_step. wp_call; [by left|]. intros [o|e]; [|by wp_step].
  wp_step; [by wp_step|]. wp_step. wp_call; [|intros x; by repeat wp_step].
  exists desired, current, name. cbv zeta. split_and!; try done.
  - apply in_trace_later. by apply elem_of_rev.
  - apply in_trace_here.
  - intros Hlt. destruct (Hdown Hlt) as (c & smap & Hs & Hm). exists c, smap.
    split; [by apply in_trace_later | done].
  - intros H0 Hi Hgt Ha. rewrite quiet_last_rebalance by done.
    apply Hup; [done..|]. by apply patches_applied_snoc in Ha as [_ ?].
Qed.

End Resize.

Section Autoscale.
Context `{T : ThirdParty}.

(** The check against the API server, for targets and proxies alike. *)
Lemma confirmScalingNeeded_wp (G : trace -> req -> Prop) key cached desired budget auto s h :
  G h (KGetStatefulSetDirect key) ->
  wpm True G (confirmScalingNeeded key cached desired budget auto) s h
    (fun h' s' r => s' = s /\ (r = Ok true -> confirmed key cached desired budget auto (rev h'))).
Proof.
  intros HG. unfold confirmScalingNeeded. wp_step.
  - wp_step. split; [done|]. intros _ -> Hlt. cbn in Heqb. reflect_bools. lia.
  - wp_step. wp_call; [done|]. intros [fresh|e]; wp_step; split; try done.
    intros [= Hn] Ha _. exists fresh. split; [apply in_trace_here | done].
Qed.

Lemma confirmed_mono key cached desired budget auto h h' :
  h `suffix_of` h' -> confirmed key cached desired budget auto (rev h) ->
  confirmed key cached desired budget auto (rev h').
Proof.
  intros Hs Hc Ha Hlt. destruct (Hc Ha Hlt) as (f & Hf & ?). exists f. split; [|done].
  by eapply elem_of_rev_later.
Qed.

(** Under autoscaling the node lists that size the cluster come from a cache. When they
    make the target StatefulSet seem to need a scale-down, nothing is changed (no target is
    drained, no load balancer deleted, no replica count patched) unless the API server,
    asked directly, returned a StatefulSet that needs it too. *)
Theorem autoscale_down_confirmed ais ss :
  guarded (confirm_guard ais ss) (handleTargetScaling ss ais).
Proof.
  apply (guarded_wp _ _ (fun _ _ => True)).
  change (wpm True (fun h r => confirm_guard ais ss (rev h) r) (handleTargetScaling ss) ais []
            (fun _ _ _ => True)).
  unfold handleTargetScaling. do 4 wp_step. intros desired Hd. wp_step.
  eapply wpm_mono; [apply wpm_suffix, confirmScalingNeeded_wp; by left|].
  cbn. intros h s [[]|e] [[_ Hc] Hs]; [|by wp_step..].
  apply wpm_stable. intros h' r Hs'. right. exists desired. split; [done|].
  eapply confirmed_mono; [exact Hs' | by apply Hc].
Qed.
End Autoscale.
