(* ===== verification/ProxyFacts.v ===== *)
(** * The primary proxy

    Properties of the proxy controller: a scale-down and a rollout move the primary out of the way
    first, and which proxies a scale-down decommissions. *)

From S2P Require Import Prelude Effects K8sTypes AISConfig AIStoreTypes ThirdParty AuthConf AIStoreMethods GlobalConfig CmnResources ProxyResources Templates Rollout ResourceFacts Requests K8sClient ClusterOps ProxyController Executions.

Section Definitions.
Context `{T : ThirdParty}.

(** The proxy of ordinal [idx] was the primary of a cluster map that was read, or the cluster
    accepted it as the primary. *)
Definition primary_held (ais : AIStore) (t : trace) (idx : Z) : Prop :=
  (exists c smap p, ev (AGetClusterMap c) (Ok smap) ∈ t /\ Primary smap = Some p /\
     hostnameMatchesPod (sn_ControlHostname p) (Proxy.PodName ais idx) = true) \/
  (exists c c' smap node, ev (AGetClusterMap c) (Ok smap) ∈ t /\
     findAISNodeByPodName (Pmap smap) (Proxy.PodName ais idx) = Ok node /\
     ev (ASetPrimaryProxy c' (sn_ID node) (sn_PubURL node) true) (Ok tt) ∈ t).

(** A proxy that may become primary: in service, with a ready pod on the newest revision. *)
Definition eligible (ais : AIStore) (ss : StatefulSet) (t : trace) (idx : Z) : Prop :=
  exists c smap node pod, ev (AGetClusterMap c) (Ok smap) ∈ t /\
    findAISNodeByPodName (Pmap smap) (Proxy.PodName ais idx) = Ok node /\
    InMaintOrDecomm smap (sn_ID node) = false /\
    ev (KGetPod (in_ns ais (Proxy.PodName ais idx))) (Ok pod) ∈ t /\ isPodReady (Some pod) = true /\
    (ssst_UpdateRevision (ss_Status ss) ≠ "" ->
     isPodOnRevision (Some pod) (ssst_UpdateRevision (ss_Status ss)) = true).

(** Some proxy that stays holds the primary role. *)
Definition primary_survives (ais : AIStore) (t : trace) (desired : Z) : Prop :=
  exists idx, 0 <= idx < desired /\ primary_held ais t idx.

(** What scaling the proxies from [ss] may do, and when. *)
Definition proxy_scale_guard (ais : AIStore) (ss : StatefulSet) (t : trace) (r : req) : Prop :=
  match r with
  | KPatchStatefulSet o m =>
      exists desired, GetProxySize ais = Some desired /\ m = ss_set_replicas o desired /\
        (desired < sss_Replicas (ss_Spec ss) -> primary_survives ais t desired)
  | ADecommissionNode _ act =>
      exists desired idx c smap node, GetProxySize ais = Some desired /\
        desired <= idx < sss_Replicas (ss_Spec ss) /\
        ev (AGetClusterMap c) (Ok smap) ∈ t /\
        findAISNodeByPodName (Pmap smap) (Proxy.PodName ais idx) = Ok node /\
        act = MkRmNode (sn_ID node) false false /\ primary_survives ais t desired
  | ASetPrimaryProxy _ id url force =>
      exists desired idx c smap node, GetProxySize ais = Some desired /\ 0 <= idx < desired /\
        eligible ais ss t idx /\ ev (AGetClusterMap c) (Ok smap) ∈ t /\
        findAISNodeByPodName (Pmap smap) (Proxy.PodName ais idx) = Ok node /\
        id = sn_ID node /\ url = sn_PubURL node /\ force = true
  | _ => is_read r = true
  end.

(** How the pod template and the update strategy of the proxies may change. *)
Definition proxy_rollout_guard (ais : AIStore) (t : trace) (r : req) : Prop :=
  match r with
  | KPatchStatefulSet o m =>
      let strategy ss := sss_UpdateStrategy (ss_Spec ss) in
      (sss_Template (ss_Spec o) ≠ sss_Template (ss_Spec m) -> 0 < ssst_ReadyReplicas (ss_Status o) ->
       strategy m = partitioned 1 /\ primary_held ais t 0) /\
      (strategy m ≠ strategy o ->
       strategy m = partitioned 1 /\ primary_held ais t 0 \/
       strategy m = partitioned 0 /\ shouldResetPartition o = true /\
       primary_held ais t (i32 (sss_Replicas (ss_Spec o) - 1)))
  | _ => True
  end.
End Definitions.

Section Facts.
Context `{T : ThirdParty}.

Lemma primary_held_mono ais h h' idx :
  h `suffix_of` h' -> primary_held ais (rev h) idx -> primary_held ais (rev h') idx.
Proof.
  intros Hs. pose proof (fun e => elem_of_rev_later e h h' Hs).
  intros [(c & smap & p & ? & ?)|(c & c' & smap & node & ? & ? & ?)]; [left|right].
  - exists c, smap, p. auto.
  - exists c, c', smap, node. auto.
Qed.

Lemma eligible_mono ais ss h h' idx :
  h `suffix_of` h' -> eligible ais ss (rev h) idx -> eligible ais ss (rev h') idx.
Proof.
  intros Hs. pose proof (fun e => elem_of_rev_later e h h' Hs).
  intros (c & smap & node & pod & ? & ? & ? & ? & ?). exists c, smap, node, pod. naive_solver.
Qed.

Lemma primary_survives_mono ais h h' desired :
  h `suffix_of` h' -> primary_survives ais (rev h) desired -> primary_survives ais (rev h') desired.
Proof. intros Hs (idx & ? & ?). exists idx. split; [done|]. by eapply primary_held_mono. Qed.

(** Moving the primary: when it succeeds the proxy holds the role. *)
Lemma setPrimaryTo_wp (G : trace -> req -> Prop) ais idx s h :
  (forall h' r, h `suffix_of` h' -> is_read r = true -> G h' r) ->
  (forall h' c smap node, h `suffix_of` h' -> ev (AGetClusterMap c) (Ok smap) ∈ rev h' ->
     findAISNodeByPodName (Pmap smap) (Proxy.PodName ais idx) = Ok node ->
     G h' (ASetPrimaryProxy c (sn_ID node) (sn_PubURL node) true)) ->
  wpm True G (setPrimaryTo ais idx) s h
    (fun h' s' r => (s' = s /\ h `suffix_of` h') /\ (r = Ok tt -> primary_held ais (rev h') idx)).
Proof.
  intros Hread Hset. unfold setPrimaryTo.
  wp_step. wp_call; [by apply Hread|]. intros [c|e].
  2:{ wp_step. split_and!; try done. by apply suffix_cons_r. }
  wp_step. wp_call; [apply Hread; [by apply suffix_cons_r | done]|]. intros [smap|e].
  2:{ wp_step. split_and!; try done. by do 2 apply suffix_cons_r. }
  cbv zeta. wp_step.
  { wp_step. split; [split; [done | by do 2 apply suffix_cons_r]|]. intros _. left.
    destruct (Primary smap) as [p|] eqn:Hp; [|done]. exists c, smap, p.
    split_and!; [apply in_trace_here | done..]. }
  wp_step.
  - wp_call; [eapply Hset; [by do 2 apply suffix_cons_r | apply in_trace_here | done]|].
    intros x. split; [split; [done | by do 3 apply suffix_cons_r]|]. intros ->. right.
    exists c, c, smap, a. split_and!; [apply in_trace_later, in_trace_here | done | apply in_trace_here].
  - wp_step. split_and!; try done. by do 2 apply suffix_cons_r.
Qed.
End Facts.

Section Scale.
Context `{T : ThirdParty}.

Lemma read_scale_guard ais ss t r : is_read r = true -> proxy_scale_guard ais ss t r.
Proof. by destruct r. Qed.

Lemma index_valid_wp ais ss c smap idx s h :
  ev (AGetClusterMap c) (Ok smap) ∈ rev h ->
  wpm True (fun h r => proxy_scale_guard ais ss (rev h) r) (isIndexValidNewPrimary ais ss smap idx) s h
    (fun h' s' r => (s' = s /\ h `suffix_of` h') /\ (r = true -> eligible ais ss (rev h') idx)).
Proof.
  intros Hs. unfold isIndexValidNewPrimary, isPodValidNewPrimary.
  wp_step; [wp_step; [by wp_step|] | by wp_step].
  wp_step. wp_call; [done|]. intros r. wp_step. split; [split; [done | by apply suffix_cons_r]|].
  destruct r as [pod|e]; [|done]. destruct (isPodReady (Some pod)) eqn:Hr; [|done]. cbn. intros Hv.
  exists c, smap, a, pod. split_and!; try done; [by apply in_trace_later | apply in_trace_here|].
  intros Hu. rewrite bool_decide_true in Hv by done. cbn in Hv.
  rewrite negb_involutive in Hv. cbn. by rewrite Hv, bool_decide_true.
Qed.

Lemma try_primaries_wp ais ss desired c smap idxs : forall s h,
  GetProxySize ais = Some desired ->
  (forall idx, idx ∈ idxs -> 0 <= idx < desired) ->
  ev (AGetClusterMap c) (Ok smap) ∈ rev h ->
  wpm True (fun h r => proxy_scale_guard ais ss (rev h) r) (try_primaries ais ss smap idxs) s h
    (fun h' s' r => (s' = s /\ h `suffix_of` h') /\ (r = Ok tt -> primary_survives ais (rev h') desired)).
Proof.
  induction idxs as [|idx idxs IH]; intros s h Hd Hi Hs; cbn [try_primaries]; [by wp_step|].
  wp_step. eapply wpm_mono; [by eapply index_valid_wp|]. intros h1 s1 v [[-> Hs1] Hv].
  wp_step.
  { eapply wpm_mono; [apply IH; [done | intros; apply Hi; by right | by eapply elem_of_rev_later]|].
    intros h2 s2 r [[-> Hs2] Hr]. split; [split; [done | by trans h1] | done]. }
  assert (v = true) as -> by (by destruct v). specialize (Hv eq_refl).
  wp_step. eapply wpm_mono; [apply setPrimaryTo_wp|].
  - intros. by apply read_scale_guard.
  - intros h' c' smap' node Hs' Hm Hn. exists desired, idx, c', smap', node.
    split_and!; try done; try (apply Hi; by left). by eapply eligible_mono.
  - cbn. intros h2 s2 [[]|e] [[-> Hs2] Hr].
    + wp_step. split; [split; [done | by trans h1]|]. intros _. exists idx.
      split; [apply Hi; by left | by apply Hr].
    + eapply wpm_mono; [apply IH; [done | intros; apply Hi; by right |]|].
      { eapply elem_of_rev_later; [|exact Hs]. by trans h1. }
      intros h3 s3 r' [[-> Hs3] Hr']. split; [split; [done | trans h2; [by trans h1 | done]] | done].
Qed.

Lemma ensurePrimary_wp ais ss desired c smap s h :
  GetProxySize ais = Some desired ->
  ev (AGetClusterMap c) (Ok smap) ∈ rev h ->
  wpm True (fun h r => proxy_scale_guard ais ss (rev h) r)
    (ensurePrimarySurvivesScaleDown ais ss smap desired) s h
    (fun h' s' r => (s' = s /\ h `suffix_of` h') /\ (r = Ok tt -> primary_survives ais (rev h') desired)).
Proof.
  intros Hd Hs. unfold ensurePrimarySurvivesScaleDown. cbv zeta. wp_step.
  - wp_step. split; [done|]. intros _. unfold findPrimaryPodIdx in Heqb.
    destruct (Primary smap) as [p|] eqn:Hp; [|done].
    destruct (List.find _ _) as [idx|] eqn:Hf; [|done]. apply List.find_some in Hf as [Hin Hm].
    apply list_elem_of_In, elem_of_seqZ in Hin. reflect_bools.
    exists idx. split; [lia|]. left. by exists c, smap, p.
  - eapply try_primaries_wp; [done | | done]. intros idx Hi. apply elem_of_seqZ in Hi. lia.
Qed.

Lemma decommission_wp ais ss desired c0 c smap idxs : forall s h,
  GetProxySize ais = Some desired ->
  (forall idx, idx ∈ idxs -> desired <= idx < sss_Replicas (ss_Spec ss)) ->
  ev (AGetClusterMap c0) (Ok smap) ∈ rev h -> primary_survives ais (rev h) desired ->
  wpm True (fun h r => proxy_scale_guard ais ss (rev h) r) (decommission_indices ais smap c idxs) s h
    (fun h' s' _ => s' = s /\ h `suffix_of` h').
Proof.
  induction idxs as [|idx idxs IH]; intros s h Hd Hi Hs Hp; cbn [decommission_indices]; [by wp_step|].
  wp_step; [|apply IH; try done; intros; apply Hi; by right].
  wp_step. wp_call.
  - exists desired, idx, c0, smap, a. split_and!; try done; apply Hi; by left.
  - intros x. eapply wpm_mono.
    + apply IH; [done | intros; apply Hi; by right | by apply in_trace_later|].
      eapply primary_survives_mono; [|exact Hp]. by apply suffix_cons_r.
    + intros h' s' _ [-> Hs']. split; [done|]. by eapply suffix_cons_l.
Qed.

(** C13. Scaling the proxies down never removes the primary. The replica count is lowered, and
    proxies are decommissioned, only after one of the proxies that stay was seen as primary or
    accepted as primary by the cluster; only proxies of removed ordinals are decommissioned;
    and a new primary is one of those that stay, in service, with a ready pod on the newest
    revision. *)
Theorem proxy_scale_keeps_primary ais ss :
  guarded (proxy_scale_guard ais ss) (handleProxyScale ss ais).
Proof.
  apply (guarded_wp _ _ (fun _ _ => True)).
  change (wpm True (fun h r => proxy_scale_guard ais ss (rev h) r) (handleProxyScale ss) ais []
            (fun _ _ _ => True)).
  unfold handleProxyScale. do 4 wp_step. intros desired Hd. wp_step; [by wp_step|]. wp_step.
  apply (wpm_mono _ _ _ _ _ (fun h s r => s = ais /\ (r = Ok tt ->
    desired < sss_Replicas (ss_Spec ss) -> primary_survives ais (rev h) desired))).
  - wp_step; [|wp_step; split; [done|]; intros; reflect_bools; lia].
    unfold prepareProxyScaleDown. do 4 wp_step. intros d' Hd'. assert (d' = desired) as -> by congruence.
    wp_step. wp_call; [done|]. intros [c|e]; [|by wp_step].
    wp_step. wp_call; [done|]. intros [smap|e]; [|by wp_step].
    wp_step. eapply wpm_mono; [by eapply ensurePrimary_wp; [|apply in_trace_here]|].
    intros h s [[]|e] [[-> Hs] Hr]; [|by wp_step]. wp_step. eapply wpm_mono.
    { unfold decommissionProxies. eapply wpm_suffix, decommission_wp; [done | | | by apply Hr].
      - intros idx. apply elem_of_removed_indices.
      - eapply elem_of_rev_later; [exact Hs | apply in_trace_here]. }
    intros h' s' _ [[-> Hs'] _]. wp_step. split; [done|]. intros _ _.
    eapply primary_survives_mono; [exact Hs' | by apply Hr].
  - intros h s [[]|e] [-> Hp]; [|by wp_step]. wp_step.
    unfold UpdateStatefulSetReplicas. wp_step. wp_call; [done|]. intros [o|e]; [|by repeat wp_step].
    wp_step; [by repeat wp_step|]. wp_step. wp_call; [|intros x; by repeat wp_step].
    exists desired. split_and!; try done. intros Hlt.
    eapply primary_survives_mono; [|by apply Hp]. by apply suffix_cons_r.
Qed.
End Scale.

(** Requests that change neither the pod template nor the update strategy. *)
Definition shape_kept (r : req) : Prop :=
  match r with
  | KPatchStatefulSet o m =>
      sss_Template (ss_Spec o) = sss_Template (ss_Spec m) /\
      sss_UpdateStrategy (ss_Spec o) = sss_UpdateStrategy (ss_Spec m)
  | _ => True
  end.

Section Kept.
Context `{T : ThirdParty}.

Lemma emits_try_primaries (P : req -> Prop) ais ss smap idxs :
  (forall r, shape_kept r -> P r) -> emits P (try_primaries ais ss smap idxs).
Proof.
  intros HP. apply (emits_mono _ _ _ HP).
  induction idxs as [|idx idxs IH]; cbn [try_primaries]; emits_auto.
Qed.

Lemma emits_decommission_indices (P : req -> Prop) ais smap c idxs :
  (forall r, shape_kept r -> P r) -> emits P (decommission_indices ais smap c idxs).
Proof.
  intros HP. apply (emits_mono _ _ _ HP).
  induction idxs as [|idx idxs IH]; cbn [decommission_indices]; emits_auto.
Qed.

Lemma emits_handleProxyScale_kept ss : emits shape_kept (handleProxyScale ss).
Proof.
  pose proof (fun ais ss smap idxs => emits_try_primaries shape_kept ais ss smap idxs (fun r Hr => Hr)).
  pose proof (fun ais smap c idxs => emits_decommission_indices shape_kept ais smap c idxs (fun r Hr => Hr)).
  emits_auto.
Qed.

Lemma emits_initProxies_kept : emits shape_kept initProxies.
Proof. emits_auto. Qed.
End Kept.
#[export] Hint Resolve emits_handleProxyScale_kept emits_initProxies_kept : emits.

Section Rollout.
Context `{T : ThirdParty}.

Lemma kept_rollout_guard ais t r : shape_kept r -> proxy_rollout_guard ais t r.
Proof. destruct r; try done. intros [H1 H2]. split; intros; congruence. Qed.

Lemma read_rollout_guard ais t r : is_read r = true -> proxy_rollout_guard ais t r.
Proof. by destruct r. Qed.

Lemma kept_wp {A} ais (m : H A) s h :
  emits shape_kept m ->
  wpm True (fun h r => proxy_rollout_guard ais (rev h) r) m s h (fun _ _ _ => True).
Proof.
  intros Hm. eapply wpm_mono; [|done].
  apply (emits_wpm shape_kept); [done|]. intros. by apply kept_rollout_guard.
Qed.

(** Moving the primary is allowed at any time. *)
Lemma move_wp ais ais' idx s h :
  wpm True (fun h r => proxy_rollout_guard ais (rev h) r) (setPrimaryTo ais' idx) s h
    (fun h' s' r => (s' = s /\ h `suffix_of` h') /\ (r = Ok tt -> primary_held ais' (rev h') idx)).
Proof. apply setPrimaryTo_wp; [|done]. intros. by apply read_rollout_guard. Qed.

Lemma syncProxyPodSpec_wp ss ais h :
  wpm True (fun h r => proxy_rollout_guard ais (rev h) r) (syncProxyPodSpec ss) ais h
    (fun _ s _ => s = ais).
Proof.
  unfold syncProxyPodSpec, desired_proxy_template, patchStatefulSet.
  repeat (lazymatch goal with |- wpm _ _ (let '_ := _ in _) _ _ _ => fail | _ => wp_step end).
  destruct (shouldUpdatePodTemplate _ _) as [needs reason]. wp_step; [by wp_step|]. cbv zeta.
  destruct (0 <? ssst_ReadyReplicas (ss_Status ss)) eqn:Hr; wp_step.
  - eapply wpm_mono; [apply move_wp|]. intros h1 s1 [[]|e] [[-> Hs] Hp]; [|by wp_step].
    wp_step. wp_call; [|intros x; by repeat wp_step].
    split; [|left]; intros; (split; [done | by apply Hp]).
  - wp_step. wp_step. wp_call; [|intros x; by repeat wp_step].
    split; [|done]. cbn. intros _ Hpos. apply Z.ltb_nlt in Hr. lia.
Qed.

Lemma handleProxyRollout_wp ss ais h :
  wpm True (fun h r => proxy_rollout_guard ais (rev h) r) (handleProxyRollout ss) ais h
    (fun _ _ _ => True).
Proof.
  unfold handleProxyRollout, setHighestPodAsPrimary, resetSSPartition, patchStatefulSet.
  do 2 wp_step. cbv zeta. wp_step; [by wp_step|]. wp_step; [by wp_step|]. wp_step.
  eapply wpm_mono; [apply move_wp|]. intros h1 s1 [[]|e] [[-> Hs] Hp]; [|by wp_step].
  wp_call; [|done]. split; [done|]. intros _. right.
  split_and!; [done | by reflect_bools | by apply Hp].
Qed.

(** C14. A rollout of the proxies moves the primary out of its way. The handler changes the pod
    template of a StatefulSet that was read with ready pods only together with the update strategy
    that leaves ordinal 0 alone, after proxy 0 became (or was) primary; and it lets the rollout
    reach ordinal 0 only once the status counts a single pod of the revision before and the proxy
    of the highest ordinal became (or was) primary - with one proxy, that proxy. No other change of
    the strategy is made. *)
Theorem proxy_rollout_moves_primary ais :
  guarded (proxy_rollout_guard ais) (handleProxyState ais).
Proof.
  apply (guarded_wp _ _ (fun _ _ => True)).
  change (wpm True (fun h r => proxy_rollout_guard ais (rev h) r) handleProxyState ais []
            (fun _ _ _ => True)).
  unfold handleProxyState, unless_updated.
  wp_step. wp_step. wp_step. wp_call; [done|]. intros [ss|e].
  2:{ apply kept_wp. emits_auto. }
  wp_step; [by wp_step|]. unfold desired_proxy_template.
  repeat (lazymatch goal with |- wpm _ _ (try_ _ _ _) _ _ _ => fail | _ => wp_step end).
  wp_step. apply (wpm_mono _ _ _ _ _ (fun _ s _ => s = ais)).
  { wp_step; [apply syncProxyPodSpec_wp | by wp_step]. }
  intros h1 s1 [upd|e] ->; [|by wp_step]. wp_step; [by wp_step|].
  wp_step. apply (keeps_wpm shape_kept); [keeps_auto | intros; by apply kept_rollout_guard|].
  intros h2 [upd'|e] Hs2; cbv beta iota; [|by wp_step]. wp_step; [by wp_step|].
  wp_step; [apply kept_wp; emits_auto|]. wp_step; [|apply kept_wp; emits_auto].
  wp_step. eapply wpm_mono; [apply handleProxyRollout_wp|]. intros h3 s3 [[]|e] _; by wp_step.
Qed.
End Rollout.
