(* ===== verification/Preserves.v ===== *)
(** * Stages and the AIStore object

    Which stages of a reconciliation leave the AIStore object alone, and an interface for the
    others: an invariant that relates the object in memory to the trace, with what it takes for
    the status patches and the annotation patch to preserve it ([ObjectInvariant]); all stages of
    a running cluster then preserve it. *)

From S2P Require Import Prelude Effects K8sTypes AISConfig AIStoreTypes ThirdParty AuthConf AIStoreMethods AIStoreFacts Validation GlobalConfig CmnResources Certificates ProxyResources TargetResources AdminClient Requests K8sClient ClusterOps Nodes ProxyController TargetController Cleanup Cluster Executions.

(** States a running cluster may enter. *)
Definition operational (s : ClusterState) : bool :=
  match s with
  | ClusterCreated | ClusterReady | ClusterInitializingLBService | ClusterPendingLBService
  | ClusterUpgrading => true
  | _ => false
  end.

(** Requests every stage may make. *)
Definition benign (r : req) : Prop :=
  match r with
  | KGetAIStore _ | KPatchAIStore _ _ | KPatchStatus _ _ => False
  | KDelete (KStatefulSet | KServiceAccount | KRole | KRoleBinding | KPVC | KJob) _ => False
  | KCreate (None, OJob _) | ADecommissionCluster _ _ | AShutdownCluster _ => False
  | _ => True
  end.

Lemma benign_off r : benign r -> off_object r.
Proof. by destruct r. Qed.

(** Loops and stages that leave the object alone. *)
Section Loops.
Context `{T : ThirdParty}.

Lemma keeps_try_primaries ais ss smap idxs : keeps benign (try_primaries ais ss smap idxs).
Proof. induction idxs as [|idx idxs IH]; cbn [try_primaries]; keeps_auto. Qed.

Lemma keeps_decommission_indices ais smap c idxs : keeps benign (decommission_indices ais smap c idxs).
Proof. induction idxs as [|idx idxs IH]; cbn [decommission_indices]; keeps_auto. Qed.

Lemma keeps_delete_all P k ns b :
  (forall n, P (KDelete k n)) -> keeps P (delete_all k ns b).
Proof. intros HP. revert b. induction ns as [|n ns IH]; intros b; cbn [delete_all]; keeps_auto. Qed.

Lemma keeps_any_func P fs b : Forall (keeps P) fs -> keeps P (any_func fs b).
Proof.
  intros Hfs. revert b. induction Hfs as [|f fs Hf _ IH]; intros b; cbn [any_func]; [apply keeps_ret|].
  apply keeps_try; [done | intros; apply keeps_ret | intros; apply IH].
Qed.

Lemma keeps_delete_finished P jobs :
  (forall n, P (KDelete KJob n)) -> P ENow -> forall rest, keeps P (delete_finished jobs rest).
Proof. intros HP Hn. induction jobs as [|j jobs IH]; intros rest; cbn [delete_finished]; keeps_auto. Qed.

Lemma keeps_createCleanupJobs P ais nodes :
  (forall n, P (KCreate (None, OJob (NewCleanupJob ais n)))) -> keeps P (createCleanupJobs ais nodes).
Proof. intros HP. induction nodes as [|n nodes IH]; cbn [createCleanupJobs]; keeps_auto. Qed.
End Loops.
#[export] Hint Resolve keeps_try_primaries keeps_decommission_indices keeps_delete_all
  keeps_delete_finished keeps_createCleanupJobs : keeps.

Section Handlers.
Context `{T : ThirdParty}.

Lemma keeps_handleProxyState : keeps benign handleProxyState.
Proof. keeps_auto. Qed.

Lemma keeps_initTargets : keeps benign initTargets.
Proof. keeps_auto. Qed.
Lemma keeps_reconcileTargetPDB ais : keeps benign (reconcileTargetPDB ais).
Proof. keeps_auto. Qed.
Lemma keeps_syncTargetPVCRetentionPolicy ss : keeps benign (syncTargetPVCRetentionPolicy ss).
Proof. keeps_auto. Qed.
Lemma keeps_handleTargetRollout ss : keeps benign (handleTargetRollout ss).
Proof. keeps_auto. Qed.
Lemma keeps_prepare n : keeps benign (prepareTargetsForScaleDown n).
Proof. keeps_auto. Qed.
Lemma keeps_scaleDownLB ss : keeps benign (scaleDownLB ss).
Proof. keeps_auto. Qed.
Lemma keeps_scaleUpLB : keeps benign scaleUpLB.
Proof. keeps_auto. Qed.
Lemma keeps_createExternalServices : keeps benign createExternalServices.
Proof. keeps_auto. Qed.
Lemma keeps_waitForExternalSvcReady ais : keeps benign (waitForExternalSvcReady ais).
Proof. keeps_auto. Qed.
Lemma keeps_ensureProxyPrereqs : keeps benign ensureProxyPrereqs.
Proof. keeps_auto. Qed.
Lemma keeps_ensureTargetPrereqs : keeps benign ensureTargetPrereqs.
Proof. keeps_auto. Qed.
Lemma keeps_initProxies : keeps benign initProxies.
Proof. keeps_auto. Qed.
Lemma keeps_reconcileDeprecatedStatsDCM : keeps benign reconcileDeprecatedStatsDCM.
Proof. keeps_auto. Qed.
Lemma keeps_reconcileResources : keeps benign reconcileResources.
Proof. keeps_auto. Qed.
End Handlers.
#[export] Hint Resolve keeps_handleProxyState keeps_initTargets keeps_reconcileTargetPDB
  keeps_syncTargetPVCRetentionPolicy keeps_handleTargetRollout keeps_prepare keeps_scaleDownLB
  keeps_scaleUpLB keeps_createExternalServices keeps_waitForExternalSvcReady
  keeps_ensureProxyPrereqs keeps_ensureTargetPrereqs keeps_initProxies
  keeps_reconcileDeprecatedStatsDCM keeps_reconcileResources : keeps.

(** ** Invariants of the object in memory *)

(** [preserves G Inv m]: the requests of [m] satisfy [G], and [m] preserves [Inv]. *)
Definition preserves (G : trace -> req -> Prop) (Inv : trace -> AIStore -> Prop) {A} (m : H A) : Prop :=
  forall s h, Inv h s -> wpm True G m s h (fun h' s' _ => Inv h' s').

(** What an invariant must satisfy; [may] says which states may be written. *)
Class ObjectInvariant (G : trace -> req -> Prop) (Inv : trace -> AIStore -> Prop)
    (may : ClusterState -> bool) : Prop := {
  oi_guard : forall h r, benign r -> G h r;
  oi_benign : forall r x h s, benign r -> Inv h s -> Inv (ev r x :: h) s;
  (** Only the state of the object in memory matters. *)
  oi_same : forall h s s', State (Status s') = State (Status s) -> Inv h s -> Inv h s';
  oi_enter : forall h s st, may st = true -> Inv h s -> Inv h (SetState st s);
  oi_patchStatus : preserves G Inv patchStatus;
  oi_patch : forall o m s h, State (Status o) = State (Status s) ->
    ais_Finalizers m = ais_Finalizers o -> Inv h s ->
    wpm True G (call (KPatchAIStore o m)) s h (fun h' s' r =>
      match r with Ok a => Inv h' a | Err _ => Inv h' s' end);
}.


Section Steady.
Context `{T : ThirdParty}.
Context (G : trace -> req -> Prop) (Inv : trace -> AIStore -> Prop) (may : ClusterState -> bool).
Context {OI : ObjectInvariant G Inv may}.

#[local] Abbreviation steady := (preserves G Inv).

Lemma steady_bind {A B} (m : H A) (f : A -> H B) :
  steady m -> (forall a, steady (f a)) -> steady (m ≫= f).
Proof.
  intros Hm Hf s h Hi. apply wpm_bind. eapply wpm_mono; [by apply Hm|].
  intros h' s' a Hi'. by apply Hf.
Qed.
Lemma steady_try {A B} (m : H (res A)) (e : error -> H B) (k : A -> H B) :
  steady m -> (forall x, steady (e x)) -> (forall a, steady (k a)) -> steady (try_ m e k).
Proof. intros Hm He Hk. apply steady_bind; [done|]. by intros []. Qed.
Lemma steady_ret {A} (a : A) : steady (mret a).
Proof. intros s h Hi. by apply wpm_ret. Qed.
Lemma steady_get : steady get.
Proof. intros s h Hi. by apply wpm_get. Qed.
Lemma steady_deref {A} (o : option A) : steady (deref o).
Proof. intros s h Hi. by apply wpm_deref. Qed.
Lemma steady_call r : benign r -> steady (call r).
Proof. intros Hr s h Hi. wp_call; [by apply (oi_guard) | intros; by apply oi_benign]. Qed.

(** Handlers that leave the object alone. *)
Lemma keeps_steady {A} (m : H A) : keeps benign m -> steady m.
Proof.
  intros Hm s h Hi. eapply wp_mono; [done | | |
    eapply (wp_history _ _ (fun h => Inv h s)); [|exact Hi|apply (Hm s h)]].
  - intros h' r. apply oi_guard.
  - by intros h' [s' a] [-> ?].
  - intros h' r x. apply oi_benign.
Qed.

Lemma steady_patchStatus : steady patchStatus.
Proof. apply oi_patchStatus. Qed.

Lemma steady_updateStatusWithState st : may st = true -> steady (updateStatusWithState st).
Proof.
  intros Ho s h Hi. unfold updateStatusWithState. do 2 wp_step. apply steady_patchStatus.
  by apply oi_enter.
Qed.

#[local] Hint Resolve steady_bind steady_try steady_ret steady_get steady_deref steady_patchStatus
  steady_updateStatusWithState : steady.
#[local] Hint Extern 2 (preserves _ _ _) => apply keeps_steady; solve [auto with keeps] : steady.

(** Prove [steady] by following the structure of the handler, using what is known of the
    handlers it calls and unfolding the others. *)
Ltac steady_step :=
  lazymatch goal with
  | |- forall _, _ => intros ?
  | |- preserves _ _ (call _) => apply steady_call; exact I
  | |- preserves _ _ (mret _) => apply steady_ret
  | |- preserves _ _ get => apply steady_get
  | |- preserves _ _ (deref _) => apply steady_deref
  | |- preserves _ _ (try_ _ _ _) => apply steady_try
  | |- preserves _ _ (mbind _ _) => apply steady_bind
  | |- preserves _ _ (if ?b then _ else _) => destruct b
  | |- preserves _ _ (match ?x with _ => _ end) => destruct x
  | |- preserves _ _ (let _ := _ in _) => cbv zeta
  | |- preserves _ _ ?m =>
      first [ solve [eauto 2 with steady] | let f := head_of m in unfold f ]
  end.
Ltac steady_auto := repeat steady_step; try done.

Lemma steady_modify f : (forall s, State (Status (f s)) = State (Status s)) -> steady (modify f).
Proof. intros Hf s h Hi. apply wpm_modify. by apply (oi_same h s). Qed.

(** A field of the object in memory is set and the rest of the handler follows. *)
Lemma steady_get_put {A} (f : AIStore -> AIStore) (k : AIStore -> H A) (b : AIStore -> bool) (m : H A) :
  (forall s, State (Status (f s)) = State (Status s)) -> (forall s, steady (k s)) -> steady m ->
  steady (ais ← get; if b ais then m else put (f ais) ≫= fun _ => k ais).
Proof.
  intros Hf Hk Hm s h Hi. do 2 wp_step. wp_step; [by apply Hm|]. do 2 wp_step.
  apply Hk. by apply (oi_same h s).
Qed.

Lemma steady_enableRebalanceCondition : steady enableRebalanceCondition.
Proof. apply (steady_get_put (SetCondition ConditionReadyRebalance)); steady_auto. Qed.

Lemma steady_updateAutoScaleStatus st : steady (updateAutoScaleStatus st).
Proof. apply (steady_get_put (fun ais => set_autoscale ais st)); steady_auto. Qed.

Lemma steady_updateIntraClusterURLStatus : steady updateIntraClusterURLStatus.
Proof. unfold updateIntraClusterURLStatus. apply steady_bind; [by apply steady_modify | steady_auto]. Qed.

Lemma steady_updateStatusAndRequeue r :
  may ClusterUpgrading = true -> steady (updateStatusAndRequeue r).
Proof.
  intros Hm.
  apply (steady_get_put (SetConditionFalse ConditionReady ReasonUpgrading "Waiting for cluster to upgrade"));
    [done | | apply steady_ret]. intros _. steady_step; [|steady_auto..].
  by apply steady_updateStatusWithState.
Qed.

Lemma steady_patchAISAnnotations a b : steady (patchAISAnnotations a b).
Proof.
  intros s h Hi. unfold patchAISAnnotations. do 4 wp_step. wp_step.
  eapply wpm_mono; [apply oi_patch; [done | done | by apply (oi_same h s)]|].
  intros h' s' [x|e] Hi'; [do 3 wp_step | wp_step]; done.
Qed.

#[local] Hint Resolve steady_patchAISAnnotations : steady.

Lemma steady_unless_done (m k : H outcome) : steady m -> steady k -> steady (unless_done m k).
Proof.
  intros Hm Hk. apply steady_bind; [done|]. intros [r [e|]]; [apply steady_ret|].
  destruct (result_is_zero r); [done | apply steady_ret].
Qed.

Lemma steady_disableRebalance reason msg : steady (disableRebalance reason msg).
Proof. unfold disableRebalance. apply steady_bind; [by apply steady_modify | steady_auto]. Qed.

Lemma steady_handleSuccessfulReconcile :
  may ClusterReady = true -> steady handleSuccessfulReconcile.
Proof.
  intros Hm s h Hi. unfold handleSuccessfulReconcile, emit_event. do 3 wp_step.
  apply (wpm_mono _ _ _ _ _ (fun h' s' _ => Inv h' s')).
  - wp_step; [|by wp_step]. wp_step. wp_call; [by apply oi_guard|]. intros x. wp_step.
    apply (oi_same _ s); [done | by apply oi_benign].
  - intros h1 s1 x Hi1. wp_step; [by apply steady_updateStatusWithState | by wp_step].
Qed.

Lemma steady_checkAISClusterReady : steady checkAISClusterReady.
Proof.
  intros s h Hi. unfold checkAISClusterReady. do 3 wp_step. wp_call; [by apply oi_guard|].
  intros [c|e]; [|wp_step; repeat (apply oi_benign; [exact I|]); done].
  wp_step. wp_call; [by apply oi_guard|]. intros [[]|e]; [|wp_step; repeat (apply oi_benign; [exact I|]); done].
  wp_step. wp_call; [by apply oi_guard|]. intros [smap|e]; [|wp_step; repeat (apply oi_benign; [exact I|]); done].
  match goal with |- wpm _ _ _ _ ?h0 _ => assert (Inv h0 s) as Hi' by (repeat (apply oi_benign; [exact I|]); done) end.
  wp_step. wp_step. intros minP _. wp_step; [by wp_step|]. wp_step. wp_step. intros minT _.
  wp_step; [by wp_step|]. wp_step; [|by wp_step]. do 3 wp_step.
  eapply wpm_mono; [apply steady_patchStatus; by apply (oi_same _ s)|].
  intros h' s' [[]|e] Hi2; by wp_step.
Qed.

#[local] Hint Resolve steady_enableRebalanceCondition steady_updateAutoScaleStatus
  steady_updateIntraClusterURLStatus steady_patchAISAnnotations steady_unless_done
  steady_disableRebalance steady_checkAISClusterReady : steady.

Lemma steady_handleTargetState : steady handleTargetState.
Proof. steady_auto. Qed.

Lemma steady_handleConfigState force : steady (handleConfigState force).
Proof. steady_auto. Qed.

(** All states of a running cluster may be written. *)
Context (Hmay : forall st, operational st = true -> may st = true).

Lemma steady_handleCREvents : steady handleCREvents.
Proof.
  pose proof steady_handleTargetState. pose proof (steady_handleSuccessfulReconcile (Hmay ClusterReady eq_refl)).
  pose proof (fun r => steady_updateStatusAndRequeue r (Hmay ClusterUpgrading eq_refl)). steady_auto.
Qed.

Lemma steady_reconcileExternalAccess : steady reconcileExternalAccess.
Proof.
  pose proof (fun st H => steady_updateStatusWithState st (Hmay st H)). steady_auto.
Qed.

Lemma steady_bootstrapNew : steady bootstrapNew.
Proof.
  assert (steady (modify (SetCondition ConditionCreated))) by by apply steady_modify.
  pose proof (steady_updateStatusWithState ClusterCreated (Hmay ClusterCreated eq_refl)). steady_auto.
Qed.

Lemma steady_reconcile_running : steady reconcile_running.
Proof.
  pose proof steady_handleCREvents. pose proof steady_reconcileExternalAccess.
  pose proof steady_bootstrapNew. steady_auto.
Qed.
End Steady.
