(* ===== verification/Lifecycle.v ===== *)
(** * The life cycle of a cluster

    The state machine over [Status.State]: which state the reconciliation may write after the
    state last reported by the API server. *)

From S2P Require Import Prelude Effects K8sTypes AISConfig AIStoreTypes ThirdParty AuthConf AIStoreMethods AIStoreFacts Validation GlobalConfig CmnResources Certificates ProxyResources TargetResources AdminClient Requests K8sClient ClusterOps Nodes ProxyController TargetController Cleanup Cluster Executions Preserves.

(** States of a cluster that is not on its way out. *)
Definition running (s : ClusterState) : bool :=
  match s with
  | ClusterInitialized | ClusterCreated | ClusterReady | ClusterInitializingLBService
  | ClusterPendingLBService | ClusterUpgrading | ClusterShutdown => true
  | _ => false
  end.

(** States of a cluster being deleted. *)
Definition deleting (s : ClusterState) : bool :=
  match s with
  | ClusterDecommissioning | ClusterCleanup | HostCleanup | ClusterFinalized => true
  | _ => false
  end.

(** The state machine: the states that may be written for an object. *)
Inductive transition (a : AIStore) : ClusterState -> Prop :=
| tr_keep : transition a (State (Status a))
| tr_initialize : State (Status a) = NoState -> transition a ClusterInitialized
| tr_operate st : running (State (Status a)) = true -> operational st = true -> transition a st
| tr_shut_down : State (Status a) = ClusterReady -> transition a ClusterShuttingDown
| tr_cancel_shutdown : State (Status a) = ClusterShuttingDown -> ShouldBeShutdown a = false ->
    transition a ClusterUpgrading
| tr_shutdown : State (Status a) = ClusterShuttingDown -> ShouldBeShutdown a = true ->
    transition a ClusterShutdown
| tr_decommission : deleting (State (Status a)) = false -> ais_Deleting a = true ->
    transition a ClusterDecommissioning
| tr_cleanup : State (Status a) = ClusterDecommissioning -> transition a ClusterCleanup
| tr_host_cleanup : State (Status a) = ClusterCleanup -> transition a HostCleanup
| tr_finalize : State (Status a) = HostCleanup -> transition a ClusterFinalized.

(** A status patch moves the object last reported along the machine. *)
Definition state_guard (t : trace) (r : req) : Prop :=
  match r with
  | KPatchStatus _ st => patches_applied t ->
      exists a, last_object t = Some a /\ transition a (State st)
  | _ => True
  end.

(** The object last reported is in state [st] and satisfies [P]. *)
Definition reported_in (t : trace) (st : ClusterState) (P : AIStore -> Prop) : Prop :=
  exists a, last_object t = Some a /\ State (Status a) = st /\ P a.

(** What tears the cluster down, and when. *)
Definition teardown_guard `{T : ThirdParty} (t : trace) (r : req) : Prop :=
  match r with
  | KDelete (KStatefulSet | KServiceAccount | KRole | KRoleBinding) _ =>
      reported_in t ClusterCleanup (fun _ => True)
  | KDelete KPVC _ => reported_in t ClusterCleanup (fun a => ShouldCleanupMetadata a = true)
  | KCreate (None, OJob _) =>
      reported_in t ClusterCleanup (fun a => ShouldCleanupMetadata a = true /\ UsesStateHostPath (Spec a) = true)
  | KDelete KJob _ => reported_in t HostCleanup (fun _ => True)
  | ADecommissionCluster _ rmUserData =>
      reported_in t ClusterDecommissioning (fun a => ShouldCleanupMetadata a = true /\
        rmUserData = is_true_ptr (CleanupData (Spec a)))
  | AShutdownCluster _ =>
      reported_in t ClusterDecommissioning (fun a => ShouldCleanupMetadata a = false)
  | KPatchAIStore o m =>
      ContainsFinalizer (ais_Finalizers o) aisFinalizer = true ->
      ContainsFinalizer (ais_Finalizers m) aisFinalizer = false ->
      reported_in t ClusterFinalized (fun a => a = o)
  | _ => True
  end.

Definition lifecycle_guard `{T : ThirdParty} (t : trace) (r : req) : Prop := state_guard t r /\ teardown_guard t r.

Abbreviation Gs := (fun (h : trace) r => lifecycle_guard (rev h) r).

(** The object in memory is the one last reported, and it has a state. *)
Definition in_sync (h : trace) (s : AIStore) : Prop :=
  last_object (rev h) = Some s /\ (patches_applied (rev h) -> State (Status s) ≠ NoState).

(** The cluster runs, and the state in memory may be written. *)
Definition steady_inv (h : trace) (s : AIStore) : Prop :=
  patches_applied (rev h) -> exists a, last_object (rev h) = Some a /\
    running (State (Status a)) = true /\
    (State (Status s) = State (Status a) \/ operational (State (Status s)) = true).

(** Requests a stage may make while the object last reported is [s]. *)
Definition stage_ok `{T : ThirdParty} (s : AIStore) (r : req) : Prop :=
  off_object r /\ forall t, last_object t = Some s -> teardown_guard t r.

(** ** Rules *)

Lemma operational_running s : operational s = true -> running s = true.
Proof. by destruct s. Qed.

Section Rules.
Context `{T : ThirdParty}.

Lemma steady_transition s a :
  running (State (Status a)) = true ->
  State (Status s) = State (Status a) \/ operational (State (Status s)) = true ->
  transition a (State (Status s)).
Proof. intros Hr [->|Ho]; [apply tr_keep | by apply tr_operate]. Qed.

Lemma benign_guard t r : benign r -> lifecycle_guard t r.
Proof. intros Hr. split; [by destruct r|]. destruct r; try done; cbn in *; by repeat case_match. Qed.

Lemma benign_stage s r : benign r -> stage_ok s r.
Proof. intros Hr. split; [by apply benign_off | intros t _; by apply benign_guard]. Qed.

Lemma stage_guard s h r : last_object (rev h) = Some s -> stage_ok s r -> lifecycle_guard (rev h) r.
Proof. intros Hl [Ho Ht]. split; [by destruct r | by apply Ht]. Qed.

Lemma off_object_steady r x h s : off_object r -> steady_inv h s -> steady_inv (ev r x :: h) s.
Proof.
  intros Hr Hi Ha. rewrite off_object_last_object by done. apply Hi.
  by apply patches_applied_snoc in Ha as [_ ?].
Qed.

Lemma off_object_sync r x h s : off_object r -> in_sync h s -> in_sync (ev r x :: h) s.
Proof.
  intros Hr [Hl Hn]. split; [by rewrite off_object_last_object|]. intros Ha. apply Hn.
  by apply patches_applied_snoc in Ha as [_ ?].
Qed.

Lemma keeps_sync {A} (m : H A) s h :
  keeps (stage_ok s) m -> in_sync h s -> wpm True Gs m s h (fun h' s' _ => s' = s /\ in_sync h' s).
Proof.
  intros Hm Hi.
  assert (forall (p : @prog req answer (AIStore * A)) h Q, in_sync h s ->
    wp True (fun _ r => stage_ok s r) p h Q -> wp True Gs p h (fun h' a => Q h' a /\ in_sync h' s)) as Hp.
  { clear. induction p as [a| |r k IH]; cbn; intros h Q Hi; [auto..|].
    intros [Hr Hk]. split; [eapply stage_guard; [apply Hi | done]|].
    intros x. apply IH; [|apply Hk]. apply off_object_sync; [apply Hr | done]. }
  apply (Hp (m s) h (fun _ p => p.1 = s)); [done | apply Hm].
Qed.

Lemma keeps_mono {A} (P P' : req -> Prop) (m : H A) :
  (forall r, P r -> P' r) -> keeps P m -> keeps P' m.
Proof. intros HP Hm s h. eapply (wp_mono True True (fun _ r => P r)); [done | intros ? ?; apply HP | | apply Hm]. done. Qed.

Lemma keeps_benign_sync {A} (m : H A) s h :
  keeps benign m -> in_sync h s -> wpm True Gs m s h (fun h' s' _ => s' = s /\ in_sync h' s).
Proof. intros Hm. apply keeps_sync. eapply keeps_mono; [|exact Hm]. apply benign_stage. Qed.

Lemma sync_steady h s : in_sync h s -> running (State (Status s)) = true -> steady_inv h s.
Proof. intros [Hl _] Hr Ha. exists s. split_and!; [done | done | by left]. Qed.

(** ** Status patches *)

(** A status patch allowed by the machine: the state in memory is the one stored, or the
    patch failed and the object in memory stays. *)
Lemma patchStatus_state s h :
  (patches_applied (rev h) -> State (Status s) ≠ NoState /\
     exists a, last_object (rev h) = Some a /\ transition a (State (Status s))) ->
  wpm True Gs patchStatus s h (fun h' s' r =>
    match r with
    | Ok _ => in_sync h' s' /\ (patches_applied (rev h') -> State (Status s') = State (Status s))
    | Err _ => s' = s /\ last_object (rev h') = last_object (rev h)
    end).
Proof.
  intros Ht. unfold patchStatus, record_fail, recordError.
  do 3 wp_step. wp_call; [by split; [intros Ha; apply Ht|]|]. intros [a|e].
  - do 3 wp_step. unfold in_sync. rewrite last_object_snoc.
    assert (patches_applied (rev (ev (KPatchStatus (ais_Name s) (Status s)) (Ok a) :: h)) ->
            State (Status a) = State (Status s) /\ State (Status s) ≠ NoState) as Hs.
    { intros [Ha Ha']%patches_applied_snoc. destruct (Ht Ha') as [? _]. split; [by apply Ha | done]. }
    split; [|intros Ha; by apply Hs]. split; [done|]. intros Ha.
    destruct (Hs Ha) as [Heq ?]. by rewrite Heq.
  - wp_step. wp_call; [done|]. intros x. wp_step. by rewrite !last_object_snoc.
Qed.

Lemma steady_not_empty h s : steady_inv h s -> patches_applied (rev h) -> State (Status s) ≠ NoState.
Proof.
  intros Hi Ha Hn. destruct (Hi Ha) as (a & _ & Hr & [Heq|Ho]); rewrite Hn in *; [|done].
  by rewrite <-Heq in Hr.
Qed.

Lemma patchStatus_transition : preserves Gs steady_inv patchStatus.
Proof.
  intros s h Hi. eapply wpm_mono; [apply wpm_suffix, patchStatus_state|].
  - intros Ha. split; [by eapply steady_not_empty|]. destruct (Hi Ha) as (a & ? & ? & ?).
    exists a. split; [done | by apply steady_transition].
  - intros h' s' [[]|e] [[H1 H2] Hs] Ha.
    + destruct (Hi (patches_applied_mono _ _ Hs Ha)) as (a & _ & Hr & Hst).
      exists s'. split_and!; [by apply H1 | | by left].
      rewrite H2 by done. destruct Hst as [->|?]; [done | by apply operational_running].
    + subst s'. rewrite H2. apply Hi. by eapply patches_applied_mono.
Qed.

(** A patch of the annotations. *)
Lemma steady_patch_object o m s h :
  State (Status o) = State (Status s) -> ais_Finalizers m = ais_Finalizers o -> steady_inv h s ->
  wpm True Gs (call (KPatchAIStore o m)) s h (fun h' s' r =>
    match r with Ok a => steady_inv h' a | Err _ => steady_inv h' s' end).
Proof.
  intros Ho Hf Hi. wp_call; [split; [done|]; intros ? Hn; congruence|].
  intros [a|e]; unfold steady_inv; rewrite last_object_snoc; cbn.
  - intros [[Hs _] Ha]%patches_applied_snoc. exists a.
    destruct (Hi Ha) as (b & ? & ? & Hst). split_and!; [done | | by left].
    rewrite Hs, Ho. destruct Hst as [->|?]; [done | by apply operational_running].
  - intros [_ Ha]%patches_applied_snoc. by apply Hi.
Qed.

#[export] Instance steady_invariant : ObjectInvariant Gs steady_inv operational.
Proof.
  split.
  - intros h r. apply benign_guard.
  - intros r x h s Hr. apply off_object_steady. by apply benign_off.
  - intros h s s' Heq Hi Ha. rewrite Heq. by apply Hi.
  - intros h s st Hst Hi Ha. destruct (Hi Ha) as (a & ? & ? & _). exists a. split_and!; [done..|]. by right.
  - apply patchStatus_transition.
  - apply steady_patch_object.
Qed.
End Rules.

(** ** The stages outside the running states *)

Section Sync.
Context `{T : ThirdParty}.

(** Post-condition of a stage that succeeds with the state in memory unchanged. *)
Definition same_state (s0 : AIStore) (h' : trace) (s' : AIStore) : Prop :=
  in_sync h' s' /\ (patches_applied (rev h') -> State (Status s') = State (Status s0)).

(** A status patch after fields other than the state were set in memory. *)
Lemma sync_patchStatus s0 s h :
  in_sync h s0 -> State (Status s) = State (Status s0) ->
  wpm True Gs patchStatus s h (fun h' s' r => match r with Ok _ => same_state s0 h' s' | Err _ => True end).
Proof.
  intros [Hl Hn] Heq. eapply wpm_mono; [apply patchStatus_state|].
  - intros Ha. rewrite Heq. split; [by apply Hn|]. exists s0. split; [done | apply tr_keep].
  - intros h' s' [[]|e]; [|done]. unfold same_state. by rewrite Heq.
Qed.

(** Entering a state the machine allows. *)
Lemma sync_enter st s h :
  st ≠ NoState ->
  (patches_applied (rev h) -> exists a, last_object (rev h) = Some a /\ transition a st) ->
  wpm True Gs (updateStatusWithState st) s h
    (fun h' s' r => match r with Ok _ => in_sync h' s' | Err _ => True end).
Proof.
  intros Hn Ht. unfold updateStatusWithState. do 2 wp_step.
  eapply wpm_mono; [apply patchStatus_state; by intros Ha; split; [|apply Ht]|].
  by intros h' s' [[]|e] [].
Qed.

Lemma sync_enter_from st s h :
  st ≠ NoState -> in_sync h s -> transition s st ->
  wpm True Gs (updateStatusWithState st) s h
    (fun h' s' r => match r with Ok _ => in_sync h' s' | Err _ => True end).
Proof. intros Hn [Hl _] Ht. apply sync_enter; [done|]. intros Ha. by exists s. Qed.

(** A last step that enters a state. *)
Lemma sync_finish st s h (Q : trace -> AIStore -> outcome -> Prop) :
  st ≠ NoState -> in_sync h s -> transition s st -> (forall h s o, Q h s o) ->
  wpm True Gs (r ← updateStatusWithState st; mret (of_res r)) s h Q.
Proof.
  intros Hn Hi Ht HQ. wp_step. eapply wpm_mono; [by apply sync_enter_from|].
  intros h' s' r _. by wp_step.
Qed.

Lemma sync_handleConfigState force s h :
  in_sync h s ->
  wpm True Gs (handleConfigState force) s h
    (fun h' s' r => match r with Ok _ => same_state s h' s' | Err _ => True end).
Proof.
  intros Hi. unfold handleConfigState. do 2 wp_step. wp_step; [|by wp_step]. wp_step.
  eapply wpm_mono; [apply keeps_benign_sync; [keeps_auto | done]|].
  intros h1 s1 [hash|e] [-> Hi1]; [|by wp_step]. cbv zeta. wp_step; [|by wp_step].
  wp_step; [by wp_step|]. unfold patchAISAnnotations. do 5 wp_step.
  wp_call; [split; [done | cbn; congruence]|].
  intros [x|e]; [|by wp_step]. do 3 wp_step. unfold same_state, in_sync. rewrite last_object_patch.
  destruct Hi1 as [_ Hn1]. split; [split; [done|]|];
    intros [[Hst _] Ha]%patches_applied_snoc; cbn in *; rewrite Hst; auto.
Qed.

Lemma sync_disableRebalance reason msg s h :
  in_sync h s ->
  wpm True Gs (disableRebalance reason msg) s h
    (fun h' s' r => match r with Ok _ => same_state s h' s' | Err _ => True end).
Proof.
  intros Hi. unfold disableRebalance. do 3 wp_step.
  eapply wpm_mono; [by apply (sync_patchStatus s)|].
  intros h1 s1 [[]|e]; [|by wp_step]. intros [Hi1 Hst1].
  eapply wpm_mono; [apply wpm_suffix, sync_handleConfigState, Hi1|].
  intros h2 s2 [[]|e] [Hr Hs2]; [|done]. destruct Hr as [Hi2 Hst2]. split; [done|].
  intros Ha. rewrite Hst2 by done. apply Hst1. by eapply patches_applied_mono.
Qed.
End Sync.

Section Reconcile.
Context `{T : ThirdParty}.

Abbreviation ok m s h := (wpm True Gs m s h (fun _ _ _ => True)).
Abbreviation sync_ok m s h :=
  (wpm True Gs m s h (fun h' s' r => match r with Ok _ => in_sync h' s' | Err _ => True end)).

Lemma keeps_AnyFunc P fs : Forall (keeps P) fs -> keeps P (AnyFunc fs).
Proof. intros H. destruct fs; [apply keeps_panic | by apply keeps_any_func]. Qed.

Lemma shutdown_ok s h :
  in_sync h s -> State (Status s) = ClusterShuttingDown -> ShouldBeShutdown s = true ->
  ok shutdownCluster s h.
Proof.
  intros Hi Hst Hb. unfold shutdownCluster. do 2 wp_step.
  wp_step. eapply wpm_mono; [apply keeps_benign_sync; [keeps_auto | exact Hi]|].
  intros h1 s1 [o|] [-> Hi1]; [by wp_step|].
  wp_step. eapply wpm_mono; [apply keeps_benign_sync; [keeps_auto | exact Hi1]|].
  intros h2 s2 [o|] [-> Hi2]; [by wp_step|].
  wp_step. eapply wpm_mono; [apply sync_enter_from; [done | done | by apply tr_shutdown]|].
  intros h3 s3 [[]|e] Hi3; [|by wp_step]. wp_step. unfold emit_event. wp_call; [done|]. intros x. by wp_step.
Qed.

Lemma decommission_ok s h : in_sync h s -> State (Status s) = ClusterDecommissioning -> ok decommissionCluster s h.
Proof.
  intros Hi Hst. unfold decommissionCluster. do 2 wp_step.
  wp_step. eapply wpm_mono; [apply keeps_benign_sync; [keeps_auto | exact Hi]|].
  intros h1 s1 running [-> Hi1]. wp_step.
  - wp_step. eapply wpm_mono; [apply keeps_sync; [|exact Hi1]|].
    { unfold decommissionAIS. destruct (ShouldCleanupMetadata s) eqn:Hc; keeps_auto;
        (split; [done|]); intros t Hl; cbn; try done; by exists s. }
    intros h2 s2 r [-> Hi2]. by wp_step.
  - wp_step. eapply wpm_mono; [apply sync_enter_from; [done | done | by apply tr_cleanup]|].
    intros h3 s3 [[]|e] Hi3; [|by wp_step]. wp_step. unfold emit_event. wp_call; [done|]. intros x. by wp_step.
Qed.

(** The deletions of the clean-up. *)
Lemma keeps_cleanup s :
  State (Status s) = ClusterCleanup ->
  keeps (stage_ok s) (AnyFunc
    [ cleanupTarget s; cleanupProxy s; cleanupAdminClient s;
      DeleteConfigMapIfExists (statsd_ConfigMapNSName s);
      cleanupRBAC s; cleanupPVC s; cleanupTLS s ]).
Proof.
  intros Hst.
  assert (forall k n, k ≠ KPVC -> k ≠ KJob -> stage_ok s (KDelete k n)) as Hk.
  { intros k n H1 H2. split; [done|]. intros t Hl. destruct k; try done; by exists s. }
  assert (forall ns ls, keeps (stage_ok s) (DeleteAllServicesIfExist ns ls)) as Hsvc.
  { intros. unfold DeleteAllServicesIfExist. repeat keeps_step; [by apply benign_stage|].
    apply keeps_delete_all. intros. by apply Hk. }
  apply keeps_AnyFunc. forall_list; unfold cleanupTarget, cleanupProxy, cleanupRBAC;
    try (apply keeps_AnyFunc; forall_list); try apply Hsvc;
    try (unfold cleanupAdminClient, cleanupTLS, DeleteResourceIfExists; keeps_auto; by apply Hk).
  unfold cleanupPVC. destruct (ShouldCleanupMetadata s) eqn:Hc; [|apply keeps_ret].
  unfold deleteAllPVCs, DeletePVCs. cbv zeta. cbn [negb]. repeat keeps_step;
    try (by apply benign_stage); apply keeps_delete_all; intros n; (split; [done|]); intros t Hl; by exists s.
Qed.

(** The clean-up enters the host clean-up when there are host paths, and stays otherwise. *)
Lemma cleanup_ok s h :
  in_sync h s -> State (Status s) = ClusterCleanup ->
  wpm True Gs cleanup s h (fun h' s' r => match r with
    | Ok _ => in_sync h' s' /\ (patches_applied (rev h') -> State (Status s') = ClusterCleanup \/ State (Status s') = HostCleanup)
    | Err _ => True end).
Proof.
  intros Hi Hst. unfold cleanup. do 3 wp_step.
  eapply wpm_mono; [apply keeps_sync; [by apply keeps_cleanup | exact Hi]|].
  intros h1 s1 [upd|e] [-> Hi1]; [|by wp_step]. wp_step; [|wp_step; split; [done | by left]]. wp_step.
  unfold cleanupHostStateMounts. wp_step. eapply wpm_mono; [apply keeps_benign_sync; [keeps_auto | exact Hi1]|].
  intros h2 s2 [nodes|e] [-> Hi2]; [|by repeat wp_step]. wp_step. reflect_bools.
  eapply wpm_mono; [apply keeps_sync; [|exact Hi2]|].
  { apply keeps_createCleanupJobs. intros n. split; [done|]. intros t Hl. by exists s. }
  intros h3 s3 [[]|e] [-> Hi3]; [|by repeat wp_step]. unfold updateStatusWithState. do 2 wp_step.
  eapply wpm_mono; [apply patchStatus_state|].
  - intros Ha. split; [done|]. exists s. split; [apply Hi3 | by apply tr_host_cleanup].
  - intros h4 s4 [[]|e]; [|by intros; wp_step]. intros [Hi4 Hs4]. wp_step. split; [done|].
    intros Ha. right. by apply Hs4.
Qed.

Lemma cleanupClusterRes_ok s h : in_sync h s -> State (Status s) = ClusterCleanup -> ok cleanupClusterRes s h.
Proof.
  intros Hi Hst. unfold cleanupClusterRes. do 2 wp_step. wp_step; [by wp_step|].
  wp_step. eapply wpm_mono; [by apply cleanup_ok|].
  intros h1 s1 [upd|e]; [|intros _; wp_step; unfold recordError; wp_call; [done|]; intros x; by wp_step].
  intros [Hi1 Hst1]. wp_step; [by wp_step|]. wp_step.
  eapply wpm_mono; [apply sync_enter; [done|]|].
  - intros Ha. exists s1. split; [apply Hi1|]. destruct (Hst1 Ha) as [?|Heq]; [by apply tr_host_cleanup|].
    pose proof (tr_keep s1) as Hk. by rewrite Heq in Hk.
  - intros h2 s2 r _. by wp_step.
Qed.

Lemma cleanupHost_ok s h : in_sync h s -> State (Status s) = HostCleanup -> ok cleanupHost s h.
Proof.
  intros Hi Hst. unfold cleanupHost. do 3 wp_step.
  eapply wpm_mono; [apply keeps_benign_sync; [keeps_auto | exact Hi]|].
  intros h1 s1 [jobs|e] [-> Hi1]; [|by wp_step]. wp_step.
  eapply wpm_mono; [apply keeps_sync; [|exact Hi1]|].
  { apply keeps_delete_finished; [|by apply benign_stage]. intros n. split; [done|]. intros t Hl. by exists s. }
  intros h2 s2 [rest|e] [-> Hi2]; [|by wp_step]. wp_step; [by wp_step|].
  apply sync_finish; [done | done | by apply tr_finalize | done].
Qed.

Lemma finalize_ok s h : in_sync h s -> State (Status s) = ClusterFinalized -> ok finalize s h.
Proof.
  intros [Hl _] Hst. unfold finalize, PatchIfExists. do 2 wp_step. cbv zeta. wp_step; [by wp_step|]. do 4 wp_step.
  wp_call; [split; [done|]; intros _ _; by exists s|]. intros [a|e]; [by repeat wp_step|]. wp_step.
  destruct (is_not_found e); [by wp_step|]. wp_step. unfold recordError. wp_call; [done|].
  intros x. by wp_step.
Qed.

Lemma initializeCR_ok s h :
  last_object (rev h) = Some s -> State (Status s) = NoState -> sync_ok initializeCR s h.
Proof.
  intros Hl Hst. unfold initializeCR. do 3 wp_step.
  apply (wpm_mono _ _ _ _ _ (fun h' s' r => r = Ok tt -> patches_applied (rev h') ->
    exists a, last_object (rev h') = Some a /\ State (Status a) = NoState)).
  - wp_step; [wp_step; intros _ Ha; by exists s|]. cbv zeta. do 3 wp_step.
    wp_call.
    { split; [done|]. cbn. intros Hin. congruence. }
    intros [a|e]; [|by wp_step]. do 3 wp_step. rewrite last_object_patch.
    intros _ [[Ha _] _]%patches_applied_snoc. exists a. by rewrite Ha.
  - intros h1 s1 [[]|e] H1; [|by wp_step]. do 2 wp_step. apply sync_enter; [done|].
    intros Ha. destruct (H1 eq_refl Ha) as (a & ? & ?). exists a. split; [done | by apply tr_initialize].
Qed.

Lemma determineAutoScaleStatus_ok s h : in_sync h s -> sync_ok determineAutoScaleStatus s h.
Proof.
  intros Hi. unfold determineAutoScaleStatus. do 3 wp_step.
  eapply wpm_mono; [apply keeps_benign_sync; [keeps_auto | exact Hi]|].
  intros h1 s1 [targets|e] [-> Hi1]; [|by wp_step]. wp_step.
  eapply wpm_mono; [apply keeps_benign_sync; [keeps_auto | exact Hi1]|].
  intros h2 s2 [proxies|e] [-> Hi2]; [|by wp_step]. unfold updateAutoScaleStatus.
  do 2 wp_step. cbv zeta. wp_step; [by wp_step|]. do 2 wp_step.
  eapply wpm_mono; [by apply (sync_patchStatus s)|].
  by intros h3 s3 [[]|e] H3; [apply H3|].
Qed.

Lemma start_decommission_ok s h : in_sync h s -> sync_ok start_decommission s h.
Proof.
  intros Hi. unfold start_decommission. do 2 wp_step. wp_step; [by wp_step|]. wp_step.
  eapply wpm_mono; [apply sync_enter_from; [done | done|]|].
  - unfold ShouldDecommission, IsDecommissioningOrCleaning, HasState in Heqb.
    apply negb_false_iff, andb_true_iff in Heqb as [Hd Hm]. apply tr_decommission; [|done].
    by destruct (State (Status s)).
  - intros h1 s1 [[]|e] Hi1; [|by wp_step]. wp_step. unfold emit_event. wp_call; [done|].
    intros x. wp_step. by apply off_object_sync.
Qed.

Lemma start_shutdown_ok s h : in_sync h s -> sync_ok start_shutdown s h.
Proof.
  intros Hi. unfold start_shutdown. do 2 wp_step. wp_step; [by wp_step|].
  assert (State (Status s) = ClusterReady) as Hst.
  { unfold ShouldStartShutdown in Heqb. apply negb_false_iff, andb_true_iff in Heqb as [_ Hs].
    by apply HasState_spec. }
  wp_step. eapply wpm_mono; [by apply sync_disableRebalance|].
  intros h1 s1 [[]|e] Hr; [|by wp_step]. destruct Hr as [Hi1 Hst1]. wp_step.
  eapply wpm_mono; [apply sync_enter; [done|]|].
  - intros Ha. exists s1. split; [apply Hi1|]. apply tr_shut_down. by rewrite Hst1.
  - intros h2 s2 [[]|e] Hi2; [|by wp_step]. wp_step. unfold emit_event. wp_call; [done|].
    intros x. wp_step. by apply off_object_sync.
Qed.

Lemma reconcile_state_ok s h : in_sync h s -> ok reconcile_state s h.
Proof.
  intros Hi. unfold reconcile_state. do 2 wp_step.
  assert (running (State (Status s)) = true -> ok reconcile_running s h) as Hrun.
  { intros Hr. eapply wpm_mono; [eapply steady_reconcile_running; [apply _ | done | by apply sync_steady] | done]. }
  destruct (State (Status s)) eqn:Hst; try (by apply Hrun).
  - (* once patches are applied, an object in sync has a state *)
    eapply wpm_mono; [eapply steady_reconcile_running; [apply _ | done |]|done]. intros Ha. by destruct Hi as [_ Hn], (Hn Ha).
  - wp_step; [|apply shutdown_ok; [done..|by apply negb_false_iff]].
    apply negb_true_iff in Heqb. apply sync_finish; [done | done | by apply tr_cancel_shutdown | done].
  - wp_step; [by wp_step | by apply Hrun].
  - by apply decommission_ok.
  - by apply cleanupClusterRes_ok.
  - by apply cleanupHost_ok.
  - by apply finalize_ok.
Qed.

Lemma reconcile_wp request : wp True Gs (Reconcile request) [] (fun _ _ => True).
Proof.
  unfold Reconcile. split; [done|]. intros [ais|e]; [|done].
  apply wp_bind. change (ok reconcile_object ais [ev (KGetAIStore request) (Ok ais)]).
  assert (last_object (rev [ev (KGetAIStore request) (Ok ais)]) = Some ais) as Hl by done.
  unfold reconcile_object. do 3 wp_step.
  apply (wpm_mono _ _ _ _ _ (fun h' s' r => match r with Ok _ => in_sync h' s' | Err _ => True end)).
  { wp_step; [by apply initializeCR_ok; [|by apply HasState_spec]|]. wp_step.
    split; [done|]. intros _ Hn. apply HasState_spec in Hn. congruence. }
  intros h1 s1 [[]|e] Hi1; [|by wp_step]. do 3 wp_step.
  apply (wpm_mono _ _ _ _ _ (fun h' s' r => match r with Ok _ => in_sync h' s' | Err _ => True end)).
  { wp_step; [by apply determineAutoScaleStatus_ok | by wp_step]. }
  intros h2 s2 [[]|e] Hi2; [|by wp_step]. wp_step.
  eapply wpm_mono; [by apply start_decommission_ok|]. intros h3 s3 [[]|e] Hi3; [|by wp_step]. wp_step.
  eapply wpm_mono; [by apply start_shutdown_ok|]. intros h4 s4 [[]|e] Hi4; [|by wp_step].
  by apply reconcile_state_ok.
Qed.

(** C15. Whatever the API server, the AIS cluster and other actors answer, a reconciliation
    moves the state of the cluster only along the state machine: every status patch carries a
    state reachable in one step from that of the object last reported (given that the API
    server applies patches). In particular the deletion starts only for an object marked for
    deletion and then only moves forward, from decommissioning through clean-up and host
    clean-up to finalized; only a ready cluster starts to shut down. *)
Theorem reconcile_follows_state_machine request : guarded state_guard (Reconcile request).
Proof.
  apply (guarded_wp _ _ (fun _ _ => True)).
  eapply wp_mono; [| | |apply reconcile_wp]; [done | | done]. by intros h r [? _].
Qed.

(** C16. What tears a cluster down happens only at its place in the deletion, whatever the
    outside answers. StatefulSets and RBAC objects are deleted only in the clean-up state; the
    claims that hold metadata only if, besides, the spec asks for the clean-up of metadata, and
    host jobs are created only if there are host paths as well; jobs are deleted only in the
    host clean-up; the cluster is told to decommission or to shut down only while
    decommissioning, and is decommissioned, with the data removed exactly when the spec says
    so, only if metadata is to be cleaned up; and the finalizer, which keeps the object alive
    until then, is removed only in the finalized state. *)
Theorem reconcile_teardown_in_order request : guarded teardown_guard (Reconcile request).
Proof.
  apply (guarded_wp _ _ (fun _ _ => True)).
  eapply wp_mono; [| | |apply reconcile_wp]; [done | | done]. by intros h r [_ ?].
Qed.
End Reconcile.
