(* ===== verification/ClusterFacts.v ===== *)
(** * Readiness, shutdown and clean-up

    What was observed before the controller reports a cluster as ready, shut down, ready for
    clean-up or finalized. *)

From S2P Require Import Prelude Effects K8sTypes AISConfig AIStoreTypes ThirdParty AuthConf AIStoreMethods AIStoreFacts Validation GlobalConfig CmnResources Certificates ProxyResources TargetResources AdminClient Templates Rollout Requests K8sClient ClusterOps Nodes ProxyController TargetController Cleanup Cluster Executions RebalanceFacts Lifecycle.

(** ** Shutdown *)

(** The StatefulSet was read and runs no pod. *)
Definition seen_empty (t : trace) (name : nsname) : Prop :=
  exists ss, ev (KGetStatefulSet name) (Ok ss) ∈ t /\ ssst_Replicas (ss_Status ss) = 0.

(** Pods are taken down proxies first; the cluster counts as shut down when all are gone. *)
Definition shutdown_guard (ais : AIStore) (t : trace) (r : req) : Prop :=
  match r with
  | KPatchStatefulSet o m => m = ss_set_replicas o 0 /\
      (ev (KGetStatefulSet (Proxy.StatefulSetNSName ais)) (Ok o) ∈ t \/
       ev (KGetStatefulSet (Target.StatefulSetNSName ais)) (Ok o) ∈ t /\
       seen_empty t (Proxy.StatefulSetNSName ais))
  | KPatchStatus _ st => State st = ClusterShutdown /\
      seen_empty t (Proxy.StatefulSetNSName ais) /\ seen_empty t (Target.StatefulSetNSName ais)
  | EEvent _ _ _ _ => True
  | _ => is_read r = true
  end.

Section Shutdown.
Context `{T : ThirdParty}.

Lemma seen_empty_mono h h' n : h `suffix_of` h' -> seen_empty (rev h) n -> seen_empty (rev h') n.
Proof. intros Hs (ss & ? & ?). exists ss. split; [by eapply elem_of_rev_later | done]. Qed.

Lemma scale_to_zero_wp (G : trace -> req -> Prop) name s h :
  (forall h' r, h `suffix_of` h' -> is_read r = true -> G h' r) ->
  (forall h' o, h `suffix_of` h' -> ev (KGetStatefulSet name) (Ok o) ∈ rev h' ->
     G h' (KPatchStatefulSet o (ss_set_replicas o 0))) ->
  wpm True G (scale_to_zero name) s h (fun h' s' r =>
    (s' = s /\ h `suffix_of` h') /\ (r = None -> seen_empty (rev h') name)).
Proof.
  intros Hread Hpatch. unfold scale_to_zero, IsStatefulSetSize. wp_step.
  apply (wpm_mono _ _ _ _ _ (fun h' s' _ => s' = s /\ h `suffix_of` h')).
  { unfold UpdateStatefulSetReplicas. wp_step. wp_call; [by apply Hread|].
    intros [o|e]; [|wp_step; split; [done | by apply suffix_cons_r]].
    wp_step; [wp_step; split; [done | by apply suffix_cons_r]|].
    wp_step. wp_call; [apply Hpatch; [by apply suffix_cons_r | apply in_trace_here]|].
    intros [[]|e]; wp_step; (split; [done | by do 2 apply suffix_cons_r]). }
  intros h1 s1 [b|e] [-> Hs]; [|by wp_step]. do 2 wp_step.
  wp_call; [by apply Hread|]. intros [ss|e]; do 2 wp_step; cbn.
  - split; [split; [done | by apply suffix_cons_r]|]. destruct (Z.eqb_spec (ssst_Replicas (ss_Status ss)) 0); [|done].
    intros _. exists ss. split; [apply in_trace_here | done].
  - split; [split; [done | by apply suffix_cons_r] | done].
Qed.

(** C18. A shutdown takes the proxies down first. The target StatefulSet is scaled only after
    the proxy StatefulSet was seen without pods, and the cluster is reported as shut down only
    after both were; nothing else is changed, and both are scaled to zero. *)
Theorem shutdown_proxies_first ais :
  guarded (shutdown_guard ais) (shutdownCluster ais).
Proof.
  apply (guarded_wp _ _ (fun _ _ => True)).
  change (wpm True (fun h r => shutdown_guard ais (rev h) r) shutdownCluster ais [] (fun _ _ _ => True)).
  assert (forall t r, is_read r = true -> shutdown_guard ais t r) as Hr by by intros t [].
  unfold shutdownCluster. do 3 wp_step.
  eapply wpm_mono; [apply scale_to_zero_wp; [intros; by apply Hr | intros h' o Hs Ho; split; [done | by left]]|].
  intros h1 s1 [o|] [[-> Hs1] Hp]; [by wp_step|]. specialize (Hp eq_refl). wp_step.
  eapply wpm_mono; [apply scale_to_zero_wp; [intros; by apply Hr|]|].
  { intros h' o Hs Ho. split; [done|]. right. split; [done | by eapply seen_empty_mono]. }
  intros h2 s2 [o|] [[-> Hs2] Ht]; [by wp_step|]. specialize (Ht eq_refl).
  unfold updateStatusWithState, patchStatus, record_fail, recordError, emit_event.
  do 6 wp_step. wp_call.
  { split_and!; [done | by eapply seen_empty_mono | done]. }
  intros [a|e]; repeat wp_step; done.
Qed.
End Shutdown.

(** ** Start of a shutdown *)

(** The shutdown state is entered with rebalance off. *)
Definition shutdown_start_guard (ais : AIStore) (t : trace) (r : req) : Prop :=
  match r with
  | KPatchStatus _ st =>
      State st = ClusterShuttingDown -> patches_applied t -> last_rebalance t = Some false
  | _ => config_request r
  end.

Section ShutdownStart.
Context `{T : ThirdParty, L : !ThirdPartyLaws T}.

(** C19. When a ready cluster is asked to shut down, the state that starts the shutdown is
    written only after the AIS cluster accepted a configuration with rebalance off (given that
    the API server applies patches), so that no data moves while the targets go down. *)
Theorem shutdown_starts_rebalance_off ais :
  guarded (shutdown_start_guard ais) (start_shutdown ais).
Proof.
  apply (guarded_wp _ _ (fun _ _ => True)).
  change (wpm True (fun h r => shutdown_start_guard ais (rev h) r) start_shutdown ais [] (fun _ _ _ => True)).
  unfold start_shutdown. do 2 wp_step. wp_step; [by wp_step|].
  apply negb_false_iff, andb_true_iff in Heqb as [_ Hst]. apply HasState_spec in Hst.
  wp_step. eapply wpm_mono; [apply disableRebalance_off; [by intros h []|]|].
  { cbn. intros Hs. congruence. }
  intros h1 s1 [[]|e] [_ Hoff]; [|by wp_step].
  unfold updateStatusWithState, patchStatus, record_fail, recordError, emit_event.
  do 6 wp_step. wp_call.
  { intros _ Ha. by apply Hoff. }
  intros [a|e]; repeat wp_step; done.
Qed.
End ShutdownStart.

(** ** Decommission *)

(** The StatefulSet was read without ready pods, or is gone. *)
Definition seen_down (t : trace) (name : nsname) : Prop :=
  exists r, ev (KGetStatefulSet name) r ∈ t /\
    match r with Ok ss => ssst_ReadyReplicas (ss_Status ss) <= 0 | Err e => is_not_found e = true end.

(** The StatefulSet was read with ready pods, or could not be read. *)
Definition seen_up (t : trace) (name : nsname) : Prop :=
  exists r, ev (KGetStatefulSet name) r ∈ t /\
    match r with Ok ss => 0 < ssst_ReadyReplicas (ss_Status ss) | Err e => is_not_found e = false end.

(** The AIS cluster is told to leave while both are up, as the spec says; the clean-up starts
    when one is down. *)
Definition decommission_guard (ais : AIStore) (t : trace) (r : req) : Prop :=
  let running := seen_up t (Target.StatefulSetNSName ais) /\ seen_up t (Proxy.StatefulSetNSName ais) in
  match r with
  | KPatchStatus _ st => State st = ClusterCleanup /\
      (seen_down t (Target.StatefulSetNSName ais) \/ seen_down t (Proxy.StatefulSetNSName ais))
  | ADecommissionCluster _ rmUserData =>
      running /\ ShouldCleanupMetadata ais = true /\ rmUserData = is_true_ptr (CleanupData (Spec ais))
  | AShutdownCluster _ => running /\ ShouldCleanupMetadata ais = false
  | EEvent _ _ _ _ => True
  | _ => is_read r = true
  end.

(** ** Host clean-up *)

(** The job succeeded or is more than two minutes old, and its deletion did not fail. *)
Definition job_done (t : trace) (j : Job) : Prop :=
  (0 < job_Succeeded j \/ exists now, ev ENow now ∈ t /\ 2 * minute < now - job_CreationTimestamp j) /\
  exists r b, ev (KDelete KJob (job_Name j)) r ∈ t /\ allowObjNotFound (job_Name j) r = Ok b.

(** Finalization waits for every clean-up job of the namespace. *)
Definition host_guard (ais : AIStore) (t : trace) (r : req) : Prop :=
  match r with
  | KPatchStatus _ st => State st = ClusterFinalized /\
      exists jobs, ev (KListJobs (nn_namespace (ais_Name ais))) (Ok jobs) ∈ t /\
        forall j, j ∈ jobs -> has_prefix (nn_name (job_Name j)) CleanupPrefix = true -> job_done t j
  | KDelete k _ => k = KJob
  | EEvent _ _ _ _ => True
  | _ => is_read r = true
  end.

Section Deletion.
Context `{T : ThirdParty}.

Lemma seen_down_mono h h' n : h `suffix_of` h' -> seen_down (rev h) n -> seen_down (rev h') n.
Proof. intros Hs (r & ? & ?). exists r. split; [by eapply elem_of_rev_later | done]. Qed.

Lemma seen_up_mono h h' n : h `suffix_of` h' -> seen_up (rev h) n -> seen_up (rev h') n.
Proof. intros Hs (r & ? & ?). exists r. split; [by eapply elem_of_rev_later | done]. Qed.

Lemma ssHasReadyReplicas_wp (G : trace -> req -> Prop) name s h :
  G h (KGetStatefulSet name) ->
  wpm True G (ssHasReadyReplicas name) s h (fun h' s' r =>
    (s' = s /\ h `suffix_of` h') /\ if r : bool then seen_up (rev h') name else seen_down (rev h') name).
Proof.
  intros HG. unfold ssHasReadyReplicas. wp_step. wp_call; [done|]. intros r. wp_step.
  split; [split; [done | by apply suffix_cons_r]|].
  destruct r as [ss|e]; (destruct (_ : bool) eqn:Hr; eexists; (split; [apply in_trace_here|])); cbn.
  - by apply Z.ltb_lt in Hr.
  - by apply Z.ltb_ge in Hr.
  - by apply negb_true_iff in Hr.
  - by apply negb_false_iff in Hr.
Qed.

Lemma isClusterRunning_wp (G : trace -> req -> Prop) ais s h :
  (forall h n, G h (KGetStatefulSet n)) ->
  wpm True G (isClusterRunning ais) s h (fun h' _ r =>
    if r : bool then seen_up (rev h') (Target.StatefulSetNSName ais) /\ seen_up (rev h') (Proxy.StatefulSetNSName ais)
    else seen_down (rev h') (Target.StatefulSetNSName ais) \/ seen_down (rev h') (Proxy.StatefulSetNSName ais)).
Proof.
  intros HG. unfold isClusterRunning. wp_step. eapply wpm_mono; [by apply ssHasReadyReplicas_wp|].
  intros h1 s1 [] [_ H1]; cbn [negb]; [|wp_step; by left].
  eapply wpm_mono; [by apply ssHasReadyReplicas_wp|]. intros h2 s2 [] [[_ Hs] H2]; [|by right].
  split; [by eapply seen_up_mono|done].
Qed.

(** C20. While it decommissions, the controller tells the AIS cluster to decommission - with user
    data exactly if the spec says so - or, if the metadata is to stay, to shut down only after the
    StatefulSets of the targets and of the proxies were both read with ready pods, or could not be
    read; and it starts the clean-up, which deletes the StatefulSets, only after one of the two was
    read without ready pods or found gone. It writes nothing else, but for events. *)
Theorem cleanup_after_cluster_down ais :
  guarded (decommission_guard ais) (decommissionCluster ais).
Proof.
  apply (guarded_wp _ _ (fun _ _ => True)).
  change (wpm True (fun h r => decommission_guard ais (rev h) r) decommissionCluster ais [] (fun _ _ _ => True)).
  unfold decommissionCluster. do 3 wp_step. eapply wpm_mono; [by apply isClusterRunning_wp|].
  intros h1 s1 running Hrun. wp_step.
  - wp_step. apply (wpm_mono _ _ _ _ _ (fun _ _ _ => True)); [|intros h2 s2 r _; by wp_step].
    assert (forall c, seen_up (rev (ev (AGetClient ais) (Ok c) :: h1)) (Target.StatefulSetNSName ais) /\
      seen_up (rev (ev (AGetClient ais) (Ok c) :: h1)) (Proxy.StatefulSetNSName ais)) as Hup.
    { intros c. destruct Hrun. split; (eapply seen_up_mono; [by apply suffix_cons_r|done]). }
    unfold decommissionAIS, attemptGracefulDecommission, attemptGracefulShutdown.
    wp_step; (wp_step; wp_call; [done|]; intros [c|e]; [|by wp_step]);
      (wp_call; [|done]); split_and!; try done; apply Hup.
  - unfold updateStatusWithState, patchStatus, record_fail, recordError, emit_event.
    do 6 wp_step. wp_call; [by split|]. intros [a|e]; repeat wp_step; done.
Qed.

Lemma job_done_mono h h' j : h `suffix_of` h' -> job_done (rev h) j -> job_done (rev h') j.
Proof.
  intros Hs [Ho (r & b & Hr & Hb)]. split; [|exists r, b; split; [by eapply elem_of_rev_later | done]].
  destruct Ho as [?|(now & ? & ?)]; [by left|]. right. exists now. split; [by eapply elem_of_rev_later | done].
Qed.

(** The jobs that are not kept have been deleted. *)
Lemma delete_finished_wp ais jobs : forall rest s h,
  wpm True (fun h r => host_guard ais (rev h) r) (delete_finished jobs rest) s h (fun h' s' r =>
    h `suffix_of` h' /\ forall kept, r = Ok kept ->
    exists more, kept = rest ++ more /\ forall j, j ∈ jobs -> j ∈ more \/ job_done (rev h') j).
Proof.
  assert (forall s h (n : nsname),
    wpm True (fun h r => host_guard ais (rev h) r) (DeleteResourceIfExists KJob n) s h (fun h' s' r =>
      h `suffix_of` h' /\ forall b, r = Ok b -> exists x, ev (KDelete KJob n) x ∈ rev h' /\ allowObjNotFound n x = Ok b)) as Hdel.
  { intros s h n. unfold DeleteResourceIfExists. wp_step. wp_call; [done|]. intros x. wp_step.
    split; [by apply suffix_cons_r|]. intros b Hb. exists x. split; [apply in_trace_here | done]. }
  induction jobs as [|j jobs IH]; intros rest s h; cbn [delete_finished].
  { wp_step. split; [done|]. intros kept [= <-]. exists []. split; [by rewrite app_nil_r|].
    intros j Hj. by apply not_elem_of_nil in Hj. }
  assert (forall s h, (0 < job_Succeeded j \/ exists now, ev ENow now ∈ rev h /\ 2 * minute < now - job_CreationTimestamp j) ->
    wpm True (fun h r => host_guard ais (rev h) r)
      (let? _ := DeleteResourceIfExists KJob (job_Name j) else e => mret (Err e) in delete_finished jobs rest) s h
      (fun h' s' r => h `suffix_of` h' /\ forall kept, r = Ok kept -> exists more, kept = rest ++ more /\
         forall j', j' ∈ j :: jobs -> j' ∈ more \/ job_done (rev h') j')) as Hgo.
  { clear s h. intros s h Hold. wp_step. eapply wpm_mono; [apply Hdel|].
    intros h1 s1 [b|e] [Hs1 Hx]; [|by wp_step]. destruct (Hx b eq_refl) as (x & Hx1 & Hx2).
    assert (job_done (rev h1) j) as Hj.
    { apply (job_done_mono h1); [done|]. split; [|by exists x, b].
      destruct Hold as [?|(now & ? & ?)]; [by left|]. right. exists now. split; [by eapply elem_of_rev_later | done]. }
    eapply wpm_mono; [apply IH|]. intros h2 s2 r [Hs2 Hr]. split; [by trans h1|].
    intros kept Hk. destruct (Hr kept Hk) as (more & -> & Hm). exists more. split; [done|].
    intros j' [->|Hj']%elem_of_cons; [right; by eapply job_done_mono | by apply Hm]. }
  wp_step; [apply Hgo; left; by apply Z.ltb_lt|]. wp_step. wp_call; [done|]. intros now. wp_step.
  - eapply wpm_mono; [apply Hgo; right; exists now; split; [apply in_trace_here | by apply Z.ltb_lt]|].
    intros h' s' r [Hs Hr]. split; [|done]. by eapply suffix_cons_l.
  - eapply wpm_mono; [apply IH|]. intros h' s' r [Hs Hr]. split; [by eapply suffix_cons_l|].
    intros kept Hk. destruct (Hr kept Hk) as (more & -> & Hm). exists (j :: more).
    split; [by rewrite <-(assoc_L app)|]. intros j' [->|Hj']%elem_of_cons; [left; by left|].
    destruct (Hm j' Hj') as [?|?]; [left; by right | by right].
Qed.

(** The finalizer goes only after the hosts were cleaned: the controller reports the
    finalized state only when every clean-up job listed in the namespace has succeeded or is
    more than two minutes old, and has been deleted (or was already gone). *)
Theorem finalized_after_host_cleanup ais :
  guarded (host_guard ais) (cleanupHost ais).
Proof.
  apply (guarded_wp _ _ (fun _ _ => True)).
  change (wpm True (fun h r => host_guard ais (rev h) r) cleanupHost ais [] (fun _ _ _ => True)).
  unfold cleanupHost, listCleanupJobs. do 4 wp_step. wp_call; [done|]. intros [jobs|e]; [|by repeat wp_step].
  do 2 wp_step. eapply wpm_mono; [apply delete_finished_wp|].
  intros h1 s1 [rest|e] [Hs1 Hr]; [|by wp_step]. destruct (Hr rest eq_refl) as (more & -> & Hm).
  wp_step; [by wp_step|]. apply bool_decide_eq_false, dec_stable in Heqb. cbn in Heqb. subst more.
  unfold updateStatusWithState, patchStatus, record_fail, recordError.
  do 6 wp_step. wp_call.
  { split; [done|]. exists jobs. split; [eapply elem_of_rev_later; [exact Hs1 | apply in_trace_here]|].
    intros j Hj Hp. destruct (Hm j) as [Hn|?]; [by apply list_elem_of_filter | by apply not_elem_of_nil in Hn | done]. }
  intros [a|e]; repeat wp_step; done.
Qed.
End Deletion.
