(* ===== verification/Readiness.v ===== *)
(** * Readiness

    What was observed before the controller reports a cluster as ready: [handleCREvents]. *)

From S2P Require Import Prelude Effects K8sTypes AISConfig AIStoreTypes ThirdParty AuthConf AIStoreMethods AIStoreFacts Validation GlobalConfig CmnResources Certificates ProxyResources TargetResources AdminClient Templates Rollout Requests K8sClient ClusterOps Nodes ProxyController TargetController Cleanup Cluster Executions RebalanceFacts Preserves.

(** The object last reported, or the one the stage started with. *)
Definition current (t : trace) (ais : AIStore) : AIStore := default ais (last_object t).

Section Definitions.
Context `{T : ThirdParty}.

(** The StatefulSet could not be created, because it exists. *)
Definition found_existing (t : trace) (ais : AIStore) (built : option StatefulSet) : Prop :=
  exists ss e, built = Some ss /\ is_already_exists e = true /\
    ev (KCreate (Some (NewControllerRef ais), OStatefulSet ss)) (Err e) ∈ t.

(** What bootstrapping found when it reports nothing left to do: the StatefulSet of the targets
    exists; that of the proxies too, with the pod of the first one running, the size asked for
    and an endpoint of its service. *)
Definition targets_found (t : trace) (ais : AIStore) : Prop :=
  found_existing t ais (size ← GetTargetSize ais; Target.NewTargetSS ais size).
Definition proxies_found (t : trace) (ais : AIStore) : Prop :=
  found_existing t ais (Proxy.NewProxyStatefulSet ais 1) /\
  (exists pod, ev (KGetPod (Proxy.DefaultPrimaryNSName ais)) (Ok pod) ∈ t /\ pod_Phase pod = "Running") /\
  (exists ss size, GetProxySize ais = Some size /\ ev (KGetStatefulSet (Proxy.StatefulSetNSName ais)) (Ok ss) ∈ t /\
     (sss_Replicas (ss_Spec ss) = size \/ ev (KPatchStatefulSet ss (ss_set_replicas ss size)) (Ok tt) ∈ t)) /\
  exists eps, ev (KListEndpointSlices (Proxy.HeadlessSVCNSName ais)) (Ok eps) ∈ t /\ endpoint_ready eps = true.

(** A StatefulSet was read whose status is current and whose pods are ready; or the read did not
    find it, and it was [found] when it was to be created. *)
Definition pods_ready (t : trace) (name : nsname) (size minReady : option Z) (autoScaling : bool) (found : Prop) : Prop :=
  exists r, ev (KGetStatefulSet name) r ∈ t /\
    match r with
    | Ok ss => isStatusCurrent ss = true /\ isRolloutInProgress ss = false /\
        exists n m, size = Some n /\ minReady = Some m /\ isStatefulSetReady ss n m autoScaling = true
    | Err e => is_not_found e = true /\ found
    end.

(** The AIS cluster answered a health check and its map has enough proxies and targets. *)
Definition cluster_healthy (t : trace) (ais : AIStore) : Prop :=
  exists c smap minP minT, ev (AHealth c true) (Ok tt) ∈ t /\ ev (AGetClusterMap c) (Ok smap) ∈ t /\
    GetMinReadyProxies ais = Some minP /\ GetMinReadyTargets ais = Some minT /\
    minP <= i32 (Z.of_nat (length (Pmap smap))) /\ minT <= i32 (Z.of_nat (length (Tmap smap))).

Definition proxies_ready (t : trace) (ais : AIStore) : Prop :=
  pods_ready t (Proxy.StatefulSetNSName ais) (GetProxySize ais) (GetMinReadyProxies ais) (IsProxyAutoScaling ais)
    (proxies_found t ais).
Definition targets_ready (t : trace) (ais : AIStore) : Prop :=
  pods_ready t (Target.StatefulSetNSName ais) (GetTargetSize ais) (GetMinReadyTargets ais) (IsTargetAutoScaling ais)
    (targets_found t ais).
Definition ready_evidence (t : trace) (ais : AIStore) : Prop :=
  proxies_ready t ais /\ targets_ready t ais /\ cluster_healthy t ais.

(** A cluster that is not ready is reported ready only on evidence. *)
Definition ready_guard (ais : AIStore) (t : trace) (r : req) : Prop :=
  match r with
  | KPatchStatus _ st => State st = ClusterReady ->
      State (Status (current t ais)) ≠ ClusterReady -> ready_evidence t ais
  | _ => True
  end.

Definition zero_outcome (o : outcome) : Prop := o.2 = None /\ result_is_zero o.1 = true.

(** The object in memory is not ready unless the one last reported is. *)
Definition calm (ais : AIStore) (h : trace) (s : AIStore) : Prop :=
  State (Status s) = ClusterReady -> State (Status (current (rev h) ais)) = ClusterReady.

Definition not_ready (st : ClusterState) : bool := bool_decide (st ≠ ClusterReady).
End Definitions.

Abbreviation Gr ais := (fun (h : trace) r => ready_guard ais (rev h) r).
Abbreviation any := (fun (_ : trace) (_ : req) => True).

Section Facts.
Context `{T : ThirdParty}.

Lemma pods_ready_mono h h' n size m a (found found' : Prop) :
  h `suffix_of` h' -> (found -> found') -> pods_ready (rev h) n size m a found -> pods_ready (rev h') n size m a found'.
Proof.
  intros Hs Hf (r & ? & Hr). exists r. split; [by eapply elem_of_rev_later|]. destruct r as [ss|e]; [done|]. naive_solver.
Qed.

Lemma found_existing_mono h h' ais b :
  h `suffix_of` h' -> found_existing (rev h) ais b -> found_existing (rev h') ais b.
Proof. intros Hs (ss & e & ? & ? & ?). exists ss, e. split_and!; [done..|]. by eapply elem_of_rev_later. Qed.

Lemma proxies_found_mono h h' ais : h `suffix_of` h' -> proxies_found (rev h) ais -> proxies_found (rev h') ais.
Proof.
  intros Hs (Hf & (pod & ? & ?) & (ss & n & ? & ? & Hn) & eps & ? & ?). split_and!.
  - by eapply found_existing_mono.
  - exists pod. split; [by eapply elem_of_rev_later|done].
  - exists ss, n. split_and!; [done|by eapply elem_of_rev_later|]. destruct Hn; [by left|right; by eapply elem_of_rev_later].
  - exists eps. split; [by eapply elem_of_rev_later|done].
Qed.

Lemma proxies_ready_mono h h' ais : h `suffix_of` h' -> proxies_ready (rev h) ais -> proxies_ready (rev h') ais.
Proof. intros Hs. apply pods_ready_mono; [done|by apply proxies_found_mono]. Qed.

Lemma targets_ready_mono h h' ais : h `suffix_of` h' -> targets_ready (rev h) ais -> targets_ready (rev h') ais.
Proof. intros Hs. apply pods_ready_mono; [done|by apply found_existing_mono]. Qed.

Lemma cluster_healthy_mono h h' ais :
  h `suffix_of` h' -> cluster_healthy (rev h) ais -> cluster_healthy (rev h') ais.
Proof.
  intros Hs (c & smap & p & t & ? & ? & ?). exists c, smap, p, t.
  split_and!; try by eapply elem_of_rev_later. all: naive_solver.
Qed.

#[export] Instance calm_invariant ais : ObjectInvariant (Gr ais) (calm ais) not_ready.
Proof.
  split.
  - by intros h [].
  - intros r x h s Hr Hc. unfold calm, current in *. rewrite off_object_last_object; [done | by apply benign_off].
  - intros h s s' Heq Hc. unfold calm. by rewrite Heq.
  - intros h s st Hst _ Heq. cbn in Heq. by apply bool_decide_eq_true in Hst.
  - intros s h Hc. unfold patchStatus, record_fail, recordError. do 3 wp_step.
    wp_call; [intros H1 H2; by destruct (H2 (Hc H1))|]. intros [a|e]; unfold calm, current.
    + do 3 wp_step. by rewrite last_object_snoc.
    + wp_step. wp_call; [done|]. intros x. wp_step. by rewrite !last_object_snoc.
  - intros o m s h _ _ Hc. wp_call; [done|]. unfold calm, current.
    intros [a|e]; by rewrite last_object_snoc.
Qed.

(** Stages before readiness leave the object alone, or end the reconciliation. *)
Lemma benign_wp {A} (m : H A) s h (Q : trace -> AIStore -> A -> Prop) :
  keeps benign m -> (forall h' a, h `suffix_of` h' -> Q h' s a) -> wpm True any m s h Q.
Proof. intros Hm HQ. by apply (keeps_wpm benign). Qed.

Lemma any_wp {A} (m : H A) s h : wpm True any m s h (fun _ _ _ => True).
Proof. by apply wpm_stable. Qed.

Lemma both_wp {A} (G : trace -> req -> Prop) (m : H A) s h Q1 Q2 :
  wpm True G m s h Q1 -> wpm True any m s h Q2 ->
  wpm True G m s h (fun h s a => Q1 h s a /\ Q2 h s a).
Proof.
  intros H1 H2. eapply wp_mono; [done | | |exact (wp_conj _ _ _ _ _ _ _ H1 H2)]; [by intros ? ? []|done].
Qed.

Lemma create_found ais o s h :
  wpm True any (CreateResourceIfNotExists ais o) s h (fun h' s' r => s' = s /\ h `suffix_of` h' /\
    (r = Ok true -> exists e, is_already_exists e = true /\ ev (KCreate (Some (NewControllerRef ais), o)) (Err e) ∈ rev h')).
Proof.
  unfold CreateResourceIfNotExists. wp_step. wp_call; [done|]. intros r. wp_step. split_and!; [done|by apply suffix_cons_r|].
  destruct r as [[]|e]; [done|]. destruct (is_already_exists e) eqn:He; [|done]. intros _. exists e.
  split; [done|apply in_trace_here].
Qed.

Lemma initTargets_ready ais h :
  wpm True any initTargets ais h (fun h' s' o => s' = ais /\ (zero_outcome o -> targets_found (rev h') ais)).
Proof.
  unfold initTargets, recordError, emit_event. do 4 wp_step. intros size Hsize. do 2 wp_step. intros ss Hss. wp_step.
  eapply wpm_mono; [apply create_found|]. intros h1 s1 [[]|e] (-> & Hs1 & Hf).
  - wp_step. split; [done|]. intros _. destruct (Hf eq_refl) as (e & He & Hin). exists ss, e. by rewrite Hsize.
  - wp_step. wp_call; [done|]. intros x. wp_step. by split; [|intros []].
  - wp_step. wp_call; [done|]. intros x. wp_step. by split; [|intros []].
Qed.

Lemma running_pod_seen name s h :
  wpm True any (GetRunningPod name) s h (fun h' s' r => s' = s /\ h `suffix_of` h' /\
    (forall pod, r = Ok pod -> ev (KGetPod name) (Ok pod) ∈ rev h' /\ pod_Phase pod = "Running")).
Proof.
  unfold GetRunningPod. wp_step. wp_call; [done|]. intros [pod|e].
  2: { wp_step. split_and!; [done|by apply suffix_cons_r|done]. }
  wp_step; wp_step; (split_and!; [done|by apply suffix_cons_r|]); [done|]. intros ? [= <-].
  split; [apply in_trace_here|]. by apply bool_decide_eq_false, dec_stable in Heqb.
Qed.

Lemma resize_seen name size s h :
  wpm True any (UpdateStatefulSetReplicas name size) s h (fun h' s' r => s' = s /\ h `suffix_of` h' /\
    (is_ok r = true -> exists ss, ev (KGetStatefulSet name) (Ok ss) ∈ rev h' /\
       (sss_Replicas (ss_Spec ss) = size \/ ev (KPatchStatefulSet ss (ss_set_replicas ss size)) (Ok tt) ∈ rev h'))).
Proof.
  unfold UpdateStatefulSetReplicas. wp_step. wp_call; [done|]. intros [ss|e].
  2: { wp_step. split_and!; [done|by apply suffix_cons_r|done]. }
  wp_step.
  - wp_step. split_and!; [done|by apply suffix_cons_r|]. intros _. exists ss. split; [apply in_trace_here|].
    left. by apply Z.eqb_eq.
  - wp_step. wp_call; [done|]. intros [[]|e]; wp_step; (split_and!; [done|by do 2 apply suffix_cons_r|]); [|done].
    intros _. exists ss. split; [apply in_trace_later, in_trace_here|]. right. apply in_trace_here.
Qed.

Lemma initProxies_ready ais h :
  wpm True any initProxies ais h (fun h' s' o => s' = ais /\ (zero_outcome o -> proxies_found (rev h') ais)).
Proof.
  unfold initProxies, recordError, emit_event. do 4 wp_step. intros ss Hss. wp_step.
  eapply wpm_mono; [apply create_found|]. intros h1 s1 [ex|e] (-> & Hs1 & Hf).
  2: { wp_step. wp_call; [done|]. intros x. wp_step. by split; [|intros []]. }
  wp_step; [wp_step; by split; [|intros []]|]. apply negb_false_iff in Heqb as ->.
  destruct (Hf eq_refl) as (e & He & Hin). wp_step.
  eapply wpm_mono; [apply running_pod_seen|]. intros h2 s2 [pod|e'] (-> & Hs2 & Hp).
  2: { wp_step. wp_call; [done|]. intros x. wp_step. by split; [|intros []]. }
  destruct (Hp pod eq_refl) as [Hpod Hrun]. do 2 wp_step. intros size Hsize. wp_step.
  eapply wpm_mono; [apply resize_seen|]. intros h3 s3 [ch|e'] (-> & Hs3 & Hr).
  2: { wp_step. wp_call; [done|]. intros x. wp_step. by split; [|intros []]. }
  destruct (Hr eq_refl) as (ss' & Hget & Hsz). wp_step.
  apply (wpm_mono _ _ _ _ _ (fun h' s' _ => s' = ais /\ h3 `suffix_of` h')).
  { destruct ch; [wp_call; [done|]; intros x; split; [done|by apply suffix_cons_r]|by wp_step]. }
  intros h4 s4 _ [-> Hs4]. unfold checkProxySvcEndpoints. wp_step. wp_call; [done|]. intros [eps|e'].
  2: { wp_step. by split; [|intros []]. }
  destruct (endpoint_ready eps) eqn:Heps; wp_step.
  - split; [done|]. intros _. split_and!.
    + exists ss, e. split_and!; [done..|]. eapply elem_of_rev_later; [|exact Hin].
      trans h2; [done|]. trans h3; [done|]. by apply suffix_cons_r.
    + exists pod. split; [|done]. eapply elem_of_rev_later; [|exact Hpod]. trans h3; [done|]. by apply suffix_cons_r.
    + exists ss', size. split_and!; [done|apply in_trace_later; by eapply elem_of_rev_later|].
      destruct Hsz; [by left|right]. apply in_trace_later. by eapply elem_of_rev_later.
    + exists eps. split; [apply in_trace_here|done].
  - unfold emit_event. wp_call; [done|]. intros x. wp_step. by split; [|intros []].
Qed.

Lemma handleProxyState_ready ais h :
  wpm True any handleProxyState ais h (fun h' s' o => s' = ais /\
    (zero_outcome o -> proxies_ready (rev h') ais)).
Proof.
  unfold handleProxyState, unless_updated. do 3 wp_step. wp_call; [done|]. intros [ss|e].
  2:{ wp_step.
      - eapply wpm_mono; [apply wpm_suffix, initProxies_ready|]. intros h' s' o [[-> Hf] Hs]. split; [done|]. intros Hz.
        eexists. split; [eapply elem_of_rev_later; [exact Hs | apply in_trace_here]|]. split; [done|]. by apply Hf.
      - wp_step. by split; [|intros []]. }
  wp_step; [wp_step; by split; [|intros []]|].
  do 2 wp_step. intros size Hsize. do 2 wp_step. intros minP Hmin. wp_step.
  apply benign_wp; [keeps_auto|]. intros h1 tpl Hs1. cbv zeta. wp_step.
  apply benign_wp; [keeps_auto|]. intros h2 [upd|e] Hs2; [|wp_step; by split; [|intros []]].
  wp_step; [wp_step; by split; [|intros []]|]. wp_step.
  apply benign_wp; [keeps_auto|]. intros h3 [upd'|e] Hs3; cbv beta iota; [|wp_step; by split; [|intros []]].
  wp_step; [wp_step; by split; [|intros []]|]. wp_step.
  { wp_step. apply benign_wp; [keeps_auto|]. intros h4 [go|e] Hs4; [|wp_step; by split; [|intros []]].
    wp_step; [wp_step; by split; [|intros []]|]. wp_step.
    apply benign_wp; [keeps_auto|]. intros h5 [[]|e] Hs5; wp_step; by split; [|intros []]. }
  wp_step.
  { wp_step. apply benign_wp; [keeps_auto|]. intros h4 [[]|e] Hs4; wp_step; by split; [|intros []]. }
  wp_step; [wp_step; by split; [|intros []]|]. wp_step; wp_step; (split; [done|]); [by intros []|].
  intros _. exists (Ok ss). split.
  { eapply elem_of_rev_later; [|apply in_trace_here]. trans h1; [done|]. trans h2; done. }
  reflect_bools. split_and!; try done. by exists size, minP.
Qed.

Lemma handleTargetScaling_requeues ss s h :
  wpm True any (handleTargetScaling ss) s h (fun _ _ o => ~ zero_outcome o).
Proof.
  unfold handleTargetScaling. do 3 wp_step. wp_step. intros size _. wp_step.
  eapply wpm_mono; [apply any_wp|]. intros h1 s1 [go|e] _; [|wp_step; by intros []].
  wp_step; [wp_step; by intros []|]. wp_step.
  eapply wpm_mono; [apply any_wp|]. intros h2 s2 [[]|e] _; [|wp_step; by intros []]. wp_step.
  eapply wpm_mono; [apply any_wp|]. intros h3 s3 [[]|e] _; wp_step; by intros [].
Qed.

Lemma handleTargetState_ready ais h :
  wpm True any handleTargetState ais h (fun h' s' o => h `suffix_of` h' /\
    (zero_outcome o -> s' = ais /\ targets_ready (rev h') ais)).
Proof.
  eapply wpm_mono; [apply (wpm_suffix _ _ _ _ _ (fun h' s' o => zero_outcome o -> s' = ais /\
    targets_ready (rev h') ais))|]; [|intros ? ? ? []; by split].
  unfold handleTargetState, unless_updated. do 3 wp_step. wp_call; [done|]. intros [ss|e].
  2:{ wp_step.
      - eapply wpm_mono; [apply wpm_suffix, initTargets_ready|]. intros h' s' o [[-> Hf] Hs] Hz. split; [done|].
        eexists. split; [eapply elem_of_rev_later; [exact Hs | apply in_trace_here]|]. split; [done|]. by apply Hf.
      - wp_step. by intros []. }
  wp_step. apply benign_wp; [keeps_auto|]. intros h0 [[]|e] Hs0.
  2:{ wp_step. unfold recordError. wp_call; [done|]. intros x. wp_step. by intros []. }
  wp_step; [wp_step; by intros []|].
  do 2 wp_step. intros size Hsize. do 2 wp_step. intros minT Hmin. wp_step.
  apply benign_wp; [keeps_auto|]. intros h1 tpl Hs1. cbv zeta. wp_step.
  apply benign_wp; [keeps_auto|]. intros h2 [upd|e] Hs2; [|wp_step; by intros []].
  wp_step; [wp_step; by intros []|]. wp_step.
  apply (wpm_mono _ _ _ _ _ (fun h' s' r => r = Ok false -> s' = ais /\ h2 `suffix_of` h')).
  { wp_step; [|by wp_step]. unfold syncTargetPodSpec, patchStatefulSet. do 3 wp_step.
    apply benign_wp; [keeps_auto|]. intros h3 tpl' Hs3.
    destruct (shouldUpdatePodTemplate tpl' _) as [needs reason]. wp_step; [by wp_step|]. wp_step.
    eapply wpm_mono; [apply any_wp|]. intros h4 s4 [[]|e] _; [|by wp_step].
    wp_step. wp_call; [done|]. intros [[]|e]; by wp_step. }
  intros h3 s3 [upd'|e] Hr; [|wp_step; by intros []]. wp_step; [wp_step; by intros []|].
  destruct Hr as [-> Hs3]; [by subst|]. wp_step.
  { eapply wpm_mono; [apply handleTargetScaling_requeues|]. intros h4 s4 o Hn Hz. by destruct (Hn Hz). }
  wp_step.
  { unfold unless_done. wp_step. apply benign_wp; [keeps_auto|].
    intros h4 [r [e|]] Hs4; [wp_step; by intros []|].
    wp_step; wp_step; [by intros [] | intros [_ Hz]; cbn in Hz; congruence]. }
  wp_step; [wp_step; by intros []|]. wp_step; wp_step; [by intros []|].
  intros _. split; [done|]. exists (Ok ss). split.
  { eapply elem_of_rev_later; [|apply in_trace_here]. trans h0; [done|]. trans h1; [done|]. trans h2; done. }
  reflect_bools. split_and!; try done. by exists size, minT.
Qed.
End Facts.

Section Theorems.
Context `{T : ThirdParty}.

Lemma checkAISClusterReady_healthy ais h :
  wpm True any checkAISClusterReady ais h (fun h' _ r => r = Ok true -> cluster_healthy (rev h') ais).
Proof.
  unfold checkAISClusterReady. do 3 wp_step. wp_call; [done|]. intros [c|e]; [|by wp_step].
  wp_step. wp_call; [done|]. intros [[]|e]; [|by wp_step].
  wp_step. wp_call; [done|]. intros [smap|e]; [|by wp_step]. cbv zeta.
  do 2 wp_step. intros minP Hp. wp_step; [by wp_step|]. do 2 wp_step. intros minT Ht. wp_step; [by wp_step|].
  match goal with |- wpm _ _ _ _ ?h0 _ => assert (cluster_healthy (rev h0) ais) as Hh end.
  { reflect_bools. exists c, smap, minP, minT.
    split_and!; [apply in_trace_later, in_trace_here | apply in_trace_here | done..]. }
  wp_step; [|by wp_step]. do 3 wp_step. eapply wpm_mono; [apply wpm_suffix, any_wp|].
  intros h' s' [[]|e] [_ Hs]; wp_step; [|done]. intros _. by eapply cluster_healthy_mono.
Qed.

(** C21. A cluster that is not ready is reported as ready only on evidence gathered in the same
    pass. Each of the two StatefulSets was read with a current status, no rollout and its pods
    ready; or the read did not find it but its creation failed because it exists, in which case
    the status of the targets' StatefulSet was not looked at, and of the proxies only that the
    first one's pod runs, the replicas are as asked and the service has an endpoint. The AIS
    cluster answered a health check, and its map has at least the minimum of proxies and of
    targets. *)
Theorem ready_on_evidence ais : guarded (ready_guard ais) (handleCREvents ais).
Proof.
  apply (guarded_wp _ _ (fun _ _ => True)).
  change (wpm True (Gr ais) handleCREvents ais [] (fun _ _ _ => True)).
  unfold handleCREvents, requeue_stage. assert (calm ais [] ais) as Hc by (intros Hr; exact Hr).
  assert (forall r s h, calm ais h s -> wpm True (Gr ais) (updateStatusAndRequeue r) s h (fun _ _ _ => True)) as Hreq.
  { intros r s h Hc'. eapply wpm_mono; [|done]. by eapply (steady_updateStatusAndRequeue _ _ not_ready). }
  wp_step. eapply wpm_mono.
  { apply both_wp; [|apply handleProxyState_ready].
    eapply (keeps_steady _ _ not_ready); [apply keeps_handleProxyState | exact Hc]. }
  intros h1 s1 [r1 [e|]] [Hc1 [-> Hp]]; [by wp_step|]. wp_step; [|by apply Hreq].
  specialize (Hp (conj eq_refl Heqb)). wp_step. eapply wpm_mono.
  { apply both_wp; [eapply (steady_handleTargetState _ _ not_ready); exact Hc1 | apply handleTargetState_ready]. }
  intros h2 s2 [r2 [e|]] [Hc2 [Hs2 Ht]]; [by wp_step|]. wp_step; [|by apply Hreq].
  destruct (Ht (conj eq_refl Heqb0)) as [-> Ht']. wp_step. eapply wpm_mono.
  { apply both_wp; [apply wpm_suffix; eapply (steady_checkAISClusterReady _ _ not_ready); exact Hc2|].
    apply checkAISClusterReady_healthy. }
  intros h3 s3 [[]|e] [[Hc3 Hs3] Hh]; cbv beta iota; [|by apply Hreq|by wp_step].
  assert (ready_evidence (rev h3) ais) as (E1 & E2 & E3).
  { split_and!; [eapply proxies_ready_mono; [|exact Hp]; by trans h2 | by eapply targets_ready_mono | by apply Hh]. }
  apply wpm_stable. intros h4 r Hs4. destruct r; try done. intros _ _.
  split_and!; [by eapply proxies_ready_mono | by eapply targets_ready_mono | by eapply cluster_healthy_mono].
Qed.
End Theorems.
