(* ===== verification/TemplateFacts.v ===== *)
(** * Templates and configuration converge

    Synchronizing a pod template or a deployment ends the need to synchronize it; metadata
    added to the templates restarts no pod; the restart annotation records configuration changes. *)

From S2P Require Import Prelude K8sTypes AISConfig AIStoreTypes ThirdParty AuthConf AIStoreMethods GlobalConfig CmnResources Certificates ProxyResources TargetResources AdminClient Templates ResourceFacts.

(** ** Pod templates *)

Section Templates.
Context `{T : ThirdParty, L : !ThirdPartyLaws T}.

(** A template in sync is left alone. *)
Lemma in_sync_fixed d c : in_sync d c -> syncPodTemplate d c = (c, false).
Proof.
  intros (Hi & Hc & Ha & Hl & Hs & Hv & Hp & Ht).
  assert (forall l, syncContainers l l = (l, false)) as Hcs.
  { intros l. rewrite (surjective_pairing (syncContainers l l)), syncContainers_fst.
    f_equal. by apply syncContainers_snd. }
  unfold syncPodTemplate. rewrite <-Hi, <-Hc, <-Hl, <-Hs, <-Hv, <-Hp, <-Ht, !Hcs, Ha, !DeepEqual_refl.
  rewrite bool_decide_eq_false_2 by auto. cbn.
  destruct c as [cl ca [? ? ? ? ? ? ? ? ? ? ? ? ?]]. cbn in *. by subst.
Qed.

Lemma target_template_volumes ais size ss :
  Target.NewTargetSS ais size = Some ss ->
  NoDup (vol_Name <$> ps_Volumes (pt_Spec (sss_Template (ss_Spec ss)))).
Proof.
  unfold Target.NewTargetSS, Target.targetPodSpec.
  intros (pod & Hpod & [= <-])%bind_Some. cbn.
  repeat (apply bind_Some in Hpod as (? & _ & Hpod)). injection Hpod as <-. cbn.
  apply target_volumes_NoDup.
Qed.

Lemma proxy_volumes_NoDup ais : NoDup (vol_Name <$> Proxy.newVolumes ais).
Proof.
  unfold Proxy.newVolumes. pose proof (NewAISVolumes_names ais apc_Proxy) as Hs.
  rewrite fmap_app. apply NoDup_app. split_and!.
  - eapply sublist_NoDup; [|exact Hs]. eapply sublist_NoDup; [|apply sublist_take].
    apply fixed_volume_names_NoDup.
  - intros x Hx Ho. assert (x = "oidc-ca") as ->.
    { destruct (IssuerCAConfigMap (Spec ais)); cbn in Ho; [by apply list_elem_of_singleton in Ho|].
      by apply not_elem_of_nil in Ho. }
    assert ("oidc-ca" ∈ take 7 fixed_volume_names) as Hin
      by (eapply elem_of_submseteq; [exact Hx | by apply sublist_submseteq]).
    revert Hin. apply (bool_decide_unpack _). by vm_compute.
  - destruct (IssuerCAConfigMap (Spec ais)); cbn; repeat constructor. apply not_elem_of_nil.
Qed.

Lemma proxy_template_volumes ais size ss :
  Proxy.NewProxyStatefulSet ais size = Some ss ->
  NoDup (vol_Name <$> ps_Volumes (pt_Spec (sss_Template (ss_Spec ss)))).
Proof.
  unfold Proxy.NewProxyStatefulSet, Proxy.proxyPodSpec.
  intros (pod & Hpod & [= <-])%bind_Some. cbn.
  repeat (apply bind_Some in Hpod as (? & _ & Hpod)). injection Hpod as <-. cbn.
  apply proxy_volumes_NoDup.
Qed.

(** Synchronized templates are in sync, as long as the volumes have distinct names. *)
Lemma template_converges desired current :
  NoDup (vol_Name <$> ps_Volumes (pt_Spec desired)) ->
  let synced := (syncPodTemplate desired current).1 in
  shouldUpdatePodTemplate desired synced = no_update /\ syncPodTemplate desired synced = (synced, false).
Proof.
  intros Hnd. cbv zeta. pose proof (syncPodTemplate_in_sync desired current).
  split; [by apply in_sync_no_update | by apply in_sync_fixed].
Qed.

(** C22. Once a pod template, whatever it was, has been synchronized with the one desired for
    the targets or for the proxies, the comparison finds nothing to roll out and a second
    synchronization changes nothing: the controllers do not roll their pods over and over. *)
Theorem templates_converge ais size ss current :
  Target.NewTargetSS ais size = Some ss \/ Proxy.NewProxyStatefulSet ais size = Some ss ->
  let desired := sss_Template (ss_Spec ss) in
  let synced := (syncPodTemplate desired current).1 in
  shouldUpdatePodTemplate desired synced = no_update /\ syncPodTemplate desired synced = (synced, false).
Proof.
  intros Hss. apply template_converges.
  destruct Hss as [H|H]; [by eapply target_template_volumes | by eapply proxy_template_volumes].
Qed.

(** The template an older operator, which knew neither the restart annotation nor the
    managed-by label, would have created for the same object. *)
Definition before_upgrade (d : PodTemplateSpec) : PodTemplateSpec :=
  MkPodTemplate (delete LabelManagedBy (pt_Labels d))
    (delete RestartConfigHashAnnotation (pt_Annotations d)) (pt_Spec d).

Lemma first_update_no_update vs : first_update vs = no_update -> Forall (fun v => v.1 = false) vs.
Proof.
  intros Hd. apply Forall_forall. intros v Hv. apply not_true_is_false. intros Ht.
  assert ((first_update vs).1 = true) as Hu by (apply first_update_true, Exists_exists; by exists v).
  by rewrite Hd in Hu.
Qed.

(** Only those two differences start no rollout. *)
Lemma upgrade_no_rollout d :
  NoDup (vol_Name <$> ps_Volumes (pt_Spec d)) ->
  pt_Labels d !! LabelManagedBy = Some LabelManagedByValue ->
  has_suffix (index (pt_Annotations d) RestartConfigHashAnnotation) RestartConfigHashInitial = true ->
  shouldUpdatePodTemplate d (before_upgrade d) = no_update.
Proof.
  intros Hnd Hl Ha. assert (shouldUpdatePodTemplate d d = no_update) as Hd.
  { apply in_sync_no_update; [done|]. repeat split. apply DeepDerivative_refl. }
  unfold shouldUpdatePodTemplate, shouldUpdate in *. apply first_update_none.
  pose proof (first_update_no_update _ Hd) as Hall.
  cbn in Hall |- *. rewrite !Forall_cons in Hall |- *. split_and!; try apply Hall.
  - unfold shouldUpdateAnnotations. cbn. destruct (DeepDerivative _ _) eqn:E; [done|].
    unfold index in Ha. destruct (pt_Annotations d !! RestartConfigHashAnnotation) as [v|] eqn:Hv; [|done].
    cbn in Ha. rewrite Ha. cbn. by rewrite DeepDerivative_refl.
  - unfold shouldUpdateLabels. cbn. destruct (DeepEqual _ _); [done|].
    unfold onlyManagedByLabelAdded, index. rewrite lookup_delete_eq, Hl. cbn. by rewrite DeepEqual_refl.
Qed.

Lemma restart_prepared user net h :
  PrepareAnnotations user net (Some h) !! RestartConfigHashAnnotation =
  Some (default h (user !! RestartConfigHashAnnotation)).
Proof.
  unfold PrepareAnnotations. destruct (user !! RestartConfigHashAnnotation) as [x|] eqn:Hu.
  - by rewrite (lookup_union_Some_l _ _ _ _ Hu).
  - by rewrite lookup_union_r, lookup_insert_eq.
Qed.

(** The other annotations do not depend on the restart hash. *)
Lemma others_prepared user net h h' :
  DeepDerivative (delete RestartConfigHashAnnotation (PrepareAnnotations user net (Some h)))
    (PrepareAnnotations user net (Some h')) = true.
Proof.
  apply DeepDerivative_spec. intros k v. rewrite lookup_delete_Some. unfold PrepareAnnotations.
  intros [Hk Hx]. exists v. split; [|by right]. apply lookup_union_Some_raw in Hx as [Hx|[Hu Hx]];
    apply lookup_union_Some_raw; [by left|right]. split; [done|]. by rewrite lookup_insert_ne in Hx |- *.
Qed.

(** The tagged restart annotation, once recorded, starts no rollout of pods built before it was. *)
Lemma tagged_no_rollout user net h d c :
  NoDup (vol_Name <$> ps_Volumes (pt_Spec d)) -> pt_Labels d = pt_Labels c -> pt_Spec d = pt_Spec c ->
  pt_Annotations d = PrepareAnnotations user net (Some h) ->
  pt_Annotations c = PrepareAnnotations user net (Some "") ->
  has_suffix h RestartConfigHashInitial = true -> shouldUpdatePodTemplate d c = no_update.
Proof.
  intros Hnd Hl Hs Ha Hc Hh. assert (shouldUpdatePodTemplate d d = no_update) as Hd.
  { apply in_sync_no_update; [done|]. repeat split. apply DeepDerivative_refl. }
  apply first_update_no_update in Hd. unfold shouldUpdatePodTemplate, shouldUpdate. apply first_update_none.
  assert ((shouldUpdateAnnotations d c).1 = false) as Han.
  { unfold shouldUpdateAnnotations. destruct (DeepDerivative _ _); [done|].
    rewrite Ha, Hc, restart_prepared, others_prepared. unfold index. rewrite restart_prepared.
    destruct (user !! RestartConfigHashAnnotation) as [x|]; cbn; [|by rewrite Hh].
    by rewrite (bool_decide_eq_false_2 (x ≠ x)), andb_false_r by auto. }
  destruct d, c. cbn in Hl, Hs. subst. cbn in Hd |- *. rewrite !Forall_cons in Hd |- *. split_and!; try apply Hd. exact Han.
Qed.

(** With a restart annotation that is not the initial one, they do. *)
Lemma upgrade_rollout d :
  index (pt_Annotations d) RestartConfigHashAnnotation ≠ "" ->
  has_suffix (index (pt_Annotations d) RestartConfigHashAnnotation) RestartConfigHashInitial = false ->
  (shouldUpdatePodTemplate d (before_upgrade d)).1 = true.
Proof.
  unfold index. intros Hne Hsuf. destruct (pt_Annotations d !! RestartConfigHashAnnotation) as [v|] eqn:Hv; [|done].
  unfold shouldUpdatePodTemplate, shouldUpdate. apply first_update_true, Exists_exists.
  exists (shouldUpdateAnnotations d (before_upgrade d)).
  split; [cbn; rewrite !elem_of_cons; tauto|]. unfold shouldUpdateAnnotations. cbn. destruct (DeepDerivative _ _) eqn:E.
  - exfalso. rewrite DeepDerivative_spec in E. specialize (E RestartConfigHashAnnotation v Hv).
    rewrite lookup_delete_eq in E. naive_solver.
  - rewrite Hv. cbn in Hsuf. rewrite Hsuf. unfold index. rewrite lookup_delete_eq. cbn in Hne |- *.
    by rewrite bool_decide_eq_true_2.
Qed.

(** What either controller puts on its pods. *)
Lemma desired_metadata ais size ss :
  Target.NewTargetSS ais size = Some ss /\ ds_Annotations (target_ds (Spec ais)) !! RestartConfigHashAnnotation = None \/
  Proxy.NewProxyStatefulSet ais size = Some ss /\ ds_Annotations (ProxySpec (Spec ais)) !! RestartConfigHashAnnotation = None ->
  let desired := sss_Template (ss_Spec ss) in
  NoDup (vol_Name <$> ps_Volumes (pt_Spec desired)) /\
  pt_Labels desired !! LabelManagedBy = Some LabelManagedByValue /\
  index (pt_Annotations desired) RestartConfigHashAnnotation = index (ais_Annotations ais) RestartConfigHashAnnotation.
Proof.
  intros [[Hss Hann]|[Hss Hann]]; cbv zeta; (split; [first [by eapply target_template_volumes|by eapply proxy_template_volumes]|]).
  all: first [unfold Target.NewTargetSS in Hss|unfold Proxy.NewProxyStatefulSet in Hss];
    apply bind_Some in Hss as (pod & _ & [= <-]); cbn; (split; [apply lookup_union_Some_l; by rewrite lookup_insert_eq|]).
  all: unfold PrepareAnnotations; unfold index at 1; rewrite lookup_union_r by done; by rewrite lookup_insert_eq.
Qed.

(** C23. Pods created before the operator put the restart annotation and the managed-by label on
    them are not restarted for these two alone: the desired template of the targets or of the
    proxies, compared with the same template without the two, counts as up to date as long as the
    cluster's restart annotation is still the initial one, and as outdated once it is another
    (given that the user sets no such annotation in the spec). Other differences between the
    templates of two operator versions are compared as ever. *)
Theorem added_metadata_restarts_nothing ais size ss :
  Target.NewTargetSS ais size = Some ss /\ ds_Annotations (target_ds (Spec ais)) !! RestartConfigHashAnnotation = None \/
  Proxy.NewProxyStatefulSet ais size = Some ss /\ ds_Annotations (ProxySpec (Spec ais)) !! RestartConfigHashAnnotation = None ->
  index (ais_Annotations ais) RestartConfigHashAnnotation ≠ "" ->
  let desired := sss_Template (ss_Spec ss) in
  if has_suffix (index (ais_Annotations ais) RestartConfigHashAnnotation) RestartConfigHashInitial
  then shouldUpdatePodTemplate desired (before_upgrade desired) = no_update
  else (shouldUpdatePodTemplate desired (before_upgrade desired)).1 = true.
Proof.
  intros Hss Hne. destruct (desired_metadata ais size ss Hss) as (Hnd & Hl & Ha). cbv zeta.
  destruct (has_suffix _ _) eqn:Hs; [apply upgrade_no_rollout|apply upgrade_rollout]; by rewrite ?Ha.
Qed.
End Templates.

(** ** The restart annotation *)

(** The annotation after the configuration had the given restart hashes, oldest first. *)
Definition annotation_after (hashes : list string) : string :=
  fold_left restart_annotation hashes "".

(** A digest: not empty, and not one that looks tagged. *)
Definition is_digest (h : string) : bool :=
  bool_decide (h ≠ "") && negb (has_suffix h RestartConfigHashInitial).

Lemma restart_annotation_initial h0 h :
  h0 ≠ "" -> restart_annotation (h0 +:+ RestartConfigHashInitial) h =
             if bool_decide (h0 = h) then h0 +:+ RestartConfigHashInitial else h.
Proof.
  intros Hn. unfold restart_annotation. rewrite has_suffix_app, trim_suffix_app.
  rewrite bool_decide_eq_false_2; [done|]. intros He. by destruct h0.
Qed.

Lemma restart_annotation_plain h0 h : is_digest h0 = true -> restart_annotation h0 h = h.
Proof.
  unfold is_digest, restart_annotation. intros [Hn Hs]%andb_true_iff. apply bool_decide_eq_true in Hn. apply negb_true_iff in Hs.
  by rewrite bool_decide_eq_false_2, Hs.
Qed.

(** C24. The restart annotation distinguishes the configuration a cluster was created with from
      later changes. After any sequence of digests of the restart-relevant configuration it is
      the first digest with the initial tag, which restarts nothing, as long as the digest never
      changed; afterwards it is the plain last digest, so each change restarts the pods once. *)
Theorem restart_annotation_history h0 hs :
  Forall (fun h => is_digest h = true) (h0 :: hs) ->
  annotation_after (h0 :: hs) =
  if bool_decide (Forall (fun h => h = h0) hs) then h0 +:+ RestartConfigHashInitial
  else default h0 (last hs).
Proof.
  intros H. unfold annotation_after. cbn [fold_left].
  change (restart_annotation "" h0) with (h0 +:+ RestartConfigHashInitial).
  apply Forall_cons in H as [H0 Hs].
  assert (h0 ≠ "") as Hn0 by (unfold is_digest in H0; apply andb_true_iff in H0 as [H0 _]; by reflect_bools).
  induction hs as [|h hs IH] using rev_ind.
  { by rewrite bool_decide_eq_true_2 by constructor. }
  apply Forall_app in Hs as [Hs _].
  rewrite fold_left_app, IH by done. cbn [fold_left]. rewrite last_snoc. cbn.
  destruct (decide (Forall (fun h => h = h0) hs)) as [Hall|Hall].
  - rewrite bool_decide_eq_true_2 by done. rewrite restart_annotation_initial by done.
    destruct (decide (h0 = h)) as [<-|Heq].
    + rewrite (bool_decide_eq_true_2 (h0 = h0)), bool_decide_eq_true_2; [done| |done].
      apply Forall_app. by rewrite Forall_singleton.
    + rewrite (bool_decide_eq_false_2 (h0 = h)), bool_decide_eq_false_2; [done| |done].
      rewrite Forall_app, Forall_singleton. naive_solver.
  - rewrite bool_decide_eq_false_2 by done.
    rewrite restart_annotation_plain, bool_decide_eq_false_2; [done| |].
    + rewrite Forall_app. naive_solver.
    + destruct (last hs) as [l|] eqn:Hl; [|done]. cbn. apply last_Some in Hl as [l' ->].
      apply Forall_app in Hs as [_ Hs]. by rewrite Forall_singleton in Hs.
Qed.

(** ** The admin client deployment *)

Definition ps_set_containers (p : PodSpec) (cs : list Container) : PodSpec :=
  MkPodSpec (ps_InitContainers p) cs (ps_HostNetwork p) (ps_DNSPolicy p) (ps_ServiceAccountName p)
    (ps_AutomountServiceAccountToken p) (ps_ImagePullSecrets p) (ps_SecurityContext p) (ps_Affinity p)
    (ps_NodeSelector p) (ps_Volumes p) (ps_Tolerations p) (ps_PriorityClassName p).

Section Deployment.
Context `{T : ThirdParty, L : !ThirdPartyLaws T}.

Lemma sync_field_refl {A} `{EqDecision A} (d : A) r : sync_field d d r = (d, []).
Proof. unfold sync_field. by rewrite DeepEqual_refl. Qed.

Lemma sync_string_refl d r : sync_string d d r = (d, []).
Proof. unfold sync_string. by rewrite bool_decide_eq_true_2. Qed.
Lemma sync_field_inv {A} `{EqDecision A} (d c x : A) r l :
  sync_field d c r = (x, l) -> x = d /\ (l = [] -> c = d).
Proof.
  intros H. pose proof (sync_field_fst d c r) as H1. pose proof (sync_field_snd d c r) as H2.
  rewrite H in H1, H2. cbn in *. tauto.
Qed.
Lemma sync_string_inv d c x r l : sync_string d c r = (x, l) -> x = d /\ (l = [] -> c = d).
Proof.
  intros H. pose proof (sync_string_fst d c r) as H1. pose proof (sync_string_snd d c r) as H2.
  rewrite H in H1, H2. cbn in *. tauto.
Qed.

Ltac sync_fields :=
  repeat match goal with
  | H : sync_field _ _ _ = (_, _) |- _ => apply sync_field_inv in H as [-> ?]
  | H : sync_string _ _ _ = (_, _) |- _ => apply sync_string_inv in H as [-> ?]
  end.

Lemma client_container_converges d c0 c rs :
  client_syncContainerSpec d c0 = (c, rs) ->
  client_syncContainerSpec d c = (c, []) /\ (rs = [] -> c = c0).
Proof.
  unfold client_syncContainerSpec.
  destruct (sync_string (ct_Image d) _ _) eqn:?.
  destruct (if bool_decide (ct_ImagePullPolicy d ≠ "") then _ else _) as [pull r2] eqn:Hp.
  destruct (sync_field (ct_Env d) _ _) eqn:?, (sync_field (ct_Resources d) _ _) eqn:?,
    (sync_field (ct_VolumeMounts d) _ _) eqn:?. sync_fields. intros [= <- <-]. cbn.
  rewrite !sync_field_refl, sync_string_refl. case_bool_decide as Hpull.
  - sync_fields. rewrite sync_string_refl. split; [done|]. intros Hr.
    repeat (apply app_eq_nil in Hr as [? Hr]). destruct c0; cbn in *. f_equal; symmetry; auto.
  - injection Hp as <- <-. split; [done|]. intros Hr.
    repeat (apply app_eq_nil in Hr as [? Hr]). destruct c0; cbn in *. f_equal; symmetry; auto.
Qed.

Lemma client_template_converges d m cs t rs :
  client_syncPodTemplateSpec d m cs = (t, rs) ->
  (forall cs', client_syncPodTemplateSpec d t cs' =
     (MkPodTemplate (pt_Labels t) (pt_Annotations t) (ps_set_containers (pt_Spec t) cs'), [])) /\
  ps_Containers (pt_Spec t) = cs /\
  (rs = [] -> t = MkPodTemplate (pt_Labels m) (pt_Annotations m) (ps_set_containers (pt_Spec m) cs)).
Proof.
  unfold client_syncPodTemplateSpec. cbv zeta.
  destruct (sync_string (ps_ServiceAccountName _) _ _) eqn:?,
    (sync_field (ps_AutomountServiceAccountToken _) _ _) eqn:?,
    (sync_field (ps_ImagePullSecrets _) _ _) eqn:?, (sync_field (ps_Volumes _) _ _) eqn:?,
    (sync_field (ps_NodeSelector _) _ _) eqn:?, (sync_field (ps_Affinity _) _ _) eqn:?,
    (sync_field (ps_Tolerations _) _ _) eqn:?, (sync_field (pt_Labels d) _ _) eqn:?,
    (sync_field (pt_Annotations d) _ _) eqn:?. sync_fields. intros [= <- <-]. cbn. split_and!; [|done|].
  - intros cs'. by rewrite !sync_field_refl, sync_string_refl.
  - intros Hr. repeat (apply app_eq_nil in Hr as [? Hr]). unfold ps_set_containers.
    f_equal; [symmetry; auto..|]. f_equal; symmetry; auto.
Qed.

(** Synchronizing the admin client deployment converges in one step: the synchronized
    deployment needs no further change; and a deployment reported unchanged is the one read. *)
Theorem client_deployment_converges desired current modified changed reason :
  SyncDeployment desired current = Some (modified, changed, reason) ->
  SyncDeployment desired modified = Some (modified, false, "") /\
  (changed = false -> modified = current).
Proof.
  unfold SyncDeployment.
  destruct (ps_Containers (pt_Spec (dep_Template desired))) as [|d ds]; [done|].
  destruct (ps_Containers (pt_Spec (dep_Template current))) as [|m ms] eqn:Hm; [done|].
  destruct (client_syncContainerSpec d m) as [c r1] eqn:Hc.
  destruct (client_syncPodTemplateSpec _ _ _) as [t r2] eqn:Ht.
  destruct (sync_field (dep_Labels desired) _ _) as [ls r3] eqn:Hl.
  apply client_container_converges in Hc as [Hc1 Hc2].
  apply client_template_converges in Ht as (Ht1 & Ht2 & Ht3). sync_fields.
  intros [= <- <- <-]. cbn. rewrite Ht2, Hc1, Ht1, sync_field_refl. split.
  - cbn. do 3 f_equal. destruct t as [? ? []]. cbn in *. by subst.
  - intros Hch. apply negb_false_iff, bool_decide_eq_true in Hch.
    apply app_eq_nil in Hch as [Hr1 [Hr2 Hr3]%app_eq_nil]. rewrite Ht3, Hc2 by done.
    destruct current as [? ? ? ? ? ? [? ? []]]. cbn in *. subst. f_equal; symmetry; auto.
Qed.
End Deployment.
