(* ===== verification/SpecFacts.v ===== *)
(** * Sizes, configuration, nodes and certificates

    Functional properties of what the controller derives from the spec and from the nodes. *)

From S2P Require Import Prelude Effects K8sTypes AISConfig AIStoreTypes ThirdParty AuthConf AIStoreMethods AIStoreFacts Validation GlobalConfig CmnResources Certificates ProxyResources TargetResources Templates Rollout ResourceFacts Requests K8sClient ClusterOps Nodes Executions.

(** ** Configuration *)

Section Config.
Context `{T : ThirdParty, L : !ThirdPartyLaws T}.

(** The configuration generated for the cluster always sets the rebalance switch: off
    while the object is not marked ready for rebalance, whatever the spec says, and otherwise
    what the spec says, on by default. *)
Theorem generated_config_rebalance ais conf :
  GenerateGlobalConfig ais = Ok conf ->
  rebalance_of conf =
  Some (IsConditionTrue ais ConditionReadyRebalance &&
        default true (c ← spec_ConfigToUpdate (Spec ais); r ← cu_Rebalance c; reb_Enabled r)).
Proof.
  intros H. rewrite (GenerateGlobalConfig_rebalance ais conf H). f_equal.
  destruct (IsConditionTrue ais ConditionReadyRebalance); [|done]. cbn. unfold RebalanceEnabled.
  destruct (spec_ConfigToUpdate (Spec ais)) as [c|]; cbn; [|done]. by destruct (cu_Rebalance c).
Qed.
End Config.

(** ** Sizes *)

Section Sizes.
Context `{T : ThirdParty}.

(** C25. A spec that passes validation gives both daemons a size, so that the nil dereferences
    of the size accessors cannot happen; a fixed size is at least one, and then every member
    must be ready; an autoscaled daemon needs at least one ready member and no more than its
    size less the budget. *)
Theorem validated_sizes ais :
  (ValidateSpec ais).2 = None ->
  (exists n m, GetProxySize ais = Some n /\ GetMinReadyProxies ais = Some m /\
     (IsProxyAutoScaling ais = false -> 1 <= n /\ m = n) /\
     (IsProxyAutoScaling ais = true -> is_i32 (n - GetProxyMaxUnavailable ais) ->
        m = Z.max 1 (n - GetProxyMaxUnavailable ais))) /\
  (exists n m, GetTargetSize ais = Some n /\ GetMinReadyTargets ais = Some m /\
     (IsTargetAutoScaling ais = false -> 1 <= n /\ m = n) /\
     (IsTargetAutoScaling ais = true -> is_i32 (n - GetTargetMaxUnavailable ais) ->
        m = Z.max 1 (n - GetTargetMaxUnavailable ais))).
Proof.
  intros H. apply ValidateSpec_checks in H. unfold validations in H.
  assert ((validateSize ais).2 = None) as Hv by (rewrite !Forall_cons in H; apply H).
  split.
  - destruct (validateSize_proxy ais Hv) as (n & Hn & H1). unfold GetMinReadyProxies. rewrite Hn. cbn.
    eexists n, _. split_and!; [done..| |]; destruct (IsProxyAutoScaling ais); try done; [naive_solver|].
    intros _ Hi. by rewrite i32_id.
  - destruct (validateSize_target ais Hv) as (n & Hn & H1). unfold GetMinReadyTargets. rewrite Hn. cbn.
    eexists n, _. split_and!; [done..| |]; destruct (IsTargetAutoScaling ais); try done; [naive_solver|].
    intros _ Hi. by rewrite i32_id.
Qed.
End Sizes.

(** ** StatefulSets *)

(** Under autoscaling a StatefulSet is shrunk only when nothing else is going on and
      the missing nodes are not just a disruption the budget allows: there is no rollout, the
      pods counted are those of the spec, and either all are ready or more are unavailable than
      the budget. Growing, and any change when the size is fixed, is never held back. *)
Theorem scaling_decision ss desired budget autoScaling :
  is_i32 (sss_Replicas (ss_Spec ss) - ssst_ReadyReplicas (ss_Status ss)) ->
  let spec := sss_Replicas (ss_Spec ss) in
  let unavailable := spec - ssst_ReadyReplicas (ss_Status ss) in
  statefulsetScalingNeeded ss desired budget autoScaling = true <->
  spec < desired \/
  (desired < spec /\
   (autoScaling = false \/
    isRolloutInProgress ss = false /\ ssst_Replicas (ss_Status ss) = spec /\
    (unavailable = 0 \/ budget < unavailable))).
Proof.
  intros Hi. cbv zeta. rewrite scaling_needed_spec by done. unfold isScalingInProgress.
  destruct (isRolloutInProgress ss); [naive_solver|]. rewrite negb_false_iff, Z.eqb_eq. tauto.
Qed.

(** ** Expected nodes *)

Section Nodes.
Context `{T : ThirdParty}.

(** What the nodes of a daemon should be, given what was read. *)
Definition nodes_expected (ais : AIStore) (ds : DaemonSpec) (ls : labels) (t : trace)
    (names : list string) : Prop :=
  exists nodes pods,
    ev (KListNodes (node_selector ds)) (Ok nodes) ∈ t /\
    ev (KListPods (nn_namespace (ais_Name ais)) (<[ LabelManagedBy := LabelManagedByValue ]> ls)) (Ok pods) ∈ t /\
    StronglySorted String.le names /\ NoDup names /\
    forall x, x ∈ names <->
      (exists n, n ∈ nodes /\ toleratesTaints (ds_Tolerations ds) n = true /\ node_Name n = x) \/
      (x ≠ "" /\ exists p, p ∈ pods /\ pod_NodeName p = x).

Lemma expected_nodes_wp ais ds ls s0 :
  wpm True (fun _ _ => True) (expected_nodes ais ds ls) s0 [] (fun h _ r =>
    forall names, r = Ok names -> nodes_expected ais ds ls (rev h) names).
Proof.
  unfold expected_nodes, listMatchingNodeNames, listMatchingNodes, listNodesRunningDaemonPods, ListPods.
  do 3 wp_step. wp_call; [done|]. intros [nodes|e]; [|by repeat wp_step]. do 4 wp_step.
  wp_call; [done|]. intros [pods|e]; [|by repeat wp_step]. do 2 wp_step. intros names [= <-].
  exists nodes, pods. split_and!; [apply in_trace_later, in_trace_here | apply in_trace_here |
    apply unionSorted_sorted | apply unionSorted_NoDup |].
  intros x. rewrite elem_of_unionSorted, elem_of_sort_strings, elem_of_pod_nodes.
  rewrite list_elem_of_fmap. setoid_rewrite list_elem_of_filter. naive_solver.
Qed.

(** The nodes an autoscaled daemon is expected on: the names, sorted and without
    duplicates, of exactly the nodes that match its selector and whose taints it tolerates,
    and of those where one of its pods runs, so that a node that becomes unschedulable is
    not dropped while it still hosts a daemon. *)
Theorem expected_nodes_spec ais ds ls s0 t s names :
  exec (expected_nodes ais ds ls s0) t (Some (s, Ok names)) -> nodes_expected ais ds ls t names.
Proof.
  intros Hex. exact (returns_wp _ (fun t p => forall names, p.2 = Ok names -> nodes_expected ais ds ls t names)
    t (s, Ok names) (expected_nodes_wp ais ds ls s0) Hex names eq_refl).
Qed.
End Nodes.

(** ** Certificate names *)

Section Names.
Context `{T : ThirdParty}.

(** C26. The names of the certificate depend on the spec and the public hosts only: whatever
    order Go visits the hostname map in, both lists are the same, sorted, without duplicates
    and without empty names, so that no reconciliation reissues the certificate; and the IP
    addresses are exactly those among the hosts of the map and the public hosts. *)
Theorem certificate_names_stable ais entries hosts :
  entries ≡ₚ map_to_list (default ∅ (HostnameMap (Spec ais))) ->
  let '(dns, ips) := SANs_of ais entries hosts in
  (dns, ips) = buildCertificateSANs ais hosts /\
  (StronglySorted String.le dns /\ NoDup dns /\ "" ∉ dns) /\
  (StronglySorted String.le ips /\ NoDup ips /\ "" ∉ ips) /\
  forall x, x ∈ ips <-> (x ∈ map_hosts entries \/ x ∈ hosts) /\ x ≠ "" /\ ParseIP x = true.
Proof.
  intros Hp. pose proof (SANs_of_normal ais entries hosts) as Hn.
  assert (forall x, x ∈ (SANs_of ais entries hosts).2 <->
    (x ∈ map_hosts entries \/ x ∈ hosts) /\ x ≠ "" /\ ParseIP x = true) as Hips.
  { intros x. unfold SANs_of, NormalizeSANs. cbv zeta. cbn [snd]. rewrite elem_of_normalize.
    destruct (GetTLSCertificate ais); cbn [snd]; rewrite !(proj2 (elem_of_AppendHosts _ _ _)); cbn;
      rewrite elem_of_nil; tauto. }
  unfold buildCertificateSANs. rewrite <-(SANs_of_perm ais _ _ hosts Hp).
  destruct (SANs_of ais entries hosts) as [dns ips]. split_and!; try apply Hn; done.
Qed.
End Names.

(** ** Pods and AIS nodes *)

(** An AIS node is attributed to at most one pod of a StatefulSet: if a node of the cluster
    map is found for ordinal [i] then it is found for no other ordinal, even though pod names
    can be prefixes of one another. *)
Theorem node_of_one_pod ais nodes node i j :
  findAISNodeByPodName nodes (Target.PodName ais i) = Ok node ->
  findAISNodeByPodName nodes (Target.PodName ais j) = Ok node -> i = j.
Proof.
  intros [_ Hi]%findAISNode_Ok [_ Hj]%findAISNode_Ok. unfold Target.PodName in *.
  by eapply hostname_ordinal_unique.
Qed.
