(* ===== verification/Webhook.v ===== *)
(** * Admission of AIStore objects

    [internal/webhook/aistore/v1beta1/aistore_webhook.go] and [internal/webhook/common.go]:
    what the validating webhook accepts, with the fields that may not change once a cluster
    exists and the check that the submitting user may use the credentials a spec refers to.
    Reads and the subject access review are requests, as in the controllers. *)

From S2P Require Import Prelude Effects K8sTypes AISConfig AIStoreTypes ThirdParty AuthConf AIStoreMethods AIStoreFacts Validation CmnResources.

(** ** Requests *)

(** The user of the admission request ([authenticationv1.UserInfo]). *)
Record UserInfo := MkUserInfo {
  ui_Username : string; ui_UID : string; ui_Groups : list string;
  ui_Extra : gmap string (list string) }.

Record ResourceAttributes := MkAttributes {
  ra_Namespace : string; ra_Verb : string; ra_Group : string; ra_Version : string;
  ra_Resource : string; ra_Name : string }.

(** A [SubjectAccessReview] as it is created. *)
Record AccessReview := MkAccessReview { ar_User : UserInfo; ar_Attributes : ResourceAttributes }.

Inductive wreq :=
| WListNodes (sel : labels)
| WListStorageClasses
| WGetAuthProfile (name : string)
| WGetSecret (name : nsname)             (* through the cache *)
| WGetSecretDirect (name : nsname)       (* from the API server *)
| WGetConfigMapDirect (name : nsname)
| WAdmissionRequest   (* the user of the request in the context *)
| WReview (sar : AccessReview).

(** A review answers whether the access is allowed, a read of a secret or config map its data. *)
Definition wanswer (r : wreq) : Type :=
  match r with
  | WListNodes _ => res (list Node)
  | WListStorageClasses => res (list string)
  | WGetAuthProfile _ => res AIStoreAuthProfile
  | WGetSecret _ | WGetSecretDirect _ | WGetConfigMapDirect _ => res labels
  | WAdmissionRequest => res UserInfo
  | WReview _ => res bool
  end.

Abbreviation W := (@M wreq wanswer unit).

(** ** Error values of [apierrors] and [field] *)

(** [field.Error] by the path and the detail. *)
Inductive field_error :=
| field_Invalid (path value detail : string)
| field_Forbidden (path detail : string).

Definition field_message (e : field_error) : string :=
  match e with
  | field_Invalid p v d => p +:+ ": Invalid value: " +:+ quoted v +:+ ": " +:+ d
  | field_Forbidden p d => p +:+ ": Forbidden: " +:+ d
  end.

(** [apierrors.NewInvalid] for one field of an AIStore; [apierrors.NewInternalError]. *)
Definition NewInvalid (kind_ name : string) (e : field_error) : error :=
  MkError EkInvalid (kind_ +:+ " " +:+ quoted name +:+ " is invalid: " +:+ field_message e).
Definition NewInternalError (msg : string) : error :=
  MkError EkInternal ("Internal error occurred: " +:+ msg).

(** ** Authorization *)

Definition describeResource (a : ResourceAttributes) : string :=
  if bool_decide (ra_Namespace a = "") then ra_Resource a +:+ " resource " +:+ quoted (ra_Name a)
  else ra_Resource a +:+ " resource " +:+ quoted (ra_Name a) +:+ " in namespace " +:+ quoted (ra_Namespace a).

Definition with_verb (a : ResourceAttributes) (verb : string) : ResourceAttributes :=
  MkAttributes (ra_Namespace a) verb (ra_Group a) (ra_Version a) (ra_Resource a) (ra_Name a).

(** [Ok None] when allowed, [Ok (Some _)] when denied. *)
Definition Authorize (verb path : string) (attrs : ResourceAttributes) : W (res (option field_error)) :=
  let? userInfo := call WAdmissionRequest
    else e => mret (Err (NewInternalError ("cannot authorize " +:+ describeResource attrs +:+ ": " +:+ err_msg e))) in
  let? allowed := call (WReview (MkAccessReview userInfo (with_verb attrs verb)))
    else e => mret (Err (NewInternalError ("authorizing " +:+ describeResource attrs +:+ ": " +:+ err_msg e))) in
  mret (Ok (if allowed : bool then None
            else Some (field_Forbidden path ("user " +:+ quoted (ui_Username userInfo) +:+
                         " is not authorized to " +:+ verb +:+ " " +:+ describeResource attrs)))).

Definition AuthorizeGet (path : string) (attrs : ResourceAttributes) : W (res (option field_error)) :=
  Authorize "get" path attrs.

Definition AIStoreKind : string := "AIStore.ais.nvidia.com".

Definition authorize (ais : AIStore) (verb path : string) (attrs : ResourceAttributes) : W (res unit) :=
  let? fieldErr := Authorize verb path attrs else e => mret (Err e) in
  mret (match fieldErr with
        | None => Ok tt
        | Some fe => Err (NewInvalid AIStoreKind (aname ais) fe)
        end).

(** ** Access to the auth configuration *)

Definition authSecretNamespace (ais : AIStore) (up : UsernamePasswordAuth) : string :=
  default (nn_namespace (ais_Name ais)) (up_SecretNamespace up).

Definition username_password (ais : AIStore) : option UsernamePasswordAuth :=
  a ← Auth (Spec ais); as_UsernamePassword a.
Definition profile_ref (ais : AIStore) : option string :=
  a ← Auth (Spec ais); as_ProfileRef a.

(** The secret of a spec, by namespace and name. *)
Definition secret_of (ais : AIStore) (up : UsernamePasswordAuth) : string * string :=
  (up_SecretName up, authSecretNamespace ais up).

Definition secret_attributes (ais : AIStore) (up : UsernamePasswordAuth) : ResourceAttributes :=
  MkAttributes (authSecretNamespace ais up) "" "" "" "secrets" (up_SecretName up).

Definition profile_attributes (name : string) : ResourceAttributes :=
  MkAttributes "" "" "auth.ais.nvidia.com" "v1alpha1" "aistoreauthprofiles" name.

Definition validateAuthSecret (prev : option AIStore) (ais : AIStore) : W (res unit) :=
  match username_password ais with
  | None => mret (Ok tt)
  | Some up =>
      let unchanged := match prev with
        | Some p => match username_password p with
                    | Some q => bool_decide (secret_of p q = secret_of ais up)
                    | None => false end
        | None => false end in
      if unchanged then mret (Ok tt)
      else authorize ais "get" "spec.auth.usernamePassword" (secret_attributes ais up)
  end.

Definition validateAuthProfileExistence (path aisName profName : string) : W (res unit) :=
  let? _ := call (WGetAuthProfile profName)
    else e => mret (Err (if is_not_found e
                         then NewInvalid AIStoreKind aisName
                                (field_Invalid path profName "referenced AIStoreAuthProfile does not exist")
                         else NewInternalError ("checking AIStoreAuthProfile " +:+ quoted profName +:+ ": " +:+ err_msg e))) in
  mret (Ok tt).

Definition validateAuthProfile (prev : option AIStore) (ais : AIStore) : W (res unit) :=
  match profile_ref ais with
  | None => mret (Ok tt)
  | Some ref =>
      let unchanged := match prev with Some p => bool_decide (profile_ref p = Some ref) | None => false end in
      if unchanged then mret (Ok tt)
      else
        let path := "spec.auth.profileRef" in
        let? _ := authorize ais "use" path (profile_attributes ref) else e => mret (Err e) in
        validateAuthProfileExistence path (aname ais) ref
  end.

Definition validateAuthAccess (prev : option AIStore) (ais : AIStore) : W (res unit) :=
  let? _ := validateAuthProfile prev ais else e => mret (Err e) in
  validateAuthSecret prev ais.

(** ** Resources of the cluster *)

Section Webhook.
Context `{T : ThirdParty}.

Definition node_warning (daeType : string) (requiredSize found : Z) : string :=
  "spec for AIS " +:+ daeType +:+ " requires more K8s nodes matching the given selector: expected '" +:+
  pretty requiredSize +:+ "' but found '" +:+ pretty found +:+ "'".

(** The check for one daemon once its size and selector are known. *)
Definition count_nodes (daeType : string) (requiredSize : Z) (sel : labels) : W (res Warnings) :=
  let? nodes := call (WListNodes sel) else e => mret (Err e) in
  let found := Z.of_nat (length nodes) in
  mret (Ok (if requiredSize <=? found then [] else [node_warning daeType requiredSize found])).

Definition verifyNodesAvailable (ais : AIStore) (daeType : string) : W (res Warnings) :=
  if bool_decide (daeType = apc_Proxy) then
    size ← deref (GetProxySize ais);
    count_nodes daeType size (node_selector (ProxySpec (Spec ais)))
  else if bool_decide (daeType = apc_Target) then
    if AllowTargetSharedNodes ais then mret (Ok [])
    else
      size ← deref (GetTargetSize ais);
      count_nodes daeType size (node_selector (target_ds (Spec ais)))
  else mret (Err (errorf ("invalid daemon type: " +:+ daeType))).

Definition verifyRequiredStorageClasses (ais : AIStore) : W (res unit) :=
  let? classes := call WListStorageClasses else e => mret (Err e) in
  mret (match StateStoragePVCStorageClass (Spec ais) with
        | Some sc => if bool_decide (sc ∈ classes) then Ok tt
                     else Err (errorf ("required storage class '" +:+ sc +:+ "' not found"))
        | None => Ok tt
        end).

(** Warnings and the error, as Go returns both. *)
Abbreviation verdict_ := (Warnings * option error)%type.

Definition validateSpec (prev : option AIStore) (ais : AIStore) : W verdict_ :=
  let '(allWarnings, err) := ValidateSpec ais in
  match err with
  | Some e => mret (allWarnings, Some e)
  | None =>
      let? warnings := verifyNodesAvailable ais apc_Proxy else e => mret (allWarnings, Some e) in
      let allWarnings := allWarnings ++ warnings in
      let? warnings := verifyNodesAvailable ais apc_Target else e => mret (allWarnings, Some e) in
      let allWarnings := allWarnings ++ warnings in
      let? _ := verifyRequiredStorageClasses ais else e => mret (allWarnings, Some e) in
      r ← validateAuthAccess prev ais;
      mret (allWarnings, err_of r)
  end.

Definition ValidateCreate (ais : AIStore) : W verdict_ := validateSpec None ais.

(** ** Fields that may not change *)

(** [prev] with the fields of [spec] that may change on an existing cluster. *)
Definition allowDaemonSpecUpdates (prev spec : DaemonSpec) : DaemonSpec :=
  MkDaemonSpec (ds_ServiceSpec prev) (ds_SecurityContext spec) (ds_Size spec) (ds_AutoScaleConf spec)
    (ds_Annotations spec) (ds_Labels spec) (ds_Resources spec) (ds_Capabilities spec)
    (ds_AISContainerSecurityContext spec) (ds_Env spec) (ds_Affinity prev) (ds_NodeSelector prev)
    (ds_Tolerations spec) (ds_HostPort prev) (ds_PVCRetentionPolicy spec) (ds_Probes spec)
    (ds_ExternalAccess prev).

(** A daemon spec up to what [equality.Semantic] does not distinguish: a missing and an empty
    node selector. *)
Definition semantic_ds (ds : DaemonSpec) : DaemonSpec :=
  MkDaemonSpec (ds_ServiceSpec ds) (ds_SecurityContext ds) (ds_Size ds) (ds_AutoScaleConf ds)
    (ds_Annotations ds) (ds_Labels ds) (ds_Resources ds) (ds_Capabilities ds)
    (ds_AISContainerSecurityContext ds) (ds_Env ds) (ds_Affinity ds) (Some (node_selector ds))
    (ds_Tolerations ds) (ds_HostPort ds) (ds_PVCRetentionPolicy ds) (ds_Probes ds) (ds_ExternalAccess ds).
Definition semantic_ts (ts : TargetSpec) : TargetSpec :=
  MkTargetSpec (semantic_ds (ts_DaemonSpec ts)) (ts_Mounts ts) (ts_DisablePodAntiAffinity ts)
    (ts_HostNetwork ts) (ts_PodDisruptionBudget ts) (ts_ScaleDownMode ts).

(** [deep.Equal] lists the differences for the message. *)
Context (deep_diff : forall {A : Type}, A -> A -> list string).

Definition errCannotUpdateSpec (specName : string) (diff : list string) : error :=
  let msg := "cannot update spec " +:+ quoted specName +:+ " for an existing cluster" in
  errorf (if bool_decide (diff ≠ []) then msg +:+ ", diff: [" +:+ join ", " diff +:+ "]" else msg).

Definition validateProxyUpdate (prev ais : AIStore) : option error :=
  let p := allowDaemonSpecUpdates (ProxySpec (Spec prev)) (ProxySpec (Spec ais)) in
  if negb (DeepEqual (semantic_ds (ProxySpec (Spec ais))) (semantic_ds p))
  then Some (errCannotUpdateSpec "proxySpec" (deep_diff _ (ProxySpec (Spec ais)) p))
  else None.

Definition validateTargetUpdate (prev ais : AIStore) : option error :=
  let t := spec_TargetSpec (Spec prev) in
  let u := spec_TargetSpec (Spec ais) in
  let p := MkTargetSpec (allowDaemonSpecUpdates (ts_DaemonSpec t) (ts_DaemonSpec u)) (ts_Mounts t)
             (ts_DisablePodAntiAffinity t) (ts_HostNetwork t) (ts_PodDisruptionBudget u) (ts_ScaleDownMode u) in
  if negb (DeepEqual (semantic_ts u) (semantic_ts p))
  then Some (errCannotUpdateSpec "targetSpec" (deep_diff _ u p))
  else None.

Definition validateStateStorageUpdate (prev ais : AIStore) : option error :=
  let now := StateStoragePVCStorageClass (Spec ais) in
  if negb (DeepEqual now (StateStoragePVCStorageClass (Spec prev))) && bool_decide (is_Some now)
  then Some (errCannotUpdateSpec "stateStorage.pvc.storageClass" [])
  else None.

(** The Go code works on [prev] in place; nothing after a check reads what the check changed. *)
Definition ValidateUpdate (prev ais : AIStore) : W verdict_ :=
  v ← validateSpec (Some prev) ais;
  let '(warnings, err) := v in
  mret (warnings,
    match err with
    | Some e => Some e
    | None =>
        match validateProxyUpdate prev ais with
        | Some e => Some e
        | None =>
            match validateTargetUpdate prev ais with
            | Some e => Some e
            | None =>
                if negb (Bool.eqb (EnableExternalLB (Spec ais)) (EnableExternalLB (Spec prev)))
                then Some (errCannotUpdateSpec "enableExternalLB" [])
                else validateStateStorageUpdate prev ais
            end
        end
    end).

Definition ValidateDelete (ais : AIStore) : W verdict_ := mret ([], None).
End Webhook.
