(* ===== verification/WebhookFacts.v ===== *)
(** * What the admission webhook guarantees

    Immutable fields, authorized credentials and the absence of panics, for every answer of
    the API server. *)

From S2P Require Import Prelude Effects K8sTypes AISConfig AIStoreTypes ThirdParty AuthConf AIStoreMethods AIStoreFacts Validation CmnResources Webhook SpecFacts.

Abbreviation wtrace := (list (@event wreq wanswer)).

(** ** Immutable fields *)

(** The parts of a daemon spec that never change on an existing cluster. *)
Definition fixed_daemon (ds : DaemonSpec) :=
  (ds_ServiceSpec ds, ds_Affinity ds, node_selector ds, ds_HostPort ds, ds_ExternalAccess ds).

(** The parts of a spec that never change. *)
Definition fixed_spec (s : AIStoreSpec) :=
  let t := spec_TargetSpec s in
  (fixed_daemon (ProxySpec s), fixed_daemon (target_ds s),
   (ts_Mounts t, ts_DisablePodAntiAffinity t, ts_HostNetwork t), EnableExternalLB s).

(** The claims of the state storage may be given up, but neither introduced nor changed. *)
Definition claims_kept (prev ais : AIStore) : Prop :=
  let now := StateStoragePVCStorageClass (Spec ais) in
  now = None \/ now = StateStoragePVCStorageClass (Spec prev).

Definition update_allowed (prev ais : AIStore) : Prop :=
  fixed_spec (Spec ais) = fixed_spec (Spec prev) /\ claims_kept prev ais.

(** ** Credentials *)

(** The user of the request was asked about, and is allowed the access. *)
Definition allowed (t : wtrace) (verb : string) (a : ResourceAttributes) : Prop :=
  exists u, ev WAdmissionRequest (Ok u) ∈ t /\
            ev (WReview (MkAccessReview u (with_verb a verb))) (Ok true) ∈ t.

(** Every credential the spec newly refers to was authorized, and a profile exists. *)
Definition credentials_authorized (prev : option AIStore) (ais : AIStore) (t : wtrace) : Prop :=
  (forall name, profile_ref ais = Some name -> (forall p, prev = Some p -> profile_ref p ≠ Some name) ->
     allowed t "use" (profile_attributes name) /\
     exists p, ev (WGetAuthProfile name) (Ok p) ∈ t) /\
  (forall up, username_password ais = Some up ->
     (forall p q, prev = Some p -> username_password p = Some q -> secret_of p q ≠ secret_of ais up) ->
     allowed t "get" (secret_attributes ais up)).

Section Facts.
Context `{T : ThirdParty, L : !ThirdPartyLaws T}.
Context (deep_diff : forall {A : Type}, A -> A -> list string).

Lemma DeepEqual_iff {A} `{EqDecision A} (x y : A) : DeepEqual x y = bool_decide (x = y).
Proof.
  case_bool_decide as Hxy; [by apply DeepEqual_spec|].
  apply not_true_is_false. by rewrite DeepEqual_spec.
Qed.

Lemma fixed_daemon_spec p d :
  semantic_ds d = semantic_ds (allowDaemonSpecUpdates p d) <-> fixed_daemon d = fixed_daemon p.
Proof.
  destruct d, p. unfold semantic_ds, fixed_daemon, node_selector. cbn.
  split; intros H; repeat (injection H; clear H; intros); subst; congruence.
Qed.

Lemma validateProxyUpdate_spec prev ais :
  validateProxyUpdate (T := T) deep_diff prev ais = None <->
  fixed_daemon (ProxySpec (Spec ais)) = fixed_daemon (ProxySpec (Spec prev)).
Proof.
  unfold validateProxyUpdate. rewrite DeepEqual_iff, <-fixed_daemon_spec.
  case_bool_decide; cbn; by split.
Qed.

Lemma validateTargetUpdate_spec prev ais :
  let t := spec_TargetSpec (Spec ais) in let u := spec_TargetSpec (Spec prev) in
  validateTargetUpdate (T := T) deep_diff prev ais = None <->
  fixed_daemon (target_ds (Spec ais)) = fixed_daemon (target_ds (Spec prev)) /\
  (ts_Mounts t, ts_DisablePodAntiAffinity t, ts_HostNetwork t) =
  (ts_Mounts u, ts_DisablePodAntiAffinity u, ts_HostNetwork u).
Proof.
  cbv zeta. unfold validateTargetUpdate, target_ds. rewrite DeepEqual_iff.
  unfold semantic_ts. cbn. rewrite <-fixed_daemon_spec.
  case_bool_decide as H; cbn.
  - injection H as ? ? ? ?. split; [|done]. intros _. split; [|congruence]. unfold semantic_ds. cbn in *. congruence.
  - split; [done|]. intros [H1 H2]. destruct H. injection H2 as ? ? ?. rewrite H1. congruence.
Qed.

Lemma validateStateStorageUpdate_spec prev ais :
  validateStateStorageUpdate (T := T) prev ais = None <-> claims_kept prev ais.
Proof.
  unfold validateStateStorageUpdate, claims_kept. rewrite DeepEqual_iff.
  destruct (StateStoragePVCStorageClass (Spec ais)) as [c|].
  - rewrite (bool_decide_eq_true_2 (is_Some _)) by eauto. case_bool_decide; cbn; naive_solver.
  - rewrite (bool_decide_eq_false_2 (is_Some _)) by (by intros []). rewrite andb_false_r. naive_solver.
Qed.

(** The checks of an update after those of the spec. *)
Lemma update_checks prev ais :
  match validateProxyUpdate (T := T) deep_diff prev ais with
  | Some e => Some e
  | None =>
      match validateTargetUpdate (T := T) deep_diff prev ais with
      | Some e => Some e
      | None =>
          if negb (Bool.eqb (EnableExternalLB (Spec ais)) (EnableExternalLB (Spec prev)))
          then Some (errCannotUpdateSpec "enableExternalLB" [])
          else validateStateStorageUpdate (T := T) prev ais
      end
  end = None <-> update_allowed prev ais.
Proof.
  unfold update_allowed, fixed_spec. rewrite <-validateStateStorageUpdate_spec.
  pose proof (validateProxyUpdate_spec prev ais) as HP. pose proof (validateTargetUpdate_spec prev ais) as HT.
  cbv zeta in HT. destruct (validateProxyUpdate _ _ _) as [e|].
  { split; [done|]. intros [H _]. destruct HP as [_ HP]. discriminate HP. congruence. }
  destruct (validateTargetUpdate _ _ _) as [e|].
  { split; [done|]. intros [H _]. destruct HT as [_ HT]. discriminate HT. split; congruence. }
  destruct HP as [HP _], HT as [HT _]. specialize (HP eq_refl). destruct (HT eq_refl) as [HT1 HT2].
  destruct (Bool.eqb _ _) eqn:He; cbn.
  - apply Bool.eqb_prop in He. split; [|by intros [_ ?]]. intros H. split; [congruence | done].
  - split; [done|]. intros [H _]. apply Bool.eqb_false_iff in He. congruence.
Qed.

End Facts.

(** ** Theorems *)

Section Theorems.
Context `{T : ThirdParty, L : !ThirdPartyLaws T}.
Context (deep_diff : forall {A : Type}, A -> A -> list string).

(** C27. An update of an existing cluster is accepted exactly when the new spec is acceptable
    by itself and, compared with the stored one, leaves alone the ports, affinity, node
    selector, host port and external access of both daemons, the mounts, anti-affinity and
    network of the targets and the external load balancer switch, and keeps or gives up the
    storage class of the state claims. *)
Theorem update_judged prev ais t s w err :
  exec (ValidateUpdate deep_diff prev ais s) t (Some (s, (w, err))) ->
  exists err0, exec (validateSpec (Some prev) ais s) t (Some (s, (w, err0))) /\
    (err = None <-> err0 = None /\ update_allowed prev ais).
Proof.
  intros Hex. apply exec_bind in Hex as [(t1 & [[] [w0 err0]] & t2 & H1 & H2 & ->)|[_ ?]]; [|done].
  apply exec_inv in H2 as [-> H2]. injection H2 as -> -> Herr. rewrite app_nil_r.
  exists err0. split; [done|]. rewrite Herr. destruct err0 as [e|]; [naive_solver|].
  rewrite (update_checks deep_diff). naive_solver.
Qed.

Lemma Authorize_wp verb path attrs h :
  wpm False (fun _ _ => True) (Authorize verb path attrs) tt h (fun h' _ r =>
    h `suffix_of` h' /\ (r = Ok None -> allowed (rev h') verb attrs)).
Proof.
  unfold Authorize. wp_step. wp_call; [done|]. intros [u|e].
  2:{ wp_step. split; [by apply suffix_cons_r|done]. }
  wp_step. wp_call; [done|]. intros [[]|e]; wp_step; (split; [by do 2 apply suffix_cons_r|]); try done.
  intros _. exists u. split; [apply in_trace_later|]; apply in_trace_here.
Qed.

Lemma authorize_wp ais verb path attrs h :
  wpm False (fun _ _ => True) (authorize ais verb path attrs) tt h (fun h' _ r =>
    h `suffix_of` h' /\ (r = Ok tt -> allowed (rev h') verb attrs)).
Proof.
  unfold authorize. wp_step. eapply wpm_mono; [apply Authorize_wp|].
  intros h' [] [[fe|]|e] [Hs Ha]; wp_step; (split; [done|]); try done. intros _. by apply Ha.
Qed.

Lemma allowed_mono h h' verb attrs : h `suffix_of` h' -> allowed (rev h) verb attrs -> allowed (rev h') verb attrs.
Proof. intros Hs (u & H1 & H2). exists u. split; by eapply elem_of_rev_later. Qed.

Lemma validateAuthProfile_wp prev ais h :
  wpm False (fun _ _ => True) (validateAuthProfile prev ais) tt h (fun h' _ r => r = Ok tt ->
    forall name, profile_ref ais = Some name -> (forall p, prev = Some p -> profile_ref p ≠ Some name) ->
      allowed (rev h') "use" (profile_attributes name) /\
      exists p, ev (WGetAuthProfile name) (Ok p) ∈ rev h').
Proof.
  unfold validateAuthProfile. destruct (profile_ref ais) as [ref|]; [|by wp_step].
  destruct (match prev with Some p => _ | None => false end) eqn:Hu.
  - wp_step. intros _ name [= <-] Hp. destruct prev as [p|]; [|done].
    apply bool_decide_eq_true in Hu. by destruct (Hp p eq_refl).
  - cbv zeta. wp_step. eapply wpm_mono; [apply authorize_wp|]. intros h' [] [[]|e] [Hs Ha]; [|by wp_step].
    unfold validateAuthProfileExistence. wp_step. wp_call; [done|]. intros [p|e]; [|by wp_step].
    wp_step. intros _ name [= <-] _. split; [|exists p; apply in_trace_here].
    eapply allowed_mono; [|by apply Ha]. by apply suffix_cons_r.
Qed.

Lemma validateAuthSecret_wp prev ais h :
  wpm False (fun _ _ => True) (validateAuthSecret prev ais) tt h (fun h' _ r => h `suffix_of` h' /\ (r = Ok tt ->
    forall up, username_password ais = Some up ->
      (forall p q, prev = Some p -> username_password p = Some q -> secret_of p q ≠ secret_of ais up) ->
      allowed (rev h') "get" (secret_attributes ais up))).
Proof.
  unfold validateAuthSecret. destruct (username_password ais) as [up|]; [|by wp_step].
  destruct (match prev with Some p => _ | None => false end) eqn:Hu.
  - wp_step. split; [done|]. intros _ up' [= <-] Hp. destruct prev as [p|]; [|done].
    destruct (username_password p) as [q|] eqn:Hq; [|done].
    apply bool_decide_eq_true in Hu. by destruct (Hp p q eq_refl Hq).
  - eapply wpm_mono; [apply authorize_wp|]. intros h' [] r [Hs Ha]. split; [done|].
    intros Hr up' [= <-] _. by apply Ha.
Qed.

Lemma validateAuthAccess_wp prev ais h :
  wpm False (fun _ _ => True) (validateAuthAccess prev ais) tt h (fun h' _ r =>
    r = Ok tt -> credentials_authorized prev ais (rev h')).
Proof.
  unfold validateAuthAccess. wp_step. eapply wpm_mono; [apply validateAuthProfile_wp|].
  intros h1 [] [[]|e] Hp; [|by wp_step]. eapply wpm_mono; [apply validateAuthSecret_wp|].
  intros h2 [] r [Hs Hsec] Hr. split; [|by apply Hsec].
  intros name Hn Hprev. destruct (Hp eq_refl name Hn Hprev) as [Ha (p & Hget)].
  split; [by eapply allowed_mono | exists p; by eapply elem_of_rev_later].
Qed.
Lemma sizes_defined ais :
  (ValidateSpec ais).2 = None -> is_Some (GetProxySize ais) /\ is_Some (GetTargetSize ais).
Proof.
  intros H. apply ValidateSpec_checks in H. unfold validations in H.
  assert ((validateSize ais).2 = None) as Hv by (rewrite !Forall_cons in H; apply H).
  destruct (validateSize_proxy ais Hv) as (n & -> & _), (validateSize_target ais Hv) as (m & -> & _). eauto.
Qed.

Lemma verifyNodesAvailable_wp ais daeType h :
  is_Some (GetProxySize ais) -> is_Some (GetTargetSize ais) ->
  wpm False (fun _ _ => True) (verifyNodesAvailable ais daeType) tt h (fun _ _ _ => True).
Proof.
  intros [n Hn] [m Hm]. unfold verifyNodesAvailable, count_nodes. rewrite Hn, Hm.
  repeat (first [wp_step | intros [?|?] | split | done]).
Qed.

(** Both entry points: no panic, and an accepted spec has authorized credentials. *)
Lemma validateSpec_wp prev ais h :
  wpm False (fun _ _ => True) (validateSpec prev ais) tt h (fun h' _ v =>
    v.2 = None -> credentials_authorized prev ais (rev h')).
Proof.
  unfold validateSpec. destruct (ValidateSpec ais) as [w [e|]] eqn:Hv; [by wp_step|].
  destruct (sizes_defined ais) as [Hp Ht]; [by rewrite Hv|].
  wp_step. eapply wpm_mono; [by apply verifyNodesAvailable_wp|]. intros h1 [] [w1|e] _; [|by wp_step].
  wp_step. eapply wpm_mono; [by apply verifyNodesAvailable_wp|]. intros h2 [] [w2|e] _; [|by wp_step].
  wp_step. unfold verifyRequiredStorageClasses. wp_step. wp_call; [done|]. intros [cs|e]; [|by do 2 wp_step].
  wp_step. destruct (match StateStoragePVCStorageClass (Spec ais) with Some _ => _ | None => _ end); [|by wp_step].
  wp_step. eapply wpm_mono; [apply validateAuthAccess_wp|]. intros h3 [] r Hr. wp_step.
  destruct r as [[]|e]; [|done]. intros _. by apply Hr.
Qed.

Lemma ValidateUpdate_wp prev ais h :
  wpm False (fun _ _ => True) (ValidateUpdate deep_diff prev ais) tt h (fun h' _ v =>
    v.2 = None -> credentials_authorized (Some prev) ais (rev h')).
Proof.
  unfold ValidateUpdate. wp_step. eapply wpm_mono; [apply validateSpec_wp|].
  intros h' [] [w [e|]] Hc; wp_step; [done|]. intros _. by apply Hc.
Qed.

(** C28. Credentials cannot be borrowed through the operator: whenever a new or updated object
    is accepted, the submitting user was asked about and allowed to use the auth profile, and to
    read the secret, it refers to, unless the stored object refers to the same one already; and
    the profile exists. *)
Theorem accepted_credentials_authorized prev ais :
  (forall t s w, exec (ValidateCreate ais tt) t (Some (s, (w, None))) -> credentials_authorized None ais t) /\
  (forall t s w, exec (ValidateUpdate deep_diff prev ais tt) t (Some (s, (w, None))) ->
     credentials_authorized (Some prev) ais t).
Proof.
  split; intros t s w Hex.
  - exact (returns_wp _ (fun t p => p.2.2 = None -> credentials_authorized None ais t) t (s, (w, None))
      (wp_mono False True _ _ _ _ _ _ (fun _ => I) (fun _ _ H => H) (fun _ _ H => H)
         (validateSpec_wp None ais [])) Hex eq_refl).
  - exact (returns_wp _ (fun t p => p.2.2 = None -> credentials_authorized (Some prev) ais t) t (s, (w, None))
      (wp_mono False True _ _ _ _ _ _ (fun _ => I) (fun _ _ H => H) (fun _ _ H => H)
         (ValidateUpdate_wp prev ais [])) Hex eq_refl).
Qed.

(** C29. The webhook never panics, whatever is submitted and whatever the API server answers:
    the sizes it dereferences exist once the spec has passed its own validation. *)
Theorem webhook_never_panics prev ais t :
  ~ exec (ValidateCreate ais tt) t None /\ ~ exec (ValidateUpdate deep_diff prev ais tt) t None.
Proof. split; eapply no_panic; [apply validateSpec_wp | apply ValidateUpdate_wp]. Qed.
End Theorems.
