(* ===== verification/AuthN.v ===== *)
(** * Tokens of the auth service

    [internal/services/authn_api.go] with [auth_spec.go], [auth_profile.go] and
    [internal/truststore/certpool.go]: how the operator obtains the token it presents to an
    AIS cluster, by password (AuthN or OAuth) or by token exchange, and the TLS configuration
    of the connection. Calls to the API server, the file system, the clock and the network are
    requests, and the clients kept by the client manager are the state. *)

From S2P Require Import Prelude Effects K8sTypes AISConfig AIStoreTypes ThirdParty AuthConf AIStoreMethods CmnResources Certificates.

(** ** Values *)

(** A pool of trusted certificates: the system's, and the PEM texts appended to it. *)
Record CertPool := MkCertPool { pool_System : bool; pool_PEMs : list string }.

(** The parts of a [tls.Config] the operator sets. *)
Record TLSConfig := MkTLSConfig {
  tls_MinVersion12 : bool; tls_RootCAs : option CertPool; tls_InsecureSkipVerify : bool;
  tls_ClientCertificate : option (string * string) }.
Definition empty_tls : TLSConfig := MkTLSConfig false None false None.

(** [api.BaseParams]. *)
Record BaseParams := MkBaseParams {
  bp_URL : string; bp_Token : string; bp_TLS : option TLSConfig }.

(** [None] is the zero time: no expiration. *)
Record TokenInfo := MkTokenInfo { Token : string; ExpiresAt : option Z }.

(** A client and whether its last calls were rejected ([AIStoreClient]). *)
Record AIStoreClient := MkClient {
  c_params : BaseParams; c_mode : string; c_tlsCfg : option TLSConfig;
  c_tokenExpireAt : option Z; c_authFailed : bool }.

(** The clients by address, the cache by cluster, and the TTL once it was determined
    ([tlsCacheTTLOnce]). *)
Record Services := MkServices {
  clients : gmap Z AIStoreClient; next_client : Z;
  clientMap : gmap nsname Z; tlsConfigCacheTTL : option Z }.

(** Operations of the AIS API and what they return. *)
Inductive api_op :=
| OpDecommissionCluster (rmUserData : bool)
| OpDecommissionNode (act : ActValRmNode)
| OpGetClusterMap
| OpHealth (readyToRebalance : bool)
| OpSetClusterConfigUsingMsg (conf : ConfigToSet) (transient : bool)
| OpSetPrimary (id url : string) (force : bool)
| OpShutdownCluster
| OpStartMaintenance (act : ActValRmNode).

Definition op_result (o : api_op) : Type :=
  match o with
  | OpGetClusterMap => Smap
  | OpDecommissionNode _ | OpStartMaintenance _ => string
  | _ => unit
  end.

(** The JSON of a token response ([tokenExchangeResponse], which extends the OAuth one). *)
Record TokenResponse := MkTokenResponse {
  tr_AccessToken : string; tr_TokenType : string; tr_ExpiresIn : Z;
  tr_IssuedTokenType : string; tr_Token : string }.

(** A directory entry; the children of a directory are in lexical order, with the error of
    reading it, if any. *)
Inductive fs_entry :=
| FsFile (name : string)
| FsDir (name : string) (children : list fs_entry) (err : option error).

(** ** Requests *)

Inductive sreq :=
| SNow
| SLookupEnv (name : string)
| SGetService (name : nsname)
| SListPods (namespace : string) (sel : labels)
| SGetAuthProfile (name : string)
| SGetSecret (name : nsname)
| SGetConfigMap (name : nsname)
| SStat (path : string)
| SReadFile (path : string)
| SWalk (root : string)
| SSystemCertPool
| SMintToken (sa : nsname) (audiences : list string) (expirationSeconds : Z)
| SLoginUser (params : BaseParams) (user pass : string) (expiresIn : Z)
| SPost (params : BaseParams) (url : string) (form : list (string * string))
| SApi (params : BaseParams) (op : api_op).

(** [SPost] answers the status code and the body. *)
Definition sanswer (r : sreq) : Type :=
  match r with
  | SNow => Z
  | SLookupEnv _ => option string
  | SGetService _ => res Service
  | SListPods _ _ => res (list Pod)
  | SGetAuthProfile _ => res AIStoreAuthProfile
  | SGetSecret _ => res labels
  | SGetConfigMap _ => res ConfigMap
  | SStat _ => res unit
  | SReadFile _ => res string
  | SWalk _ => res fs_entry
  | SSystemCertPool => res unit
  | SMintToken _ _ _ => res string
  | SLoginUser _ _ _ _ => res string
  | SPost _ _ _ => res (Z * string)
  | SApi _ op => res (op_result op)
  end.

Abbreviation SM := (@M sreq sanswer Services).
Abbreviation strace := (list (@event sreq sanswer)).

(** Library functions on text: PEM, URL, JSON, boolean and duration parsing; and the
    operator's own service account, looked up when it starts. *)
Class ServicesLib := {
  ValidPEM : string -> bool;                       (* [AppendCertsFromPEM] finds a certificate *)
  url_JoinPath : string -> string -> res string;   (* [url.JoinPath] *)
  DecodeTokenResponse : string -> res TokenResponse;
  ParseBool : string -> res bool;                  (* [cos.ParseBool] *)
  ParseDuration : string -> res Z;                 (* [time.ParseDuration] *)
  IsHTTPS : string -> bool;                        (* [cos.IsHTTPS] *)
  opinfo_ServiceAccount : nsname;
}.

(** ** Constants *)

Definition subjectTokenExpiration : Z := 10 * minute.
Definition RFC8693GrantType : string := "urn:ietf:params:oauth:grant-type:token-exchange".
Definition RFC8693SubjectTokenTypeJWT : string := "urn:ietf:params:oauth:token-type:jwt".
Definition AuthTLSCacheTTLEnv : string := "OPERATOR_AUTH_TLS_CACHE_TTL".
Definition defaultTLSConfigCacheTTL : Z := 6 * hour.
Definition DefaultAuthCACertPath : string := "/etc/ssl/certs/auth-ca/ca.crt".

Section AuthN.
Context `{SL : ServicesLib}.

(** ** Trust stores *)

(** [truststore.Config]. *)
Record TrustConfig := MkTrustConfig { CACertPaths : list string; CAPEMs : list string }.

Definition append_pem (pool : CertPool) (pem : string) : CertPool :=
  MkCertPool (pool_System pool) (pool_PEMs pool ++ [pem]).

(** Certificates that cannot be read or parsed are skipped. *)
Fixpoint load_paths (paths : list string) (pool : CertPool) : SM CertPool :=
  match paths with
  | [] => mret pool
  | p :: paths' =>
      r ← call (SReadFile p);
      load_paths paths' (match r with
        | Ok pem => if ValidPEM pem then append_pem pool pem else pool
        | Err _ => pool end)
  end.

(** In-memory certificates must parse. *)
Fixpoint add_pems (pems : list string) (i : Z) (pool : CertPool) : res CertPool :=
  match pems with
  | [] => Ok pool
  | pem :: pems' =>
      if ValidPEM pem then add_pems pems' (i + 1) (append_pem pool pem)
      else Err (errorf ("failed to parse in-memory CA certificate at index " +:+ pretty i))
  end.

Definition NewCertPool (c : TrustConfig) : SM (res CertPool) :=
  sys ← call SSystemCertPool;
  pool ← load_paths (CACertPaths c) (MkCertPool (is_ok sys) []);
  mret (add_pems (CAPEMs c) 0 pool).

Definition NewTLSConfig (c : TrustConfig) : SM (res TLSConfig) :=
  let? certPool := NewCertPool c else e => mret (Err (wrap "failed to create certificate pool" e)) in
  mret (Ok (MkTLSConfig true (Some certPool) false None)).

(** ** TLS configuration of the auth service *)

(** A [tlsCache]: the configuration with the time it was built. *)
Definition TLSCache : Type := option (TLSConfig * Z).

Definition getTLSConfigCacheTTL : SM Z :=
  m ← get;
  match tlsConfigCacheTTL m with
  | Some ttl => mret ttl
  | None =>
      v ← call (SLookupEnv AuthTLSCacheTTLEnv);
      let ttlStr := default "" v in
      let ttl := if bool_decide (ttlStr = "") then defaultTLSConfigCacheTTL
                 else match ParseDuration ttlStr with
                      | Err _ => defaultTLSConfigCacheTTL
                      | Ok ttl => if ttl <? minute then minute else ttl
                      end in
      modify (fun m => MkServices (clients m) (next_client m) (clientMap m) (Some ttl)) ≫= fun _ => mret ttl
  end.

(** The cached configuration if it is younger than [ttl]. *)
Definition cached (c : TLSCache) (ttl : Z) : SM (option TLSConfig) :=
  match c with
  | None => mret None
  | Some (conf, created) =>
      now ← call SNow; mret (if now - created <? ttl then Some conf else None)
  end.

(** What [tlsCache.get] builds from the trust store, to enter it in the cache. *)
Definition build_tls (source : SM (res TrustConfig)) (insecureSkipVerify : bool) : SM (res TLSConfig) :=
  let? trustConf := source else e => mret (Err e) in
  let? conf := NewTLSConfig trustConf else e => mret (Err (wrap "failed to create TLS config" e)) in
  mret (Ok (if insecureSkipVerify
            then MkTLSConfig (tls_MinVersion12 conf) (tls_RootCAs conf) true (tls_ClientCertificate conf)
            else conf)).

(** [tlsCache.get], by itself: checked before and after the write lock is taken. [TLSCacheLock]
    shows that concurrent calls behave as calls one after the other. *)
Definition tlsCache_get (c : TLSCache) (source : SM (res TrustConfig)) (insecureSkipVerify : bool)
    : SM (TLSCache * res TLSConfig) :=
  cacheTTL ← getTLSConfigCacheTTL;
  hit ← cached c cacheTTL;
  match hit with
  | Some conf => mret (c, Ok conf)
  | None =>
      hit ← cached c cacheTTL;
      match hit with
      | Some conf => mret (c, Ok conf)
      | None =>
          let? conf := build_tls source insecureSkipVerify else e => mret (c, Err e) in
          now ← call SNow;
          mret (Some (conf, now), Ok conf)
      end
  end.

Definition caCertPaths (configured : string) : SM (list string) :=
  if bool_decide (configured ≠ "") then mret [configured]
  else
    r ← call (SStat DefaultAuthCACertPath);
    mret (if is_ok r then [DefaultAuthCACertPath] else []).

(** [trustStoreConfig] of a profile; the configured path of an inline spec. *)
Definition trustStoreConfig (c : AuthConfig) : SM (res TrustConfig) :=
  match c with
  | AuthProfileConfig p =>
      match t ← ap_TLS p; apt_CAConfigMapRef t with
      | None => paths ← caCertPaths ""; mret (Ok (MkTrustConfig paths []))
      | Some ref =>
          let name := NN (apc_Namespace ref) (apc_Name ref) in
          let? configMap := call (SGetConfigMap name)
            else e => mret (Err (wrap ("failed to get CA ConfigMap " +:+ nn_namespace name +:+ "/" +:+ nn_name name) e)) in
          mret (match cm_Data configMap !! apc_Key ref with
                | None => Err (errorf ("CA ConfigMap " +:+ nn_namespace name +:+ "/" +:+ nn_name name +:+
                                       " has no key " +:+ quoted (apc_Key ref)))
                | Some pem => Ok (MkTrustConfig [] [pem])
                end)
      end
  | AuthSpecConfig s _ =>
      paths ← caCertPaths (SpecConfig.GetCACertPath s);
      mret (Ok (MkTrustConfig paths []))
  end.

Definition GetInsecureSkipVerify (c : AuthConfig) : bool :=
  match c with
  | AuthProfileConfig p => match ap_TLS p with Some t => apt_InsecureSkipVerify t | None => false end
  | AuthSpecConfig s _ => SpecConfig.GetInsecureSkipVerify s
  end.

(** [GetTLSConfig], for the cache embedded in the configuration object. *)
Definition GetTLSConfig (conf : AuthConfig) (c : TLSCache) : SM (TLSCache * res TLSConfig) :=
  tlsCache_get c (trustStoreConfig conf) (GetInsecureSkipVerify conf).

(** The cache of [conf] is not looked at again after the request. *)
Definition newAuthBaseParams (conf : AuthConfig) (c : TLSCache) : SM (res BaseParams) :=
  let serviceURL := GetServiceURL conf in
  if has_prefix serviceURL "https://" then
    r ← GetTLSConfig conf c;
    mret (match r.2 with
          | Err e => Err (wrap "failed to get TLS config for auth service" e)
          | Ok tlsConfig => Ok (MkBaseParams serviceURL "" (Some tlsConfig))
          end)
  else mret (Ok (MkBaseParams serviceURL "" None)).

(** ** Tokens by password *)

Record credentials := MkCredentials { user : string; pass : string }.

Definition getSecretData (namespace secretName : string) : SM (res labels) :=
  let? secret := call (SGetSecret (NN namespace secretName)) else e => mret (Err e) in
  mret (if bool_decide (secret = ∅)
        then Err (errorf ("auth Secret " +:+ secretName +:+ " in namespace " +:+ namespace +:+ " has no data"))
        else Ok secret).

(** A key of the secret that is present and not empty. *)
Definition secret_value (conf : AuthConfig) (data : labels) (key : string) : res string :=
  if bool_decide (index data key = "")
  then Err (errorf ("auth Secret " +:+ GetSecretNamespace conf +:+ "/" +:+ GetSecretName conf +:+
                    " missing key " +:+ quoted key))
  else Ok (index data key).

(** [strings.ToLower] on ASCII, for [strings.EqualFold] with "bearer". *)
Definition lower_ascii (a : ascii) : ascii :=
  let n := Ascii.nat_of_ascii a in
  if (65 <=? n)%nat && (n <=? 90)%nat then Ascii.ascii_of_nat (n + 32) else a.
Fixpoint lower (s : string) : string :=
  match s with EmptyString => EmptyString | String a s' => String (lower_ascii a) (lower s') end.

(** [time.Duration(n) * time.Second]: an [int64] product. *)
Definition seconds (n : Z) : Z := i64 (n * second).

(** The fields of the login form, by increasing key as [url.Values] encodes them. *)
Definition oauth_form (creds : credentials) (conf : OAuthLoginConf) : list (string * string) :=
  [("client_id", oa_ClientID conf); ("grant_type", "password"); ("password", pass creds)] ++
  (match oa_Scope conf with Some s => [("scope", s)] | None => [] end) ++
  [("username", user creds)].

Definition getTokenFromOAuth (params : BaseParams) (creds : credentials) (conf : OAuthLoginConf)
    : SM (res (option TokenInfo)) :=
  match (if bool_decide (oa_Endpoint conf ≠ "") then url_JoinPath (bp_URL params) (oa_Endpoint conf)
         else Ok (bp_URL params)) with
  | Err e => mret (Err (wrap "failed to create OAuth login request URL" e))
  | Ok requestURL =>
      let? resp := call (SPost params requestURL (oauth_form creds conf))
        else e => mret (Err (wrap "failed to send OAuth login request" e)) in
      let '(status, body) := resp in
      if (status <? 200) || (300 <=? status) then mret (Err (errorf ("OAuth login failed: " +:+ body)))
      else
        match DecodeTokenResponse body with
        | Err e => mret (Err (wrap "failed to decode OAuth token response" e))
        | Ok tokenResp =>
            if bool_decide (lower (tr_TokenType tokenResp) ≠ "bearer")
            then mret (Err (errorf ("unexpected token_type: " +:+ tr_TokenType tokenResp)))
            else
              now ← call SNow;
              mret (Ok (Some (MkTokenInfo (tr_AccessToken tokenResp)
                                (Some (now + seconds (tr_ExpiresIn tokenResp))))))
        end
  end.

Definition getTokenFromAuthN (params : BaseParams) (creds : credentials) : SM (res (option TokenInfo)) :=
  let? token := call (SLoginUser params (user creds) (pass creds) 0)
    else e => mret (Err (wrap ("failed to login " +:+ quoted (user creds) +:+ " user to AuthN") e)) in
  mret (Ok (Some (MkTokenInfo token None))).

Definition getTokenViaPassword (bp : BaseParams) (conf : AuthConfig) : SM (res (option TokenInfo)) :=
  if bool_decide (GetSecretName conf = "") then mret (Ok None)
  else
    let? secretData := getSecretData (GetSecretNamespace conf) (GetSecretName conf) else e => mret (Err e) in
    match secret_value conf secretData (GetUserKey conf), secret_value conf secretData (GetPassKey conf) with
    | Err e, _ => mret (Err e)
    | Ok _, Err e => mret (Err e)
    | Ok u, Ok p =>
        match GetOAuthLoginConf conf with
        | None => getTokenFromAuthN bp (MkCredentials u p)
        | Some oauthConf => getTokenFromOAuth bp (MkCredentials u p) oauthConf
        end
    end.

(** ** Tokens by exchange *)

Definition readTokenFromFile (path : string) : SM (res string) :=
  let? tokenBytes := call (SReadFile path) else e => mret (Err e) in
  let token := trim_space tokenBytes in
  mret (if bool_decide (token = "") then Err (errorf ("token file is empty: " +:+ path)) else Ok token).

Definition readProjectedToken (tokenPath : string) : SM (res string) :=
  let? token := readTokenFromFile tokenPath
    else e => mret (Err (wrap ("failed to read token from " +:+ tokenPath) e)) in
  mret (Ok token).

(** [internal/client/api.go] *)
Definition CreateServiceAccountToken (sa : nsname) (audience : string) (expiration : Z) : SM (res string) :=
  let audiences := if bool_decide (audience ≠ "") then [audience] else [] in
  call (SMintToken sa audiences (expiration `quot` second)).

Definition mintSubjectToken (audience : string) : SM (res string) :=
  let sa := opinfo_ServiceAccount in
  let? token := CreateServiceAccountToken sa audience subjectTokenExpiration
    else e => mret (Err (wrap ("failed to mint token for ServiceAccount " +:+ nn_namespace sa +:+ "/" +:+
                               nn_name sa +:+ " with audience " +:+ quoted audience) e)) in
  mret (Ok token).

Definition getSubjectToken (conf : AuthConfig) : SM (res string) :=
  let tokenPath := GetTokenPath conf in
  if bool_decide (tokenPath ≠ "") then readProjectedToken tokenPath
  else mintSubjectToken (GetSubjectTokenAudience conf).

Definition exchange_form (sourceToken : string) (audiences : list string) : list (string * string) :=
  ((fun a => ("audience", a)) <$> filter (fun a => a ≠ "") audiences) ++
  [("grant_type", RFC8693GrantType); ("subject_token", sourceToken);
   ("subject_token_type", RFC8693SubjectTokenTypeJWT)].

Definition exchangeTokenWithAuthSvc (params : BaseParams) (sourceToken endpoint : string)
    (audiences : list string) : SM (res (option TokenInfo)) :=
  match url_JoinPath (bp_URL params) endpoint with
  | Err e => mret (Err (wrap "failed to create exchange request URL" e))
  | Ok requestURL =>
      let? resp := call (SPost params requestURL (exchange_form sourceToken audiences))
        else e => mret (Err (wrap "token exchange request failed" e)) in
      let '(status, body) := resp in
      if negb (status =? 200)
      then mret (Err (errorf ("token exchange failed with status " +:+ pretty status +:+ ": " +:+ body)))
      else
        match DecodeTokenResponse body with
        | Err e => mret (Err (wrap "failed to decode exchange response" e))
        | Ok result =>
            let token := if bool_decide (tr_AccessToken result = "") then tr_Token result
                         else tr_AccessToken result in
            if bool_decide (token = "")
            then mret (Err (errorf "exchange response missing required 'access_token' field"))
            else if 0 <? tr_ExpiresIn result then
              now ← call SNow;
              mret (Ok (Some (MkTokenInfo token (Some (now + seconds (tr_ExpiresIn result))))))
            else mret (Ok (Some (MkTokenInfo token None)))
        end
  end.

Definition getTokenViaExchange (bp : BaseParams) (ais : AIStore) (conf : AuthConfig)
    : SM (res (option TokenInfo)) :=
  let? sourceToken := getSubjectToken conf else e => mret (Err e) in
  exchangeTokenWithAuthSvc bp sourceToken (GetTokenExchangeEndpoint conf) (GetRequiredAudiences ais).

(** ** The token of a cluster *)

Definition ResolveAuthConfig (ais : AIStore) (spec : AuthSpec) : SM (res AuthConfig) :=
  match as_ProfileRef spec with
  | Some name =>
      let? profile := call (SGetAuthProfile name)
        else e => mret (Err (wrap ("failed to get AIStoreAuthProfile " +:+ quoted name) e)) in
      mret (Ok (AuthProfileConfig profile))
  | None =>
      mret (match as_TokenExchange spec, as_UsernamePassword spec with
            | None, None => Err (errorf "invalid auth service configuration: exactly one of usernamePassword or tokenExchange must be specified")
            | _, _ => Ok (AuthSpecConfig spec (nn_namespace (ais_Name ais)))
            end)
  end.

(** The configuration object is a new one, with an empty TLS cache. *)
Definition getAdminToken (ais : AIStore) : SM (res (option TokenInfo)) :=
  match Auth (Spec ais) with
  | None => mret (Ok None)
  | Some spec =>
      let? authConf := ResolveAuthConfig ais spec else e => mret (Err e) in
      let? baseParams := newAuthBaseParams authConf None
        else e => mret (Err (wrap "failed to create auth service base params" e)) in
      if IsTokenExchange authConf then getTokenViaExchange baseParams ais authConf
      else getTokenViaPassword baseParams authConf
  end.
End AuthN.
