(* ===== verification/TLSCacheLock.v ===== *)
(** * Concurrent use of the TLS cache

    [tlsCache.get] of [internal/services/authn_api.go] takes a read lock to look at the cache,
    gives it up, takes the write lock, looks again and rebuilds. [AuthN.tlsCache_get] is the
    call by itself; here any number of goroutines call it on one cache, their statements
    interleaved in any order the [sync.RWMutex] allows, while time passes. The theorems show
    that every such run is a run of [AuthN.tlsCache_get] calls one after the other, and that no
    call waits for ever.

    A goroutine is its program counter, one value per statement that reads or writes the cache
    or the lock. Go's lock prefers a waiting writer to new readers; here either may go first, so
    every schedule of Go is one of these. The TTL is the one [tlsCacheTTLOnce] has determined. *)

From S2P Require Import Prelude Effects K8sTypes AISConfig AIStoreTypes ThirdParty AuthConf AIStoreMethods AuthN.

(** What a call returned, [None] if it panicked. *)
Abbreviation result := (option (res TLSConfig)).

(** A call in the order of the calls: who made it, what it asked its environment, what it
    returned and the cache it left. *)
Record op := MkOp { op_by : nat; op_trace : strace; op_result : result; op_after : TLSCache }.

(** The next statement of a call. [Building] carries the requests made so far and those to
    come. *)
Inductive pc :=
| Called                                    (* [c.mu.RLock()] *)
| Reading                                   (* [c.config != nil], under the read lock *)
| ReadSome                                  (* [time.Since(c.created) < cacheTTL] *)
| ReadFresh                                 (* [tlsConfig := c.config] *)
| ReadHit (conf : TLSConfig)                (* [c.mu.RUnlock()], return *)
| ReadMiss                                  (* [c.mu.RUnlock()] *)
| Waiting                                   (* [c.mu.Lock()] *)
| Writing                                   (* [c.config != nil], under the write lock *)
| WriteSome                                 (* [time.Since(c.created) < cacheTTL] *)
| WriteFresh                                (* [return c.config] *)
| Building (t : strace) (p : prog sanswer (Services * res TLSConfig))
| Built (t : strace) (conf : TLSConfig)     (* [c.config = tlsConfig] *)
| Stored (t : strace) (conf : TLSConfig)    (* [c.created = time.Now()] *)
| Leaving (r : result)                      (* the deferred [c.mu.Unlock()] *)
| Returned (r : result).

(** The cache with its lock, the clock, the calls made, and - for the theorems - the order in
    which they took effect. *)
Record conc := MkConc {
  config : option TLSConfig; created : Z;
  readers : gset nat; writer : option nat;
  clock : Z; goroutines : gmap nat pc; oplog : list op }.

Definition idle_cache (now : Z) : conc := MkConc None 0 ∅ None now ∅ [].

(** ** Updates *)

Definition at_pc (i : nat) (p : pc) (s : conc) : conc :=
  MkConc (config s) (created s) (readers s) (writer s) (clock s) (<[ i := p ]> (goroutines s)) (oplog s).
Definition set_lock (rs : gset nat) (w : option nat) (s : conc) : conc :=
  MkConc (config s) (created s) rs w (clock s) (goroutines s) (oplog s).
Definition set_config (conf : TLSConfig) (s : conc) : conc :=
  MkConc (Some conf) (created s) (readers s) (writer s) (clock s) (goroutines s) (oplog s).
Definition set_created (now : Z) (s : conc) : conc :=
  MkConc (config s) now (readers s) (writer s) (clock s) (goroutines s) (oplog s).
Definition tick (d : Z) (s : conc) : conc :=
  MkConc (config s) (created s) (readers s) (writer s) (clock s + d) (goroutines s) (oplog s).
Definition takes_effect (o : op) (s : conc) : conc :=
  MkConc (config s) (created s) (readers s) (writer s) (clock s) (goroutines s) (oplog s ++ [o]).

(** The fields of the cache as [AuthN.TLSCache] has them. *)
Definition shared (s : conc) : TLSCache := c ← config s; Some (c, created s).

(** The call of [i] finds a configuration that is fresh. *)
Definition hit (i : nat) (s : conc) : conc :=
  match config s with
  | Some conf => takes_effect (MkOp i [ev SNow (clock s)] (Some (Ok conf)) (shared s)) s
  | None => s
  end.

(** The clock answers itself; the rest of the environment is [env]. *)
Definition clocked (now : Z) (env : forall r, sanswer r) (r : sreq) : sanswer r :=
  match r with SNow => now | r => env r end.

Section Lock.
Context `{SL : ServicesLib}.
Context (conf : AuthConfig) (m : Services) (cacheTTL : Z).

Definition fresh (s : conc) : bool := clock s - created s <? cacheTTL.

Definition builder : prog sanswer (Services * res TLSConfig) :=
  build_tls (trustStoreConfig conf) (GetInsecureSkipVerify conf) m.

(** ** One statement of goroutine [i], if it can go on *)

Definition go (env : forall r, sanswer r) (i : nat) (s : conc) : option conc :=
  p ← goroutines s !! i;
  match p with
  | Called =>
      match writer s with
      | None => Some (at_pc i Reading (set_lock ({[ i ]} ∪ readers s) None s))
      | Some _ => None
      end
  | Reading => Some (at_pc i (match config s with Some _ => ReadSome | None => ReadMiss end) s)
  | ReadSome => Some (if fresh s then at_pc i ReadFresh (hit i s) else at_pc i ReadMiss s)
  | ReadFresh => c ← config s; Some (at_pc i (ReadHit c) s)
  | ReadHit c => Some (at_pc i (Returned (Some (Ok c))) (set_lock (readers s ∖ {[ i ]}) (writer s) s))
  | ReadMiss => Some (at_pc i Waiting (set_lock (readers s ∖ {[ i ]}) (writer s) s))
  | Waiting =>
      match writer s with
      | None => if decide (readers s = ∅) then Some (at_pc i Writing (set_lock ∅ (Some i) s)) else None
      | Some _ => None
      end
  | Writing =>
      Some (at_pc i (match config s with Some _ => WriteSome | None => Building [] builder end) s)
  | WriteSome =>
      Some (if fresh s then at_pc i WriteFresh (hit i s)
            else at_pc i (Building [ev SNow (clock s); ev SNow (clock s)] builder) s)
  | WriteFresh => c ← config s; Some (at_pc i (Leaving (Some (Ok c))) s)
  | Building t (Do r k) =>
      let x := clocked (clock s) env r in Some (at_pc i (Building (t ++ [ev r x]) (k x)) s)
  | Building t (Ret (_, Ok c)) => Some (at_pc i (Built t c) s)
  | Building t (Ret (_, Err e)) =>
      Some (at_pc i (Leaving (Some (Err e))) (takes_effect (MkOp i t (Some (Err e)) (shared s)) s))
  | Building t Panic => Some (at_pc i (Leaving None) (takes_effect (MkOp i t None (shared s)) s))
  | Built t c => Some (at_pc i (Stored t c) (set_config c s))
  | Stored t c =>
      Some (at_pc i (Leaving (Some (Ok c)))
        (takes_effect (MkOp i (t ++ [ev SNow (clock s)]) (Some (Ok c)) (Some (c, clock s)))
           (set_created (clock s) s)))
  | Leaving r => Some (at_pc i (Returned r) (set_lock (readers s) None s))
  | Returned _ => None
  end.

(** A goroutine goes on, a new call is made, or time passes. *)
Inductive step (s : conc) : conc -> Prop :=
| step_go env i s' : go env i s = Some s' -> step s s'
| step_call i : goroutines s !! i = None -> step s (at_pc i Called s)
| step_tick d : 0 <= d -> step s (tick d s).

(** ** Calls one after the other *)

(** The cache after the calls of [l]. *)
Definition committed (l : list op) : TLSCache :=
  match last l with Some o => op_after o | None => None end.

(** [o] is an execution of [tlsCache_get] that starts with [c]. *)
Definition op_ok (c : TLSCache) (o : op) : Prop :=
  let get := tlsCache_get c (trustStoreConfig conf) (GetInsecureSkipVerify conf) m in
  match op_result o with
  | Some r => exec get (op_trace o) (Some (m, (op_after o, r)))
  | None => exec get (op_trace o) None /\ op_after o = c
  end.

Inductive sequential : list op -> Prop :=
| seq_nil : sequential []
| seq_snoc l o : sequential l -> op_ok (committed l) o -> sequential (l ++ [o]).

(** The times read in a trace, and in those of a list of calls. *)
Definition reading_of (e : @event sreq sanswer) : list Z :=
  match e with existT SNow now => [now] | _ => [] end.
Definition readings (t : strace) : list Z := t ≫= reading_of.
Definition log_readings (l : list op) : list Z := l ≫= fun o => readings (op_trace o).

(** What the calls of [i] returned. *)
Definition results (l : list op) (i : nat) : list result :=
  op_result <$> filter (fun o => op_by o = i) l.
End Lock.

(** ** Executions of one call *)

Section Sequential.
Context `{SL : ServicesLib}.
Context (conf : AuthConfig) (m : Services) (cacheTTL : Z).
Context (Httl : tlsConfigCacheTTL m = Some cacheTTL).

Abbreviation get_alone c := (tlsCache_get c (trustStoreConfig conf) (GetInsecureSkipVerify conf) m).

(** [p] does not touch the state of the client manager. *)
Definition keeps {A} (p : prog sanswer (Services * A)) : Prop :=
  forall t m' a, exec p t (Some (m', a)) -> m' = m.

Lemma keeps_answer {A} r (k : sanswer r -> prog sanswer (Services * A)) x : keeps (Do r k) -> keeps (k x).
Proof. intros H t m' a Hex. eapply H. by constructor. Qed.

Lemma load_paths_keeps paths : forall pool h,
  wpm True (fun _ _ => True) (load_paths paths pool) m h (fun _ m' _ => m' = m).
Proof. induction paths as [|p paths IH]; intros pool h; cbn; [by wp_step|]. wp_step. wp_call; [done|]. auto. Qed.

Lemma keeps_builder : keeps (builder conf m).
Proof.
  intros t m' a Hex. refine (returns_wp _ (fun _ p => p.1 = m) t (m', a) _ Hex).
  change (wpm True (fun _ _ => True) (build_tls (trustStoreConfig conf) (GetInsecureSkipVerify conf)) m []
    (fun _ m' _ => m' = m)).
  unfold build_tls. wp_step. apply (wpm_mono _ _ _ _ _ (fun _ m' _ => m' = m)).
  { unfold trustStoreConfig, caCertPaths. repeat (first [wp_step | intros [?|?] | exact I | done]). }
  intros h1 m1 [trust|e] ->; [|by wp_step]. unfold NewTLSConfig, NewCertPool. do 3 wp_step.
  wp_call; [done|]. intros sys. wp_step. eapply wpm_mono; [apply load_paths_keeps|].
  intros h2 m2 pool ->. repeat wp_step; done.
Qed.

(** What [tlsCache_get] does with what was built. *)
Definition after_build (c : TLSCache) (x : Services * res TLSConfig)
    : prog sanswer (Services * (TLSCache * res TLSConfig)) :=
  match x.2 with
  | Ok cf => now ← call SNow; mret (Some (cf, now), Ok cf)
  | Err e => mret (c, Err e)
  end x.1.

(** A call that found [c] stale and asked [t] can go on with [p]. *)
Definition pending (c : TLSCache) (t : strace) (p : prog sanswer (Services * res TLSConfig)) : Prop :=
  keeps p /\ forall t' o, exec (prog_bind p (after_build c)) t' o -> exec (get_alone c) (t ++ t') o.

(** The TTL was determined before. *)
Lemma ttl_known {A} (f : Z -> SM A) : (getTLSConfigCacheTTL ≫= f) m = f cacheTTL m.
Proof.
  assert (getTLSConfigCacheTTL m = Ret (m, cacheTTL)) as Hm; [|unfold mbind, M_bind; by rewrite Hm].
  unfold getTLSConfigCacheTTL, mbind, M_bind, get. cbn. by rewrite Httl.
Qed.

Lemma get_alone_hit cf cr now :
  now - cr <? cacheTTL = true ->
  exec (get_alone (Some (cf, cr))) [ev SNow now] (Some (m, (Some (cf, cr), Ok cf))).
Proof. intros Hf. unfold tlsCache_get. rewrite ttl_known. apply exec_do. cbn. rewrite Hf. constructor. Qed.

Lemma get_alone_empty : pending None [] (builder conf m).
Proof.
  split; [apply keeps_builder|]. intros t' o Hex. unfold tlsCache_get. rewrite ttl_known. exact Hex.
Qed.

Lemma get_alone_stale cf cr now :
  now - cr <? cacheTTL = false ->
  pending (Some (cf, cr)) [ev SNow now; ev SNow now] (builder conf m).
Proof.
  intros Hf. split; [apply keeps_builder|]. intros t' o Hex. unfold tlsCache_get. rewrite ttl_known.
  apply exec_do. cbn. rewrite Hf. apply exec_do. cbn. rewrite Hf. exact Hex.
Qed.

Lemma pending_answer c t r k x : pending c t (Do r k) -> pending c (t ++ [ev r x]) (k x).
Proof.
  intros [Hk Hex]. split; [by eapply keeps_answer|]. intros t' o H. rewrite <-(assoc_L app).
  apply Hex. cbn. by apply exec_do.
Qed.

Lemma pending_panic c t : pending c t Panic -> exec (get_alone c) t None.
Proof. intros [_ Hex]. rewrite <-(app_nil_r t). apply Hex. constructor. Qed.

Lemma pending_err c t m' e : pending c t (Ret (m', Err e)) -> exec (get_alone c) t (Some (m, (c, Err e))).
Proof.
  intros [Hk Hex]. rewrite <-(app_nil_r t). rewrite (Hk [] m' (Err e)) in Hex by constructor.
  apply Hex. constructor.
Qed.

Lemma pending_ok c t m' cf now :
  pending c t (Ret (m', Ok cf)) ->
  exec (get_alone c) (t ++ [ev SNow now]) (Some (m, (Some (cf, now), Ok cf))).
Proof.
  intros [Hk Hex]. rewrite (Hk [] m' (Ok cf)) in Hex by constructor. apply Hex. cbn. apply exec_do. constructor.
Qed.
End Sequential.

(** ** The invariant of concurrent calls *)

(** The statements executed under the read lock, and under the write lock. *)
Definition reading (p : pc) : bool :=
  match p with Reading | ReadSome | ReadFresh | ReadHit _ | ReadMiss => true | _ => false end.
Definition writing (p : pc) : bool :=
  match p with
  | Writing | WriteSome | WriteFresh | Building _ _ | Built _ _ | Stored _ _ | Leaving _ => true
  | _ => false
  end.
Definition storing (p : pc) : bool := match p with Stored _ _ => true | _ => false end.

(** What a call at [p] that already took effect is going to return. *)
Definition due (s : conc) (p : pc) : list result :=
  match p with
  | ReadFresh | WriteFresh => match config s with Some c => [Some (Ok c)] | None => [] end
  | ReadHit c => [Some (Ok c)]
  | Leaving r | Returned r => [r]
  | _ => []
  end.

(** Readings in the order of time, none later than [now]. *)
Definition ordered (l : list Z) (now : Z) : Prop := StronglySorted Z.le l /\ Forall (fun t => t <= now) l.

(** The holders of the lock. *)
Record lock_ok (s : conc) : Prop := {
  lock_readers i : i ∈ readers s <-> exists p, goroutines s !! i = Some p /\ reading p = true;
  lock_writer i : writer s = Some i <-> exists p, goroutines s !! i = Some p /\ writing p = true;
  lock_excl : writer s = None \/ readers s = ∅ }.

Section Invariant.
Context `{SL : ServicesLib}.
Context (conf : AuthConfig) (m : Services) (cacheTTL : Z).
Context (Httl : tlsConfigCacheTTL m = Some cacheTTL).

Definition built_so_far (s : conc) (t : strace) (p : prog sanswer (Services * res TLSConfig)) : Prop :=
  pending conf m (committed (oplog s)) t p /\ ordered (log_readings (oplog s) ++ readings t) (clock s).

Definition pc_ok (s : conc) (p : pc) : Prop :=
  match p with
  | ReadSome | ReadFresh | WriteSome | WriteFresh => is_Some (config s)
  | Building t p => built_so_far s t p
  | Built t c => built_so_far s t (Ret (m, Ok c))
  | Stored t c => built_so_far s t (Ret (m, Ok c)) /\ config s = Some c
  | _ => True
  end.

(** The calls so far are calls one after the other, each returns what its call in that order
    returned, and the fields of the cache are what that order left, but between the two
    assignments of a rebuild. *)
Record conc_ok (s : conc) : Prop := {
  ok_sequential : sequential conf m (oplog s);
  ok_times : ordered (log_readings (oplog s)) (clock s);
  ok_results i : results (oplog s) i = match goroutines s !! i with Some p => due s p | None => [] end;
  ok_lock : lock_ok s;
  ok_cache : (forall i p, goroutines s !! i = Some p -> storing p = false) -> committed (oplog s) = shared s;
  ok_pc i p : goroutines s !! i = Some p -> pc_ok s p }.

(** *** The lock *)

Lemma lock_ok_at s i p q :
  lock_ok s -> goroutines s !! i = Some p -> reading q = reading p -> writing q = writing p ->
  lock_ok (at_pc i q s).
Proof.
  intros [Hr Hw He] Hp Er Ew. split; cbn; [intros j..|done].
  - rewrite Hr. destruct (decide (j = i)) as [->|Hj]; [|by rewrite lookup_insert_ne].
    rewrite lookup_insert_eq, Hp. naive_solver congruence.
  - rewrite Hw. destruct (decide (j = i)) as [->|Hj]; [|by rewrite lookup_insert_ne].
    rewrite lookup_insert_eq, Hp. naive_solver congruence.
Qed.

(** The goroutine [i] takes the lock, or gives it up. *)
Lemma lock_ok_set s i q rs w :
  lock_ok s ->
  (forall j, j ∈ rs <-> (j = i /\ reading q = true) \/ (j ≠ i /\ j ∈ readers s)) ->
  (forall j, w = Some j <-> (j = i /\ writing q = true) \/ (j ≠ i /\ writer s = Some j)) ->
  w = None \/ rs = ∅ -> lock_ok (at_pc i q (set_lock rs w s)).
Proof.
  intros [Hr Hw He] Hrs Hws He'. split; cbn; [intros j..|done].
  - rewrite Hrs, Hr. destruct (decide (j = i)) as [->|Hj]; [rewrite lookup_insert_eq|rewrite lookup_insert_ne by done];
      naive_solver.
  - rewrite Hws, Hw. destruct (decide (j = i)) as [->|Hj]; [rewrite lookup_insert_eq|rewrite lookup_insert_ne by done];
      naive_solver.
Qed.

Lemma lock_ok_read_lock s i p q :
  lock_ok s -> goroutines s !! i = Some p -> writing p = false -> reading q = true -> writing q = false ->
  writer s = None -> lock_ok (at_pc i q (set_lock ({[ i ]} ∪ readers s) None s)).
Proof.
  intros Hl Hp Wp Rq Wq Hn. apply lock_ok_set; [done| |intros j; naive_solver congruence|by left].
  intros j. destruct (decide (j = i)); set_solver.
Qed.

Lemma lock_ok_read_unlock s i p q :
  lock_ok s -> goroutines s !! i = Some p -> reading p = true -> reading q = false -> writing q = false ->
  lock_ok (at_pc i q (set_lock (readers s ∖ {[ i ]}) (writer s) s)).
Proof.
  intros Hl Hp Rp Rq Wq. apply lock_ok_set; [done| | |].
  - intros j. rewrite elem_of_difference, elem_of_singleton, Rq. naive_solver.
  - intros j. split; [|intros [[_ ?]|[_ ?]]; congruence]. intros Hj. right. split; [|done]. intros ->.
    apply (lock_writer _ Hl) in Hj as (p' & Hp' & Wp). assert (p' = p) as -> by congruence. by destruct p.
  - destruct (lock_excl _ Hl) as [->| ->]; [by left | right; apply empty_difference_L; set_solver].
Qed.

Lemma lock_ok_write_lock s i p q :
  lock_ok s -> goroutines s !! i = Some p -> reading q = false -> writing q = true ->
  writer s = None -> readers s = ∅ -> lock_ok (at_pc i q (set_lock ∅ (Some i) s)).
Proof.
  intros Hl Hp Rq Wq Hn Hrs. apply lock_ok_set; [done| | |by right].
  - intros j. rewrite Hrs, elem_of_empty, Rq. naive_solver.
  - intros j. rewrite Hn, Wq. naive_solver.
Qed.

Lemma lock_ok_write_unlock s i p q :
  lock_ok s -> goroutines s !! i = Some p -> writing p = true -> reading q = false -> writing q = false ->
  lock_ok (at_pc i q (set_lock (readers s) None s)).
Proof.
  intros Hl Hp Wp Rq Wq. assert (writer s = Some i) as Hi by (apply Hl; eauto).
  apply lock_ok_set; [done| | |by left].
  - intros j. destruct (lock_excl _ Hl) as [?|Hrs]; [congruence|]. rewrite Hrs, elem_of_empty, Rq. naive_solver.
  - intros j. rewrite Hi, Wq. naive_solver.
Qed.

(** A writer is alone. *)
Lemma writer_alone s i p j q :
  lock_ok s -> goroutines s !! i = Some p -> writing p = true -> goroutines s !! j = Some q -> j ≠ i ->
  reading q = false /\ writing q = false.
Proof.
  intros [Hr Hw He] Hp Wp Hq Hj.
  assert (writer s = Some i) as Hi by (apply Hw; eauto).
  split; apply not_true_iff_false; intros H.
  - assert (j ∈ readers s) by (apply Hr; eauto). destruct He; [congruence | set_solver].
  - assert (writer s = Some j) by (apply Hw; eauto). congruence.
Qed.

Lemma reader_no_writer s i p j q :
  lock_ok s -> goroutines s !! i = Some p -> reading p = true -> goroutines s !! j = Some q ->
  writing q = false.
Proof.
  intros [Hr Hw He] Hp Rp Hq. apply not_true_iff_false. intros H.
  assert (writer s = Some j) by (apply Hw; eauto). assert (i ∈ readers s) by (apply Hr; eauto).
  destruct He; [congruence | set_solver].
Qed.
(** *** Results and times *)

Lemma results_snoc l o i :
  results (l ++ [o]) i = results l i ++ (if decide (op_by o = i) then [op_result o] else []).
Proof.
  unfold results. rewrite filter_app, fmap_app. f_equal. rewrite filter_cons, filter_nil. by case_decide.
Qed.

Lemma log_readings_snoc l o : log_readings (l ++ [o]) = log_readings l ++ readings (op_trace o).
Proof. unfold log_readings. by rewrite bind_app, bind_singleton. Qed.

Lemma readings_snoc t e : readings (t ++ [e]) = readings t ++ reading_of e.
Proof. unfold readings. by rewrite bind_app, bind_singleton. Qed.

Lemma committed_snoc l o : committed (l ++ [o]) = op_after o.
Proof. unfold committed. by rewrite last_snoc. Qed.

Lemma ordered_read l now : ordered l now -> ordered (l ++ [now]) now.
Proof.
  intros [Hs Hf]. split; [|apply Forall_app; split; [done | by repeat constructor]].
  apply StronglySorted_app. split_and!; [|done|repeat constructor].
  rewrite Forall_forall in Hf. intros x y Hx Hy. apply list_elem_of_singleton in Hy as ->. by apply Hf.
Qed.

Lemma ordered_later l now now' : now <= now' -> ordered l now -> ordered l now'.
Proof. intros Hn [Hs Hf]. split; [done|]. eapply Forall_impl; [done|]. cbn. lia. Qed.

(** The clock answers requests for the time. *)
Lemma ordered_answer l t now env r :
  ordered (l ++ readings t) now -> ordered (l ++ readings (t ++ [ev r (clocked now env r)])) now.
Proof.
  intros H. rewrite readings_snoc. destruct r; cbn; rewrite ?app_nil_r; try exact H.
  rewrite (assoc_L app). by apply ordered_read.
Qed.

(** *** One statement *)

(** What a goroutine without the lock is owed does not depend on the cache. *)
Lemma idle_ok s s' p : reading p = false -> writing p = false -> pc_ok s' p /\ due s' p = due s p.
Proof. by destruct p. Qed.

(** The call of [i] takes effect now, with [o]. *)
Definition effect_ok (s : conc) (i : nat) (o : op) : Prop :=
  op_by o = i /\ op_ok conf m (committed (oplog s)) o /\ ordered (log_readings (oplog s ++ [o])) (clock s).

(** [s'] is [s] but that [i], at [p], went on to [q], perhaps taking effect. *)
Lemma conc_ok_update s s' i p q :
  conc_ok s -> goroutines s !! i = Some p -> goroutines s' = <[ i := q ]> (goroutines s) ->
  clock s' = clock s -> lock_ok s' ->
  (oplog s' = oplog s /\ due s' q = due s p \/
   exists o, oplog s' = oplog s ++ [o] /\ effect_ok s i o /\ due s p = [] /\ due s' q = [op_result o]) ->
  ((forall j r, goroutines s' !! j = Some r -> storing r = false) -> committed (oplog s') = shared s') ->
  pc_ok s' q ->
  (forall j r, j ≠ i -> goroutines s !! j = Some r -> pc_ok s' r /\ due s' r = due s r) ->
  conc_ok s'.
Proof.
  intros [Hseq Htimes Hres Hlock Hcache Hpc] Hp Hg Hclock Hl' Hlog Hc Hq Hothers.
  assert (forall j, results (oplog s') j = match goroutines s' !! j with Some r => due s' r | None => [] end) as Hres'.
  { intros j. specialize (Hres j). rewrite Hg. destruct (decide (j = i)) as [->|Hj].
    - rewrite lookup_insert_eq. rewrite Hp in Hres.
      destruct Hlog as [[-> ->]|(o & -> & (Hi & _) & Hd & ->)]; [done|].
      rewrite results_snoc, Hres, Hd, decide_True by done. done.
    - rewrite lookup_insert_ne by done.
      assert (results (oplog s') j = results (oplog s) j) as ->.
      { destruct Hlog as [[-> _]|(o & -> & (Hi & _) & _)]; [done|].
        rewrite results_snoc, decide_False, app_nil_r by congruence. done. }
      rewrite Hres. destruct (goroutines s !! j) as [r|] eqn:Hr; [|done]. symmetry. by eapply Hothers. }
  split; [| |done|done|done|].
  - destruct Hlog as [[-> _]|(o & -> & (_ & Ho & _) & _)]; [done | by constructor].
  - rewrite Hclock. by destruct Hlog as [[-> _]|(o & -> & (_ & _ & Ho) & _)].
  - intros j r. rewrite Hg. destruct (decide (j = i)) as [->|Hj].
    + rewrite lookup_insert_eq. by intros [= <-].
    + rewrite lookup_insert_ne by done. intros Hr. by eapply Hothers.
Qed.

(** While a goroutine holds the lock, no other is at work on what it reads or writes. *)
Lemma holder_alone s i p j r :
  lock_ok s -> goroutines s !! i = Some p -> reading p || writing p = true ->
  goroutines s !! j = Some r -> j ≠ i -> writing r = false.
Proof.
  intros Hl Hp [Rp|Wp]%orb_true_iff Hr Hj.
  - exact (reader_no_writer s i p j r Hl Hp Rp Hr).
  - by destruct (writer_alone s i p j r Hl Hp Wp Hr Hj).
Qed.

Lemma committed_shared s i p :
  conc_ok s -> goroutines s !! i = Some p -> reading p || writing p = true -> storing p = false ->
  committed (oplog s) = shared s.
Proof.
  intros Hok Hp Hb Hn. apply (ok_cache _ Hok). intros j r Hr. destruct (decide (j = i)) as [->|Hj]; [congruence|].
  pose proof (holder_alone s i p j r (ok_lock _ Hok) Hp Hb Hr Hj). by destruct r.
Qed.

(** A statement that changes neither the cache nor the order of the calls. *)
Lemma conc_ok_move s i p q rs w :
  conc_ok s -> goroutines s !! i = Some p -> lock_ok (at_pc i q (set_lock rs w s)) ->
  due s q = due s p -> pc_ok s q -> storing p = false -> conc_ok (at_pc i q (set_lock rs w s)).
Proof.
  intros Hok Hp Hl Hd Hq Sp. eapply (conc_ok_update s _ i p q); try done; [by left| |].
  - intros Hs. apply (ok_cache _ Hok). intros j r Hr. destruct (decide (j = i)) as [->|Hj]; [congruence|].
    apply (Hs j). cbn. by rewrite lookup_insert_ne.
  - intros j r Hj Hr. split; [by apply (ok_pc _ Hok j) | done].
Qed.

Lemma conc_ok_step s i p q :
  conc_ok s -> goroutines s !! i = Some p -> reading q = reading p -> writing q = writing p ->
  due s q = due s p -> pc_ok s q -> storing p = false -> conc_ok (at_pc i q s).
Proof.
  intros Hok Hp Er Ew Hd Hq Sp. apply (conc_ok_move s i p q (readers s) (writer s)); try done.
  eapply (lock_ok_at s); eauto using ok_lock.
Qed.

(** A call takes effect and leaves the cache as it is. *)
Lemma conc_ok_effect s i p q o :
  conc_ok s -> goroutines s !! i = Some p -> reading p || writing p = true -> storing p = false ->
  reading q = reading p -> writing q = writing p ->
  effect_ok s i o -> op_after o = shared s -> due s p = [] -> due s q = [op_result o] ->
  pc_ok (takes_effect o s) q ->
  conc_ok (at_pc i q (takes_effect o s)).
Proof.
  intros Hok Hp Hb Sp Er Ew Ho Ha Hd Hd' Hq.
  eapply (conc_ok_update s _ i p q); try done.
  - apply (lock_ok_at (takes_effect o s) i p); [|done..]. destruct (ok_lock _ Hok). by split.
  - right. by exists o.
  - intros _. cbn. by rewrite committed_snoc.
  - intros j r Hj Hr. pose proof (holder_alone s i p j r (ok_lock _ Hok) Hp Hb Hr Hj).
    pose proof (ok_pc _ Hok j r Hr). by destruct r.
Qed.

Lemma shared_some s cf : config s = Some cf -> shared s = Some (cf, created s).
Proof. unfold shared. by intros ->. Qed.

(** A fresh configuration is returned. *)
Lemma conc_ok_hit s i p q :
  conc_ok s -> goroutines s !! i = Some p -> p = ReadSome /\ q = ReadFresh \/ p = WriteSome /\ q = WriteFresh ->
  fresh cacheTTL s = true -> conc_ok (at_pc i q (hit i s)).
Proof.
  intros Hok Hp Hpq Hf.
  assert (is_Some (config s)) as [cf Hcf].
  { pose proof (ok_pc _ Hok i p Hp). by destruct Hpq as [[-> _]|[-> _]]. }
  unfold hit. rewrite Hcf.
  assert (effect_ok s i (MkOp i [ev SNow (clock s)] (Some (Ok cf)) (shared s))) as He.
  { split_and!; [done| |].
    - rewrite (committed_shared s i p), (shared_some s cf) by (done || by destruct Hpq as [[-> _]|[-> _]]).
      unfold op_ok. cbn. rewrite ?(shared_some s cf) by done. by apply (get_alone_hit conf m cacheTTL Httl).
    - rewrite log_readings_snoc. apply ordered_read, Hok. }
  eapply (conc_ok_effect s i p); try done; destruct Hpq as [[-> ->]|[-> ->]]; try done; cbn; rewrite ?Hcf; done.
Qed.

(** The two assignments of a rebuild. *)
Lemma conc_ok_store s i t cf :
  conc_ok s -> goroutines s !! i = Some (Built t cf) -> conc_ok (at_pc i (Stored t cf) (set_config cf s)).
Proof.
  intros Hok Hp. eapply (conc_ok_update s _ i _ (Stored t cf)); try done.
  - apply (lock_ok_at (set_config cf s) i (Built t cf)); [|done..]. destruct (ok_lock _ Hok). by split.
  - by left.
  - intros Hs. specialize (Hs i (Stored t cf)). cbn in Hs. rewrite lookup_insert_eq in Hs. by discriminate Hs.
  - split; [|done]. apply (ok_pc _ Hok i _ Hp).
  - intros j r Hj Hr. destruct (writer_alone s i (Built t cf) j r (ok_lock _ Hok) Hp eq_refl Hr Hj).
    by apply idle_ok.
Qed.

Lemma conc_ok_stamp s i t cf :
  conc_ok s -> goroutines s !! i = Some (Stored t cf) ->
  conc_ok (at_pc i (Leaving (Some (Ok cf)))
    (takes_effect (MkOp i (t ++ [ev SNow (clock s)]) (Some (Ok cf)) (Some (cf, clock s))) (set_created (clock s) s))).
Proof.
  intros Hok Hp. destruct (ok_pc _ Hok i _ Hp) as [[Hpend Hord] Hcf].
  eapply (conc_ok_update s _ i _ (Leaving (Some (Ok cf)))); try done.
  - apply (lock_ok_at (takes_effect _ (set_created (clock s) s)) i (Stored t cf)); [|done..].
    destruct (ok_lock _ Hok). by split.
  - right. eexists. split_and!; [done| |done..]. split_and!; [done| |].
    + unfold op_ok. cbn. by eapply (pending_ok conf m).
    + rewrite log_readings_snoc. cbn. rewrite readings_snoc, (assoc_L app). by apply ordered_read.
  - intros _. cbn. rewrite committed_snoc. cbn. unfold shared. cbn. by rewrite Hcf.
  - intros j r Hj Hr. destruct (writer_alone s i (Stored t cf) j r (ok_lock _ Hok) Hp eq_refl Hr Hj).
    by apply idle_ok.
Qed.

(** A call that looked at the cache under the write lock starts to build. *)
Lemma conc_ok_build s i p t :
  conc_ok s -> goroutines s !! i = Some p -> reading p = false -> writing p = true -> storing p = false ->
  due s p = [] -> pending conf m (shared s) t (builder conf m) -> ordered (log_readings (oplog s) ++ readings t) (clock s) ->
  conc_ok (at_pc i (Building t (builder conf m)) s).
Proof.
  intros Hok Hp Rp Wp Sp Hd Hpend Hord. eapply conc_ok_step; try done.
  split; [|done]. by rewrite (committed_shared s i p) by (done || by rewrite Wp, orb_true_r).
Qed.

(** A failed build takes effect as it ends. *)
Lemma conc_ok_fail s i t r (a : result) :
  conc_ok s -> goroutines s !! i = Some (Building t r) ->
  op_ok conf m (shared s) (MkOp i t a (shared s)) ->
  conc_ok (at_pc i (Leaving a) (takes_effect (MkOp i t a (shared s)) s)).
Proof.
  intros Hok Hp Ha. destruct (ok_pc _ Hok i _ Hp) as [_ Hord].
  eapply conc_ok_effect; try done. split_and!; [done| |].
  - by rewrite (committed_shared s i _ Hok Hp).
  - by rewrite log_readings_snoc.
Qed.

Lemma conc_ok_go env i s s' : conc_ok s -> go conf m cacheTTL env i s = Some s' -> conc_ok s'.
Proof.
  intros Hok. unfold go. destruct (goroutines s !! i) as [p|] eqn:Hp; [|done]. cbn.
  pose proof (ok_pc _ Hok i p Hp) as Hpc. pose proof (ok_lock _ Hok) as Hl.
  destruct p as [| | | |cf| | | | | |t pr|t cf|t cf|r|r]; cbn in Hpc.
  - destruct (writer s) eqn:Hw; [done|]. intros [= <-]. eapply conc_ok_move; try done.
    by eapply lock_ok_read_lock.
  - intros [= <-]. destruct (config s) eqn:Hc; eapply conc_ok_step; try done. by eexists.
  - destruct (fresh cacheTTL s) eqn:Hf; intros [= <-]; [eapply conc_ok_hit; eauto | by eapply conc_ok_step].
  - destruct Hpc as [cf Hc]. rewrite Hc. intros [= <-]. eapply conc_ok_step; try done. cbn. by rewrite Hc.
  - intros [= <-]. eapply conc_ok_move; try done. by eapply lock_ok_read_unlock.
  - intros [= <-]. eapply conc_ok_move; try done. by eapply lock_ok_read_unlock.
  - destruct (writer s) eqn:Hw; [done|]. destruct (decide _) as [Hr|]; [|done]. intros [= <-].
    eapply conc_ok_move; try done. by eapply lock_ok_write_lock.
  - intros [= <-]. destruct (config s) eqn:Hc; [eapply conc_ok_step; try done; by eexists|].
    eapply conc_ok_build; try done.
    + unfold shared. rewrite Hc. by apply (get_alone_empty conf m cacheTTL).
    + cbn. rewrite app_nil_r. apply Hok.
  - destruct (fresh cacheTTL s) eqn:Hf; intros [= <-]; [eapply conc_ok_hit; eauto|].
    destruct Hpc as [cf Hc]. eapply conc_ok_build; try done.
    + rewrite (shared_some s cf) by done. by apply (get_alone_stale conf m cacheTTL).
    + cbn. change [clock s; clock s] with ([clock s] ++ [clock s]). rewrite (assoc_L app).
      do 2 apply ordered_read. apply Hok.
  - destruct Hpc as [cf Hc]. rewrite Hc. intros [= <-]. eapply conc_ok_step; try done. cbn. by rewrite Hc.
  - pose proof (committed_shared s i _ Hok Hp eq_refl eq_refl) as Hcs. destruct Hpc as [Hpend Hord].
    rewrite Hcs in Hpend.
    destruct pr as [[m' [cf|e]]| |rq k]; intros [= <-].
    + pose proof (proj1 Hpend [] m' (Ok cf) (exec_ret _)) as ->.
      eapply conc_ok_step; try done. split; [by rewrite Hcs | done].
    + eapply conc_ok_fail; [done..|]. unfold op_ok. cbn. by eapply pending_err.
    + eapply conc_ok_fail; [done..|]. unfold op_ok. cbn. split; [|done]. by eapply pending_panic.
    + eapply conc_ok_step; try done. split; [|by apply ordered_answer].
      rewrite Hcs. by apply pending_answer.
  - intros [= <-]. by apply conc_ok_store.
  - intros [= <-]. by apply conc_ok_stamp.
  - intros [= <-]. eapply conc_ok_move; try done. by eapply lock_ok_write_unlock.
  - done.
Qed.

(** *** Every reachable state *)

Lemma conc_ok_idle now : conc_ok (idle_cache now).
Proof.
  split; cbn; try done.
  - constructor.
  - split; constructor.
  - split; cbn; [intros i; set_solver | naive_solver | by left].
Qed.

Lemma conc_ok_call s i : conc_ok s -> goroutines s !! i = None -> conc_ok (at_pc i Called s).
Proof.
  intros [Hseq Htimes Hres [Hr Hw He] Hcache Hpc] Hi. split; cbn -[results]; [done|done| | | |].
  - intros j. rewrite Hres. destruct (decide (j = i)) as [->|Hj]; [by rewrite lookup_insert_eq, Hi|].
    by rewrite lookup_insert_ne.
  - split; cbn; [intros j; rewrite Hr|intros j; rewrite Hw|done];
      (destruct (decide (j = i)) as [->|Hj]; [rewrite lookup_insert_eq, Hi; naive_solver|by rewrite lookup_insert_ne]).
  - intros Hs. apply Hcache. intros j r Hj. apply (Hs j). rewrite lookup_insert_ne; [done|congruence].
  - intros j r. destruct (decide (j = i)) as [->|Hj]; [rewrite lookup_insert_eq; by intros [= <-]|].
    rewrite lookup_insert_ne by done. apply Hpc.
Qed.

Lemma conc_ok_tick s d : 0 <= d -> conc_ok s -> conc_ok (tick d s).
Proof.
  intros Hd [Hseq Htimes Hres [Hr Hw He] Hcache Hpc].
  assert (forall l, ordered l (clock s) -> ordered l (clock (tick d s))) as Hmono
    by (intros l; apply ordered_later; cbn; lia).
  split; cbn; try done; [by apply Hmono|]. intros i p Hp. specialize (Hpc i p Hp).
  destruct p; try done; cbn in Hpc |- *; unfold built_so_far in *; naive_solver.
Qed.

Lemma conc_ok_rtc s s' : rtc (step conf m cacheTTL) s s' -> conc_ok s -> conc_ok s'.
Proof.
  induction 1 as [|s1 s2 s3 H _ IH]; [done|]. intros Hok. apply IH.
  destruct H; [by eapply conc_ok_go | by apply conc_ok_call | by apply conc_ok_tick].
Qed.

Lemma go_log env i s s' : go conf m cacheTTL env i s = Some s' -> oplog s `prefix_of` oplog s'.
Proof.
  unfold go. destruct (goroutines s !! i) as [p|]; [|done]. cbn.
  assert (forall o, oplog s `prefix_of` oplog s ++ [o]) as Hp by (intros o; by apply prefix_app_r).
  assert (oplog s `prefix_of` oplog (hit i s)) by (unfold hit; destruct (config s); [apply Hp | done]).
  destruct p as [| | | | | | | | | |t [[? [|]]| |]| | | |]; repeat case_match; try done; cbn;
    try (destruct (config s); cbn); intros [= <-]; first [done | apply Hp].
Qed.

Lemma rtc_log s s' : rtc (step conf m cacheTTL) s s' -> oplog s `prefix_of` oplog s'.
Proof.
  induction 1 as [|s1 s2 s3 H _ IH]; [done|]. etrans; [|exact IH]. destruct H; [by eapply go_log|done..].
Qed.

(** ** Rebuilds *)

(** A later cache is the same or was built [cacheTTL] later. *)
Definition spaced (a b : TLSCache) : Prop :=
  match a, b with
  | None, _ => True
  | Some _, None => False
  | Some (c1, t1), Some (c2, t2) => (c1, t1) = (c2, t2) \/ t1 + cacheTTL <= t2
  end.

Lemma spaced_refl a : spaced a a.
Proof. destruct a as [[]|]; [by left | done]. Qed.

Lemma spaced_trans a b c : 0 <= cacheTTL -> spaced a b -> spaced b c -> spaced a c.
Proof.
  intros Hn. destruct a as [[c1 t1]|], b as [[c2 t2]|], c as [[c3 t3]|]; cbn; try done.
  intros [[= -> ->]|?] [[= -> ->]|?]; [by left | by right | by right | right; lia].
Qed.

(** A call replaces a stale configuration only. *)
Lemma op_spaced c o : op_ok conf m c o -> StronglySorted Z.le (readings (op_trace o)) -> spaced c (op_after o).
Proof.
  unfold op_ok. destruct (op_result o) as [r|]; [|intros [_ ->] _; apply spaced_refl].
  destruct c as [[cf cr]|]; [|done]. intros Hex Hs. unfold tlsCache_get in Hex.
  rewrite (ttl_known m cacheTTL Httl) in Hex.
  apply exec_inv in Hex as (now & t1 & Ht & Hex). rewrite Ht in Hs.
  cbn in Hex. destruct (now - cr <? cacheTTL) eqn:Hf.
  { apply exec_inv in Hex as [_ Heq]. injection Heq as -> _. apply spaced_refl. }
  apply exec_inv in Hex as (now' & t2 & -> & Hex). cbn in Hex. destruct (now' - cr <? cacheTTL) eqn:Hf'.
  { apply exec_inv in Hex as [_ Heq]. injection Heq as -> _. apply spaced_refl. }
  apply exec_bind in Hex as [(t3 & [m' [cf'|e]] & t4 & _ & Hex & ->)|[_ ?]]; [| |done]; cbn in Hex.
  - apply exec_inv in Hex as (z & t5 & -> & Hex). apply exec_inv in Hex as [-> Heq]. injection Heq as _ -> _. right.
    assert (now <= z) as Hz.
    { apply (StronglySorted_app_1_elem_of Z.le [now] (now' :: readings (t3 ++ [ev SNow z]))); [exact Hs|by left|].
      right. rewrite readings_snoc. apply elem_of_app. right. by left. }
    apply Z.ltb_ge in Hf. lia.
  - apply exec_inv in Hex as [_ Heq]. injection Heq as _ -> _. apply spaced_refl.
Qed.

Lemma sequential_spaced l :
  0 <= cacheTTL -> sequential conf m l -> StronglySorted Z.le (log_readings l) ->
  StronglySorted spaced (op_after <$> l).
Proof.
  intros Hn. induction 1 as [|l o Hl IH Ho]; intros Hs; [constructor|].
  rewrite log_readings_snoc in Hs. specialize (IH (StronglySorted_app_1_l _ _ _ Hs)).
  apply StronglySorted_app_1_r in Hs. pose proof (op_spaced _ _ Ho Hs) as Hc.
  rewrite fmap_app. apply StronglySorted_app. split_and!; [|done|repeat constructor].
  intros a b Ha Hb. apply list_elem_of_singleton in Hb as ->. eapply spaced_trans; [done| |exact Hc].
  clear Ho Hc Hs Hl. unfold committed. destruct (last l) as [o'|] eqn:Hlast.
  - apply last_Some in Hlast as [l' ->]. rewrite fmap_app in IH, Ha. apply elem_of_app in Ha as [Ha|Ha].
    + eapply (StronglySorted_app_1_elem_of spaced); [exact IH|done|by left].
    + apply list_elem_of_singleton in Ha as ->. apply spaced_refl.
  - apply last_None in Hlast as ->. by apply elem_of_nil in Ha.
Qed.

(** ** Every call returns *)

(** Statements a call has left, at most, but for the requests of a build. *)
Definition rank (p : pc) : nat :=
  match p with
  | Called => 11 | Reading => 10 | ReadSome => 9 | ReadFresh => 8 | ReadHit _ => 7 | ReadMiss => 8
  | Waiting => 7 | Writing => 6 | WriteSome => 5 | WriteFresh => 4
  | Building _ _ => 4 | Built _ _ => 3 | Stored _ _ => 2 | Leaving _ => 1 | Returned _ => 0
  end.
Definition work (s : conc) : nat := map_fold (fun _ p n => rank p + n)%nat 0%nat (goroutines s).

Lemma work_insert s s' i p q :
  goroutines s !! i = Some p -> goroutines s' = <[ i := q ]> (goroutines s) ->
  (work s' + rank p = work s + rank q)%nat.
Proof.
  intros Hp Hg. unfold work. rewrite Hg, <-insert_delete_eq.
  rewrite map_fold_insert_L; [|lia|apply lookup_delete_eq].
  rewrite <-(insert_delete_id (goroutines s) i p Hp) at 2. rewrite map_fold_insert_L; [|lia|apply lookup_delete_eq]. lia.
Qed.

(** Whatever order the goroutines go on in, and whatever time passes, all calls return: in each
    state on the way all have, or some goroutine can go on. *)
Definition returned (p : pc) : bool := match p with Returned _ => true | _ => false end.

Inductive all_return (s : conc) : Prop :=
| all_return_intro :
    (forall i p, goroutines s !! i = Some p -> returned p = true) \/
    (forall env, exists i s', go conf m cacheTTL env i s = Some s') ->
    (forall env i d s', 0 <= d -> go conf m cacheTTL env i (tick d s) = Some s' -> all_return s') ->
    all_return s.

(** What a program does after its next request. *)
Definition goes_on {A} (p' p : prog sanswer A) : Prop :=
  match p with Do _ k => exists x, p' = k x | _ => False end.

(** A statement is one less to go, or a request answered. *)
Lemma go_work env i s s' :
  go conf m cacheTTL env i s = Some s' ->
  exists p q, goroutines s !! i = Some p /\ goroutines s' = <[ i := q ]> (goroutines s) /\
    ((rank q < rank p)%nat \/
     exists t t' b b', p = Building t b /\ q = Building t' b' /\ goes_on b' b).
Proof.
  unfold go. destruct (goroutines s !! i) as [p|]; [|done]. cbn.
  assert (goroutines (hit i s) = goroutines s) as Hh by (unfold hit; by destruct (config s)).
  destruct p as [| | | | | | | | | |t [[? [|]]| |r k]| | | |]; repeat case_match; try done; cbn;
    try (destruct (config s); cbn); intros [= <-]; eexists _, _; cbn; rewrite ?Hh;
    (split; [reflexivity|split; [reflexivity|]]); first [left; cbn; lia | right; eexists _, _, _, _; split_and!; [done..|by eexists]].
Qed.

(** As long as a call has not returned, some goroutine can go on. *)
Lemma go_progress s :
  conc_ok s ->
  (forall i p, goroutines s !! i = Some p -> returned p = true) \/
  (forall env, exists i s', go conf m cacheTTL env i s = Some s').
Proof.
  intros Hok. pose proof (ok_lock _ Hok) as [Hr Hw He].
  destruct (writer s) as [w|] eqn:Hws; [|destruct (decide (readers s = ∅)) as [Hrs|Hrs]].
  - right. intros env. exists w. destruct (proj1 (Hw w) eq_refl) as (p & Hp & Wp).
    pose proof (ok_pc _ Hok w p Hp) as Hpc. unfold go. rewrite Hp. cbn.
    destruct p as [| | | | | | | | | |t [[? [|]]| |]| | | |]; try done; try (by eexists).
    destruct Hpc as [cf ->]. by eexists.
  - destruct (decide (map_Forall (fun _ p => returned p = true) (goroutines s))) as [Hd|Hd]; [by left|].
    right. intros env. apply map_not_Forall in Hd as (i & p & Hp & Hn); [|apply _]. exists i.
    unfold go. rewrite Hp, Hws, Hrs. cbn.
    assert (reading p = false) as Rp.
    { apply not_true_iff_false. intros R. assert (i ∈ readers s) by (apply Hr; eauto). set_solver. }
    assert (writing p = false) as Wp.
    { apply not_true_iff_false. intros W. assert (None = Some i) by (apply Hw; eauto). done. }
    destruct p; try done; [by eexists|]. rewrite decide_True by done. by eexists.
  - right. intros env. apply set_choose_L in Hrs as [i Hi]. exists i.
    apply Hr in Hi as (p & Hp & Rp). pose proof (ok_pc _ Hok i p Hp) as Hpc. unfold go. rewrite Hp. cbn.
    destruct p; try done; try (by eexists). destruct Hpc as [cf ->]. by eexists.
Qed.

(** It is enough that all calls return from the states with less work, and from those where a
    build goes on. *)
Lemma all_return_by s :
  conc_ok s ->
  (forall s', conc_ok s' -> (work s' < work s)%nat -> all_return s') ->
  (forall i t b t' b' s', goroutines s !! i = Some (Building t b) ->
     goroutines s' !! i = Some (Building t' b') -> goes_on b' b -> conc_ok s' -> work s' = work s ->
     all_return s') ->
  all_return s.
Proof.
  intros Hok Hless Hbuild. constructor; [by apply go_progress|]. intros env j d s' Hd Hgo.
  pose proof (conc_ok_go _ _ _ _ (conc_ok_tick _ _ Hd Hok) Hgo) as Hok'.
  destruct (go_work _ _ _ _ Hgo) as (q & q' & Hq & Hg' & Hlt).
  pose proof (work_insert (tick d s) s' j q q' Hq Hg') as Hw. change (work (tick d s)) with (work s) in Hw.
  destruct Hlt as [Hlt|(t1 & t2 & b & b' & -> & -> & Hb)]; [apply Hless; [exact Hok'|lia]|].
  eapply Hbuild; [exact Hq| |exact Hb|exact Hok'|]; [rewrite Hg'; apply lookup_insert_eq|cbn in Hw; lia].
Qed.

(** A build asks finitely many requests. *)
Lemma all_return_building n p :
  (forall s, conc_ok s -> (work s < n)%nat -> all_return s) ->
  forall s i t, conc_ok s -> work s = n -> goroutines s !! i = Some (Building t p) -> all_return s.
Proof.
  intros IHn. induction p as [a| |r k IHp]; intros s i t Hok Hwork Hp;
    (apply all_return_by; [exact Hok|rewrite Hwork; exact IHn|]);
    intros j t1 b t2 b' s' Hq Hq' Hb Hok' Hw'.
  all: destruct (decide (j = i)) as [->|Hj];
    [|by destruct (writer_alone s i _ j _ (ok_lock _ Hok) Hp eq_refl Hq Hj)].
  all: rewrite Hp in Hq; injection Hq as <- <-.
  1,2: contradiction.
  destruct Hb as [x ->]. apply (IHp x s' i t2 Hok'); [congruence|exact Hq'].
Qed.

Lemma conc_ok_all_return s : conc_ok s -> all_return s.
Proof.
  remember (work s) as n eqn:Hn. revert s Hn. induction n as [n IHn] using lt_wf_ind. intros s Hn Hok.
  assert (forall s', conc_ok s' -> (work s' < n)%nat -> all_return s') as IH by (intros s' Hs' Hlt; by eapply IHn).
  apply all_return_by; [exact Hok|rewrite <-Hn; exact IH|]. intros j t1 b t2 b' s' _ Hq' _ Hok' Hw'.
  apply (all_return_building n b' IH s' j t2 Hok'); [congruence|exact Hq'].
Qed.
End Invariant.

(** ** Theorems *)

Section Theorems.
Context `{SL : ServicesLib}.
Context (conf : AuthConfig) (m0 m : Services) (cacheTTL : Z) (t : strace).
Context (Hfirst : tlsConfigCacheTTL m0 = None) (Honce : exec (getTLSConfigCacheTTL m0) t (Some (m, cacheTTL))).

(** What [tlsCacheTTLOnce] determines, it keeps: at least a minute. *)
Lemma ttl_determined : tlsConfigCacheTTL m = Some cacheTTL /\ minute <= cacheTTL.
Proof.
  refine (returns_wp _ (fun _ p => tlsConfigCacheTTL p.1 = Some p.2 /\ minute <= p.2) t (m, cacheTTL) _ Honce).
  change (wpm True (fun _ _ => True) getTLSConfigCacheTTL m0 []
    (fun _ m' ttl => tlsConfigCacheTTL m' = Some ttl /\ minute <= ttl)).
  unfold getTLSConfigCacheTTL. do 2 wp_step. rewrite Hfirst. wp_step. wp_call; [done|]. intros v. cbv zeta.
  do 3 wp_step. split; [done|]. case_bool_decide; [done|]. destruct (ParseDuration _) as [d|]; [|done].
  destruct (d <? minute) eqn:Hd; [done|]. by apply Z.ltb_ge in Hd.
Qed.

(** C34. However calls of [tlsCache.get] on one cache interleave, they behave as calls one after
    the other: each returns what an execution of [tlsCache_get] by itself returns on the cache
    the calls before it left, in an order in which the clock does not go back and which only
    grows, so that a call that returned comes before those made later. When nobody writes, the
    fields of the cache are what the last call left; a configuration stays until it is as old as
    the TTL, a minute at least, however many calls find it stale at once; and no call waits for
    ever: some goroutine can go on as long as one has not returned, and all have after finitely
    many statements. *)
Theorem tls_cache_linearizable now s s' :
  rtc (step conf m cacheTTL) (idle_cache now) s -> rtc (step conf m cacheTTL) s s' ->
  oplog s `prefix_of` oplog s' /\
  sequential conf m (oplog s') /\ StronglySorted Z.le (log_readings (oplog s')) /\
  (forall i, goroutines s' !! i = None -> results (oplog s') i = []) /\
  (forall i r, goroutines s' !! i = Some (Returned r) -> results (oplog s') i = [r]) /\
  (writer s' = None -> committed (oplog s') = shared s') /\
  StronglySorted (spaced cacheTTL) (op_after <$> oplog s') /\ minute <= cacheTTL /\
  all_return conf m cacheTTL s'.
Proof.
  intros H1 H2. destruct ttl_determined as [Httl Hmin].
  assert (conc_ok conf m s') as Hok.
  { eapply (conc_ok_rtc conf m cacheTTL Httl); [exact H2|]. eapply (conc_ok_rtc conf m cacheTTL Httl); [exact H1|].
    exact (conc_ok_idle conf m cacheTTL Httl now). }
  destruct (ok_times _ _ _ Hok) as [Hs _]. split_and!;
    [by eapply rtc_log|apply Hok|done| | | | |done|].
  - intros i Hi. by rewrite (ok_results _ _ _ Hok), Hi.
  - intros i r Hi. by rewrite (ok_results _ _ _ Hok), Hi.
  - intros Hw. apply (ok_cache _ _ _ Hok). intros i p Hp. destruct (storing p) eqn:Hst; [|done].
    assert (writer s' = Some i) by (apply (lock_writer _ (ok_lock _ _ _ Hok)); exists p; by destruct p). congruence.
  - apply (sequential_spaced conf m cacheTTL Httl); [by etrans; [|exact Hmin]|apply Hok|done].
  - by apply (conc_ok_all_return conf m cacheTTL Httl).
Qed.
End Theorems.
