(* ===== verification/ClientManager.v ===== *)
(** * AIS API clients

    [internal/services/client_manager.go] and [internal/services/aisapi.go]: the cache of
    clients by cluster, when a cached client is still good, and how a new one is made. A
    client is an object shared between the cache and its users, so it lives in a store of
    clients and is known by its address. *)

From S2P Require Import Prelude Effects K8sTypes AISConfig AIStoreTypes ThirdParty AuthConf AIStoreMethods CmnResources Certificates ProxyResources Rollout Requests K8sClient AuthN.

(** ** The store of clients *)

Definition with_client (m : Services) (a : Z) (c : AIStoreClient) : Services :=
  MkServices (<[ a := c ]> (clients m)) (next_client m) (clientMap m) (tlsConfigCacheTTL m).

(** A new client at a new address, entered in the cache. *)
Definition add_client (m : Services) (key : nsname) (c : AIStoreClient) : Services :=
  MkServices (<[ next_client m := c ]> (clients m)) (next_client m + 1)
    (<[ key := next_client m ]> (clientMap m)) (tlsConfigCacheTTL m).

Definition set_auth_failed (c : AIStoreClient) : AIStoreClient :=
  MkClient (c_params c) (c_mode c) (c_tlsCfg c) (c_tokenExpireAt c) true.

(** The client at an address; dereferencing an address never handed out panics. *)
Definition client_at (a : Z) : SM AIStoreClient := m ← get; deref (clients m !! a).

(** ** Clients *)

Definition TokenExpiryBuffer : Z := 5 * minute.
Definition APIModePublic : string := "public".

(** HTTP 401 and 403. *)
Definition IsAuthError (e : error) : bool :=
  bool_decide (err_kind e = EkUnauthorized) || bool_decide (err_kind e = EkForbidden).

(** [checkAuthErr], on the client at [a]. *)
Definition checkAuthErr {A} (a : Z) (r : res A) : SM unit :=
  match r with
  | Ok _ => mret tt
  | Err e => if IsAuthError e then modify (fun m =>
                match clients m !! a with Some c => with_client m a (set_auth_failed c) | None => m end)
             else mret tt
  end.

(** The methods of the client: one call with its parameters, then the check for a rejected
    token. *)
Definition api_method (a : Z) (op : api_op) : SM (res (op_result op)) :=
  c ← client_at a;
  r ← call (SApi (c_params c) op);
  checkAuthErr a r ≫= fun _ => mret r.

Definition DecommissionCluster (a : Z) (rmUserData : bool) := api_method a (OpDecommissionCluster rmUserData).
Definition DecommissionNode (a : Z) (act : ActValRmNode) := api_method a (OpDecommissionNode act).
Definition GetClusterMap (a : Z) := api_method a OpGetClusterMap.
Definition Health (a : Z) (readyToRebalance : bool) := api_method a (OpHealth readyToRebalance).
Definition SetClusterConfigUsingMsg (a : Z) (conf : ConfigToSet) (transient : bool) :=
  api_method a (OpSetClusterConfigUsingMsg conf transient).
Definition SetPrimaryProxy (a : Z) (id url : string) (force : bool) := api_method a (OpSetPrimary id url force).
Definition ShutdownCluster_ (a : Z) := api_method a OpShutdownCluster.
Definition StartMaintenance (a : Z) (act : ActValRmNode) := api_method a (OpStartMaintenance act).

(** Expired, or expiring within the buffer. *)
Definition isTokenExpired (c : AIStoreClient) : SM bool :=
  match c_tokenExpireAt c with
  | None => mret false
  | Some e => now ← call SNow; mret (e <? now + TokenExpiryBuffer)
  end.

Definition refreshToken (c : AIStoreClient) (t : option TokenInfo) : AIStoreClient :=
  let p := c_params c in
  let '(token, expireAt) := match t with Some i => (Token i, ExpiresAt i) | None => ("", None) end in
  MkClient (MkBaseParams (bp_URL p) token (bp_TLS p)) (c_mode c) (c_tlsCfg c) expireAt (c_authFailed c).

Definition buildBaseParams (url token : string) (tlsCfg : option TLSConfig) : BaseParams :=
  MkBaseParams url token tlsCfg.

Definition NewAIStoreClient (url : string) (t : option TokenInfo) (mode : string) (tlsCfg : option TLSConfig)
    : AIStoreClient :=
  let '(token, expireAt) := match t with Some i => (Token i, ExpiresAt i) | None => ("", None) end in
  MkClient (buildBaseParams url token tlsCfg) mode tlsCfg expireAt false.

Section Manager.
Context `{T : ThirdParty, SL : ServicesLib}.

(** The token is present exactly if the spec configures authentication. *)
Definition token_aligned (c : AIStoreClient) (ais : AIStore) : bool :=
  let hasAuthConfig := bool_decide (is_Some (Auth (Spec ais))) ||
                       bool_decide (is_Some (AuthNSecretName (Spec ais))) in
  let noToken := bool_decide (bp_Token (c_params c) = "") in
  (noToken && negb hasAuthConfig) || (negb noToken && hasAuthConfig).

(** Every client is built with parameters, so the check for a missing pointer is not modelled. *)
Definition HasValidBaseParams (a : Z) (ais : AIStore) (expectedURL : string) : SM bool :=
  c ← client_at a;
  if c_authFailed c then mret false
  else if bool_decide (bp_URL (c_params c) ≠ expectedURL) then mret false
  else if bool_decide (c_mode c ≠ GetAPIMode ais) then mret false
  else
    healthy ← (if bool_decide (c_mode c = APIModePublic)
               then r ← Health a false; mret (is_ok r) else mret true);
    if negb healthy then mret false
    else
      c ← client_at a;
      expired ← isTokenExpired c;
      if expired : bool then mret false
      else mret (Bool.eqb (IsHTTPS (bp_URL (c_params c))) (UseHTTPS ais) && token_aligned c ais).

(** ** Endpoint *)

Definition createAPIURL (https : bool) (hostname port : string) : string :=
  (if https then "https" else "http") +:+ "://" +:+ hostname +:+ ":" +:+ port.

Definition getPublicAISHostname (ais : AIStore) : SM (res string) :=
  let? pods := call (SListPods (nn_namespace (ais_Name ais)) (Proxy.SelectorLabels ais)) else e => mret (Err e) in
  mret (match filter (fun p => pod_ready_condition p = true) pods with
        | [] => Err (errorf "no ready pods found matching selector")
        | p :: _ => Ok (pod_HostIP p)
        end).

(** The first address of a load balancer; the IP of an ingress goes before its host name. *)
Fixpoint ingress_host (l : list Ingress) : string :=
  match l with
  | [] => ""
  | i :: l' => if bool_decide (ing_IP i ≠ "") then ing_IP i
               else if bool_decide (ing_Hostname i ≠ "") then ing_Hostname i
               else ingress_host l'
  end.

Definition getAISAPIEndpoint (ais : AIStore) : SM (res string) :=
  let s := ds_ServiceSpec (ProxySpec (Spec ais)) in
  let url hostname port := createAPIURL (UseHTTPS ais) hostname (IntOrStringString port) in
  if bool_decide (GetAPIMode ais = APIModePublic) then
    let? hostname := getPublicAISHostname ais else e => mret (Err e) in
    mret (Ok (url hostname (svs_PublicPort s)))
  else if ProxyExternalAccessEnabled ais then
    let? proxyLBSVC := call (SGetService (Proxy.LoadBalancerSVCNSName ais)) else e => mret (Err e) in
    let hostname := ingress_host (svc_Ingress proxyLBSVC) in
    mret (if bool_decide (hostname = "")
          then Err (errorf ("proxy load balancer svc " +:+ quoted (nn_namespace (ais_Name ais) +:+ "/" +:+
                            nn_name (Proxy.LoadBalancerSVCNSName ais)) +:+ " has no ingress IP or hostname"))
          else Ok (url hostname (svs_ServicePort s)))
  else
    let hostname := nn_name (Proxy.HeadlessSVCNSName ais) +:+ "." +:+ nn_namespace (ais_Name ais) in
    mret (Ok (url hostname (svs_ServicePort s))).

(** ** TLS *)

(** [AISClientTLSOpts]. *)
Record AISClientTLSOpts := MkTLSOpts { CertPath : string; CertPerCluster : bool }.

Definition getTLSPath (o : AISClientTLSOpts) (ais : AIStore) : string :=
  if CertPerCluster o then path_join [CertPath o; nn_namespace (ais_Name ais); nn_name (ais_Name ais)]
  else CertPath o.

(** [filepath.Ext]: from the last dot of the name. *)
Fixpoint path_ext (s : string) : string :=
  match s with
  | EmptyString => EmptyString
  | String a s' =>
      let r := path_ext s' in
      if bool_decide (r ≠ "") then r else if Ascii.eqb a "."%char then s else ""
  end.

Definition has_ext (exts : list string) (name : string) : bool := existsb (fun e => bool_decide (path_ext name = e)) exts.

(** [filepath.WalkDir] with the callback of [findCerts]: entries whose name starts with two dots
    are left out with all they contain; a directory that cannot be read ends the walk. *)
Fixpoint find_certs (exts : list string) (path : string) (e : fs_entry) : res (list string) :=
  match e with
  | FsFile name =>
      Ok (if has_prefix name ".." then [] else if has_ext exts name then [path] else [])
  | FsDir name children err =>
      if has_prefix name ".." then Ok []
      else
        let self := if has_ext exts name then [path] else [] in
        match err with
        | Some x => Err x
        | None =>
            (fix children_of (l : list fs_entry) (acc : list string) : res (list string) :=
               match l with
               | [] => Ok acc
               | c :: l' =>
                   let name := match c with FsFile n => n | FsDir n _ _ => n end in
                   match find_certs exts (path_join [path; name]) c with
                   | Ok paths => children_of l' (acc ++ paths)
                   | Err x => Err x
                   end
               end) children self
        end
  end.

Definition findCerts (root : string) (exts : list string) : SM (res (list string)) :=
  let? e := call (SWalk root) else e => mret (Err e) in mret (find_certs exts root e).

Definition CAMountPath : string := "/etc/ais/ca".

(** A missing file adds nothing; one that does not parse is an error. *)
Definition appendCertIfExists (pool : CertPool) (path : string) : SM (res CertPool) :=
  r ← call (SReadFile path);
  mret (match r with
        | Err e => if is_not_found e then Ok pool else Err e
        | Ok cert => if ValidPEM cert then Ok (append_pem pool cert)
                     else Err (errorf ("failed to append existing CA certs from PEM: " +:+ quoted path))
        end).

(** Additional certificates: one that cannot be added is skipped. *)
Fixpoint append_each (pool : CertPool) (paths : list string) : SM CertPool :=
  match paths with
  | [] => mret pool
  | p :: paths' =>
      r ← appendCertIfExists pool p;
      append_each (match r with Ok pool' => pool' | Err _ => pool end) paths'
  end.

Definition loadOptionalProvidedCA (caPath : string) : SM (res CertPool) :=
  let? _ := call SSystemCertPool else e => mret (Err e) in
  let? pool := appendCertIfExists (MkCertPool true []) caPath else e => mret (Err e) in
  r ← call (SStat CAMountPath);
  match r with
  | Err e => mret (if is_not_found e then Ok pool else Err e)
  | Ok _ =>
      let? certPaths := findCerts CAMountPath [".crt"; ".pem"] else _e => mret (Ok pool) in
      p ← append_each pool certPaths; mret (Ok p)
  end.

Definition EnvSkipVerify : string := "OPERATOR_SKIP_VERIFY_CRT".

(** The setting of the cluster goes before the deprecated one of the operator's environment. *)
Definition skip_verify (ais : AIStore) : SM (res bool) :=
  match OperatorSkipVerifyCrt (Spec ais) with
  | Some b => mret (Ok b)
  | None => raw ← call (SLookupEnv EnvSkipVerify);
            mret (match raw with None => Ok false | Some r => ParseBool r end)
  end.

Definition configureCAVerification (ais : AIStore) (conf : TLSConfig) (tlsDir : string) : SM (res TLSConfig) :=
  let? skipVerify := skip_verify ais else e => mret (Err e) in
  if skipVerify : bool
  then mret (Ok (MkTLSConfig (tls_MinVersion12 conf) (tls_RootCAs conf) true (tls_ClientCertificate conf)))
  else
    let? caPool := loadOptionalProvidedCA (path_join [tlsDir; "ca.crt"]) else e => mret (Err e) in
    mret (Ok (MkTLSConfig (tls_MinVersion12 conf) (Some caPool) (tls_InsecureSkipVerify conf)
                (tls_ClientCertificate conf))).

(** The certificate is read from these files at each handshake. *)
Definition addClientCertIfRequested (ais : AIStore) (conf : TLSConfig) (tlsDir : string) : TLSConfig :=
  if ShouldIncludeClientCert ais
  then MkTLSConfig (tls_MinVersion12 conf) (tls_RootCAs conf) (tls_InsecureSkipVerify conf)
         (Some (path_join [tlsDir; "tls.crt"], path_join [tlsDir; "tls.key"]))
  else conf.

Definition getTLSConfig (o : AISClientTLSOpts) (ais : AIStore) : SM (res (option TLSConfig)) :=
  if negb (UseHTTPS ais) then mret (Ok None)
  else
    let tlsDir := getTLSPath o ais in
    let? conf := configureCAVerification ais empty_tls tlsDir else e => mret (Err e) in
    mret (Ok (Some (addClientCertIfRequested ais conf tlsDir))).

(** ** The manager *)

(** A cached client whose token is expired gets a new token in place. *)
Definition refresh_cached (ais : AIStore) (a : Z) : SM (res unit) :=
  c ← client_at a;
  expired ← isTokenExpired c;
  if negb expired then mret (Ok tt)
  else
    let? tokenInfo := getAdminToken ais else e => mret (Err e) in
    modify (fun m => match clients m !! a with
                     | Some c => with_client m a (refreshToken c tokenInfo)
                     | None => m end) ≫= fun _ => mret (Ok tt).

(** A new client, which replaces the one in the cache. *)
Definition create_client (o : AISClientTLSOpts) (ais : AIStore) (url : string) : SM (res Z) :=
  let? tokenInfo := getAdminToken ais else e => mret (Err e) in
  let? tlsConf := getTLSConfig o ais else e => mret (Err e) in
  m ← get;
  put (add_client m (ais_Name ais) (NewAIStoreClient url tokenInfo (GetAPIMode ais) tlsConf)) ≫= fun _ =>
  mret (Ok (next_client m)).

(** The address of the client to use. *)
Definition GetClient (o : AISClientTLSOpts) (ais : AIStore) : SM (res Z) :=
  m ← get;
  let client := clientMap m !! ais_Name ais in
  let? _ := (match client with Some a => refresh_cached ais a | None => mret (Ok tt) end)
    else e => mret (Err e) in
  let? url := getAISAPIEndpoint ais else e => mret (Err e) in
  valid ← (match client with Some a => HasValidBaseParams a ais url | None => mret false end);
  match client with
  | Some a => if valid : bool then mret (Ok a) else create_client o ais url
  | None => create_client o ais url
  end.
End Manager.
