(* ===== verification/ServicesFacts.v ===== *)
(** * What the client manager and the token client guarantee

    Which client [GetClient] hands out, that clusters do not share clients, when a token
    counts as expired, and where credentials are sent. *)

From S2P Require Import Prelude Effects K8sTypes AISConfig AIStoreTypes ThirdParty AuthConf AIStoreMethods CmnResources ProxyResources K8sClient AuthN ClientManager.

(** ** The store of clients *)

(** Addresses were handed out, cached ones are valid, and no two clusters share a client. *)
Record store_ok (m : Services) : Prop := {
  so_below : forall a c, clients m !! a = Some c -> a < next_client m;
  so_cached : forall k a, clientMap m !! k = Some a -> is_Some (clients m !! a);
  so_inj : forall k k' a, clientMap m !! k = Some a -> clientMap m !! k' = Some a -> k = k' }.

Definition same_clients (m m' : Services) : Prop :=
  clients m' = clients m /\ next_client m' = next_client m /\ clientMap m' = clientMap m.

Lemma same_clients_ok m m' : same_clients m m' -> store_ok m -> store_ok m'.
Proof. intros (Hc & Hn & Hm) [H1 H2 H3]. split; rewrite ?Hc, ?Hn, ?Hm; done. Qed.

Lemma same_clients_trans m1 m2 m3 : same_clients m1 m2 -> same_clients m2 m3 -> same_clients m1 m3.
Proof. unfold same_clients. intuition congruence. Qed.

(** Handlers that leave the clients and the cache alone. *)
Definition stays {A} (p : SM A) : Prop :=
  forall m h, wpm True (fun _ _ => True) p m h (fun h' m' _ => same_clients m m' /\ h `suffix_of` h').

Lemma stays_bind {A B} (p : SM A) (f : A -> SM B) : stays p -> (forall a, stays (f a)) -> stays (p ≫= f).
Proof.
  intros Hp Hf m h. apply wpm_bind. eapply wpm_mono; [apply Hp|]. intros h1 m1 a [H1 S1].
  eapply wpm_mono; [apply Hf|]. intros h2 m2 b [H2 S2]. split; [by eapply same_clients_trans | by trans h1].
Qed.
Lemma stays_try {A B} (p : SM (res A)) (e : error -> SM B) (k : A -> SM B) :
  stays p -> (forall x, stays (e x)) -> (forall a, stays (k a)) -> stays (try_ p e k).
Proof. intros Hp He Hk. apply stays_bind; [done|]. by intros []. Qed.
Lemma stays_ret {A} (a : A) : stays (mret a).
Proof. by intros m h. Qed.
Lemma stays_get : stays get.
Proof. by intros m h. Qed.
Lemma stays_deref {A} (o : option A) : stays (deref o).
Proof. by destruct o; intros m h. Qed.
Lemma stays_call r : stays (call r).
Proof. intros m h. wp_call; [done|]. intros x. split; [done|]. by apply suffix_cons_r. Qed.
Lemma stays_modify f : (forall m, same_clients m (f m)) -> stays (modify f).
Proof. intros Hf m h. by split. Qed.

Create HintDb stays discriminated.

Ltac stays_step :=
  lazymatch goal with
  | |- forall _, _ => intros ?
  | |- stays (call ?r) => exact (stays_call r)
  | |- stays (mret _) => apply stays_ret
  | |- stays get => apply stays_get
  | |- stays (deref _) => apply stays_deref
  | |- stays (modify _) => apply stays_modify; by intros []
  | |- stays (try_ _ _ _) => apply stays_try
  | |- stays (mbind _ _) => apply stays_bind
  | |- stays (if ?b then _ else _) => destruct b
  | |- stays (match ?x with _ => _ end) => destruct x
  | |- stays (let _ := _ in _) => cbv zeta
  | |- stays ?p =>
      first [ solve [eauto 2 with stays]
            | let rec head t := lazymatch t with ?f _ => head f | _ => t end in
              let f := head p in unfold f ]
  end.
Ltac stays_auto := repeat stays_step; try done.

Section Stays.
Context `{T : ThirdParty, SL : ServicesLib}.

Lemma stays_load_paths paths : forall pool, stays (load_paths paths pool).
Proof. induction paths as [|p paths IH]; intros pool; [apply stays_ret|]. cbn. stays_auto. Qed.
Lemma stays_append_each paths : forall pool, stays (append_each pool paths).
Proof. induction paths as [|p paths IH]; intros pool; [apply stays_ret|]. cbn. stays_auto. Qed.
#[local] Hint Resolve stays_load_paths stays_append_each : stays.

Lemma stays_getAdminToken ais : stays (getAdminToken ais).
Proof. stays_auto. Qed.
Lemma stays_getTLSConfig o ais : stays (getTLSConfig o ais).
Proof. stays_auto. Qed.
Lemma stays_getAISAPIEndpoint ais : stays (getAISAPIEndpoint ais).
Proof. stays_auto. Qed.
End Stays.
#[export] Hint Resolve stays_getAdminToken stays_getTLSConfig stays_getAISAPIEndpoint : stays.

(** ** Endpoint and lifetime of the client handed out *)

Section Client.
Context `{T : ThirdParty, SL : ServicesLib}.

(** Where the API of a cluster is reached, from what was read. *)
Definition endpoint_of (ais : AIStore) (t : strace) (url : string) : Prop :=
  let s := ds_ServiceSpec (ProxySpec (Spec ais)) in
  let at_ hostname port := url = createAPIURL (UseHTTPS ais) hostname (IntOrStringString port) in
  if bool_decide (GetAPIMode ais = APIModePublic) then
    exists pods p rest, ev (SListPods (nn_namespace (ais_Name ais)) (Proxy.SelectorLabels ais)) (Ok pods) ∈ t /\
      filter (fun p => pod_ready_condition p = true) pods = p :: rest /\ at_ (pod_HostIP p) (svs_PublicPort s)
  else if ProxyExternalAccessEnabled ais then
    exists svc, ev (SGetService (Proxy.LoadBalancerSVCNSName ais)) (Ok svc) ∈ t /\
      ingress_host (svc_Ingress svc) ≠ "" /\ at_ (ingress_host (svc_Ingress svc)) (svs_ServicePort s)
  else at_ (nn_name (Proxy.HeadlessSVCNSName ais) +:+ "." +:+ nn_namespace (ais_Name ais)) (svs_ServicePort s).

(** A token with more than the buffer left at a time of the trace, or without expiration. *)
Definition token_lasting (e : option Z) (t : strace) : Prop :=
  match e with None => True | Some e => exists now, ev SNow now ∈ t /\ now + TokenExpiryBuffer <= e end.

(** What makes a cached client good enough. *)
Definition cached_good (ais : AIStore) (c : AIStoreClient) (t : strace) : Prop :=
  token_lasting (c_tokenExpireAt c) t /\ token_aligned c ais = true /\
  IsHTTPS (bp_URL (c_params c)) = UseHTTPS ais.

(** The client of [ais] at [a] in the store [m], started from [m0]. *)
Definition client_good (ais : AIStore) (m0 m : Services) (a : Z) (t : strace) : Prop :=
  exists c url, clients m !! a = Some c /\ clientMap m !! ais_Name ais = Some a /\
    endpoint_of ais t url /\ bp_URL (c_params c) = url /\ c_mode c = GetAPIMode ais /\
    c_authFailed c = false /\
    ((clientMap m0 !! ais_Name ais = Some a /\ cached_good ais c t) \/ clients m0 !! a = None).

(** The clients and cache entries of other clusters are as they were. *)
Definition others_kept (key : nsname) (m0 m : Services) : Prop :=
  forall k, k ≠ key -> clientMap m !! k = clientMap m0 !! k /\
    forall b, clientMap m0 !! k = Some b -> clients m !! b = clients m0 !! b.

(** A change of the cached client of [key] only. *)
Definition only_client (key : nsname) (m0 m : Services) : Prop :=
  clientMap m = clientMap m0 /\ next_client m = next_client m0 /\ dom (clients m) = dom (clients m0) /\
  forall b, clientMap m0 !! key ≠ Some b -> clients m !! b = clients m0 !! b.

Lemma only_client_refl key m : only_client key m m.
Proof. done. Qed.

Lemma only_client_trans key m1 m2 m3 : only_client key m1 m2 -> only_client key m2 m3 -> only_client key m1 m3.
Proof.
  intros (A1 & A2 & A3 & A4) (B1 & B2 & B3 & B4). split_and!; [congruence..|].
  intros b Hb. rewrite B4 by congruence. by apply A4.
Qed.

Lemma same_only key m m' : same_clients m m' -> only_client key m m'.
Proof. intros (Hc & Hn & Hm). split_and!; [done..|by rewrite Hc|by rewrite Hc]. Qed.

Lemma with_client_only key m a c :
  clientMap m !! key = Some a -> is_Some (clients m !! a) -> only_client key m (with_client m a c).
Proof.
  intros Ha Hs. split_and!; [done..| |].
  - cbn. apply dom_insert_lookup_L. done.
  - intros b Hb. cbn. apply lookup_insert_ne. congruence.
Qed.

Lemma only_client_ok key m m' : only_client key m m' -> store_ok m -> store_ok m'.
Proof.
  intros (Hm & Hn & Hd & _) [H1 H2 H3]. split; rewrite ?Hm, ?Hn; [| |done].
  - intros a c Hc. assert (a ∈ dom (clients m)) as Ha by (rewrite <-Hd; by eapply elem_of_dom_2).
    apply elem_of_dom in Ha as [c' Hc']. eauto.
  - intros k a Hk. apply elem_of_dom. rewrite Hd. apply elem_of_dom. eauto.
Qed.

Lemma only_client_others key m m' : store_ok m -> only_client key m m' -> others_kept key m m'.
Proof.
  intros [_ _ Hinj] (Hm & _ & _ & Hc) k Hk. rewrite Hm. split; [done|]. intros b Hb. apply Hc.
  intros Hb'. apply Hk. eauto.
Qed.

Lemma isTokenExpired_wp c m h :
  wpm True (fun _ _ => True) (isTokenExpired c) m h (fun h' m' r =>
    m' = m /\ h `suffix_of` h' /\ (r = false -> token_lasting (c_tokenExpireAt c) (rev h'))).
Proof.
  unfold isTokenExpired, token_lasting. destruct (c_tokenExpireAt c) as [e|]; [|by wp_step].
  wp_step. wp_call; [done|]. intros now. wp_step. split_and!; [done|by apply suffix_cons_r|].
  intros Hr. exists now. split; [apply in_trace_here|]. apply Z.ltb_ge in Hr. lia.
Qed.

Lemma refresh_cached_wp ais a m h :
  clientMap m !! ais_Name ais = Some a -> store_ok m ->
  wpm True (fun _ _ => True) (refresh_cached ais a) m h (fun h' m' _ =>
    only_client (ais_Name ais) m m' /\ h `suffix_of` h').
Proof.
  intros Ha Hok. unfold refresh_cached, client_at. do 3 wp_step. wp_step. intros c Hc.
  wp_step. eapply wpm_mono; [apply isTokenExpired_wp|]. intros h1 m1 r (-> & S1 & _).
  wp_step; [by wp_step|]. wp_step. eapply wpm_mono; [apply stays_getAdminToken|].
  intros h2 m2 [ti|e] [Hm2 S2].
  2:{ wp_step. split; [by apply same_only | by trans h1]. }
  do 3 wp_step. split; [|by trans h1].
  eapply only_client_trans; [by apply same_only|]. destruct Hm2 as (Hc2 & Hn2 & Hm2).
  rewrite Hc2, Hc. apply with_client_only; [by rewrite Hm2 | by rewrite Hc2, Hc].
Qed.

Lemma token_lasting_mono e h h' : h `suffix_of` h' -> token_lasting e (rev h) -> token_lasting e (rev h').
Proof.
  intros Hs. destruct e as [e|]; [|done]. intros (now & Hn & He). exists now. split; [|done].
  by eapply elem_of_rev_later.
Qed.

Lemma endpoint_mono ais url h h' : h `suffix_of` h' -> endpoint_of ais (rev h) url -> endpoint_of ais (rev h') url.
Proof.
  intros Hs. unfold endpoint_of. destruct (bool_decide _).
  - intros (pods & p & rest & H1 & H2). exists pods, p, rest. split; [by eapply elem_of_rev_later|done].
  - destruct (ProxyExternalAccessEnabled ais); [|done].
    intros (svc & H1 & H2). exists svc. split; [by eapply elem_of_rev_later|done].
Qed.

Lemma getAISAPIEndpoint_wp ais m h :
  wpm True (fun _ _ => True) (getAISAPIEndpoint ais) m h (fun h' m' r =>
    (same_clients m m' /\ h `suffix_of` h') /\ forall url, r = Ok url -> endpoint_of ais (rev h') url).
Proof.
  apply wpm_both; [apply stays_getAISAPIEndpoint|].
  unfold getAISAPIEndpoint, endpoint_of. cbv zeta. destruct (bool_decide (GetAPIMode ais = APIModePublic)).
  - unfold getPublicAISHostname. do 2 wp_step. wp_call; [done|]. intros [pods|e]; [|by do 2 wp_step].
    wp_step. destruct (filter _ pods) as [|p rest] eqn:Hf; [by wp_step|].
    wp_step. intros url [= <-]. exists pods, p, rest. split_and!; [apply in_trace_here|done..].
  - destruct (ProxyExternalAccessEnabled ais); [|wp_step; by intros url [= <-]].
    wp_step. wp_call; [done|]. intros [svc|e]; [|by wp_step]. wp_step.
    intros url Hu. case_bool_decide; [done|]. injection Hu as <-.
    exists svc. split_and!; [apply in_trace_here|done..].
Qed.

(** A client left valid is as it was, and good. *)
Lemma HasValidBaseParams_wp ais a url m h :
  clientMap m !! ais_Name ais = Some a -> store_ok m ->
  wpm True (fun _ _ => True) (HasValidBaseParams a ais url) m h (fun h' m' r =>
    only_client (ais_Name ais) m m' /\ h `suffix_of` h' /\
    (r = true -> exists c, clients m' !! a = Some c /\ bp_URL (c_params c) = url /\
       c_mode c = GetAPIMode ais /\ c_authFailed c = false /\ cached_good ais c (rev h'))).
Proof.
  intros Ha Hok. unfold HasValidBaseParams, client_at. do 4 wp_step. intros c Hc.
  wp_step; [by wp_step|]. wp_step; [by wp_step|]. wp_step; [by wp_step|]. reflect_bools.
  assert (bp_URL (c_params c) = url) as Hurl by (by apply dec_stable).
  assert (c_mode c = GetAPIMode ais) as Hmode by (by apply dec_stable).
  assert (forall m1 h1, only_client (ais_Name ais) m m1 -> h `suffix_of` h1 -> clients m1 !! a = Some c ->
    wpm True (fun _ _ => True)
      (m ← get; c ← deref (clients m !! a); expired ← isTokenExpired c;
       if expired : bool then mret false
       else mret (Bool.eqb (IsHTTPS (bp_URL (c_params c))) (UseHTTPS ais) && token_aligned c ais)) m1 h1
      (fun h' m' r => only_client (ais_Name ais) m m' /\ h `suffix_of` h' /\
         (r = true -> exists c, clients m' !! a = Some c /\ bp_URL (c_params c) = url /\
            c_mode c = GetAPIMode ais /\ c_authFailed c = false /\ cached_good ais c (rev h')))) as Hrest.
  { intros m1 h1 Hm1 S1 Hc1. do 4 wp_step. intros c' Hc'. rewrite Hc1 in Hc'. injection Hc' as <-.
    wp_step. eapply wpm_mono; [apply isTokenExpired_wp|]. intros h2 m2 r (-> & S2 & Hlast).
    destruct r; wp_step; (split_and!; [done | by trans h1|]); [done|]. intros [Hh Hal]%andb_true_iff.
    exists c. apply Bool.eqb_prop in Hh. split_and!; try done. split_and!; [by apply Hlast|done..]. }
  wp_step. destruct (bool_decide (c_mode c = APIModePublic)).
  - unfold Health, api_method, client_at. do 5 wp_step. intros c' Hc'. rewrite Hc in Hc'. injection Hc' as <-.
    wp_step. wp_call; [done|]. intros x. wp_step. destruct x as [u|e]; cbn [checkAuthErr].
    + do 3 wp_step. cbn. apply Hrest; [done | by apply suffix_cons_r | done].
    + wp_step; do 3 wp_step; cbn; wp_step; (split_and!; [|by apply suffix_cons_r|done]); [|done].
      rewrite Hc. apply with_client_only; [done | by rewrite Hc].
  - wp_step. cbn. by apply Hrest.
Qed.

Lemma add_client_ok m key c : store_ok m -> store_ok (add_client m key c).
Proof.
  intros [H1 H2 H3]. split; cbn.
  - intros a c'. rewrite lookup_insert_Some. intros [[<- _]|[_ Ha]]; [lia|]. apply H1 in Ha. lia.
  - intros k a. rewrite lookup_insert_Some. intros [[_ <-]|[_ Hk]].
    + rewrite lookup_insert_eq. by eexists.
    + destruct (H2 k a Hk) as [c' Hc']. rewrite lookup_insert_ne; [by eexists|]. apply H1 in Hc'. lia.
  - assert (forall k a, clientMap m !! k = Some a -> a < next_client m) as Hlt.
    { intros k a Hk. destruct (H2 k a Hk) as [c' Hc']. by eapply H1. }
    intros k k' a. rewrite !lookup_insert_Some.
    intros [[<- <-]|[? Hk]] [[<- Ha]|[? Hk']]; try done; [apply Hlt in Hk'; lia|apply Hlt in Hk; lia|].
    by eapply H3.
Qed.

Lemma add_client_others m key c : store_ok m -> others_kept key m (add_client m key c).
Proof.
  intros [H1 H2 _] k Hk. cbn. rewrite lookup_insert_ne by done. split; [done|].
  intros b Hb. rewrite lookup_insert_ne; [done|]. destruct (H2 k b Hb) as [c' Hc']. apply H1 in Hc'. lia.
Qed.

Lemma others_kept_trans key m1 m2 m3 : others_kept key m1 m2 -> others_kept key m2 m3 -> others_kept key m1 m3.
Proof.
  intros H12 H23 k Hk. destruct (H12 k Hk) as [A1 A2], (H23 k Hk) as [B1 B2].
  split; [congruence|]. intros b Hb. rewrite B2 by congruence. by apply A2.
Qed.

(** A new client is at an address not used before, for the endpoint asked for. *)
Lemma create_client_wp o ais url m h :
  store_ok m ->
  wpm True (fun _ _ => True) (create_client o ais url) m h (fun h' m' r =>
    h `suffix_of` h' /\ store_ok m' /\ others_kept (ais_Name ais) m m' /\
    forall a, r = Ok a -> exists c, clients m' !! a = Some c /\ clientMap m' !! ais_Name ais = Some a /\
      clients m !! a = None /\ bp_URL (c_params c) = url /\ c_mode c = GetAPIMode ais /\ c_authFailed c = false).
Proof.
  intros Hok. unfold create_client. wp_step. eapply wpm_mono; [apply stays_getAdminToken|].
  intros h1 m1 [ti|e] [Hm1 S1]; pose proof (same_only (ais_Name ais) _ _ Hm1) as Ho1.
  2:{ wp_step. split_and!; [done|by eapply only_client_ok | by apply only_client_others|done]. }
  wp_step. eapply wpm_mono; [apply stays_getTLSConfig|].
  intros h2 m2 [tc|e] [Hm2 S2]; pose proof (only_client_trans _ _ _ _ Ho1 (same_only _ _ _ Hm2)) as Ho2.
  2:{ wp_step. split_and!; [by trans h1|by eapply only_client_ok | by apply only_client_others|done]. }
  assert (store_ok m2) as Hok2 by (by eapply only_client_ok).
  do 5 wp_step. split_and!; [by trans h1 | by apply add_client_ok | |].
  - eapply others_kept_trans; [by apply only_client_others | by apply add_client_others].
  - intros a [= <-]. cbn. rewrite !lookup_insert_eq. eexists. split_and!; [done..| | | |].
    + destruct Ho2 as (_ & Hn & _ & _). destruct (clients m !! next_client m2) eqn:Hc; [|done].
      apply (so_below m Hok) in Hc. lia.
    + unfold NewAIStoreClient. by destruct ti.
    + unfold NewAIStoreClient. by destruct ti.
    + unfold NewAIStoreClient. by destruct ti.
Qed.

Lemma GetClient_wp o ais m :
  store_ok m ->
  wpm True (fun _ _ => True) (GetClient o ais) m [] (fun h' m' r =>
    store_ok m' /\ others_kept (ais_Name ais) m m' /\
    forall a, r = Ok a -> client_good ais m m' a (rev h')).
Proof.
  intros Hok. unfold GetClient. do 2 wp_step. wp_step.
  apply (wpm_mono _ _ _ _ _ (fun h' m' _ => only_client (ais_Name ais) m m')).
  { destruct (clientMap m !! ais_Name ais) as [a|] eqn:Ha; [|by wp_step].
    eapply wpm_mono; [by apply refresh_cached_wp|]. by intros h' m' r [? _]. }
  intros h1 m1 [[]|e] Ho1; pose proof (only_client_ok _ _ _ Ho1 Hok) as Hok1.
  2:{ wp_step. split_and!; [done|by apply only_client_others|done]. }
  wp_step. eapply wpm_mono; [apply getAISAPIEndpoint_wp|].
  intros h2 m2 [url|e] [[Hm2 S2] Hurl]; pose proof (only_client_trans _ _ _ _ Ho1 (same_only _ _ _ Hm2)) as Ho2;
    pose proof (only_client_ok _ _ _ Ho2 Hok) as Hok2.
  2:{ wp_step. split_and!; [done|by apply only_client_others|done]. }
  assert (forall m3 h3, only_client (ais_Name ais) m m3 -> h2 `suffix_of` h3 ->
    wpm True (fun _ _ => True) (create_client o ais url) m3 h3 (fun h' m' r =>
      store_ok m' /\ others_kept (ais_Name ais) m m' /\
      forall a, r = Ok a -> client_good ais m m' a (rev h'))) as Hnew.
  { intros m3 h3 Ho3 S3. eapply wpm_mono; [apply create_client_wp; by eapply only_client_ok|].
    intros h4 m4 r (S4 & Hok4 & Hk4 & Hr). split_and!; [done| |].
    - eapply others_kept_trans; [by apply only_client_others | done].
    - intros a Ha. destruct (Hr a Ha) as (c & Hc & Hcm & Hfresh & Hu & Hmode & Hf).
      exists c, url. split_and!; try done.
      + eapply endpoint_mono; [by trans h3|]. by apply Hurl.
      + right. destruct Ho3 as (_ & _ & Hd & _). apply not_elem_of_dom. rewrite <-Hd. by apply not_elem_of_dom. }
  destruct (clientMap m !! ais_Name ais) as [a|] eqn:Ha.
  - wp_step. eapply wpm_mono; [apply HasValidBaseParams_wp; [|done]|].
    { destruct Ho2 as (-> & _). exact Ha. }
    intros h3 m3 [] (Ho3 & S3 & Hv).
    + wp_step. pose proof (only_client_trans _ _ _ _ Ho2 Ho3) as Ho.
      split_and!; [by eapply only_client_ok | by apply only_client_others|].
      intros a' [= <-]. destruct (Hv eq_refl) as (c & Hc & Hu & Hmode & Hf & Hgood).
      exists c, url. split_and!; try done.
      * destruct Ho as (-> & _). exact Ha.
      * eapply endpoint_mono; [exact S3|]. by apply Hurl.
      * left. split; [exact Ha | done].
    + apply Hnew; [by eapply only_client_trans | done].
  - do 2 wp_step. by apply Hnew.
Qed.

Lemma GetClient_exec o ais m t m' r :
  store_ok m -> exec (GetClient o ais m) t (Some (m', r)) ->
  store_ok m' /\ others_kept (ais_Name ais) m m' /\ forall a, r = Ok a -> client_good ais m m' a t.
Proof.
  intros Hok Hex.
  exact (returns_wp _ (fun t p => store_ok p.1 /\ others_kept (ais_Name ais) m p.1 /\
    forall a, p.2 = Ok a -> client_good ais m p.1 a t) t (m', r) (GetClient_wp o ais m Hok) Hex).
Qed.

(** The cached client of the cluster, if any, has no token. *)
Definition tokenless (key : nsname) (m : Services) : Prop :=
  forall a c, clientMap m !! key = Some a -> clients m !! a = Some c -> bp_Token (c_params c) = "".

Lemma tokenless_same key m m' : same_clients m m' -> tokenless key m -> tokenless key m'.
Proof. intros (Hc & _ & Hm) Ht a c. rewrite Hc, Hm. apply Ht. Qed.

Lemma tokenless_with_client key m a c :
  bp_Token (c_params c) = "" -> tokenless key m -> tokenless key (with_client m a c).
Proof.
  intros Hc Ht b d Hb. cbn. rewrite lookup_insert_Some. intros [[_ <-]|[_ Hd]]; [done|]. by apply (Ht b d).
Qed.

(** Without [spec.auth] the operator has no token, and no client ever gets one. *)
Lemma GetClient_tokenless o ais m h :
  Auth (Spec ais) = None -> tokenless (ais_Name ais) m ->
  wpm True (fun _ _ => True) (GetClient o ais) m h (fun _ m' _ => tokenless (ais_Name ais) m').
Proof.
  intros Hauth Htl. assert (getAdminToken ais = mret (Ok None)) as Hnone by (unfold getAdminToken; by rewrite Hauth).
  assert (forall url m h, tokenless (ais_Name ais) m ->
    wpm True (fun _ _ => True) (create_client o ais url) m h (fun _ m' _ => tokenless (ais_Name ais) m')) as Hcreate.
  { intros url m0 h0 H0. unfold create_client. rewrite Hnone. do 2 wp_step.
    wp_step. eapply wpm_mono; [apply stays_getTLSConfig|]. intros h1 m1 [tc|e] [Hm1 _].
    - do 5 wp_step. intros a c. cbn. rewrite lookup_insert_eq. intros [= <-]. rewrite lookup_insert_eq. by intros [= <-].
    - wp_step. by eapply tokenless_same. }
  unfold GetClient. do 3 wp_step.
  apply (wpm_mono _ _ _ _ _ (fun _ m' _ => clientMap m' = clientMap m /\ tokenless (ais_Name ais) m')).
  { destruct (clientMap m !! ais_Name ais) as [a|]; [|by wp_step].
    unfold refresh_cached, client_at. rewrite Hnone. do 4 wp_step. intros c Hc.
    wp_step. eapply wpm_mono; [apply isTokenExpired_wp|]. intros h1 m1 r (-> & _ & _).
    wp_step; [by wp_step|]. do 5 wp_step. rewrite Hc. split; [done|]. by apply tokenless_with_client. }
  intros h1 m1 [[]|e] [Hm1 Ht1]; [|by wp_step].
  wp_step. eapply wpm_mono; [apply stays_getAISAPIEndpoint|]. intros h2 m2 [url|e] [Hm2 _].
  2:{ wp_step. by eapply tokenless_same. }
  assert (tokenless (ais_Name ais) m2) as Ht2 by (by eapply tokenless_same).
  wp_step. apply (wpm_mono _ _ _ _ _ (fun _ m' _ => tokenless (ais_Name ais) m')).
  { destruct (clientMap m !! ais_Name ais) as [a|] eqn:Ha; [|by wp_step].
    assert (clientMap m2 !! ais_Name ais = Some a) as Ha2.
    { destruct Hm2 as (_ & _ & Hm2). by rewrite Hm2, Hm1. }
    unfold HasValidBaseParams, client_at. do 4 wp_step. intros c Hc.
    assert (bp_Token (c_params c) = "") as Hct by (by eapply Ht2).
    do 3 (wp_step; [by wp_step|]). wp_step.
    apply (wpm_mono _ _ _ _ _ (fun _ m' _ => tokenless (ais_Name ais) m')).
    { destruct (bool_decide (c_mode c = APIModePublic)); [|by wp_step].
      unfold Health, api_method, client_at. do 5 wp_step. intros c' Hc'.
      wp_step. wp_call; [done|]. intros [u|x]; cbn [checkAuthErr]; [by do 3 wp_step|].
      wp_step. wp_step; do 3 wp_step; [|done]. rewrite Hc. by apply tokenless_with_client. }
    intros h3 m3 healthy Ht3. wp_step; [by wp_step|]. do 4 wp_step. intros c' Hc'.
    wp_step. eapply wpm_mono; [apply isTokenExpired_wp|]. intros h4 m4 r (-> & _ & _).
    by wp_step; wp_step. }
  intros h3 m3 valid Ht3. destruct (clientMap m !! ais_Name ais); [|by apply Hcreate].
  wp_step; [by wp_step | by apply Hcreate].
Qed.
End Client.

(** ** Theorems *)

Section Theorems.
Context `{T : ThirdParty, SL : ServicesLib}.

(** C30. The client handed out for a cluster is the cached one only if it is still good: its
    calls were not rejected, it is for the current API mode and the endpoint just resolved, with
    the right scheme, its token is present exactly if authentication is configured and has more
    than five minutes left. Otherwise it is a new one, for that endpoint. *)
Theorem client_handed_out_good o ais m t m' a :
  store_ok m -> exec (GetClient o ais m) t (Some (m', Ok a)) -> client_good ais m m' a t.
Proof. intros Hok Hex. by apply (GetClient_exec o ais m t m' (Ok a) Hok Hex). Qed.

(** Clusters do not share clients: whatever comes back, getting the client of one cluster
    leaves the cached clients of the others as they were, with their tokens, and the store stays
    well formed, so this goes on. *)
Theorem clients_isolated o ais m t m' r :
  store_ok m -> exec (GetClient o ais m) t (Some (m', r)) ->
  store_ok m' /\ others_kept (ais_Name ais) m m'.
Proof. intros Hok Hex. destruct (GetClient_exec o ais m t m' r Hok Hex) as (? & ? & _). done. Qed.

(** C31. For a cluster with [authNSecretName], the key the daemons check tokens with, but without
    [spec.auth], from which the operator gets its own token, [HasValidBaseParams] wants a token
    that no new client has. The client handed out is a new one, unless the
    cached one still holds a token, from when there was a [spec.auth]; and once the cached client
    holds none, every call makes a new client, and none gets a token. *)
Theorem signing_key_renews_clients o ais m t m' a secret :
  Auth (Spec ais) = None -> AuthNSecretName (Spec ais) = Some secret ->
  store_ok m -> exec (GetClient o ais m) t (Some (m', Ok a)) ->
  store_ok m' /\
  (clients m !! a = None \/
   clientMap m !! ais_Name ais = Some a /\ exists c, clients m' !! a = Some c /\ bp_Token (c_params c) ≠ "") /\
  (tokenless (ais_Name ais) m -> clients m !! a = None /\ tokenless (ais_Name ais) m').
Proof.
  intros Hauth Hsec Hok Hex. destruct (GetClient_exec o ais m t m' (Ok a) Hok Hex) as (Hok' & _ & Hgood).
  destruct (Hgood a eq_refl) as (c & url & Hc & Hm & _ & _ & _ & _ & Hreuse).
  assert (clients m !! a = None \/ clientMap m !! ais_Name ais = Some a /\ bp_Token (c_params c) ≠ "") as Hcase.
  { destruct Hreuse as [[Hm0 (_ & Hal & _)]|Hn]; [right; split; [done|]|by left]. intros Ht.
    unfold token_aligned in Hal. by rewrite Hauth, Hsec, Ht in Hal. }
  split_and!; [done| |].
  - destruct Hcase as [?|[? ?]]; [by left|right]. split; [done|]. by exists c.
  - intros Htl. pose proof (returns_wp _ (fun _ p => tokenless (ais_Name ais) p.1) t (m', Ok a)
      (GetClient_tokenless o ais m [] Hauth Htl) Hex) as Htl'. cbn in Htl'. split; [|done].
    destruct Hcase as [?|[_ []]]; [done|]. by apply (Htl' a c).
Qed.

(** What a successful token request read, and the token made of it. *)
Definition token_response (t : strace) (ti : TokenInfo) (P : Z -> TokenResponse -> Prop) : Prop :=
  exists params url form status body resp,
    ev (SPost params url form) (Ok (status, body)) ∈ t /\ DecodeTokenResponse body = Ok resp /\ P status resp.

Definition oauth_lifetime (t : strace) (ti : TokenInfo) (status : Z) (resp : TokenResponse) : Prop :=
  200 <= status < 300 /\ Token ti = tr_AccessToken resp /\
  exists now, ev SNow now ∈ t /\ ExpiresAt ti = Some (now + seconds (tr_ExpiresIn resp)).

Definition exchange_lifetime (t : strace) (ti : TokenInfo) (status : Z) (resp : TokenResponse) : Prop :=
  status = 200 /\ Token ti ≠ "" /\ (tr_AccessToken resp ≠ "" -> Token ti = tr_AccessToken resp) /\
  if 0 <? tr_ExpiresIn resp
  then exists now, ev SNow now ∈ t /\ ExpiresAt ti = Some (now + seconds (tr_ExpiresIn resp))
  else ExpiresAt ti = None.

Lemma getTokenFromOAuth_wp params creds conf m :
  wpm True (fun _ _ => True) (getTokenFromOAuth params creds conf) m [] (fun h _ r =>
    forall ti, r = Ok (Some ti) -> token_response (rev h) ti (oauth_lifetime (rev h) ti)).
Proof.
  unfold getTokenFromOAuth. destruct (if bool_decide _ then _ else _) as [url|e]; [|by wp_step].
  wp_step. wp_call; [done|]. intros [[status body]|e]; [|by wp_step].
  wp_step; [by wp_step|]. destruct (DecodeTokenResponse body) as [resp|e] eqn:Hd; [|by wp_step].
  wp_step; [by wp_step|]. wp_step. wp_call; [done|]. intros now. wp_step. intros ti [= <-].
  exists params, url, (oauth_form creds conf), status, body, resp.
  split_and!; [apply in_trace_later, in_trace_here|done|].
  reflect_bools. split_and!; [lia|lia|done|]. exists now. split; [apply in_trace_here|done].
Qed.

Lemma exchange_wp params token endpoint audiences m :
  wpm True (fun _ _ => True) (exchangeTokenWithAuthSvc params token endpoint audiences) m [] (fun h _ r =>
    forall ti, r = Ok (Some ti) -> token_response (rev h) ti (exchange_lifetime (rev h) ti)).
Proof.
  unfold exchangeTokenWithAuthSvc. destruct (url_JoinPath _ _) as [url|e]; [|by wp_step].
  wp_step. wp_call; [done|]. intros [[status body]|e]; [|by wp_step].
  wp_step; [by wp_step|]. destruct (DecodeTokenResponse body) as [resp|e] eqn:Hd; [|by wp_step].
  reflect_bools. cbv zeta. wp_step; [by wp_step|]. reflect_bools.
  assert (tr_AccessToken resp ≠ "" ->
    (if bool_decide (tr_AccessToken resp = "") then tr_Token resp else tr_AccessToken resp) = tr_AccessToken resp) as Hacc.
  { intros Hn. by rewrite bool_decide_eq_false_2. }
  destruct (0 <? tr_ExpiresIn resp) eqn:Hexp.
  - wp_step. wp_call; [done|]. intros now. wp_step. intros ti [= <-].
    exists params, url, (exchange_form token audiences), status, body, resp.
    split_and!; [apply in_trace_later, in_trace_here|done|]. unfold exchange_lifetime. rewrite Hexp.
    split_and!; [done..|]. exists now. split; [apply in_trace_here|done].
  - wp_step. intros ti [= <-]. exists params, url, (exchange_form token audiences), status, body, resp.
    split_and!; [apply in_trace_here|done|]. unfold exchange_lifetime. rewrite Hexp. by split_and!.
Qed.

(** C32. How long a token lasts. A token from an OAuth login always carries an expiration, the
    time of the response plus [expires_in], so when the issuer omits that optional field the
    token counts as expired from the start; the token exchange, given the same response, takes
    a missing or negative [expires_in] for no expiration, and never returns an empty token. *)
Theorem token_lifetimes params m t m' ti :
  (forall creds conf, exec (getTokenFromOAuth params creds conf m) t (Some (m', Ok (Some ti))) ->
     token_response t ti (oauth_lifetime t ti)) /\
  (forall token endpoint audiences,
     exec (exchangeTokenWithAuthSvc params token endpoint audiences m) t (Some (m', Ok (Some ti))) ->
     token_response t ti (exchange_lifetime t ti)).
Proof.
  split.
  - intros creds conf Hex. exact (returns_wp _ (fun t p => forall ti, p.2 = Ok (Some ti) ->
      token_response t ti (oauth_lifetime t ti)) t (m', Ok (Some ti)) (getTokenFromOAuth_wp params creds conf m) Hex ti eq_refl).
  - intros token endpoint auds Hex. exact (returns_wp _ (fun t p => forall ti, p.2 = Ok (Some ti) ->
      token_response t ti (exchange_lifetime t ti)) t (m', Ok (Some ti)) (exchange_wp params token endpoint auds m) Hex ti eq_refl).
Qed.

(** ** Where credentials go *)

(** The auth configuration of a cluster, from what was read. *)
Definition resolved (ais : AIStore) (t : strace) (conf : AuthConfig) : Prop :=
  exists spec, Auth (Spec ais) = Some spec /\
    match as_ProfileRef spec with
    | Some name => exists p, ev (SGetAuthProfile name) (Ok p) ∈ t /\ conf = AuthProfileConfig p
    | None => conf = AuthSpecConfig spec (nn_namespace (ais_Name ais))
    end.

(** A connection to the configured service: over TLS if its URL says so, and then with the
    server's certificate verified against a pool unless the configuration gives that up. *)
Definition configured_service (conf : AuthConfig) (p : BaseParams) : Prop :=
  bp_URL p = GetServiceURL conf /\
  (has_prefix (GetServiceURL conf) "https://" = true ->
   exists tls, bp_TLS p = Some tls /\ is_Some (tls_RootCAs tls) /\ tls_MinVersion12 tls = true /\
     tls_InsecureSkipVerify tls = GetInsecureSkipVerify conf).

(** Requests that carry a credential or a token. *)
Definition credentials_guard (ais : AIStore) (t : strace) (r : sreq) : Prop :=
  match r with
  | SPost p url form => exists conf, resolved ais t conf /\ configured_service conf p /\
      (url = bp_URL p \/ exists endpoint, url_JoinPath (bp_URL p) endpoint = Ok url)
  | SLoginUser p _ _ _ => exists conf, resolved ais t conf /\ configured_service conf p
  | SGetSecret name => exists conf, resolved ais t conf /\
      name = NN (GetSecretNamespace conf) (GetSecretName conf)
  | SApi _ _ => False
  | _ => True
  end.

Lemma resolved_mono ais h h' conf : h `suffix_of` h' -> resolved ais (rev h) conf -> resolved ais (rev h') conf.
Proof.
  intros Hs (spec & Ha & Hr). exists spec. split; [done|]. destruct (as_ProfileRef spec); [|done].
  destruct Hr as (p & Hp & ->). exists p. split; [by eapply elem_of_rev_later|done].
Qed.

Abbreviation cred ais := (fun h r => credentials_guard ais (rev h) r).

Lemma load_paths_cred ais paths : forall pool m h,
  wpm True (cred ais) (load_paths paths pool) m h (fun h' _ p => h `suffix_of` h').
Proof.
  induction paths as [|p paths IH]; intros pool m h; cbn; [by wp_step|].
  wp_step. wp_call; [done|]. intros r. eapply wpm_mono; [apply IH|].
  cbn. intros h' m' p' Hs. by eapply suffix_cons_l.
Qed.

Lemma NewTLSConfig_cred ais c m h :
  wpm True (cred ais) (NewTLSConfig c) m h (fun h' _ r => h `suffix_of` h' /\
    forall tls, r = Ok tls -> is_Some (tls_RootCAs tls) /\ tls_MinVersion12 tls = true /\ tls_InsecureSkipVerify tls = false).
Proof.
  unfold NewTLSConfig, NewCertPool. do 2 wp_step. wp_call; [done|]. intros sys.
  wp_step. eapply wpm_mono; [apply load_paths_cred|]. intros h' m' pool Hs. wp_step.
  apply suffix_cons_l in Hs. wp_step; wp_step; (split; [done|]); [|done]. intros tls [= <-]. cbn. eauto.
Qed.

Lemma trustStoreConfig_cred ais conf m h :
  wpm True (cred ais) (trustStoreConfig conf) m h (fun h' _ r => h `suffix_of` h').
Proof.
  unfold trustStoreConfig, caCertPaths.
  repeat (first [wp_step | intros [?|?] | exact I | by apply suffix_cons_r | done]).
Qed.

Lemma build_tls_cred ais conf v m h :
  wpm True (cred ais) (build_tls (trustStoreConfig conf) v) m h (fun h' _ r => h `suffix_of` h' /\
    forall tls, r = Ok tls -> is_Some (tls_RootCAs tls) /\ tls_MinVersion12 tls = true /\ tls_InsecureSkipVerify tls = v).
Proof.
  unfold build_tls. wp_step. eapply wpm_mono; [apply trustStoreConfig_cred|].
  intros h2 m2 [trust|e] S2. 2:{ wp_step. split; [done|]. done. }
  wp_step. eapply wpm_mono; [apply NewTLSConfig_cred|]. intros h3 m3 [tls|e] [S3 Htls].
  2:{ wp_step. split; [by trans h2|done]. }
  wp_step. split; [by trans h2|]. destruct (Htls tls eq_refl) as (Hr & Hv & Hi).
  intros ? [= <-]. destruct v; cbn; by split_and!.
Qed.

Lemma newAuthBaseParams_cred ais conf m h :
  wpm True (cred ais) (newAuthBaseParams conf None) m h (fun h' _ r => h `suffix_of` h' /\
    forall p, r = Ok p -> configured_service conf p).
Proof.
  unfold newAuthBaseParams. cbv zeta. wp_step.
  2:{ wp_step. split; [done|]. intros p [= <-]. split; [done|]. cbn. congruence. }
  wp_step. unfold GetTLSConfig, tlsCache_get, getTLSConfigCacheTTL, cached. do 3 wp_step.
  apply (wpm_mono _ _ _ _ _ (fun h' _ _ => h `suffix_of` h')).
  { wp_step; [by wp_step|]. wp_step. wp_call; [done|]. intros v. cbv zeta. do 3 wp_step. by apply suffix_cons_r. }
  intros h1 m1 ttl S1. do 4 wp_step. wp_step. eapply wpm_mono; [apply build_tls_cred|].
  intros h2 m2 [tls|e] [S2 Htls]; [|by do 2 wp_step; split; [trans h1|]].
  wp_step. wp_call; [done|]. intros now. do 2 wp_step. cbn.
  split; [apply suffix_cons_r; by trans h1|]. intros p [= <-]. split; [done|]. intros _. cbn.
  eexists. split; [done|]. by apply Htls.
Qed.

Lemma getTokenFromOAuth_cred ais conf bp creds oa m h :
  resolved ais (rev h) conf -> configured_service conf bp ->
  wpm True (cred ais) (getTokenFromOAuth bp creds oa) m h (fun _ _ _ => True).
Proof.
  intros Hr Hbp. unfold getTokenFromOAuth.
  destruct (if bool_decide (oa_Endpoint oa ≠ "") then _ else _) as [url|e] eqn:Hu; [|by wp_step].
  wp_step. wp_call.
  - exists conf. split_and!; [done..|]. destruct (bool_decide _); [right; by eexists|].
    injection Hu as <-. by left.
  - intros r. repeat (first [wp_step | exact I | done]).
Qed.

Lemma getTokenViaPassword_cred ais conf bp m h :
  resolved ais (rev h) conf -> configured_service conf bp ->
  wpm True (cred ais) (getTokenViaPassword bp conf) m h (fun _ _ _ => True).
Proof.
  intros Hr Hbp. unfold getTokenViaPassword, getSecretData. wp_step; [by wp_step|]. do 2 wp_step. wp_call.
  { by exists conf. }
  intros [data|e]; [|by do 2 wp_step]. wp_step. wp_step; [|by wp_step].
  destruct (secret_value _ _ (GetUserKey conf)) as [u|e]; [|by wp_step].
  destruct (secret_value _ _ (GetPassKey conf)) as [p|e]; [|by wp_step].
  destruct (GetOAuthLoginConf conf) as [oa|].
  - apply (getTokenFromOAuth_cred ais conf); [|done]. eapply resolved_mono; [|done]. by apply suffix_cons_r.
  - unfold getTokenFromAuthN. wp_step. wp_call.
    + exists conf. split; [|done]. eapply resolved_mono; [|done]. by apply suffix_cons_r.
    + intros [t|e]; by wp_step.
Qed.

Lemma getTokenViaExchange_cred ais conf bp m h :
  resolved ais (rev h) conf -> configured_service conf bp ->
  wpm True (cred ais) (getTokenViaExchange bp ais conf) m h (fun _ _ _ => True).
Proof.
  intros Hr Hbp. unfold getTokenViaExchange. wp_step.
  apply (wpm_mono _ _ _ _ _ (fun h' _ _ => h `suffix_of` h')).
  { unfold getSubjectToken, readProjectedToken, readTokenFromFile, mintSubjectToken, CreateServiceAccountToken. cbv zeta.
    repeat (first [wp_step | intros [?|?] | exact I | by apply suffix_cons_r | done]). }
  intros h1 m1 [tok|e] S1; [|by wp_step]. unfold exchangeTokenWithAuthSvc.
  destruct (url_JoinPath _ _) as [url|e] eqn:Hu; [|by wp_step]. wp_step. wp_call.
  - exists conf. split_and!; [by eapply resolved_mono|done|]. right. by eexists.
  - intros r. cbv zeta. repeat (first [wp_step | exact I | done]).
Qed.

(** C33. Passwords and service account tokens are sent to the auth service of the cluster's
    configuration and nowhere else: every login and every exchange goes to the configured URL
    (or a path below it), over TLS with the certificate verified when that URL says https,
    unless the configuration gives up verification; and the only secret read is the one the
    configuration names. *)
Theorem credentials_go_to_service ais m : guarded (credentials_guard ais) (getAdminToken ais m).
Proof.
  apply (guarded_wp _ _ (fun _ _ => True)).
  fold (wpm True (cred ais) (getAdminToken ais) m [] (fun _ _ _ => True)).
  unfold getAdminToken. destruct (Auth (Spec ais)) as [spec|] eqn:Ha; [|by wp_step].
  wp_step. apply (wpm_mono _ _ _ _ _ (fun h _ r => forall conf, r = Ok conf -> resolved ais (rev h) conf)).
  { unfold ResolveAuthConfig. destruct (as_ProfileRef spec) as [name|] eqn:Hp.
    - wp_step. wp_call; [done|]. intros [p|e]; [|by wp_step]. wp_step. intros conf [= <-].
      exists spec. split; [done|]. rewrite Hp. exists p. split; [apply in_trace_here|done].
    - wp_step. intros conf Hc. exists spec. rewrite Hp. split; [done|].
      destruct (as_TokenExchange spec), (as_UsernamePassword spec); first [discriminate Hc | by injection Hc as <-]. }
  intros h1 m1 [conf|e] Hr; [|by wp_step]. specialize (Hr conf eq_refl).
  wp_step. eapply wpm_mono; [apply newAuthBaseParams_cred|]. intros h2 m2 [bp|e] [S2 Hbp]; [|by wp_step].
  specialize (Hbp bp eq_refl). assert (resolved ais (rev h2) conf) by (by eapply resolved_mono).
  wp_step; [by apply (getTokenViaExchange_cred _ conf) | by apply (getTokenViaPassword_cred _ conf)].
Qed.
End Theorems.

