(* ===== verification/AuthTypes.v ===== *)
(** * The AIStoreAuth custom resource

    [api/aisauth/v1alpha1/aistoreauth_types.go]: the AuthN server deployment, with its
    methods. A pod setting the operator only forwards (resources, security contexts, probes,
    tolerations, affinity, pull
    secrets) is the JSON text of the field, or [None] when it is absent or an empty list. *)

From S2P Require Import Prelude K8sTypes.

(** ** Spec *)

Record SigningKeySpec := MkSigningKeySpec { sk_Bits : option Z; sk_Mode : option string }.
Record DBSpec := MkDBSpec { db_Type : option string }.
Record ServerConfSpec := MkServerConfSpec {
  sv_ExpirationTime : option Z; sv_MaxTokenAge : option Z;
  sv_SigningKey : option SigningKeySpec; sv_DB : option DBSpec }.
Record LogSpec := MkLogSpec { log_Level : option Z; log_FlushInterval : option Z }.
Record HTTPConfSpec := MkHTTPConfSpec { hc_Port : option Z }.
Record AuthNetSpec := MkAuthNetSpec { an_ExternalURL : option string; an_HTTP : option HTTPConfSpec }.
Record TimeoutSpec := MkTimeoutSpec { ts_DefaultTimeout : option Z }.
Record ConfigSpec := MkConfigSpec {
  cfg_Auth : option ServerConfSpec; cfg_Log : option LogSpec; cfg_Net : option AuthNetSpec;
  cfg_Timeout : option TimeoutSpec }.

Inductive AuthTLSCertificateMode := AuthTLSModeDefault | AuthTLSModeSecret | AuthTLSModeCSI.
#[export] Instance AuthTLSCertificateMode_eq_dec : EqDecision AuthTLSCertificateMode.
Proof. solve_decision. Defined.

Record CertIssuerRef := MkCertIssuerRef { ci_Name : string; ci_Kind : string }.
Record AuthTLSCertificateConfig := MkAuthTLSCertificate {
  atc_IssuerRef : CertIssuerRef; atc_AdditionalDNSNames : list string;
  atc_Duration : option Z; atc_RenewBefore : option Z; atc_Mode : AuthTLSCertificateMode }.
Record AuthTLSSpec := MkAuthTLSSpec {
  at_SecretName : option string; at_Certificate : option AuthTLSCertificateConfig }.

Inductive PersistenceDeletionPolicy := PersistenceDefault | PersistenceRetain | PersistenceDelete.
#[export] Instance PersistenceDeletionPolicy_eq_dec : EqDecision PersistenceDeletionPolicy.
Proof. solve_decision. Defined.

Record PersistenceSpec := MkPersistence {
  pe_Size : option Quantity; pe_StorageClass : option string; pe_VolumeName : option string;
  pe_DeletionPolicy : PersistenceDeletionPolicy }.

Record NodePortSpec := MkNodePortSpec { np_Port : Z }.
Record LoadBalancerSpec := MkLoadBalancerSpec { lb_Port : Z; lb_Annotations : labels }.
Record AuthExternalAccessSpec := MkAuthExternalAccess {
  ea_NodePort : option NodePortSpec; ea_LoadBalancer : option LoadBalancerSpec }.

Record AuthContainerSpec := MkAuthContainerSpec {
  acs_Image : string; acs_ImagePullPolicy : string; acs_Resources : option string;
  acs_SecurityContext : option string; acs_LivenessProbe : option string;
  acs_ReadinessProbe : option string }.
Record AuthPodSpec := MkAuthPodSpec {
  apo_SecurityContext : option string; apo_NodeSelector : labels; apo_Tolerations : option string;
  apo_Affinity : option string; apo_ImagePullSecrets : option string }.
Record AuthDeploymentSpec := MkAuthDeploymentSpec {
  ad_Container : AuthContainerSpec; ad_Pod : option AuthPodSpec }.

Record AIStoreAuthSpec := MkAuthServerSpec {
  au_AdminSecret : option string; au_HMACSecret : option string;
  au_RSAPassphraseSecret : option string; au_Config : option ConfigSpec;
  au_TLS : option AuthTLSSpec; au_Persistence : PersistenceSpec;
  au_ExternalAccess : option AuthExternalAccessSpec; au_Deployment : AuthDeploymentSpec }.

(** ** Status *)

Record AIStoreAuthStatus := MkAuthStatus {
  aus_Conditions : list Condition; aus_ObservedGeneration : Z; aus_ServiceURL : string }.
#[export] Instance AIStoreAuthStatus_eq_dec : EqDecision AIStoreAuthStatus.
Proof. solve_decision. Defined.

Record AIStoreAuth := MkAuth {
  au_Name : nsname; au_UID : string; au_Generation : Z; au_Deleting : bool;
  au_Finalizers : list string; au_Spec : AIStoreAuthSpec; au_Status : AIStoreAuthStatus }.

Definition auth_set_finalizers (a : AIStoreAuth) (f : list string) : AIStoreAuth :=
  MkAuth (au_Name a) (au_UID a) (au_Generation a) (au_Deleting a) f (au_Spec a) (au_Status a).
Definition auth_set_status (a : AIStoreAuth) (s : AIStoreAuthStatus) : AIStoreAuth :=
  MkAuth (au_Name a) (au_UID a) (au_Generation a) (au_Deleting a) (au_Finalizers a) (au_Spec a) s.

Definition ConditionReady : string := "Ready".
Inductive AuthConditionReason :=
| ReasonAvailable | ReasonReconcileFailed | ReasonDeploymentUnavailable
| ReasonProgressDeadlineExceeded | ReasonCleanupFailed.
#[export] Instance AuthConditionReason_eq_dec : EqDecision AuthConditionReason.
Proof. solve_decision. Defined.

Definition auth_reason_name (r : AuthConditionReason) : string :=
  match r with
  | ReasonAvailable => "Available"
  | ReasonReconcileFailed => "ReconcileFailed"
  | ReasonDeploymentUnavailable => "DeploymentUnavailable"
  | ReasonProgressDeadlineExceeded => "ProgressDeadlineExceeded"
  | ReasonCleanupFailed => "CleanupFailed"
  end.

(** ** Methods *)

Module Auth.

Definition defaultListenPort : Z := 52001.
(** 256Mi. *)
Definition defaultPersistenceSize : Quantity := 268435456 * 1000.

Definition ShouldDeletePVC (p : PersistenceSpec) : bool := bool_decide (pe_DeletionPolicy p = PersistenceDelete).

(** A string pointer that is set to a text. *)
Definition set_text (s : option string) : bool :=
  match s with Some x => bool_decide (x ≠ "") | None => false end.

Definition UsesStorageClass (p : PersistenceSpec) : bool := set_text (pe_StorageClass p).
Definition UsesExistingVolume (p : PersistenceSpec) : bool := set_text (pe_VolumeName p).
Definition StorageSize (p : PersistenceSpec) : Quantity := default defaultPersistenceSize (pe_Size p).

Definition GetTLSCertificate (a : AIStoreAuth) : option AuthTLSCertificateConfig :=
  t ← au_TLS (au_Spec a); at_Certificate t.

Definition UseTLSSecret (a : AIStoreAuth) : bool :=
  match au_TLS (au_Spec a) with Some t => set_text (at_SecretName t) | None => false end.

Definition HasTLSEnabled (a : AIStoreAuth) : bool :=
  UseTLSSecret a || bool_decide (is_Some (GetTLSCertificate a)).

Definition UseTLSCertificate (a : AIStoreAuth) : bool :=
  match GetTLSCertificate a with
  | Some c => bool_decide (atc_Mode c ≠ AuthTLSModeCSI) | None => false end.

Definition UseTLSCSI (a : AIStoreAuth) : bool :=
  match GetTLSCertificate a with
  | Some c => bool_decide (atc_Mode c = AuthTLSModeCSI) | None => false end.

Definition GetTLSSecretName (a : AIStoreAuth) : string :=
  if UseTLSSecret a then default "" (t ← au_TLS (au_Spec a); at_SecretName t)
  else if UseTLSCertificate a then nn_name (au_Name a) +:+ "-authn-tls"
  else "".

Definition ListenPort (a : AIStoreAuth) : Z :=
  default defaultListenPort
    (cfg ← au_Config (au_Spec a); net ← cfg_Net cfg; http ← an_HTTP net; hc_Port http).

End Auth.
