(* ===== verification/AuthResources.v ===== *)
(** * Resources of the AuthN server

    [internal/resources/aisauth] and [internal/resources/aisauth/config]: the configuration
    file, config map, claim, services, certificate and deployment an AIStoreAuth asks for. All
    of them are server-side apply configurations, so each is a record of the fields it sets. *)

From S2P Require Import Prelude K8sTypes ThirdParty Certificates AuthTypes.

(** ** Configuration of the AuthN server ([aisauthn.Config] of the AIS module) *)

Record LogConf := MkLogConf { lf_Level : string; lf_FlushInterval : Z }.
Record NetConf := MkNetConf {
  nc_ExternalURL : string; nc_Port : Z; nc_UseHTTPS : bool; nc_Certificate : string; nc_Key : string }.
Record ServerConf := MkServerConf {
  sf_Filepath : string; sf_DBType : string; sf_Expire : Z; sf_MaxTokenAge : Z;
  sf_SigningBits : Z; sf_SigningMode : string }.
Record TimeoutConf := MkTimeoutConf { tf_Default : Z }.
Record AuthnConfig := MkAuthnConfig {
  conf_Log : LogConf; conf_Net : NetConf; conf_Server : ServerConf; conf_Timeout : TimeoutConf }.

(** Code of other modules the AuthN resources and their controller call. *)
Class AuthLib := {
  (** [aisauthn.Config.Validate], which may complete the configuration. *)
  ValidateAuthnConfig : AuthnConfig -> res AuthnConfig;
  MarshalAuthnConfig : AuthnConfig -> res string;
  (** [jsoniter.Marshal] and [jsoniter.Unmarshal] of a forwarded pod setting. *)
  MarshalSetting : string -> res string;
  UnmarshalSetting : string -> res string;
  (** The host name of [url.Parse]; an error is [None]. *)
  url_Hostname : string -> option string;
  (** [meta.FindStatusCondition]. *)
  FindStatusCondition : list Condition -> string -> option Condition;
  (** [controllerutil.RemoveControllerReference], on owner references. *)
  RemoveControllerReference : OwnerRef -> list OwnerRef -> res (list OwnerRef);
  (** The environment variable names of the AIS module's [env] package. *)
  aisenv_AisAuthAdminUsername : string;
  aisenv_AisAuthAdminPassword : string;
  aisenv_AisAuthPrivateKeyPass : string;
}.

(** ** Objects *)

Record AuthConfigMap := MkAuthConfigMap {
  acm_Name : nsname; acm_Owner : OwnerRef; acm_Labels : labels; acm_Data : labels }.

Record AuthPVC := MkAuthPVC {
  apv_Name : nsname; apv_Owner : OwnerRef; apv_Labels : labels; apv_AccessMode : string;
  apv_Storage : Quantity; apv_StorageClassName : string; apv_VolumeName : option string }.

Record AuthServicePort := MkAuthServicePort {
  asp_Name : string; asp_Protocol : string; asp_Port : Z; asp_TargetPort : IntOrString;
  asp_NodePort : option Z }.
Record AuthService := MkAuthService {
  asv_Name : nsname; asv_Owner : OwnerRef; asv_Labels : labels; asv_Annotations : labels;
  asv_Selector : labels; asv_Port : AuthServicePort; asv_Type : string }.

Record AuthCertificate := MkAuthCertificate { ac_Labels : labels; ac_Certificate : Certificate }.

Record SecretKeyEnv := MkSecretKeyEnv {
  ske_Name : string; ske_Secret : string; ske_Key : string; ske_Optional : bool }.

Inductive AuthVolumeSource :=
| AVClaim (name : string)
| AVConfigMap (name : string)
| AVCSI (driver : string) (attributes : labels) (readonly : bool)
| AVSecret (name : string).
Record AuthVolume := MkAuthVolume { av_Name : string; av_Source : AuthVolumeSource }.
Record AuthVolumeMount := MkAuthMount {
  avm_Name : string; avm_MountPath : string; avm_SubPath : string; avm_ReadOnly : bool }.

Record AuthContainer := MkAuthContainer {
  acn_Name : string; acn_Image : string; acn_Port : Z; acn_Env : list SecretKeyEnv;
  acn_VolumeMounts : list AuthVolumeMount; acn_ImagePullPolicy : option string;
  acn_Resources : option string; acn_SecurityContext : option string;
  acn_LivenessProbe : option string; acn_ReadinessProbe : option string }.
Record AuthPod := MkAuthPod {
  apd_Container : AuthContainer; apd_Volumes : list AuthVolume; apd_SecurityContext : option string;
  apd_NodeSelector : labels; apd_Tolerations : option string; apd_Affinity : option string;
  apd_ImagePullSecrets : option string }.
Record AuthDeployment := MkAuthDeployment {
  adp_Name : nsname; adp_Owner : OwnerRef; adp_Labels : labels; adp_Replicas : Z;
  adp_Strategy : string; adp_Selector : labels; adp_TemplateLabels : labels;
  adp_TemplateAnnotations : labels; adp_Pod : AuthPod }.

Module AuthRes.
Section Resources.
Context `{T : ThirdParty, AL : AuthLib}.

(** ** Names and labels *)

Definition auth_ns (a : AIStoreAuth) (name : string) : nsname := NN (nn_namespace (au_Name a)) name.
Definition auth_name (a : AIStoreAuth) : string := nn_name (au_Name a).

Definition NewAIStoreAuthControllerRef (a : AIStoreAuth) : OwnerRef :=
  MkOwnerRef "AIStoreAuth" (auth_name a) (au_UID a) true.

Definition ConfigMapName (a : AIStoreAuth) : string := auth_name a +:+ "-config".
Definition ConfigMapNSName (a : AIStoreAuth) : nsname := auth_ns a (ConfigMapName a).
Definition PVCName (a : AIStoreAuth) : string := auth_name a +:+ "-storage".
Definition PVCNSName (a : AIStoreAuth) : nsname := auth_ns a (PVCName a).
Definition DeploymentName (a : AIStoreAuth) : string := auth_name a.
Definition DeploymentNSName (a : AIStoreAuth) : nsname := auth_ns a (DeploymentName a).
Definition ServiceName (a : AIStoreAuth) : string := auth_name a.
Definition ServiceNSName (a : AIStoreAuth) : nsname := auth_ns a (ServiceName a).
Definition NodePortServiceName (a : AIStoreAuth) : string := auth_name a +:+ "-nodeport".
Definition NodePortServiceNSName (a : AIStoreAuth) : nsname := auth_ns a (NodePortServiceName a).
Definition LoadBalancerServiceName (a : AIStoreAuth) : string := auth_name a +:+ "-lb".
Definition LoadBalancerServiceNSName (a : AIStoreAuth) : nsname := auth_ns a (LoadBalancerServiceName a).
Definition CertificateName (a : AIStoreAuth) : string := auth_name a +:+ "-authn-tls-cert".
Definition CertificateNSName (a : AIStoreAuth) : nsname := auth_ns a (CertificateName a).

Definition resourceLabels (a : AIStoreAuth) : labels :=
  {[ "app.kubernetes.io/name" := "authn"; "app.kubernetes.io/instance" := auth_name a;
     "app.kubernetes.io/managed-by" := "ais-operator" ]}.
Definition selectorLabels (a : AIStoreAuth) : labels :=
  {[ "app.kubernetes.io/name" := "authn"; "app.kubernetes.io/instance" := auth_name a ]}.

(** ** Paths *)

Definition AuthnJSONKey : string := "authn.json".
Definition stateMountPath : string := "/etc/ais/authn".
Definition authnConfigPath : string := stateMountPath +:+ "/" +:+ AuthnJSONKey.
Definition tlsMountPath : string := "/var/certs".

Record Paths := MkPaths { Database : string; TLSCertificate : string; TLSKey : string }.
Definition configPaths : Paths :=
  MkPaths (stateMountPath +:+ "/authn.db") (tlsMountPath +:+ "/tls.crt") (tlsMountPath +:+ "/tls.key").

(** ** Configuration ([config.go], [configmap.go]) *)

Definition renderLogConfig (a : AIStoreAuth) : LogConf :=
  match cfg ← au_Config (au_Spec a); cfg_Log cfg with
  | None => MkLogConf "" 0
  | Some l => MkLogConf (match log_Level l with Some n => pretty n | None => "" end)
                (default 0 (log_FlushInterval l))
  end.

Definition renderNetConfig (a : AIStoreAuth) (p : Paths) : NetConf :=
  let url := default "" (cfg ← au_Config (au_Spec a); net ← cfg_Net cfg; an_ExternalURL net) in
  if Auth.HasTLSEnabled a
  then MkNetConf url (Auth.ListenPort a) true (TLSCertificate p) (TLSKey p)
  else MkNetConf url (Auth.ListenPort a) false "" "".

(** Signing settings are taken over unless both are zero, which leaves zeros as well. *)
Definition renderServerConfig (a : AIStoreAuth) (p : Paths) : ServerConf :=
  let auth := cfg ← au_Config (au_Spec a); cfg_Auth cfg in
  let key := s ← auth; sv_SigningKey s in
  let bits := default 0 (k ← key; sk_Bits k) in
  let mode := default "" (k ← key; sk_Mode k) in
  let set_ := bool_decide (bits ≠ 0) || bool_decide (mode ≠ "") in
  MkServerConf (Database p) (default "" (s ← auth; d ← sv_DB s; db_Type d))
    (default 0 (s ← auth; sv_ExpirationTime s)) (default 0 (s ← auth; sv_MaxTokenAge s))
    (if set_ then bits else 0) (if set_ then mode else "").

Definition renderTimeoutConfig (a : AIStoreAuth) : TimeoutConf :=
  MkTimeoutConf (default 0 (cfg ← au_Config (au_Spec a); t ← cfg_Timeout cfg; ts_DefaultTimeout t)).

Definition GenerateConfig (a : AIStoreAuth) (p : Paths) : res AuthnConfig :=
  ValidateAuthnConfig
    (MkAuthnConfig (renderLogConfig a) (renderNetConfig a p) (renderServerConfig a p) (renderTimeoutConfig a)).

Definition renderAuthnJSON (a : AIStoreAuth) : res string :=
  conf ← GenerateConfig a configPaths; MarshalAuthnConfig conf.

Definition NewConfigMap (a : AIStoreAuth) : res AuthConfigMap :=
  conf ← renderAuthnJSON a;
  Ok (MkAuthConfigMap (ConfigMapNSName a) (NewAIStoreAuthControllerRef a) (resourceLabels a)
        {[ AuthnJSONKey := conf ]}).

(** ** Persistence *)

Definition NewPVC (a : AIStoreAuth) : res AuthPVC :=
  let p := au_Persistence (au_Spec a) in
  let pvc := MkAuthPVC (PVCNSName a) (NewAIStoreAuthControllerRef a) (resourceLabels a)
               "ReadWriteOnce" (Auth.StorageSize p) in
  if Auth.UsesStorageClass p then Ok (pvc (default "" (pe_StorageClass p)) None)
  else if Auth.UsesExistingVolume p then Ok (pvc "" (pe_VolumeName p))
  else Err (errorf "spec.persistence must set exactly one of storageClass or volumeName").

(** ** Services *)

Definition ServiceURL (a : AIStoreAuth) : string :=
  (if Auth.HasTLSEnabled a then "https" else "http") +:+ "://" +:+ ServiceName a +:+ "." +:+
  nn_namespace (au_Name a) +:+ ".svc:" +:+ pretty (Auth.ListenPort a).

Definition servicePort (port : Z) (nodePort : option Z) : AuthServicePort :=
  MkAuthServicePort "http" "TCP" port (StrVal "http") nodePort.

Definition baseService (a : AIStoreAuth) (name : nsname) (annotations : labels) (port : AuthServicePort)
    (type_ : string) : AuthService :=
  MkAuthService name (NewAIStoreAuthControllerRef a) (resourceLabels a) annotations (selectorLabels a) port type_.

Definition NewService (a : AIStoreAuth) : AuthService :=
  baseService a (ServiceNSName a) ∅ (servicePort (Auth.ListenPort a) None) "ClusterIP".

Definition NewNodePortService (a : AIStoreAuth) : option AuthService :=
  e ← au_ExternalAccess (au_Spec a); n ← ea_NodePort e;
  Some (baseService a (NodePortServiceNSName a) ∅
          (servicePort (Auth.ListenPort a) (Some (np_Port n))) "NodePort").

Definition NewLoadBalancerService (a : AIStoreAuth) : option AuthService :=
  e ← au_ExternalAccess (au_Spec a); l ← ea_LoadBalancer e;
  Some (baseService a (LoadBalancerServiceNSName a) (lb_Annotations l)
          (servicePort (lb_Port l) None) "LoadBalancer").

(** ** Certificate *)

Definition serverCertUsages : list string := ["digital signature"; "key encipherment"; "server auth"].

Definition configuredExternalURLHost (a : AIStoreAuth) : string :=
  match cfg ← au_Config (au_Spec a); net ← cfg_Net cfg; an_ExternalURL net with
  | None => ""
  | Some u => default "" (url_Hostname u)
  end.

Definition appendServiceDNSNames (names : list string) (serviceName namespace : string) : list string :=
  names ++ [ serviceName; serviceName +:+ "." +:+ namespace; serviceName +:+ "." +:+ namespace +:+ ".svc";
             serviceName +:+ "." +:+ namespace +:+ ".svc." +:+ opinfo_ClusterDomain ].

Definition certificateDNSNames (a : AIStoreAuth) (config : AuthTLSCertificateConfig)
    (externalEndpoints : list string) : list string :=
  let dnsNames := appendServiceDNSNames ["localhost"] (ServiceName a) (nn_namespace (au_Name a)) in
  let dnsNames := (AppendHosts (dnsNames, []) externalEndpoints).1 in
  let host := configuredExternalURLHost a in
  let dnsNames := if bool_decide (host ≠ "") then (AppendHosts (dnsNames, []) [host]).1 else dnsNames in
  (NormalizeSANs (dnsNames ++ atc_AdditionalDNSNames config, [])).1.

(** Called with a certificate configured; a nil one is dereferenced. *)
Definition NewCertificate (a : AIStoreAuth) (externalEndpoints : list string) : option AuthCertificate :=
  config ← Auth.GetTLSCertificate a;
  Some (MkAuthCertificate (resourceLabels a)
    (NewSpec (CertificateNSName a) (NewAIStoreAuthControllerRef a)
       (MkSpecConfig (Auth.GetTLSSecretName a) (ci_Name (atc_IssuerRef config)) (ci_Kind (atc_IssuerRef config))
          (atc_Duration config) (atc_RenewBefore config) serverCertUsages)
       (certificateDNSNames a config externalEndpoints) [])).

Definition tlsCSIVolumeAttributes (a : AIStoreAuth) : labels :=
  match Auth.GetTLSCertificate a with
  | Some config =>
      if Auth.UseTLSCSI a then
        ToVolumeAttributes
          (MkCSIConfig (ci_Name (atc_IssuerRef config)) (ci_Kind (atc_IssuerRef config))
             (ServiceName a +:+ "." +:+ nn_namespace (au_Name a)) (certificateDNSNames a config [])
             (atc_Duration config) (atc_RenewBefore config) serverCertUsages)
      else ∅
  | None => ∅
  end.

(** ** Deployment ([env.go], [volumes.go], [deployment.go], [apply.go]) *)

Definition secretName (ref : option string) : string := default "" ref.

Definition secretKeyEnv (envName secret key : string) (optional : bool) : SecretKeyEnv :=
  MkSecretKeyEnv envName secret key optional.

Definition secretEnvVars (a : AIStoreAuth) : list SecretKeyEnv :=
  let admin := secretName (au_AdminSecret (au_Spec a)) in
  let hmac := secretName (au_HMACSecret (au_Spec a)) in
  let rsa := secretName (au_RSAPassphraseSecret (au_Spec a)) in
  (if bool_decide (admin ≠ "")
   then [secretKeyEnv aisenv_AisAuthAdminUsername admin "SU-NAME" true;
         secretKeyEnv aisenv_AisAuthAdminPassword admin "SU-PASS" false] else []) ++
  (if bool_decide (hmac ≠ "") then [secretKeyEnv aisenv_AisAuthSecretKey hmac "SIGNING-KEY" false] else []) ++
  (if bool_decide (rsa ≠ "") then [secretKeyEnv aisenv_AisAuthPrivateKeyPass rsa "RSA-PASSPHRASE" false] else []).

Definition volumes (a : AIStoreAuth) : list AuthVolume :=
  [ MkAuthVolume "storage" (AVClaim (PVCName a)); MkAuthVolume "config" (AVConfigMap (ConfigMapName a)) ] ++
  (if Auth.UseTLSCSI a
   then [MkAuthVolume "tls-certs" (AVCSI "csi.cert-manager.io" (tlsCSIVolumeAttributes a) true)]
   else if Auth.UseTLSCertificate a || Auth.UseTLSSecret a
   then [MkAuthVolume "tls-certs" (AVSecret (Auth.GetTLSSecretName a))]
   else []).

Definition volumeMounts (a : AIStoreAuth) : list AuthVolumeMount :=
  [ MkAuthMount "storage" stateMountPath "" false;
    MkAuthMount "config" authnConfigPath AuthnJSONKey true ] ++
  (if Auth.HasTLSEnabled a then [MkAuthMount "tls-certs" tlsMountPath "" true] else []).

Definition toApplyConfiguration (type_ value : string) : res string :=
  match MarshalSetting value with
  | Err e => Err (wrap ("marshal " +:+ type_ +:+ " as apply configuration") e)
  | Ok data =>
      match UnmarshalSetting data with
      | Err e => Err (wrap ("convert " +:+ type_ +:+ " to apply configuration") e)
      | Ok config => Ok config
      end
  end.

(** A setting that is converted when it is present. *)
Definition setting (type_ : string) (value : option string) : res (option string) :=
  match value with
  | None => Ok None
  | Some v => c ← toApplyConfiguration type_ v; Ok (Some c)
  end.

Definition newContainer (a : AIStoreAuth) (spec : AuthContainerSpec) : res AuthContainer :=
  resources ← setting "*v1.ResourceRequirements" (acs_Resources spec);
  securityContext ← setting "*v1.SecurityContext" (acs_SecurityContext spec);
  livenessProbe ← setting "*v1.Probe" (acs_LivenessProbe spec);
  readinessProbe ← setting "*v1.Probe" (acs_ReadinessProbe spec);
  Ok (MkAuthContainer "authn" (acs_Image spec) (Auth.ListenPort a) (secretEnvVars a) (volumeMounts a)
        (if bool_decide (acs_ImagePullPolicy spec ≠ "") then Some (acs_ImagePullPolicy spec) else None)
        resources securityContext livenessProbe readinessProbe).

Definition newPodSpec (a : AIStoreAuth) : res AuthPod :=
  let spec := au_Deployment (au_Spec a) in
  container ← newContainer a (ad_Container spec);
  match ad_Pod spec with
  | None => Ok (MkAuthPod container (volumes a) None ∅ None None None)
  | Some p =>
      securityContext ← setting "*v1.PodSecurityContext" (apo_SecurityContext p);
      tolerations ← setting "[]v1.Toleration" (apo_Tolerations p);
      affinity ← setting "*v1.Affinity" (apo_Affinity p);
      imagePullSecrets ← setting "[]v1.LocalObjectReference" (apo_ImagePullSecrets p);
      Ok (MkAuthPod container (volumes a) securityContext (apo_NodeSelector p) tolerations affinity
            imagePullSecrets)
  end.

Definition DeploymentReplicas : Z := 1.
Definition ConfigChecksumAnnotation : string := "auth.ais.nvidia.com/config-checksum".

Definition NewDeployment (a : AIStoreAuth) : res AuthDeployment :=
  authnJSON ← renderAuthnJSON a;
  podSpec ← newPodSpec a;
  Ok (MkAuthDeployment (DeploymentNSName a) (NewAIStoreAuthControllerRef a) (resourceLabels a)
        DeploymentReplicas "Recreate" (selectorLabels a) (resourceLabels a)
        {[ ConfigChecksumAnnotation := sha256_hex authnJSON ]} podSpec).

End Resources.
End AuthRes.
