(* ===== verification/AuthController.v ===== *)
(** * The AIStoreAuth controller

    [internal/controller/aisauth]: applies the resources of an AuthN server in order, reports
    its readiness, and on deletion keeps the data claim unless it is to be deleted. *)

From S2P Require Import Prelude Effects K8sTypes ThirdParty Certificates Requests K8sClient AuthTypes AuthResources.

(** ** Requests *)

(** A Deployment as the API server returns it from an apply: every part may be missing. *)
Record AppliedCondition := MkAppliedCondition {
  dc_Type : option string; dc_Status : option string; dc_Reason : option string }.
Record AppliedStatus := MkAppliedStatus {
  ds_ObservedGeneration : option Z; ds_UpdatedReplicas : option Z; ds_Replicas : option Z;
  ds_AvailableReplicas : option Z; ds_Conditions : list AppliedCondition }.
Record AppliedDeployment := MkApplied {
  ap_Generation : option (option Z);   (* of the object metadata, if there is any *)
  ap_Replicas : option (option Z);     (* of the spec, if there is any *)
  ap_Status : option AppliedStatus }.

Record OwnedService := MkOwnedService {
  os_UID : string; os_Owners : list OwnerRef; os_Service : Service }.

Inductive areq :=
| AGetAuth (name : nsname)
| AGetService (name : nsname)
| AGetPVC (name : nsname)
| AApplyConfigMap (cm : AuthConfigMap)
| AApplyPVC (pvc : AuthPVC)
| AApplyService (svc : AuthService)
| AApplyCertificate (cert : AuthCertificate)
| AApplyDeployment (d : AuthDeployment)
| ADeleteService (name : nsname) (uid : string)   (* with the UID as precondition *)
| ADeleteCertificate (name : nsname)
| APatchPVC (name : nsname) (owners owners' : list OwnerRef)
| APatchAuth (original modified : AIStoreAuth)
| APatchAuthStatus (original modified : AIStoreAuth)
| AEvent (warning : bool) (reason action note : string).

Definition aanswer (r : areq) : Type :=
  match r with
  | AGetAuth _ | APatchAuth _ _ | APatchAuthStatus _ _ => res AIStoreAuth
  | AGetService _ => res OwnedService
  | AGetPVC _ => res (list OwnerRef)
  | AApplyDeployment _ => res AppliedDeployment
  | AApplyConfigMap _ | AApplyPVC _ | AApplyService _ | AApplyCertificate _
  | ADeleteService _ _ | ADeleteCertificate _ | APatchPVC _ _ _ => res unit
  | AEvent _ _ _ _ => unit
  end.

(** Handlers over the AIStoreAuth in memory. *)
Abbreviation AH := (@M areq aanswer AIStoreAuth).

Module AuthCtl.
Section Controller.
Context `{T : ThirdParty, AL : AuthLib}.

Definition authnFinalizer : string := "auth.ais.nvidia.com/finalizer".
Definition ActionReconcile : string := "Reconciled".
Definition ActionDelete : string := "Delete".

(** ** Status ([status.go]) *)

Definition updateStatus (base : AIStoreAuth) : AH (res unit) :=
  modify (fun a => auth_set_status a
    (MkAuthStatus (aus_Conditions (au_Status a)) (au_Generation a) (AuthRes.ServiceURL a))) ≫= fun _ =>
  authn ← get;
  if DeepEqual (au_Status base) (au_Status authn) then mret (Ok tt)
  else
    r ← call (APatchAuthStatus base authn);
    match r with
    | Ok a => put a ≫= fun _ => mret (Ok tt)
    | Err e => mret (if is_not_found e then Ok tt else Err e)
    end.

Definition setReadyCondition (status : CondStatus) (reason : AuthConditionReason) (message : string) : AH unit :=
  modify (fun a => auth_set_status a
    (MkAuthStatus
       (SetStatusCondition (aus_Conditions (au_Status a))
          (MkCondition ConditionReady status (auth_reason_name reason) message (au_Generation a)))
       (aus_ObservedGeneration (au_Status a)) (aus_ServiceURL (au_Status a)))).

Definition isReady (a : AIStoreAuth) : bool := IsStatusConditionTrue (aus_Conditions (au_Status a)) ConditionReady.

Definition hasReadyReason (a : AIStoreAuth) (reason : AuthConditionReason) : bool :=
  match FindStatusCondition (aus_Conditions (au_Status a)) ConditionReady with
  | Some c => bool_decide (cond_Reason c = auth_reason_name reason)
  | None => false
  end.

Definition recordError (eventReason msg : string) : AH unit :=
  call (AEvent true eventReason ActionReconcile msg) ≫= fun _ =>
  setReadyCondition CondFalse ReasonReconcileFailed msg.

(** ** Deployment ([deployment.go]) *)

Definition msgAvailable : string := "AuthN deployment is available".
Definition msgUnavailable : string := "Waiting for the AuthN deployment to become available".
Definition msgNotProgressing : string := "The AuthN deployment rollout is no longer progressing".

(** [value]: the zero value for a nil pointer. *)
Definition value (z : option Z) : Z := default 0 z.
Definition text (s : option string) : string := default "" s.

Definition isProgressDeadlineExceeded (d : AppliedDeployment) : bool :=
  match ap_Generation d, ap_Status d with
  | Some gen, Some st =>
      if value (ds_ObservedGeneration st) <? value gen then false
      else existsb (fun c => bool_decide (text (dc_Type c) = "Progressing") &&
                             bool_decide (text (dc_Status c) = "False") &&
                             bool_decide (text (dc_Reason c) = "ProgressDeadlineExceeded")) (ds_Conditions st)
  | _, _ => false
  end.

Definition isRolloutComplete (d : AppliedDeployment) : bool :=
  match ap_Generation d, ap_Replicas d, ap_Status d with
  | Some gen, Some replicas, Some st =>
      let desired := value replicas in
      (0 <? desired) && (value gen <=? value (ds_ObservedGeneration st)) &&
      (value (ds_UpdatedReplicas st) =? desired) &&
      (value (ds_Replicas st) =? value (ds_UpdatedReplicas st)) &&
      (value (ds_AvailableReplicas st) =? value (ds_UpdatedReplicas st))
  | _, _, _ => false
  end.

Definition rolloutPending (d : AppliedDeployment) : AuthConditionReason * string :=
  if isProgressDeadlineExceeded d then (ReasonProgressDeadlineExceeded, msgNotProgressing)
  else (ReasonDeploymentUnavailable, msgUnavailable).

Definition setReadyFromDeployment (d : AppliedDeployment) : AH unit :=
  authn ← get;
  if isRolloutComplete d then
    (if isReady authn then mret tt else call (AEvent false "Ready" ActionReconcile msgAvailable)) ≫= fun _ =>
    setReadyCondition CondTrue ReasonAvailable msgAvailable
  else
    let '(reason, message) := rolloutPending d in
    (if bool_decide (reason = ReasonProgressDeadlineExceeded) && negb (hasReadyReason authn reason)
     then call (AEvent true "RolloutStalled" ActionReconcile message) else mret tt) ≫= fun _ =>
    setReadyCondition CondFalse reason message.

Definition reconcileDeployment : AH (res unit) :=
  authn ← get;
  match AuthRes.NewDeployment authn with
  | Err e => mret (Err e)
  | Ok deployment =>
      let? applied := call (AApplyDeployment deployment) else e => mret (Err e) in
      setReadyFromDeployment applied ≫= fun _ => mret (Ok tt)
  end.

(** ** Config map and claim ([aistoreauth_controller.go]) *)

Definition reconcileConfigMap : AH (res unit) :=
  authn ← get;
  match AuthRes.NewConfigMap authn with
  | Err e => mret (Err e)
  | Ok cm => call (AApplyConfigMap cm)
  end.

Definition reconcilePersistence : AH (res unit) :=
  authn ← get;
  match AuthRes.NewPVC authn with
  | Err e => mret (Err e)
  | Ok pvc => call (AApplyPVC pvc)
  end.

(** ** Services ([services.go]) *)

Definition deleteOwnedService (name : nsname) : AH (res unit) :=
  authn ← get;
  let? service := call (AGetService name) else e => mret (if is_not_found e then Ok tt else Err e) in
  if negb (metav1_IsControlledBy (os_Owners service) (au_UID authn)) then mret (Ok tt)
  else
    r ← call (ADeleteService name (os_UID service));
    mret (match allowObjNotFound name r with Ok _ => Ok tt | Err e => Err e end).

Definition applyOrDeleteService (service : option AuthService) (name : nsname) : AH (res unit) :=
  match service with
  | Some s => call (AApplyService s)
  | None => deleteOwnedService name
  end.

Definition reconcileServices : AH (res unit) :=
  authn ← get;
  let? _ := call (AApplyService (AuthRes.NewService authn))
    else e => mret (Err (wrap "apply in-cluster Service" e)) in
  let? _ := applyOrDeleteService (AuthRes.NewNodePortService authn) (AuthRes.NodePortServiceNSName authn)
    else e => mret (Err (wrap "reconcile NodePort Service" e)) in
  let? _ := applyOrDeleteService (AuthRes.NewLoadBalancerService authn) (AuthRes.LoadBalancerServiceNSName authn)
    else e => mret (Err (wrap "reconcile LoadBalancer Service" e)) in
  mret (Ok tt).

(** ** Certificate ([certificates.go]) *)

Definition deleteCertificate : AH (res unit) :=
  authn ← get;
  r ← call (ADeleteCertificate (AuthRes.CertificateNSName authn));
  mret (match allowObjNotFound (AuthRes.CertificateNSName authn) r with Ok _ => Ok tt | Err e => Err e end).

Definition loadBalancerEndpoints : AH (res (list string)) :=
  authn ← get;
  match e ← au_ExternalAccess (au_Spec authn); ea_LoadBalancer e with
  | None => mret (Ok [])
  | Some _ =>
      let? svc := call (AGetService (AuthRes.LoadBalancerServiceNSName authn))
        else e => mret (if is_not_found e then Ok [] else Err e) in
      mret (Ok (LoadBalancerEndpoints [os_Service svc]))
  end.

Definition reconcileTLSCertificate : AH (res unit) :=
  authn ← get;
  if negb (Auth.UseTLSCertificate authn) then deleteCertificate
  else
    let? externalEndpoints := loadBalancerEndpoints else e => mret (Err e) in
    certificate ← deref (AuthRes.NewCertificate authn externalEndpoints);
    call (AApplyCertificate certificate).

(** ** Reconciliation *)

(** A stage whose failure is recorded. *)
Definition stage (m : AH (res unit)) (eventReason msg : string) (k : AH (res unit)) : AH (res unit) :=
  let? _ := m else e => recordError eventReason msg ≫= fun _ => mret (Err e) in k.

Definition reconcileResources : AH (res unit) :=
  stage reconcileConfigMap "ConfigMapFailed" "Failed to reconcile ConfigMap" (
  stage reconcilePersistence "PVCFailed" "Failed to reconcile PersistentVolumeClaim" (
  stage reconcileServices "ServicesFailed" "Failed to reconcile Services" (
  stage reconcileTLSCertificate "CertificateFailed" "Failed to reconcile TLS Certificate" (
  stage reconcileDeployment "DeploymentFailed" "Failed to reconcile Deployment" (
  mret (Ok tt)))))).

(** ** Deletion ([cleanup.go]) *)

Definition ensureFinalizer : AH (res unit) :=
  authn ← get;
  if ContainsFinalizer (au_Finalizers authn) authnFinalizer then mret (Ok tt)
  else
    let authn' := auth_set_finalizers authn (AddFinalizer (au_Finalizers authn) authnFinalizer) in
    put authn' ≫= fun _ =>
    let? a := call (APatchAuth authn authn') else e => mret (Err e) in
    put a ≫= fun _ => mret (Ok tt).

Definition hasReadyFailure (a : AIStoreAuth) (msg : string) : bool :=
  match FindStatusCondition (aus_Conditions (au_Status a)) ConditionReady with
  | Some c => bool_decide (cond_Reason c = auth_reason_name ReasonCleanupFailed) &&
              bool_decide (cond_Message c = msg)
  | None => false
  end.

Definition recordCleanupFailure (eventReason msg : string) : AH unit :=
  base ← get;
  (if hasReadyFailure base msg then mret tt else call (AEvent true eventReason ActionDelete msg)) ≫= fun _ =>
  setReadyCondition CondFalse ReasonCleanupFailed msg ≫= fun _ =>
  updateStatus base ≫= fun _ => mret tt.

Definition retainPVC : AH (res unit) :=
  authn ← get;
  if Auth.ShouldDeletePVC (au_Persistence (au_Spec authn)) then mret (Ok tt)
  else
    let? owners := call (AGetPVC (AuthRes.PVCNSName authn))
      else e => mret (if is_not_found e then Ok tt else Err e) in
    if negb (metav1_IsControlledBy owners (au_UID authn)) then mret (Ok tt)
    else
      match RemoveControllerReference (AuthRes.NewAIStoreAuthControllerRef authn) owners with
      | Err e => mret (Err e)
      | Ok owners' =>
          r ← call (APatchPVC (AuthRes.PVCNSName authn) owners owners');
          mret (match r with Ok _ => Ok tt | Err e => if is_not_found e then Ok tt else Err e end)
      end.

Definition cleanup : AH (res unit) :=
  let? _ := retainPVC
    else e => recordCleanupFailure "PVCRetentionFailed" "Failed to retain AuthN data PVC" ≫= fun _ =>
              mret (Err e) in
  mret (Ok tt).

(** [PatchIfExists] of the AIStoreAuth. *)
Definition patchIfExists (original modified : AIStoreAuth) : AH (res unit) :=
  r ← call (APatchAuth original modified);
  match r with
  | Ok a => put a ≫= fun _ => mret (Ok tt)
  | Err e => mret (if is_not_found e then Ok tt else Err e)
  end.

Definition reconcileDeletion : AH (res unit) :=
  authn ← get;
  if negb (ContainsFinalizer (au_Finalizers authn) authnFinalizer) then mret (Ok tt)
  else
    let? _ := cleanup else e => mret (Err e) in
    call (AEvent false "CleanupCompleted" ActionDelete "AIStoreAuth resources cleaned up") ≫= fun _ =>
    base ← get;
    let finalizers := RemoveFinalizer (au_Finalizers base) authnFinalizer in
    if bool_decide (finalizers = au_Finalizers base) then mret (Ok tt)
    else
      put (auth_set_finalizers base finalizers) ≫= fun _ =>
      let? _ := patchIfExists base (auth_set_finalizers base finalizers)
        else e => recordCleanupFailure "FinalizerRemovalFailed" "Failed to remove AIStoreAuth finalizer" ≫= fun _ =>
                  mret (Err e) in
      mret (Ok tt).

Definition Reconcile (name : nsname) : AH (res unit) :=
  let? authn := call (AGetAuth name) else e => mret (if is_not_found e then Ok tt else Err e) in
  put authn ≫= fun _ =>
  if au_Deleting authn then reconcileDeletion
  else
    let? _ := ensureFinalizer
      else e =>
        statusBase ← get;
        recordError "FinalizerFailed" "Failed to add AIStoreAuth finalizer" ≫= fun _ =>
        updateStatus statusBase ≫= fun _ => mret (Err e) in
    base ← get;
    reconcileErr ← reconcileResources;
    statusErr ← updateStatus base;
    mret (match reconcileErr with Err e => Err e | Ok _ => statusErr end).

End Controller.
End AuthCtl.
