(* ===== verification/AuthFacts.v ===== *)
(** * What the AIStoreAuth controller guarantees

    When the data claim is given up, on what evidence the server is reported ready, and which
    services are applied or deleted, in every execution of [AuthCtl.Reconcile]. *)

From S2P Require Import Prelude Effects K8sTypes ThirdParty Certificates K8sClient AuthTypes AuthResources AuthController.
Import AuthCtl.

Abbreviation atrace := (list (@event areq aanswer)).

Section Facts.
Context `{T : ThirdParty, AL : AuthLib}.

(** ** Observations *)

(** The API server returned [a] in this reconciliation. *)
Definition seen (t : atrace) (a : AIStoreAuth) : Prop :=
  (exists n, ev (AGetAuth n) (Ok a) ∈ t) \/ (exists o m, ev (APatchAuth o m) (Ok a) ∈ t).

(** The finalizer was stored when the object was read, or by an accepted patch. *)
Definition protected (t : atrace) : Prop :=
  (exists n a, ev (AGetAuth n) (Ok a) ∈ t /\ ContainsFinalizer (au_Finalizers a) authnFinalizer = true) \/
  (exists o a, ev (APatchAuth o (auth_set_finalizers o (AddFinalizer (au_Finalizers o) authnFinalizer))) (Ok a) ∈ t).

(** The claim of [a] is gone, belongs to something else, or was released. *)
Definition claim_released (t : atrace) (a : AIStoreAuth) : Prop :=
  let pvc := AuthRes.PVCNSName a in
  (exists e, ev (AGetPVC pvc) (Err e) ∈ t /\ is_not_found e = true) \/
  exists owners, ev (AGetPVC pvc) (Ok owners) ∈ t /\
    (metav1_IsControlledBy owners (au_UID a) = false \/
     exists owners' r, RemoveControllerReference (AuthRes.NewAIStoreAuthControllerRef a) owners = Ok owners' /\
       ev (APatchPVC pvc owners owners') r ∈ t /\
       (r = Ok tt \/ exists e, r = Err e /\ is_not_found e = true)).

Definition is_ready (a : AIStoreAuth) : Prop := isReady a = true.

(** Everything [a] asks for was applied. *)
Definition all_applied (t : atrace) (a : AIStoreAuth) : Prop :=
  (exists cm, AuthRes.NewConfigMap a = Ok cm /\ ev (AApplyConfigMap cm) (Ok tt) ∈ t) /\
  (exists pvc, AuthRes.NewPVC a = Ok pvc /\ ev (AApplyPVC pvc) (Ok tt) ∈ t) /\
  ev (AApplyService (AuthRes.NewService a)) (Ok tt) ∈ t /\
  (forall svc, AuthRes.NewNodePortService a = Some svc \/ AuthRes.NewLoadBalancerService a = Some svc ->
     ev (AApplyService svc) (Ok tt) ∈ t) /\
  (Auth.UseTLSCertificate a = true -> exists hosts cert,
     AuthRes.NewCertificate a hosts = Some cert /\ ev (AApplyCertificate cert) (Ok tt) ∈ t) /\
  (exists d applied, AuthRes.NewDeployment a = Ok d /\ ev (AApplyDeployment d) (Ok applied) ∈ t).

(** The Deployment of [a], as it was just applied, has rolled out. *)
Definition rollout_seen (t : atrace) (a : AIStoreAuth) : Prop :=
  exists d applied, AuthRes.NewDeployment a = Ok d /\ ev (AApplyDeployment d) (Ok applied) ∈ t /\
    isRolloutComplete applied = true.

(** ** Guards *)

Definition finalizer_guard (t : atrace) (r : areq) : Prop :=
  match r with
  | APatchAuth o m =>
      ContainsFinalizer (au_Finalizers o) authnFinalizer = true ->
      ContainsFinalizer (au_Finalizers m) authnFinalizer = false ->
      (exists n, ev (AGetAuth n) (Ok o) ∈ t) /\ au_Deleting o = true /\
      (Auth.ShouldDeletePVC (au_Persistence (au_Spec o)) = true \/ claim_released t o)
  | AApplyConfigMap _ | AApplyPVC _ | AApplyService _ | AApplyCertificate _ | AApplyDeployment _ => protected t
  | _ => True
  end.

Definition ready_guard (t : atrace) (r : areq) : Prop :=
  match r with
  | APatchAuthStatus _ a =>
      aus_ObservedGeneration (au_Status a) = au_Generation a /\
      aus_ServiceURL (au_Status a) = AuthRes.ServiceURL a /\
      (is_ready a -> all_applied t a /\ rollout_seen t a)
  | _ => True
  end.

Definition ownership_guard (t : atrace) (r : areq) : Prop :=
  match r with
  | ADeleteService name uid =>
      exists a svc, seen t a /\ ev (AGetService name) (Ok svc) ∈ t /\ os_UID svc = uid /\
        metav1_IsControlledBy (os_Owners svc) (au_UID a) = true /\
        ((name = AuthRes.NodePortServiceNSName a /\ AuthRes.NewNodePortService a = None) \/
         (name = AuthRes.LoadBalancerServiceNSName a /\ AuthRes.NewLoadBalancerService a = None))
  | ADeleteCertificate name =>
      exists a, seen t a /\ name = AuthRes.CertificateNSName a /\ Auth.UseTLSCertificate a = false
  | APatchPVC name owners owners' =>
      exists a, seen t a /\ au_Deleting a = true /\ name = AuthRes.PVCNSName a /\
        Auth.ShouldDeletePVC (au_Persistence (au_Spec a)) = false /\
        metav1_IsControlledBy owners (au_UID a) = true
  | _ => True
  end.

Definition auth_guard (h : atrace) (r : areq) : Prop :=
  finalizer_guard (rev h) r /\ ready_guard (rev h) r /\ ownership_guard (rev h) r.

(** The object in memory: one that was seen, with another status. *)
Definition current (h : atrace) (a : AIStoreAuth) : Prop :=
  exists b st, seen (rev h) b /\ a = auth_set_status b st.

Lemma seen_mono h h' a : h `suffix_of` h' -> seen (rev h) a -> seen (rev h') a.
Proof.
  intros Hs [(n & H)|(o & m & H)]; [left; exists n | right; exists o, m]; by eapply elem_of_rev_later.
Qed.

Lemma protected_mono h h' : h `suffix_of` h' -> protected (rev h) -> protected (rev h').
Proof.
  intros Hs [(n & a & H & Hf)|(o & a & H)]; [left; exists n, a | right; exists o, a];
    [split; [|done]|]; by eapply elem_of_rev_later.
Qed.

Lemma claim_released_mono h h' a : h `suffix_of` h' -> claim_released (rev h) a -> claim_released (rev h') a.
Proof.
  intros Hs [(e & He & Hn)|(owners & Ho & Hown)].
  - left. exists e. split; [by eapply elem_of_rev_later | done].
  - right. exists owners. split; [by eapply elem_of_rev_later|].
    destruct Hown as [?|(owners' & r & Hrm & Hp & Hr)]; [by left|].
    right. exists owners', r. split_and!; [done|by eapply elem_of_rev_later|done].
Qed.

Lemma all_applied_mono h h' a : h `suffix_of` h' -> all_applied (rev h) a -> all_applied (rev h') a.
Proof.
  intros Hs ((cm & ? & ?) & (pvc & ? & ?) & Hsvc & Hext & Hcert & (d & x & ? & ?)).
  pose proof (fun e => elem_of_rev_later e h h' Hs) as Hl. split_and!; [by eauto..|by apply Hl| | |by eauto].
  - intros svc Hn. by apply Hl, Hext.
  - intros Hu. destruct (Hcert Hu) as (hosts & cert & ? & ?). eauto.
Qed.

Lemma current_mono h h' a : h `suffix_of` h' -> current h a -> current h' a.
Proof. intros Hs (b & st & H & ->). exists b, st. split; [by eapply seen_mono | done]. Qed.

Lemma current_status h a st : current h a -> current h (auth_set_status a st).
Proof. intros (b & st' & H & ->). by exists b, st. Qed.

(** Requests no guard restricts. *)
Lemma event_guard h w r a n : auth_guard h (AEvent w r a n).
Proof. done. Qed.
Lemma get_guard h n : auth_guard h (AGetAuth n) /\ auth_guard h (AGetService n) /\ auth_guard h (AGetPVC n).
Proof. done. Qed.

Abbreviation awp := (wpm True auth_guard).

(** ** Stages that leave the object alone *)

(** [m] keeps the object in memory, and what it achieves when it succeeds holds of the trace. *)
Definition achieves (s : AIStoreAuth) (h : atrace) (m : AH (res unit)) (P : atrace -> Prop) : Prop :=
  awp m s h (fun h' s' r => h `suffix_of` h' /\ s' = s /\ (r = Ok tt -> P (rev h'))).

(** One object is applied, and the answer is the result. *)
Ltac applied :=
  wp_call; [done|]; intros ?; split_and!; [by apply suffix_cons_r | done |]; intros ->.

Lemma reconcileConfigMap_ok s h : protected (rev h) ->
  achieves s h reconcileConfigMap (fun t =>
    exists cm, AuthRes.NewConfigMap s = Ok cm /\ ev (AApplyConfigMap cm) (Ok tt) ∈ t).
Proof.
  intros Hp. unfold achieves, reconcileConfigMap. do 2 wp_step.
  destruct (AuthRes.NewConfigMap s) as [cm|e]; [|by wp_step].
  applied. exists cm. split; [done | apply in_trace_here].
Qed.

Lemma reconcilePersistence_ok s h : protected (rev h) ->
  achieves s h reconcilePersistence (fun t =>
    exists pvc, AuthRes.NewPVC s = Ok pvc /\ ev (AApplyPVC pvc) (Ok tt) ∈ t).
Proof.
  intros Hp. unfold achieves, reconcilePersistence. do 2 wp_step.
  destruct (AuthRes.NewPVC s) as [pvc|e]; [|by wp_step].
  applied. exists pvc. split; [done | apply in_trace_here].
Qed.

(** The service an optional block asks for is applied; without it, one left over is deleted. *)
Lemma applyOrDeleteService_ok s h svc name :
  protected (rev h) -> current h s ->
  (svc = None -> (name = AuthRes.NodePortServiceNSName s /\ AuthRes.NewNodePortService s = None) \/
                 (name = AuthRes.LoadBalancerServiceNSName s /\ AuthRes.NewLoadBalancerService s = None)) ->
  achieves s h (applyOrDeleteService svc name) (fun t =>
    forall x, svc = Some x -> ev (AApplyService x) (Ok tt) ∈ t).
Proof.
  intros Hp Hc Hn. unfold achieves, applyOrDeleteService. destruct svc as [x|].
  - applied. intros y [= <-]. apply in_trace_here.
  - unfold deleteOwnedService. do 3 wp_step. wp_call; [done|]. intros [service|e].
    2:{ wp_step. split_and!; [by apply suffix_cons_r|done|done]. }
    wp_step; [wp_step; split_and!; [by apply suffix_cons_r|done|done]|]. reflect_bools.
    wp_step. wp_call.
    { split_and!; [done..|]. destruct Hc as (b & st & Hs & ->).
      apply (seen_mono h (ev (AGetService name) (Ok service) :: h)) in Hs; [|by apply suffix_cons_r].
      exists b, service. split_and!; [exact Hs|apply in_trace_here|done|done|by apply Hn]. }
    intros r. wp_step. split_and!; [by do 2 apply suffix_cons_r|done|done].
Qed.

Lemma reconcileServices_ok s h : protected (rev h) -> current h s ->
  achieves s h reconcileServices (fun t =>
    ev (AApplyService (AuthRes.NewService s)) (Ok tt) ∈ t /\
    forall svc, AuthRes.NewNodePortService s = Some svc \/ AuthRes.NewLoadBalancerService s = Some svc ->
      ev (AApplyService svc) (Ok tt) ∈ t).
Proof.
  intros Hp Hc. unfold achieves, reconcileServices. do 3 wp_step. wp_call; [done|].
  intros [[]|e]; [|wp_step; by split_and!; [apply suffix_cons_r| |]].
  set (h1 := ev (AApplyService (AuthRes.NewService s)) (Ok tt) :: h).
  assert (h `suffix_of` h1) as S1 by (by apply suffix_cons_r).
  wp_step. eapply wpm_mono.
  { apply applyOrDeleteService_ok; [by eapply protected_mono|by eapply current_mono|]. intros ?. by left. }
  intros h2 s2 [[]|e] (S2 & -> & H2); [|wp_step; by split_and!; [trans h1| |]].
  assert (h `suffix_of` h2) as S02 by (by trans h1).
  wp_step. eapply wpm_mono.
  { apply applyOrDeleteService_ok; [by eapply protected_mono|by eapply current_mono|]. intros ?. by right. }
  intros h3 s3 [[]|e] (S3 & -> & H3); wp_step; (split_and!; [by trans h2|done|]); [|done].
  intros _. split; [apply (elem_of_rev_later _ h1); [by trans h2|apply in_trace_here]|].
  intros svc [Hn|Hl]; [apply (elem_of_rev_later _ h2); [done|]|]; auto.
Qed.

Lemma loadBalancerEndpoints_ok s h : awp loadBalancerEndpoints s h (fun h' s' _ => h `suffix_of` h' /\ s' = s).
Proof.
  unfold loadBalancerEndpoints. do 2 wp_step. destruct (_ ≫= ea_LoadBalancer); [|by wp_step].
  wp_step. wp_call; [done|]. intros [svc|e]; wp_step; by split; [apply suffix_cons_r|].
Qed.

Lemma reconcileTLSCertificate_ok s h : protected (rev h) -> current h s ->
  achieves s h reconcileTLSCertificate (fun t =>
    Auth.UseTLSCertificate s = true -> exists hosts cert,
      AuthRes.NewCertificate s hosts = Some cert /\ ev (AApplyCertificate cert) (Ok tt) ∈ t).
Proof.
  intros Hp Hc. unfold achieves, reconcileTLSCertificate. do 2 wp_step.
  destruct (Auth.UseTLSCertificate s) eqn:Hu; cbn [negb].
  - wp_step. eapply wpm_mono; [apply loadBalancerEndpoints_ok|]. intros h1 s1 [hosts|e] [S1 ->]; [|by wp_step].
    wp_step. apply wpm_deref; [done|]. intros cert Hcert.
    wp_call; [split_and!; [by eapply protected_mono|done..]|]. intros r.
    split_and!; [by apply suffix_cons_r|done|]. intros -> _. exists hosts, cert. split; [done|apply in_trace_here].
  - unfold deleteCertificate. do 3 wp_step. wp_call.
    { destruct Hc as (b & st & Hs & ->). split_and!; [done..|]. by exists b. }
    intros r. wp_step. by split_and!; [apply suffix_cons_r| |].
Qed.

(** ** Readiness *)

(** The object in memory still is [s] but for its status. *)
Definition same_but_status (s s' : AIStoreAuth) : Prop := exists st, s' = auth_set_status s st.

Context `{L : !ThirdPartyLaws T}.

Lemma setReadyCondition_wp status reason msg s h Q :
  (forall s', same_but_status s s' -> (is_ready s' <-> status = CondTrue) -> Q h s' tt) ->
  awp (setReadyCondition status reason msg) s h Q.
Proof.
  intros HQ. unfold setReadyCondition. wp_step. apply HQ; [by eexists|].
  unfold is_ready, isReady. cbn. rewrite SetStatusCondition_spec. cbn.
  rewrite decide_True by done. by rewrite bool_decide_eq_true.
Qed.

(** What a reconciliation of the resources leaves behind. *)
Definition reported (s : AIStoreAuth) (h h' : atrace) (s' : AIStoreAuth) (r : res unit) : Prop :=
  h `suffix_of` h' /\ same_but_status s s' /\
  (is_ready s' -> r = Ok tt /\ rollout_seen (rev h') s).

Lemma recordError_wp s h reason msg e :
  awp (recordError reason msg ≫= fun _ => mret (Err e)) s h (fun h' s' r => reported s h h' s' r /\ r = Err e).
Proof.
  unfold recordError. do 2 wp_step. wp_call; [done|]. intros ?.
  apply setReadyCondition_wp. intros s' Hs Hr. wp_step. split; [|done].
  split_and!; [by apply suffix_cons_r|done|]. intros Hr'. by apply Hr in Hr'.
Qed.

Lemma setReadyFromDeployment_wp applied d s h :
  AuthRes.NewDeployment s = Ok d -> ev (AApplyDeployment d) (Ok applied) ∈ rev h ->
  awp (setReadyFromDeployment applied) s h (fun h' s' _ => reported s h h' s' (Ok tt)).
Proof.
  intros Hd Ha. unfold setReadyFromDeployment. do 2 wp_step. destruct (isRolloutComplete applied) eqn:Hr.
  - wp_step. apply (wpm_mono _ _ _ _ _ (fun h' s' _ => h `suffix_of` h' /\ s' = s)).
    { destruct (isReady s); [by wp_step|]. wp_call; [done|]. intros ?. split; [by apply suffix_cons_r|done]. }
    intros h1 s1 _ [S1 ->]. apply setReadyCondition_wp. intros s' Hs _. split_and!; [done|done|].
    intros _. split; [done|]. exists d, applied. split_and!; [done| |done]. by eapply elem_of_rev_later.
  - destruct (rolloutPending applied) as [reason message]. wp_step.
    apply (wpm_mono _ _ _ _ _ (fun h' s' _ => h `suffix_of` h' /\ s' = s)).
    { wp_step; [|by wp_step]. wp_call; [done|]. intros ?. split; [by apply suffix_cons_r|done]. }
    intros h1 s1 _ [S1 ->]. apply setReadyCondition_wp. intros s' Hs Hn. split_and!; [done|done|].
    intros Hr'. by apply Hn in Hr'.
Qed.

(** The result of the remaining stages. *)
Definition outcome_ok (s : AIStoreAuth) (h h' : atrace) (s' : AIStoreAuth) (r : res unit) : Prop :=
  h `suffix_of` h' /\ same_but_status s s' /\ (r = Ok tt -> all_applied (rev h') s) /\
  (is_ready s' -> r = Ok tt /\ rollout_seen (rev h') s).

Lemma outcome_later s h1 h h' s' r : h1 `suffix_of` h -> outcome_ok s h h' s' r -> outcome_ok s h1 h' s' r.
Proof. intros Hs (S & H). split; [by trans h | done]. Qed.

Lemma stage_wp s h m reason msg k (P : atrace -> Prop) :
  achieves s h m P ->
  (forall h', h `suffix_of` h' -> P (rev h') -> awp k s h' (outcome_ok s h')) ->
  awp (stage m reason msg k) s h (outcome_ok s h).
Proof.
  intros Hm Hk. unfold stage. wp_step. eapply wpm_mono; [exact Hm|].
  intros h1 s1 [[]|e] (S1 & -> & HP).
  - eapply wpm_mono; [by apply Hk; [|apply HP]|]. intros h2 s2 r. by apply outcome_later.
  - eapply wpm_mono; [apply recordError_wp|]. intros h2 s2 r [(S2 & Hs & Hr) ->].
    by split_and!; [trans h1| | |].
Qed.

Lemma reconcileResources_wp s h :
  protected (rev h) -> current h s -> awp reconcileResources s h (outcome_ok s h).
Proof.
  intros Hp Hc. unfold reconcileResources.
  apply (stage_wp _ _ _ _ _ _ _ (reconcileConfigMap_ok s h Hp)). intros h1 S1 (cm & Hcm & Acm).
  assert (protected (rev h1)) as Hp1 by (by eapply protected_mono).
  apply (stage_wp _ _ _ _ _ _ _ (reconcilePersistence_ok s h1 Hp1)). intros h2 S2 (pvc & Hpvc & Apvc).
  assert (protected (rev h2)) as Hp2 by (by eapply protected_mono).
  assert (current h2 s) as Hc2 by (eapply current_mono; [|exact Hc]; by trans h1).
  apply (stage_wp _ _ _ _ _ _ _ (reconcileServices_ok s h2 Hp2 Hc2)). intros h3 S3 [Asvc Aext].
  assert (protected (rev h3)) as Hp3 by (by eapply protected_mono).
  apply (stage_wp _ _ _ _ _ _ _ (reconcileTLSCertificate_ok s h3 Hp3 (current_mono _ _ _ S3 Hc2))).
  intros h4 S4 Acert. unfold stage, reconcileDeployment. do 3 wp_step.
  assert (h2 `suffix_of` h4) as S24 by (by trans h3). assert (h1 `suffix_of` h4) as S14 by (by trans h2).
  destruct (AuthRes.NewDeployment s) as [d|e] eqn:Hd.
  2:{ wp_step. eapply wpm_mono; [apply recordError_wp|]. intros h5 s5 r [(S5 & Hs & Hr) ->].
      by split_and!. }
  wp_step. wp_call; [split_and!; [by eapply protected_mono|done..]|]. intros [applied|e].
  2:{ wp_step. eapply wpm_mono; [apply recordError_wp|]. intros h5 s5 r [(S5 & Hs & Hr) ->].
      split_and!; [eapply suffix_cons_l; exact S5|done|done|done]. }
  wp_step. eapply wpm_mono; [apply (setReadyFromDeployment_wp applied d); [exact Hd|apply in_trace_here]|].
  intros h5 s5 _ (S5 & Hs & Hr). do 2 wp_step.
  assert (ev (AApplyDeployment d) (Ok applied) ∈ rev h5) as Ad by (eapply elem_of_rev_later; [exact S5|apply in_trace_here]).
  apply suffix_cons_l in S5. split_and!; [done|done| |done].
  intros _. split_and!.
  - exists cm. split; [done|]. eapply elem_of_rev_later; [|exact Acm]. by trans h4.
  - exists pvc. split; [done|]. eapply elem_of_rev_later; [|exact Apvc]. by trans h4.
  - eapply elem_of_rev_later; [|exact Asvc]. by trans h4.
  - intros svc Hsvc. eapply elem_of_rev_later; [|by apply Aext]. by trans h4.
  - intros Hu. destruct (Acert Hu) as (hosts & cert & Hcert & Ac). exists hosts, cert.
    split; [done|]. by eapply elem_of_rev_later.
  - by exists d, applied.
Qed.

(** ** Status *)

Lemma same_applied s s' t : same_but_status s s' ->
  (all_applied t s' <-> all_applied t s) /\ (rollout_seen t s' <-> rollout_seen t s).
Proof. by intros [st ->]. Qed.

Lemma updateStatus_wp base s h :
  (is_ready s -> all_applied (rev h) s /\ rollout_seen (rev h) s) ->
  awp (updateStatus base) s h (fun h' _ _ => h `suffix_of` h').
Proof.
  intros Hr. unfold updateStatus. do 4 wp_step. wp_step; [by wp_step|]. wp_step.
  wp_call; [by split_and!|]. intros [a|e]; [do 3 wp_step|wp_step]; by apply suffix_cons_r.
Qed.

Lemma recordCleanupFailure_wp s h reason msg :
  awp (recordCleanupFailure reason msg) s h (fun h' _ _ => h `suffix_of` h').
Proof.
  unfold recordCleanupFailure. do 3 wp_step.
  apply (wpm_mono _ _ _ _ _ (fun h' s' _ => h `suffix_of` h' /\ s' = s)).
  { wp_step; [by wp_step|]. wp_call; [done|]. intros ?. split; [by apply suffix_cons_r|done]. }
  intros h1 s1 _ [S1 ->]. wp_step. apply setReadyCondition_wp. intros s' _ Hn.
  wp_step. eapply wpm_mono; [apply updateStatus_wp|].
  - intros Hr. by apply Hn in Hr.
  - intros h2 s2 r S2. wp_step. by trans h1.
Qed.

(** ** Deletion *)

Lemma retainPVC_wp s h :
  current h s -> au_Deleting s = true ->
  awp retainPVC s h (fun h' s' r => h `suffix_of` h' /\ s' = s /\ (r = Ok tt ->
    Auth.ShouldDeletePVC (au_Persistence (au_Spec s)) = true \/ claim_released (rev h') s)).
Proof.
  intros Hc Hd. unfold retainPVC. do 2 wp_step. wp_step; [wp_step; split_and!; auto|].
  wp_step. wp_call; [done|]. intros [owners|e].
  2:{ wp_step. split_and!; [by apply suffix_cons_r|done|]. destruct (is_not_found e) eqn:Hn; [|done].
      intros _. right. left. exists e. split; [apply in_trace_here|done]. }
  wp_step.
  { wp_step. split_and!; [by apply suffix_cons_r|done|]. intros _. right. right. exists owners.
    reflect_bools. split; [apply in_trace_here|by left]. }
  reflect_bools. destruct (RemoveControllerReference _ _) as [owners'|e] eqn:Hrm.
  2:{ wp_step. split_and!; [by apply suffix_cons_r|done|done]. }
  wp_step. wp_call.
  { destruct Hc as (b & st & Hs & ->). split_and!; [done..|].
    apply (seen_mono h (ev (AGetPVC (AuthRes.PVCNSName (auth_set_status b st))) (Ok owners) :: h)) in Hs;
      [|by apply suffix_cons_r]. by exists b. }
  intros r. wp_step. split_and!; [by do 2 apply suffix_cons_r|done|]. intros Hr. right. right. exists owners.
  split; [apply in_trace_later, in_trace_here|]. right. exists owners', r. split_and!; [done|apply in_trace_here|].
  destruct r as [[]|e]; [by left|]. right. exists e. split; [done|]. by destruct (is_not_found e).
Qed.

Lemma reconcileDeletion_wp s h n :
  ev (AGetAuth n) (Ok s) ∈ rev h -> au_Deleting s = true ->
  awp reconcileDeletion s h (fun _ _ _ => True).
Proof.
  intros Hg Hd. unfold reconcileDeletion, cleanup. do 2 wp_step. wp_step; [by wp_step|].
  assert (current h s) as Hc.
  { exists s, (au_Status s). split; [left; by exists n | by destruct s]. }
  do 2 wp_step. eapply wpm_mono; [by apply retainPVC_wp|]. intros h1 s1 [[]|e] (S1 & -> & Hrel).
  2:{ wp_step. eapply wpm_mono; [apply recordCleanupFailure_wp|]. intros h2 s2 ? ?. by do 2 wp_step. }
  do 2 wp_step. wp_call; [done|]. intros ?. do 2 wp_step. cbv zeta. wp_step; [by wp_step|].
  do 2 wp_step. wp_step. unfold patchIfExists. wp_step. wp_call.
  { split_and!; [|done|done]. cbn [finalizer_guard]. intros _ _. split_and!.
    - exists n. eapply elem_of_rev_later; [|exact Hg]. by apply suffix_cons_r.
    - done.
    - destruct (Hrel eq_refl) as [?|Hcl]; [by left|]. right.
      eapply claim_released_mono; [|exact Hcl]. by apply suffix_cons_r. }
  intros [a|e]; [by do 4 wp_step|]. wp_step. destruct (is_not_found e); [by wp_step|].
  wp_step. eapply wpm_mono; [apply recordCleanupFailure_wp|]. intros h2 s2 ? ?. by wp_step.
Qed.

(** ** Reconciliation *)

(** What an error-free reconciliation has done: the object is gone, being deleted, or applied. *)
Definition completed (n : nsname) (t : atrace) : Prop :=
  (exists e, ev (AGetAuth n) (Err e) ∈ t /\ is_not_found e = true) \/
  (exists a, ev (AGetAuth n) (Ok a) ∈ t /\ au_Deleting a = true) \/
  (exists a, seen t a /\ all_applied t a).

Lemma ensureFinalizer_wp s h n :
  ev (AGetAuth n) (Ok s) ∈ rev h ->
  awp ensureFinalizer s h (fun h' s' r => h `suffix_of` h' /\
    (r = Ok tt -> protected (rev h') /\ seen (rev h') s')).
Proof.
  intros Hg. unfold ensureFinalizer. do 2 wp_step. wp_step.
  { wp_step. split; [done|]. intros _. split; left; [by exists n, s | by exists n]. }
  do 3 wp_step. wp_call.
  { split_and!; [|done|done]. cbn [finalizer_guard]. congruence. }
  intros [a|e]; [do 3 wp_step|by wp_step; split; [apply suffix_cons_r|]].
  split; [by apply suffix_cons_r|]. intros _. split; right; [exists s, a | eexists _, _]; apply in_trace_here.
Qed.

Lemma Reconcile_wp n s0 : awp (Reconcile n) s0 [] (fun h' _ r => r = Ok tt -> completed n (rev h')).
Proof.
  unfold Reconcile. wp_step. wp_call; [done|]. intros [s|e].
  2:{ wp_step. destruct (is_not_found e) eqn:Hn; [|done]. intros _. left. exists e. split; [apply in_trace_here|done]. }
  set (h := [_] : atrace). assert (ev (AGetAuth n) (Ok s) ∈ rev h) as Hg by apply in_trace_here.
  clearbody h. do 2 wp_step. wp_step.
  { eapply wpm_mono; [apply wpm_suffix, (reconcileDeletion_wp _ _ n); done|]. intros h1 s1 r [_ S1] _.
    right. left. exists s. split; [by eapply elem_of_rev_later|done]. }
  wp_step. eapply wpm_mono; [by apply (ensureFinalizer_wp s h n)|]. intros h1 s1 [[]|e] (S1 & H1).
  2:{ do 3 wp_step. unfold recordError. wp_step. wp_call; [done|]. intros ?.
      apply setReadyCondition_wp. intros s2 _ Hn. wp_step.
      eapply wpm_mono; [apply updateStatus_wp; intros Hr; by apply Hn in Hr|]. intros. by wp_step. }
  destruct (H1 eq_refl) as [Hp Hseen]. clear H1. do 3 wp_step.
  assert (current h1 s1) as Hc by (exists s1, (au_Status s1); split; [done|by destruct s1]).
  eapply wpm_mono; [by apply reconcileResources_wp|]. intros h2 s2 r (S2 & Hs & Happ & Hready).
  wp_step. eapply wpm_mono.
  { apply updateStatus_wp. intros Hr. destruct (Hready Hr) as [-> Hroll].
    destruct (same_applied s1 s2 (rev h2) Hs) as [-> ->]. split; [by apply Happ | done]. }
  intros h3 s3 st S3. wp_step. destruct r as [[]|e]; [|done]. intros _. right. right. exists s1.
  split; [eapply seen_mono; [|exact Hseen]; by trans h2|]. by eapply all_applied_mono; [|apply Happ].
Qed.

(** ** Theorems *)

(** C35. The data and the objects of others are safe: in every reconciliation, resources are
    applied only once the finalizer is stored; the finalizer is removed only from an object
    that was read as being deleted, after its claim was released (seen gone, seen owned by
    something else, or freed of its owner reference by an accepted patch), unless the spec says
    the data goes too; and a service is deleted only if it was read, at that UID, as owned by
    this AIStoreAuth, whose spec no longer asks for it. *)
Theorem auth_data_retained n s0 :
  guarded (fun t r => finalizer_guard t r /\ ownership_guard t r) (Reconcile n s0).
Proof.
  eapply guarded_wp. eapply wp_mono; [done| | |exact (Reconcile_wp n s0)]; [|done].
  intros h r (H1 & _ & H3). by split.
Qed.

(** C36. The status tells the truth: every status written carries the generation and URL of the
    object, and says ready only after every resource was applied in this very pass and the
    Deployment, as the API server returned it from the apply, had rolled out its generation.
    And no failure is lost: a reconciliation that returns no error found no object, found it
    being deleted, or had every resource of the object accepted. *)
Theorem auth_status_and_errors n s0 :
  guarded ready_guard (Reconcile n s0) /\
  (forall t s, exec (Reconcile n s0) t (Some (s, Ok tt)) -> completed n t).
Proof.
  split.
  - eapply guarded_wp. eapply wp_mono; [done| | |exact (Reconcile_wp n s0)]; [|done].
    by intros h r (_ & H2 & _).
  - intros t s Hex. refine (returns_wp _ (fun t p => p.2 = Ok tt -> completed n t) t (s, Ok tt) _ Hex eq_refl).
    eapply wp_mono; [done|done| |exact (Reconcile_wp n s0)]. done.
Qed.

End Facts.
