(* ===== verification/AuthWebhooks.v ===== *)
(** * Admission of auth profiles and auth servers

    [api/aisauth/v1alpha1/aistoreauthprofile_validation.go] and
    [internal/webhook/aisauth/v1alpha1]: what the validating webhooks of AIStoreAuthProfile and
    AIStoreAuth accept. Requests are those of [Webhook]. *)

From S2P Require Import Prelude Effects K8sTypes AuthConf Webhook AuthTypes.

(** A parsed URL ([net/url.URL]). *)
Record URL := MkURL {
  u_Scheme : string; u_Host : string; u_Path : string; u_RawQuery : string; u_Fragment : string }.

(** [url.Parse], and the text [apierrors.NewInvalid] makes of a list of field errors. *)
Class AdmissionLib := {
  url_Parse : string -> res URL;
  AggregateMessage : list field_error -> string;
}.

Section Errors.
Context `{AD : AdmissionLib}.

(** [apierrors.NewInvalid] for a list of field errors, none when it is empty. *)
Definition invalid_unless_empty (kind_ name : string) (allErrs : list field_error) : option error :=
  match allErrs with
  | [] => None
  | _ => Some (MkError EkInvalid (kind_ +:+ " " +:+ quoted name +:+ " is invalid: " +:+ AggregateMessage allErrs))
  end.
End Errors.

(** ** AIStoreAuthProfile: spec *)

Module ProfileHook.

(** The warnings, and the field errors unless the check itself failed. *)
Abbreviation checked := (list string * res (list field_error))%type.

Section Profile.
Context `{AD : AdmissionLib}.

Definition ProfileKind : string := "AIStoreAuthProfile.auth.ais.nvidia.com".

Definition validateAuthMethod (p : AIStoreAuthProfile) : list field_error :=
  if Bool.eqb (bool_decide (ap_UsernamePassword p = None)) (bool_decide (ap_TokenExchange p = None))
  then [field_Invalid "spec" "null" "exactly one of usernamePassword or tokenExchange must be specified"]
  else [].

Definition validateServiceURL (p : AIStoreAuthProfile) : list field_error :=
  let bad msg := [field_Invalid "spec.serviceURL" (ap_ServiceURL p) msg] in
  match url_Parse (ap_ServiceURL p) with
  | Err e => bad (err_msg e)
  | Ok u =>
      if bool_decide (u_Host u = "") then bad "must include a host"
      else if bool_decide (u_Path u ≠ "") && bool_decide (u_Path u ≠ "/") then bad "must not include a path"
      else if bool_decide (u_RawQuery u ≠ "") || bool_decide (u_Fragment u ≠ "")
      then bad "must not include query or fragment"
      else if bool_decide (u_Scheme u ∈ ["https"; "http"]) then []
      else bad "scheme must be http or https"
  end.

Definition validateEndpointPath (path endpoint : string) : list field_error :=
  let bad msg := [field_Invalid path endpoint msg] in
  match url_Parse endpoint with
  | Err e => bad (err_msg e)
  | Ok u =>
      if bool_decide (u_Scheme u ≠ "") || bool_decide (u_Host u ≠ "") then bad "must be a path, not a URL"
      else if negb (has_prefix (u_Path u) "/") || bool_decide (u_RawQuery u ≠ "") || bool_decide (u_Fragment u ≠ "")
      then bad "must be an absolute path without query or fragment"
      else []
  end.

Definition validateTokenExchangeEndpoint (p : AIStoreAuthProfile) : list field_error :=
  match ap_TokenExchange p with
  | None => []
  | Some _ => validateEndpointPath "spec.tokenExchange.endpoint" (TokenExchangeEndpoint p)
  end.

Definition validateLoginConfEndpoint (p : AIStoreAuthProfile) : list field_error :=
  if bool_decide (LoginEndpoint p = "") then []
  else validateEndpointPath "spec.usernamePassword.loginConf.endpoint" (LoginEndpoint p).

Definition ValidateSpec (p : AIStoreAuthProfile) : option error :=
  invalid_unless_empty ProfileKind (ap_Name p)
    (validateServiceURL p ++ validateAuthMethod p ++ validateTokenExchangeEndpoint p ++
     validateLoginConfEndpoint p).

(** ** AIStoreAuthProfile: references *)

Abbreviation Warnings := (list string) (only parsing).

Definition handleResourceGetError (e : error) (path kind_ : string) (ref : nsname) (warnings : Warnings)
    : checked :=
  let in_namespace := " in namespace " +:+ quoted (nn_namespace ref) in
  if is_not_found e then
    (warnings, Ok [field_Invalid path (nn_name ref)
                     ("referenced " +:+ kind_ +:+ " does not exist" +:+ in_namespace)])
  else if bool_decide (err_kind e = EkForbidden) || bool_decide (err_kind e = EkUnauthorized) then
    (warnings ++ ["the operator is not authorized to get " +:+ kind_ +:+ " " +:+ quoted (nn_name ref) +:+
                  in_namespace +:+ "; its contents were not validated"], Ok [])
  else (warnings, Err (NewInternalError ("checking " +:+ kind_ +:+ " " +:+ quoted (nn_name ref) +:+
                                         in_namespace +:+ ": " +:+ err_msg e))).

Definition validateSecretFields (secretSpec : AuthProfileSecret) (data : labels) : list field_error :=
  ([("spec.usernamePassword.secret.userKey", UserKeyOrDefault secretSpec);
    ("spec.usernamePassword.secret.passKey", PassKeyOrDefault secretSpec)]) ≫= fun '(path, key) =>
  if bool_decide (is_Some (data !! key)) then []
  else [field_Invalid path key "key does not exist in referenced Secret"].

Definition secret_ref (s : AuthProfileSecret) : nsname := NN (aps_Namespace s) (aps_Name s).
Definition ca_ref (c : AuthProfileCAConfigMapRef) : nsname := NN (apc_Namespace c) (apc_Name c).

(** The attributes of a core resource a review is about. *)
Definition core_attributes (resource : string) (ref : nsname) : ResourceAttributes :=
  MkAttributes (nn_namespace ref) "" "" "" resource (nn_name ref).

Definition validateSecretRef (secretSpec : AuthProfileSecret) (warnings : Warnings) : W checked :=
  let path := "spec.usernamePassword.secret" in
  let secretRef := secret_ref secretSpec in
  let? fieldErr := AuthorizeGet path (core_attributes "secrets" secretRef)
    else e => mret (warnings, Err e) in
  match fieldErr with
  | Some fe => mret (warnings, Ok [fe])
  | None =>
      let? secret := call (WGetSecretDirect secretRef)
        else e => mret (handleResourceGetError e path "Secret" secretRef warnings) in
      mret (warnings, Ok (validateSecretFields secretSpec secret))
  end.

Definition validateCAConfigMap (cmRef : AuthProfileCAConfigMapRef) (warnings : Warnings) : W checked :=
  let path := "spec.tls.caConfigMapRef" in
  let configMapRef := ca_ref cmRef in
  let? fieldErr := AuthorizeGet path (core_attributes "configmaps" configMapRef)
    else e => mret (warnings, Err e) in
  match fieldErr with
  | Some fe => mret (warnings, Ok [fe])
  | None =>
      let? configMap := call (WGetConfigMapDirect configMapRef)
        else e => mret (handleResourceGetError e path "ConfigMap" configMapRef warnings) in
      mret (warnings, Ok (if bool_decide (is_Some (configMap !! apc_Key cmRef)) then []
                          else [field_Invalid (path +:+ ".key") (apc_Key cmRef)
                                  "key does not exist in referenced ConfigMap"]))
  end.

(** A reference that is checked when it is present. *)
Definition check_ref {R} (ref : option R) (check : R -> Warnings -> W checked) (warnings : Warnings) : W checked :=
  match ref with Some r => check r warnings | None => mret (warnings, Ok []) end.

Definition validate (p : AIStoreAuthProfile) (warnings : Warnings) : W (list string * option error) :=
  match ValidateSpec p with
  | Some e => mret (warnings, Some e)
  | None =>
      if ap_Deleting p then mret (warnings, None)
      else
        secret ← check_ref (apu_Secret <$> ap_UsernamePassword p) validateSecretRef warnings;
        match secret with
        | (warnings, Err e) => mret (warnings, Some e)
        | (warnings, Ok errs) =>
            ca ← check_ref (t ← ap_TLS p; apt_CAConfigMapRef t) validateCAConfigMap warnings;
            match ca with
            | (warnings, Err e) => mret (warnings, Some e)
            | (warnings, Ok errs') => mret (warnings, invalid_unless_empty ProfileKind (ap_Name p) (errs ++ errs'))
            end
        end
  end.

(** ** AIStoreAuthProfile: entry points *)

Definition isPlainHTTP (serviceURL : string) : bool :=
  match url_Parse serviceURL with Ok u => bool_decide (u_Scheme u = "http") | Err _ => false end.

Definition insecure (p : AIStoreAuthProfile) : bool :=
  match ap_TLS p with Some t => apt_InsecureSkipVerify t | None => false end.

Definition securityWarnings (previous : option AIStoreAuthProfile) (p : AIStoreAuthProfile) : Warnings :=
  let changed := match previous with
                 | Some q => bool_decide (ap_ServiceURL q ≠ ap_ServiceURL p) | None => true end in
  let warnings := if changed && isPlainHTTP (ap_ServiceURL p)
    then ["spec.serviceURL should use https unless TLS is terminated elsewhere (e.g. service mesh)"] else [] in
  if negb (insecure p) then warnings
  else if match previous with Some q => insecure q | None => false end then warnings
  else warnings ++ ["spec.tls.insecureSkipVerify is enabled; TLS certificate verification is disabled"].

(** [return warnings, w.validate(ctx, profile, &warnings)]: Go does not say whether the variable
    is read before or after the call that appends to it ([late]). *)
Context (late : bool).

Definition ValidateCreate (p : AIStoreAuthProfile) : W (list string * option error) :=
  let warnings := securityWarnings None p in
  v ← validate p warnings;
  mret (if late then v.1 else warnings, v.2).

Definition ValidateUpdate (previous p : AIStoreAuthProfile) : W (list string * option error) :=
  let warnings := securityWarnings (Some previous) p in
  v ← validate p warnings;
  mret (if late then v.1 else warnings, v.2).

Definition ValidateDelete (p : AIStoreAuthProfile) : W (list string * option error) := mret ([], None).

End Profile.
End ProfileHook.

(** ** AIStoreAuth *)

Module AuthHook.
Section Auth.
Context `{AD : AdmissionLib}.

Definition AuthKind : string := "AIStoreAuth.auth.ais.nvidia.com".

Definition secretRefName (ref : option string) : string := default "" ref.

(** A field error when the secret is missing, an error when the lookup failed. *)
Definition requireSecret (namespace name path : string) : W (res (option field_error)) :=
  r ← call (WGetSecret (NN namespace name));
  mret (match r with
        | Ok _ => Ok None
        | Err e =>
            if is_not_found e
            then Ok (Some (field_Invalid path name
                             ("referenced Secret does not exist in namespace " +:+ quoted namespace)))
            else Err (NewInternalError ("checking Secret " +:+ quoted name +:+ " in namespace " +:+
                                        quoted namespace +:+ ": " +:+ err_msg e))
        end).

(** The errors found so far and those of one more reference, which is not looked up when unset. *)
Definition require (namespace name path : string) (allErrs : list field_error)
    : W (res (list field_error)) :=
  if bool_decide (name = "") then mret (Ok allErrs)
  else
    let? fieldErr := requireSecret namespace name path else e => mret (Err e) in
    mret (Ok (match fieldErr with Some fe => allErrs ++ [fe] | None => allErrs end)).

Definition validate (a : AIStoreAuth) : W (option error) :=
  let ns := nn_namespace (au_Name a) in
  let hmacName := secretRefName (au_HMACSecret (au_Spec a)) in
  let rsaName := secretRefName (au_RSAPassphraseSecret (au_Spec a)) in
  let? allErrs := require ns (secretRefName (au_AdminSecret (au_Spec a))) "spec.adminSecret" []
    else e => mret (Some e) in
  let? allErrs := require ns hmacName "spec.hmacSecret" allErrs else e => mret (Some e) in
  let? allErrs :=
    (if bool_decide (rsaName ≠ "") && bool_decide (hmacName ≠ "")
     then mret (Ok (allErrs ++ [field_Invalid "spec.rsaPassphraseSecret" rsaName
                                  "must not be set together with spec.hmacSecret"]))
     else require ns rsaName "spec.rsaPassphraseSecret" allErrs)
    else e => mret (Some e) in
  mret (invalid_unless_empty AuthKind (nn_name (au_Name a)) allErrs).

Definition ValidateCreate (a : AIStoreAuth) : W (list string * option error) :=
  e ← validate a; mret ([], e).
Definition ValidateUpdate (prev a : AIStoreAuth) : W (list string * option error) :=
  e ← validate a; mret ([], e).
Definition ValidateDelete (a : AIStoreAuth) : W (list string * option error) := mret ([], None).

End Auth.
End AuthHook.
