(* ===== verification/AuthWebhookFacts.v ===== *)
(** * What the auth webhooks guarantee

    An abstract specification of the auth profiles and auth servers that are acceptable in a
    given state of the cluster, and that the webhooks implement it. *)

From S2P Require Import Prelude Effects K8sTypes ThirdParty AuthConf Webhook WebhookFacts AuthTypes AuthWebhooks.
Import ProfileHook.

(** ** The specification *)

(** What the API server answers while an object is admitted. *)
Record snapshot := MkSnapshot {
  sn_user : UserInfo;
  sn_allows : UserInfo -> ResourceAttributes -> bool;
  sn_secret : nsname -> res labels;
  sn_config_map : nsname -> res labels }.

Definition answer_of (σ : snapshot) (r : wreq) : wanswer r :=
  match r with
  | WListNodes _ => Ok []
  | WListStorageClasses => Ok []
  | WGetAuthProfile n => Err (MkError EkNotFound n)
  | WGetSecret n => sn_secret σ n
  | WGetSecretDirect n => sn_secret σ n
  | WGetConfigMapDirect n => sn_config_map σ n
  | WAdmissionRequest => Ok (sn_user σ)
  | WReview sar => Ok (sn_allows σ (ar_User sar) (ar_Attributes sar))
  end.

Definition answered (σ : snapshot) (t : wtrace) : Prop := Forall (agrees (answer_of σ)) t.

(** The submitting user may read the object. *)
Definition may_get (σ : snapshot) (resource : string) (ref : nsname) : Prop :=
  sn_allows σ (sn_user σ) (with_verb (core_attributes resource ref) "get") = true.

(** The operator itself is refused the object. *)
Definition operator_refused (r : res labels) : Prop :=
  exists e, r = Err e /\ (err_kind e = EkForbidden \/ err_kind e = EkUnauthorized).

(** The object has the keys, as far as the operator can tell. *)
Definition has_keys (r : res labels) (keys : list string) : Prop :=
  operator_refused r \/ exists data, r = Ok data /\ forall k, k ∈ keys -> is_Some (data !! k).

Section Spec.
Context `{AD : AdmissionLib}.

Definition is_base_url (s : string) : Prop :=
  exists u, url_Parse s = Ok u /\ u_Scheme u ∈ ["https"; "http"] /\ u_Host u ≠ "" /\
    (u_Path u = "" \/ u_Path u = "/") /\ u_RawQuery u = "" /\ u_Fragment u = "".

Definition is_absolute_path (s : string) : Prop :=
  exists u, url_Parse s = Ok u /\ u_Scheme u = "" /\ u_Host u = "" /\
    has_prefix (u_Path u) "/" = true /\ u_RawQuery u = "" /\ u_Fragment u = "".

(** A profile names one service, one way to log in, and paths below the service. *)
Record profile_wf (p : AIStoreAuthProfile) : Prop := {
  pw_url : is_base_url (ap_ServiceURL p);
  pw_method : is_Some (ap_UsernamePassword p) <-> ap_TokenExchange p = None;
  pw_exchange : is_Some (ap_TokenExchange p) -> is_absolute_path (TokenExchangeEndpoint p);
  pw_login : LoginEndpoint p ≠ "" -> is_absolute_path (LoginEndpoint p) }.

Definition ca_of (p : AIStoreAuthProfile) : option AuthProfileCAConfigMapRef := t ← ap_TLS p; apt_CAConfigMapRef t.

(** The user may read what the profile refers to, and it is there. *)
Definition references_ok (σ : snapshot) (p : AIStoreAuthProfile) : Prop :=
  (forall s, apu_Secret <$> ap_UsernamePassword p = Some s -> may_get σ "secrets" (secret_ref s) /\
     has_keys (sn_secret σ (secret_ref s)) [UserKeyOrDefault s; PassKeyOrDefault s]) /\
  (forall c, ca_of p = Some c -> may_get σ "configmaps" (ca_ref c) /\
     has_keys (sn_config_map σ (ca_ref c)) [apc_Key c]).

Definition profile_accepted (σ : snapshot) (p : AIStoreAuthProfile) : Prop :=
  profile_wf p /\ (ap_Deleting p = false -> references_ok σ p).

(** An auth server refers to secrets that exist, and to one signing key at most. *)
Definition server_accepted (σ : snapshot) (a : AIStoreAuth) : Prop :=
  let secret ref := forall n, ref = Some n -> n ≠ "" -> is_ok (sn_secret σ (NN (nn_namespace (au_Name a)) n)) = true in
  let sp := au_Spec a in
  secret (au_AdminSecret sp) /\ secret (au_HMACSecret sp) /\ secret (au_RSAPassphraseSecret sp) /\
  (default "" (au_HMACSecret sp) = "" \/ default "" (au_RSAPassphraseSecret sp) = "").

(** ** The spec checks *)

Lemma validateServiceURL_spec p : validateServiceURL p = [] <-> is_base_url (ap_ServiceURL p).
Proof.
  unfold validateServiceURL, is_base_url. cbv zeta. destruct (url_Parse _) as [u|e]; [|naive_solver].
  repeat case_bool_decide; cbn; naive_solver.
Qed.

Lemma validateEndpointPath_spec path s : validateEndpointPath path s = [] <-> is_absolute_path s.
Proof.
  unfold validateEndpointPath, is_absolute_path. cbv zeta. destruct (url_Parse _) as [u|e]; [|naive_solver].
  repeat case_bool_decide; destruct (has_prefix _ _) eqn:?; cbn;
    (split; [intros; simplify_eq; eauto 10 | intros (? & [= <-] & ?); destruct_and?; congruence]).
Qed.

Lemma validateAuthMethod_spec p :
  validateAuthMethod p = [] <-> (is_Some (ap_UsernamePassword p) <-> ap_TokenExchange p = None).
Proof.
  unfold validateAuthMethod. destruct (ap_UsernamePassword p), (ap_TokenExchange p); cbn;
    split; try done; intros H; exfalso; revert H; rewrite ?is_Some_alt; naive_solver.
Qed.

Lemma invalid_unless_empty_spec kind_ name l : invalid_unless_empty kind_ name l = None <-> l = [].
Proof. by destruct l. Qed.

Lemma ValidateSpec_spec p : ValidateSpec p = None <-> profile_wf p.
Proof.
  unfold ValidateSpec. rewrite invalid_unless_empty_spec. rewrite !app_nil.
  rewrite validateServiceURL_spec, validateAuthMethod_spec.
  unfold validateTokenExchangeEndpoint, validateLoginConfEndpoint.
  destruct (ap_TokenExchange p) as [t|] eqn:Ht; (case_bool_decide as Hl; rewrite ?validateEndpointPath_spec);
    (split; [intros (H1 & H2 & H3 & H4); split; rewrite ?Ht; naive_solver
            |intros [H1 H2 H3 H4]; rewrite ?Ht in *; naive_solver]).
Qed.
End Spec.

(** ** The checks of references *)

(** Nothing is read for a user who may not read it. *)
Definition no_probe (t : wtrace) (r : wreq) : Prop :=
  match r with
  | WGetSecretDirect ref => allowed t "get" (core_attributes "secrets" ref)
  | WGetConfigMapDirect ref => allowed t "get" (core_attributes "configmaps" ref)
  | _ => True
  end.

Abbreviation pwp := (wpm False (fun (h : wtrace) r => no_probe (rev h) r)).

Lemma answered_rev σ (h : wtrace) : answered σ (rev h) <-> answered σ h.
Proof.
  unfold answered. split; intros H; apply List.Forall_forall; intros e He;
    (eapply List.Forall_forall in H; [exact H|]); by apply in_rev; rewrite ?rev_involutive.
Qed.

Lemma answered_cons σ r x (h : wtrace) : answered σ (ev r x :: h) -> x = answer_of σ r /\ answered σ h.
Proof. intros H. apply Forall_cons in H. exact H. Qed.

Lemma answered_suffix σ (h h' : wtrace) : h `suffix_of` h' -> answered σ h' -> answered σ h.
Proof. intros [k ->] H. apply Forall_app in H. apply H. Qed.

Lemma AuthorizeGet_wp σ path attrs h :
  pwp (AuthorizeGet path attrs) tt h (fun h' _ r =>
    h `suffix_of` h' /\ (r = Ok None -> allowed (rev h') "get" attrs) /\
    (answered σ h' -> exists o, r = Ok o /\ (o = None <-> sn_allows σ (sn_user σ) (with_verb attrs "get") = true))).
Proof.
  unfold AuthorizeGet, Authorize. wp_step. wp_call; [done|]. intros [u|e].
  2:{ wp_step. split_and!; [by apply suffix_cons_r|done|]. by intros [? _]%answered_cons. }
  wp_step. wp_call; [done|]. intros [b|e]; wp_step; (split_and!; [by do 2 apply suffix_cons_r| |]).
  - destruct b; [|done]. intros _. exists u. split; [apply in_trace_later|]; apply in_trace_here.
  - intros [[= ->] [[= ->] _]%answered_cons]%answered_cons. eexists. split; [done|].
    by destruct (sn_allows _ _ _).
  - done.
  - by intros [? _]%answered_cons.
Qed.

(** The verdict of a check: errors exactly when [P] fails, or the check itself failed. *)
Definition judged (P : Prop) (c : checked) : Prop :=
  match c.2 with Ok errs => errs = [] <-> P | Err _ => ~ P end.

Lemma handleResourceGetError_judged e path kind_ ref ws keys :
  judged (has_keys (Err e) keys) (handleResourceGetError e path kind_ ref ws).
Proof.
  unfold handleResourceGetError, judged, has_keys, operator_refused, is_not_found. cbv zeta.
  repeat case_bool_decide; cbn; naive_solver congruence.
Qed.

(** Both checks have this shape: review, read, then look for the keys. *)
Lemma reference_wp σ path attrs kind_ ref ws (m : W (res labels)) (ans : res labels) chk keys h :
  (forall h, allowed (rev h) "get" attrs ->
     pwp m tt h (fun h' _ r => h `suffix_of` h' /\ (answered σ h' -> r = ans))) ->
  (forall data, chk data = [] <-> forall k, k ∈ keys -> is_Some (data !! k)) ->
  pwp (let? fieldErr := AuthorizeGet path attrs else e => mret (ws, Err e) in
       match fieldErr with
       | Some fe => mret (ws, Ok [fe])
       | None => let? data := m else e => mret (handleResourceGetError e path kind_ ref ws) in
                 mret (ws, Ok (chk data))
       end) tt h (fun h' _ c => h `suffix_of` h' /\ (answered σ h' ->
         judged (sn_allows σ (sn_user σ) (with_verb attrs "get") = true /\ has_keys ans keys) c)).
Proof.
  intros Hm Hchk. wp_step. eapply wpm_mono; [apply AuthorizeGet_wp|].
  intros h1 [] [[fe|]|e] (S1 & Hallow & Hans).
  1,3: wp_step; split; [done|]; intros (o & [= <-] & Ho)%Hans; unfold judged; cbn; naive_solver.
  specialize (Hallow eq_refl). wp_step. eapply wpm_mono; [by apply Hm|]. intros h2 [] r [S2 Hr].
  destruct r as [data|e]; wp_step; (split; [by trans h1|]); intros Ha; specialize (Hr Ha) as <-;
    destruct (Hans (answered_suffix _ _ _ S2 Ha)) as (o & [= <-] & Ho).
  - unfold judged, has_keys, operator_refused. cbn. rewrite Hchk. naive_solver.
  - pose proof (handleResourceGetError_judged e path kind_ ref ws keys) as Hj.
    unfold judged in *. destruct (handleResourceGetError _ _ _ _ _).2; naive_solver.
Qed.

Lemma validateSecretRef_wp σ s ws h :
  pwp (validateSecretRef s ws) tt h (fun h' _ c => h `suffix_of` h' /\ (answered σ h' ->
    judged (may_get σ "secrets" (secret_ref s) /\
            has_keys (sn_secret σ (secret_ref s)) [UserKeyOrDefault s; PassKeyOrDefault s]) c)).
Proof.
  refine (reference_wp σ _ (core_attributes "secrets" (secret_ref s)) "Secret" (secret_ref s) ws
    (call (WGetSecretDirect (secret_ref s))) _ (validateSecretFields s) _ h _ _).
  - intros h1 Ha. wp_call; [exact Ha|]. intros x. split; [by apply suffix_cons_r|]. by intros [? _]%answered_cons.
  - intros data. unfold validateSecretFields. cbn.
    repeat case_bool_decide; cbn; (split; [try done; intros _ k|intros Hk]);
      rewrite ?elem_of_cons, ?elem_of_nil; try naive_solver;
      exfalso; naive_solver set_solver.
Qed.

Lemma validateCAConfigMap_wp σ c ws h :
  pwp (validateCAConfigMap c ws) tt h (fun h' _ v => h `suffix_of` h' /\ (answered σ h' ->
    judged (may_get σ "configmaps" (ca_ref c) /\ has_keys (sn_config_map σ (ca_ref c)) [apc_Key c]) v)).
Proof.
  refine (reference_wp σ _ (core_attributes "configmaps" (ca_ref c)) "ConfigMap" (ca_ref c) ws
    (call (WGetConfigMapDirect (ca_ref c))) _
    (fun data => if bool_decide (is_Some (data !! apc_Key c)) then [] else _) _ h _ _).
  - intros h1 Ha. wp_call; [exact Ha|]. intros x. split; [by apply suffix_cons_r|]. by intros [? _]%answered_cons.
  - intros data. case_bool_decide; cbn; split; try done; setoid_rewrite list_elem_of_singleton; naive_solver.
Qed.

Lemma check_ref_wp {R} σ (ref : option R) check (P : R -> Prop) ws h :
  (forall r ws h, pwp (check r ws) tt h (fun h' _ c => h `suffix_of` h' /\ (answered σ h' -> judged (P r) c))) ->
  pwp (check_ref ref check ws) tt h (fun h' _ c => h `suffix_of` h' /\ (answered σ h' ->
    judged (forall r, ref = Some r -> P r) c)).
Proof.
  intros Hc. destruct ref as [r|]; cbn.
  - eapply wpm_mono; [apply Hc|]. intros h' [] c [S Hj]. split; [done|]. intros Ha. specialize (Hj Ha).
    unfold judged in *. destruct c.2; naive_solver.
  - wp_step. split; [done|]. intros _. unfold judged. cbn. naive_solver.
Qed.

(** ** The entry points *)

Section Admission.
Context `{AD : AdmissionLib}.

Lemma validate_wp σ p ws h :
  pwp (validate p ws) tt h (fun h' _ v => answered σ h' -> (v.2 = None <-> profile_accepted σ p)).
Proof.
  unfold validate, profile_accepted. destruct (ValidateSpec p) as [e|] eqn:Hv.
  { wp_step. intros _. cbn. rewrite <-ValidateSpec_spec, Hv. naive_solver. }
  apply ValidateSpec_spec in Hv. destruct (ap_Deleting p); [wp_step; intros _; cbn; naive_solver|].
  wp_step. eapply wpm_mono; [apply (check_ref_wp σ); intros; apply validateSecretRef_wp|].
  intros h1 [] [ws1 [errs|e]] [S1 H1].
  2:{ wp_step. intros Ha. specialize (H1 Ha). unfold judged in H1. cbn in *. unfold references_ok. naive_solver. }
  wp_step. eapply wpm_mono; [apply (check_ref_wp σ); intros; apply validateCAConfigMap_wp|].
  intros h2 [] [ws2 [errs'|e]] [S2 H2]; wp_step; intros Ha; specialize (H2 Ha);
    specialize (H1 (answered_suffix _ _ _ S2 Ha)); unfold judged, references_ok, ca_of in *; cbn in *.
  - rewrite invalid_unless_empty_spec, app_nil. naive_solver.
  - naive_solver.
Qed.

Lemma require_wp σ ns name path errs h :
  let present := name ≠ "" -> is_ok (sn_secret σ (NN ns name)) = true in
  pwp (AuthHook.require ns name path errs) tt h (fun h' _ r => h `suffix_of` h' /\ (answered σ h' ->
    match r with Ok errs' => errs' = [] <-> errs = [] /\ present | Err _ => ~ present end)).
Proof.
  cbv zeta. unfold AuthHook.require, AuthHook.requireSecret. case_bool_decide as Hn.
  { wp_step. split; [done|]. intros _. naive_solver. }
  do 2 wp_step. wp_call; [done|]. intros [d|e]; wp_step; cbn.
  - wp_step. split; [by apply suffix_cons_r|]. intros [Hs _]%answered_cons. cbn in Hs. rewrite <-Hs. cbn. naive_solver.
  - destruct (is_not_found e); wp_step; (split; [by apply suffix_cons_r|]);
      intros [Hs _]%answered_cons; cbn in Hs; rewrite <-Hs; cbn; [|naive_solver].
    rewrite app_nil. naive_solver.
Qed.

Lemma server_validate_wp σ a h :
  pwp (AuthHook.validate a) tt h (fun h' _ err => answered σ h' -> (err = None <-> server_accepted σ a)).
Proof.
  assert (forall ref n, default "" ref = n ->
    ((n ≠ "" -> is_ok (sn_secret σ (NN (nn_namespace (au_Name a)) n)) = true) <->
     (forall m, ref = Some m -> m ≠ "" -> is_ok (sn_secret σ (NN (nn_namespace (au_Name a)) m)) = true))) as Href.
  { intros [m|] n <-; cbn; naive_solver. }
  unfold AuthHook.validate, AuthHook.secretRefName, server_accepted. cbv zeta.
  wp_step. eapply wpm_mono; [apply (require_wp σ)|]. intros h1 [] [e1|e] [S1 H1]; rewrite Href in H1 by done.
  2:{ wp_step. naive_solver. }
  wp_step. eapply wpm_mono; [apply (require_wp σ)|]. intros h2 [] [e2|e] [S2 H2]; rewrite Href in H2 by done.
  2:{ wp_step. naive_solver. }
  wp_step. destruct (bool_decide (default "" (au_RSAPassphraseSecret (au_Spec a)) ≠ "") &&
                     bool_decide (default "" (au_HMACSecret (au_Spec a)) ≠ "")) eqn:Hb.
  - wp_step. reflect_bools. wp_step. intros Ha. rewrite invalid_unless_empty_spec, app_nil. naive_solver.
  - eapply wpm_mono; [apply (require_wp σ)|]. intros h3 [] [e3|e] [S3 H3]; rewrite Href in H3 by done;
      wp_step; intros Ha; specialize (H3 Ha); pose proof (answered_suffix _ _ _ S3 Ha) as Ha2;
      specialize (H2 Ha2); specialize (H1 (answered_suffix _ _ _ S2 Ha2)).
    + rewrite invalid_unless_empty_spec. apply andb_false_iff in Hb. rewrite !bool_decide_eq_false in Hb.
      assert (default "" (au_HMACSecret (au_Spec a)) = "" \/ default "" (au_RSAPassphraseSecret (au_Spec a)) = "")
        as Hkeys by (destruct Hb as [Hb|Hb]; apply dec_stable in Hb; auto).
      naive_solver.
    + naive_solver.
Qed.

(** An execution that was answered by a snapshot returns what [wp] says of it. *)
Lemma answered_exec σ {A} (m : W A) (P : A -> Prop) t o :
  pwp m tt [] (fun h' _ a => answered σ h' -> P a) -> exec (m tt) t o -> answered σ t ->
  exists a, o = Some (tt, a) /\ P a.
Proof.
  intros Hwp Hex Ha. destruct (wp_adequate _ _ _ _ _ _ _ Hwp Hex) as [Ho _]. destruct o as [[[] a]|]; [|done].
  exists a. split; [done|]. apply Ho. rewrite app_nil_r. by apply answered_rev.
Qed.

(** C37. The webhooks implement their specification: in every state of the cluster, an auth
    profile is accepted exactly when it names a plain http(s) service URL, one login method,
    absolute paths below the service, and, unless it is being deleted, a secret and a CA that
    the submitting user may read and that have the named keys as far as the operator may tell;
    an auth server exactly when the secrets it names exist and at most one signing key is
    named. They always answer, and read no secret or config map for a user who may not. *)
Theorem auth_admission_refines σ late :
  (forall previous p t o, exec (ValidateCreate late p tt) t o \/ exec (ValidateUpdate late previous p tt) t o ->
     answered σ t -> exists ws err, o = Some (tt, (ws, err)) /\ (err = None <-> profile_accepted σ p)) /\
  (forall prev a t o, exec (AuthHook.ValidateCreate a tt) t o \/ exec (AuthHook.ValidateUpdate prev a tt) t o ->
     answered σ t -> exists err, o = Some (tt, ([], err)) /\ (err = None <-> server_accepted σ a)) /\
  (forall previous p, guarded no_probe (ValidateCreate late p tt) /\ guarded no_probe (ValidateUpdate late previous p tt)).
Proof.
  assert (forall p ws h, pwp (v ← validate p ws; mret (if late then v.1 else ws, v.2)) tt h
    (fun h' _ v => answered σ h' -> (v.2 = None <-> profile_accepted σ p))) as Hp.
  { intros p ws h. wp_step. eapply wpm_mono; [apply validate_wp|]. intros h' [] v Hv. by wp_step. }
  assert (forall a h, pwp (e ← AuthHook.validate a; mret (([] : list string), e)) tt h
    (fun h' _ v => answered σ h' -> v.1 = [] /\ (v.2 = None <-> server_accepted σ a))) as Ha.
  { intros a h. wp_step. eapply wpm_mono; [apply server_validate_wp|]. intros h' [] v Hv. wp_step. intros Hans. split; [done|by apply Hv]. }
  assert (forall {A} (m : W A) Q, pwp m tt [] Q -> guarded no_probe (m tt)) as Hg.
  { intros A m Q Hm. eapply guarded_wp. eapply wp_mono; [| | |exact Hm]; done. }
  split_and!.
  - intros previous p t o [Hex|Hex] Hans; (eapply answered_exec in Hex; [|apply Hp|exact Hans]);
      destruct Hex as ([ws err] & -> & Hv); eauto.
  - intros prev a t o [Hex|Hex] Hans; (eapply answered_exec in Hex; [|apply Ha|exact Hans]);
      destruct Hex as ([ws err] & -> & Hw & Hv); cbn in Hw; subst; eauto.
  - intros previous p. split; eapply Hg, Hp.
Qed.
End Admission.
