(* ===== verification/OpInfo.v ===== *)
(** * The operator's own environment

    [internal/opinfo/opinfo.go]: the DNS domain of the cluster, from an environment variable or
    the resolver configuration, and the service account the operator runs as. *)

From S2P Require Import Prelude Effects CmnResources Certificates.

(** ** Strings *)

(** [strings.Fields] on ASCII text: the maximal runs without white space. *)
Fixpoint split_space (s : string) : list string :=
  match s with
  | EmptyString => [""]
  | String d s' =>
      if Ascii.is_space d then "" :: split_space s'
      else match split_space s' with
           | x :: l => String d x :: l
           | [] => [String d EmptyString]
           end
  end.
Definition fields (s : string) : list string := filter (fun w => w ≠ "") (split_space s).

(** [strings.CutPrefix]: what follows the prefix, if it is there. *)
Definition cut_prefix (s p : string) : option string :=
  if has_prefix s p then Some (String.substring (String.length p) (String.length s - String.length p) s) else None.

(** [strings.Cut] at a character: the texts around its first occurrence. *)
Fixpoint cut (s : string) (c : ascii) : option (string * string) :=
  match s with
  | EmptyString => None
  | String d s' =>
      if Ascii.eqb d c then Some ("", s')
      else match cut s' c with Some (a, b) => Some (String d a, b) | None => None end
  end.

Definition newline : ascii := Ascii.ascii_of_nat 10.
Definition carriage_return : ascii := Ascii.ascii_of_nat 13.

(** The lines of a [bufio.Scanner]: the text after the last line end counts unless empty. *)
Fixpoint drop_last_empty (l : list string) : list string :=
  match l with
  | [] => []
  | [x] => if bool_decide (x = "") then [] else [x]
  | x :: l' => x :: drop_last_empty l'
  end.
Definition raw_lines (s : string) : list string := drop_last_empty (split_on newline s).
Definition drop_cr (line : string) : string := trim_suffix line (String carriage_return EmptyString).

(** [bufio.MaxScanTokenSize]; a line that fills the buffer ends the scan with an error. *)
Definition MaxScanTokenSize : Z := 65536.
Definition ErrTooLong : error := errorf "bufio.Scanner: token too long".

(** ** Resolver configuration *)

Definition serviceSearchPrefix : string := "svc.".

Fixpoint domainFromSearchList (entries : list string) : string :=
  match entries with
  | [] => ""
  | entry :: entries' =>
      match cut_prefix (trim_suffix entry ".") serviceSearchPrefix with
      | Some domain => if bool_decide (domain ≠ "") then domain else domainFromSearchList entries'
      | None => domainFromSearchList entries'
      end
  end.

(** The lines scanned in order; [read_error] is what ended the reading, if not the end of file. *)
Fixpoint scan_search_lines (lines : list string) (read_error : option error) : res string :=
  match lines with
  | [] => match read_error with Some e => Err e | None => Ok "" end
  | line :: lines' =>
      if MaxScanTokenSize <=? Z.of_nat (String.length line) then Err ErrTooLong
      else
        match fields (drop_cr line) with
        | keyword :: entries =>
            if bool_decide (entries ≠ []) && bool_decide (keyword = "search") then
              let domain := domainFromSearchList entries in
              if bool_decide (domain ≠ "") then Ok domain else scan_search_lines lines' read_error
            else scan_search_lines lines' read_error
        | [] => scan_search_lines lines' read_error
        end
  end.

Definition domainFromResolvConf (content : string) (read_error : option error) : res string :=
  scan_search_lines (raw_lines content) read_error.

(** ** Service account *)

Definition serviceAccountUsernamePrefix : string := "system:serviceaccount:".

(** The account a reviewed user name denotes. *)
Definition service_account_of (username : string) : res nsname :=
  match cut_prefix username serviceAccountUsernamePrefix with
  | None => Err (errorf ("identity " +:+ quoted username +:+ " is not a ServiceAccount"))
  | Some sa =>
      let bad := Err (errorf ("cannot determine a ServiceAccount from identity " +:+ quoted username)) in
      match cut sa ":"%char with
      | None => bad
      | Some (namespace, name) =>
          if bool_decide (namespace = "") || bool_decide (name = "") then bad else Ok (NN namespace name)
      end
  end.

(** ** Start-up *)

(** [OReview] is one review of the operator's own identity, answered by its user name. *)
Inductive oreq :=
| OGetenv (name : string)
| OReadFile (path : string)
| OReview.
Definition oanswer (r : oreq) : Type :=
  match r with
  | OGetenv _ => string
  | OReadFile _ => res (string * option error)
  | OReview => res string
  end.

(** The package variables. *)
Record OperatorInfo := MkInfo { clusterDomain : string; serviceAccount : nsname }.
Definition defaultClusterDomain : string := "cluster.local".
Definition initial_info : OperatorInfo := MkInfo defaultClusterDomain (NN "" "").

Abbreviation OM := (@M oreq oanswer OperatorInfo).

(** [validation.IsDNS1123Subdomain], and the context errors of [errors.Is]. *)
Class OpInfoLib := {
  IsDNS1123Subdomain : string -> list string;
  is_context_error : error -> bool;
}.

Section OpInfo.
Context `{OL : OpInfoLib}.

Definition clusterDomainEnv : string := "KUBERNETES_CLUSTER_DOMAIN".
Definition resolvConfPath : string := "/etc/resolv.conf".

Definition retriableReviewError (e : error) : bool :=
  if is_context_error e then false
  else if is_no_match e then false
  else negb (bool_decide (err_kind e ∈ [EkUnauthorized; EkForbidden; EkNotFound])).

(** [retry.OnError] with [n] more steps than one: an error that may pass is answered by another
    try, the last one is returned. *)
Fixpoint review_with_retries (n : nat) : OM (res string) :=
  let? username := call OReview
    else e => match n with
              | O => mret (Err e)
              | S n' => if retriableReviewError e then review_with_retries n' else mret (Err e)
              end in
  mret (Ok username).

(** [Steps: 4]. *)
Definition review_retries : nat := 3.

Definition selfServiceAccountName : OM (res nsname) :=
  let? username := review_with_retries review_retries
    else e => mret (Err (wrap "failed to review the operator's own identity" e)) in
  mret (service_account_of username).

Definition validDomain (domain : string) : res string :=
  let errs := IsDNS1123Subdomain domain in
  if bool_decide (errs ≠ [])
  then Err (errorf ("cluster domain " +:+ quoted domain +:+ " is invalid: " +:+ join "; " errs))
  else Ok domain.

Definition discoverClusterDomain (resolver : string) : OM (res string) :=
  let? file := call (OReadFile resolver) else e => mret (Err e) in
  mret (domainFromResolvConf file.1 file.2).

Definition resolveClusterDomain : OM (res string) :=
  env ← call (OGetenv clusterDomainEnv);
  let configured := trim_suffix (trim_space env) "." in
  if bool_decide (configured ≠ "") then mret (validDomain configured)
  else
    let? discovered := discoverClusterDomain resolvConfPath
      else e => mret (Err (wrap ("failed to resolve cluster domain from " +:+ resolvConfPath) e)) in
    mret (if bool_decide (discovered = "")
          then Err (errorf ("found no svc. entry in the " +:+ resolvConfPath +:+ " search list. Set " +:+
                            clusterDomainEnv +:+ " to the cluster's DNS domain"))
          else validDomain discovered).

Definition Resolve : OM (res unit) :=
  let? resolvedDomain := resolveClusterDomain else e => mret (Err e) in
  modify (fun i => MkInfo resolvedDomain (serviceAccount i)) ≫= fun _ =>
  let? sa := selfServiceAccountName else e => mret (Err e) in
  modify (fun i => MkInfo (clusterDomain i) sa) ≫= fun _ =>
  mret (Ok tt).

End OpInfo.

(** ** Texts and their parts *)

(** Every character satisfies [p]. *)
Fixpoint all_chars (p : ascii -> bool) (s : string) : bool :=
  match s with EmptyString => true | String a s' => p a && all_chars p s' end.

Abbreviation no_space := (all_chars (fun a => negb (Ascii.is_space a))).
Abbreviation without c := (all_chars (fun a => negb (Ascii.eqb a c))).

Lemma split_on_nil c s : split_on c s ≠ [].
Proof. destruct s as [|a s]; cbn; [done|]. destruct (Ascii.eqb a c); [done|]. by destruct (split_on c s). Qed.

Lemma split_on_sep c s rest :
  without c s = true -> split_on c (s +:+ String c rest) = s :: split_on c rest.
Proof.
  induction s as [|a s IH]; intros H.
  { change ("" +:+ String c rest) with (String c rest). cbn [split_on]. by rewrite Ascii.eqb_refl. }
  rewrite string_app_cons. cbn [split_on all_chars] in *. reflect_bools. by rewrite H, IH.
Qed.

Lemma split_space_sep s c rest :
  no_space s = true -> Ascii.is_space c = true -> split_space (s +:+ String c rest) = s :: split_space rest.
Proof.
  intros H Hc. induction s as [|a s IH].
  { change ("" +:+ String c rest) with (String c rest). cbn [split_space]. by rewrite Hc. }
  rewrite string_app_cons. cbn [split_space all_chars] in *. reflect_bools. by rewrite H, IH.
Qed.

Lemma split_space_word s : no_space s = true -> split_space s = [s].
Proof. induction s as [|a s IH]; intros H; [done|]. cbn [split_space all_chars] in *. reflect_bools. by rewrite H, IH. Qed.

Lemma split_space_end s c : Ascii.is_space c = true -> split_space (s +:+ String c "") = split_space s ++ [""].
Proof.
  intros Hc. induction s as [|a s IH].
  { change ("" +:+ String c "") with (String c ""). cbn [split_space]. by rewrite Hc. }
  rewrite string_app_cons. cbn [split_space]. destruct (Ascii.is_space a); rewrite IH; [done|].
  by destruct (split_space s) as [|x l] eqn:Hs; [destruct s as [|b s']; cbn in Hs; repeat case_match|].
Qed.

(** The fields of words joined by blanks. *)
Lemma fields_join ws :
  Forall (fun w => w ≠ "" /\ no_space w = true) ws -> fields (join " " ws) = ws.
Proof.
  unfold fields. induction ws as [|w ws IH]; intros Hall; [done|].
  apply Forall_cons in Hall as [[Hne Hw] Hall]. destruct ws as [|w' ws].
  - cbn [join]. rewrite split_space_word by done. by rewrite filter_cons_True.
  - change (join " " (w :: w' :: ws)) with (w +:+ String " " (join " " (w' :: ws))).
    rewrite split_space_sep by done. rewrite filter_cons_True by done. f_equal. by apply IH.
Qed.

Lemma fields_drop_cr s : fields (drop_cr s) = fields s.
Proof.
  unfold drop_cr. destruct (has_suffix s (String carriage_return EmptyString)) eqn:Hs.
  - apply has_suffix_inv in Hs. rewrite Hs at 2. unfold fields. rewrite split_space_end by done.
    by rewrite filter_app, app_nil_r.
  - unfold trim_suffix. by rewrite Hs.
Qed.

(** A text made of lines. *)
Definition text_of (lines : list string) : string :=
  foldr (fun l s => l +:+ String newline s) "" lines.

Lemma raw_lines_text lines : Forall (fun l => without newline l = true) lines -> raw_lines (text_of lines) = lines.
Proof.
  intros Hall. unfold raw_lines. assert (split_on newline (text_of lines) = lines ++ [""]) as ->.
  { induction Hall as [|l lines Hl _ IH]; [done|]. cbn [text_of foldr].
    rewrite split_on_sep by done. cbn [app]. f_equal. exact IH. }
  clear Hall. induction lines as [|l lines IH]; [done|]. cbn [app drop_last_empty].
  destruct (lines ++ [""]) eqn:He; [by destruct lines|]. by rewrite IH.
Qed.

Lemma cut_prefix_app p s : cut_prefix (p +:+ s) p = Some s.
Proof.
  unfold cut_prefix. assert (has_prefix (p +:+ s) p = true) as ->.
  { unfold has_prefix. induction p as [|a p IH]; [by destruct s|]. rewrite string_app_cons. cbn.
    by destruct (Ascii.ascii_dec a a). }
  rewrite string_length_app. replace (String.length p + String.length s - String.length p)%nat
    with (String.length s) by lia.
  by rewrite substring_app_r, substring_all.
Qed.

Lemma cut_prefix_inv s p r : cut_prefix s p = Some r -> s = p +:+ r.
Proof.
  unfold cut_prefix, has_prefix. destruct (String.prefix p s) eqn:Hp; [|done]. intros [= <-].
  revert s Hp. induction p as [|a p IH]; intros s Hp.
  - cbn [String.length]. by rewrite Nat.sub_0_r, substring_all.
  - destruct s as [|b s]; [done|]. cbn in Hp. destruct (Ascii.ascii_dec a b) as [<-|]; [|done].
    rewrite string_app_cons. cbn. f_equal. by apply IH.
Qed.

Lemma cut_app c a b : without c a = true -> cut (a +:+ String c b) c = Some (a, b).
Proof.
  induction a as [|x a IH]; intros H.
  { change ("" +:+ String c b) with (String c b). cbn [cut]. by rewrite Ascii.eqb_refl. }
  rewrite string_app_cons. cbn [cut all_chars] in *. reflect_bools. by rewrite H, IH.
Qed.

Lemma cut_inv c s a b : cut s c = Some (a, b) -> s = a +:+ String c b /\ without c a = true.
Proof.
  revert a. induction s as [|x s IH]; intros a H; [done|]. cbn [cut] in H.
  destruct (Ascii.eqb x c) eqn:Hx; [injection H as <- <-; apply Ascii.eqb_eq in Hx; by subst|].
  destruct (cut s c) as [[a' b']|]; [|done]. injection H as <- <-.
  destruct (IH a' eq_refl) as [-> Ha]. cbn [all_chars]. by rewrite Hx, Ha.
Qed.

(** ** The search line kubelet writes *)

(** A namespace is a DNS label; a domain is not empty and has no blanks and no final dot. *)
Definition is_label (ns : string) : Prop := no_space ns = true /\ without "."%char ns = true.
Definition is_domain (d : string) : Prop := d ≠ "" /\ no_space d = true /\ has_suffix d "." = false.

Definition search_line (ns d : string) : string :=
  join " " ["search"; ns +:+ ".svc." +:+ d; "svc." +:+ d; d].

(** A line that fits the buffer and is not a search line. *)
Definition other_line (l : string) : Prop :=
  Z.of_nat (String.length l) < MaxScanTokenSize /\ head (fields l) ≠ Some "search".

Lemma has_suffix_tail x d p : d ≠ "" -> has_suffix (x +:+ d) (String p "") = has_suffix d (String p "").
Proof.
  intros Hd. destruct (has_suffix d (String p "")) eqn:Hs.
  - apply has_suffix_inv in Hs. rewrite Hs. rewrite <-string_app_assoc. apply has_suffix_app.
  - apply not_true_is_false. intros H%has_suffix_inv. revert H.
    generalize (trim_suffix (x +:+ d) (String p "")). induction x as [|a x IH]; intros t Ht.
    + change ("" +:+ d) with d in Ht. rewrite Ht, has_suffix_app in Hs. done.
    + rewrite string_app_cons in Ht. destruct t as [|b t]; cbn in Ht; injection Ht as _ Ht; [|by apply (IH t)].
      destruct x; [by destruct d | done].
Qed.

Lemma trim_suffix_tail x d p : d ≠ "" -> has_suffix d (String p "") = false ->
  trim_suffix (x +:+ d) (String p "") = x +:+ d.
Proof. intros Hd Hs. unfold trim_suffix. by rewrite has_suffix_tail, Hs. Qed.

(** A label before a dot is a prefix only of itself. *)
Lemma cut_prefix_label a b rest :
  without "."%char a = true -> without "."%char b = true -> a ≠ b ->
  cut_prefix (b +:+ String "." rest) (a +:+ ".") = None.
Proof.
  intros Ha Hb Hne. destruct (cut_prefix _ _) as [r|] eqn:Hc; [|done]. exfalso. apply Hne.
  apply cut_prefix_inv in Hc. rewrite string_app_assoc in Hc. clear Hne.
  change ("." +:+ r) with (String "." r) in Hc.
  apply (f_equal (fun s => cut s "."%char)) in Hc. rewrite !cut_app in Hc by done. by injection Hc.
Qed.

Lemma all_chars_app p a b : all_chars p (a +:+ b) = all_chars p a && all_chars p b.
Proof. induction a as [|x a IH]; [done|]. rewrite string_app_cons. cbn [all_chars]. by rewrite IH, andb_assoc. Qed.

Lemma search_domain ns d :
  is_label ns -> is_domain d ->
  domainFromSearchList [ns +:+ ".svc." +:+ d; "svc." +:+ d; d] = if decide (ns = "svc") then "svc." +:+ d else d.
Proof.
  intros [_ Hns] (Hd & _ & Hdot). cbn [domainFromSearchList]. unfold serviceSearchPrefix.
  assert (".svc." +:+ d ≠ "") as Hne by done.
  assert (has_suffix (".svc." +:+ d) "." = false) as Hsuf by (by rewrite has_suffix_tail).
  rewrite (trim_suffix_tail ns (".svc." +:+ d)) by done. case_decide as Heq.
  - subst ns. change ("svc" +:+ ".svc." +:+ d) with ("svc." +:+ ("svc." +:+ d)). rewrite cut_prefix_app. by rewrite bool_decide_eq_true_2.
  - change (ns +:+ ".svc." +:+ d) with (ns +:+ String "." ("svc." +:+ d)). change "svc." with ("svc" +:+ ".") at 2.
    rewrite cut_prefix_label by done.
    rewrite (trim_suffix_tail "svc." d) by done. rewrite cut_prefix_app. by rewrite bool_decide_eq_true_2.
Qed.

Lemma search_line_fields ns d :
  is_label ns -> is_domain d -> fields (search_line ns d) = ["search"; ns +:+ ".svc." +:+ d; "svc." +:+ d; d].
Proof.
  intros [Hs _] (Hd & Hsp & _). apply fields_join.
  repeat (apply Forall_cons; split; [split|]); try done; [by destruct ns|].
  by rewrite !all_chars_app, Hs, Hsp.
Qed.

Lemma scan_search ns d before after e :
  is_label ns -> is_domain d -> Forall other_line before ->
  Z.of_nat (String.length (search_line ns d)) < MaxScanTokenSize ->
  scan_search_lines (before ++ search_line ns d :: after) e =
  Ok (if decide (ns = "svc") then "svc." +:+ d else d).
Proof.
  intros Hns Hd Hb Hl. induction Hb as [|l before [Hlen Hhd] _ IH]; cbn [app scan_search_lines].
  - rewrite (proj2 (Z.leb_gt _ _) Hl), fields_drop_cr, search_line_fields by done. cbv zeta.
    rewrite search_domain by done. rewrite !(bool_decide_eq_true_2 (_ = _)), bool_decide_eq_true_2 by done.
    cbn [andb]. rewrite bool_decide_eq_true_2; [done|]. case_decide; [done | apply Hd].
  - rewrite (proj2 (Z.leb_gt _ _) Hlen), fields_drop_cr. destruct (fields l) as [|w ws]; [done|].
    rewrite (bool_decide_eq_false_2 (w = "search")) by (by intros ->). by rewrite andb_false_r.
Qed.

(** ** Theorem *)

(** C38. What the cluster writes is read back: from a resolver configuration whose first search
    line is the one kubelet writes for a pod of namespace [ns] in a cluster of domain [d],
    whatever lines surround it, the operator recovers [d], except in a namespace called "svc",
    where it takes the namespace's own domain; and the user names of service accounts are read
    back to their namespace and name, exactly those. *)
Theorem identity_roundtrip ns d before after e :
  is_label ns -> is_domain d -> Forall other_line before ->
  Forall (fun l => without newline l = true) (before ++ search_line ns d :: after) ->
  Z.of_nat (String.length (search_line ns d)) < MaxScanTokenSize ->
  domainFromResolvConf (text_of (before ++ search_line ns d :: after)) e =
    Ok (if decide (ns = "svc") then "svc." +:+ d else d) /\
  forall u sa, service_account_of u = Ok sa <->
    u = "system:serviceaccount:" +:+ nn_namespace sa +:+ ":" +:+ nn_name sa /\
    without ":"%char (nn_namespace sa) = true /\ nn_namespace sa ≠ "" /\ nn_name sa ≠ "".
Proof.
  intros Hns Hd Hb Hnl Hlen. split.
  { unfold domainFromResolvConf. rewrite raw_lines_text by done. by apply scan_search. }
  intros u [n m]. unfold service_account_of. cbn [nn_namespace nn_name]. split.
  - destruct (cut_prefix u _) as [sa|] eqn:Hp; [|done]. apply cut_prefix_inv in Hp as ->. cbv zeta.
    destruct (cut sa ":"%char) as [[a b]|] eqn:Hc; [|done]. apply cut_inv in Hc as [-> Ha].
    repeat case_bool_decide; cbn; try done. intros [= <- <-]. done.
  - intros (-> & Hn & Hn0 & Hm0).
    change "system:serviceaccount:" with serviceAccountUsernamePrefix. rewrite cut_prefix_app. cbv zeta.
    change (":" +:+ m) with (String ":" m). rewrite cut_app by done.
    by rewrite !bool_decide_eq_false_2.
Qed.
