(* ===== verification/RolloutProgress.v ===== *)
(** * Progress of the rollout of the targets

    The closed loop: [handleTargetRollout] repeated against a world that answers truthfully,
    apart from a bounded number of failed requests, and in which a deleted pod comes back
    updated and ready after a bounded number of rounds. The rollout then completes, one target
    at a time, within an explicit number of rounds. *)

From stdpp Require Import relations.
From S2P Require Import Prelude Effects ClosedLoop K8sTypes AISConfig AIStoreTypes ThirdParty AuthConf AIStoreMethods GlobalConfig CmnResources TargetResources Rollout ResourceFacts Requests K8sClient ClusterOps ProxyController TargetController Executions TargetRollout.

(** ** Worlds *)

(** A target as the rollout finds it: on the old revision, out of or in maintenance; replaced
    and coming back for some more rounds; or updated and ready. *)
Inductive target := Waiting (drained : bool) | Down (rounds : nat) | Updated.

Record world := MkWorld { targets : list target; faults : nat }.

(** One round later. *)
Definition tick_target (t : target) : target :=
  match t with Down (S d) => Down d | Down O => Updated | _ => t end.
Definition tick (w : world) : world := MkWorld (tick_target <$> targets w) (faults w).

Definition all_updated (w : world) : Prop := Forall (fun t => t = Updated) (targets w).

(** The targets are updated in order: those before some ordinal are updated and ready, those
    after it are untouched. At most one target is down. *)
Definition staged (ts : list target) : Prop :=
  exists k, forall j t, ts !! j = Some t ->
    (j < k)%nat /\ t = Updated \/ j = k \/ (k < j)%nat /\ exists b, t = Waiting b.

(** How far a target is from done, when a pod takes at most [D] rounds to come back. *)
Definition weight (D : nat) (t : target) : nat :=
  match t with Updated => 0 | Down d => S d | Waiting true => D + 2 | Waiting false => D + 3 end.
Definition distance (D : nat) (w : world) : nat := sum_list_with (weight D) (targets w) + faults w.

(** Replacing one target. *)
Definition drain (i : string) (id : nat -> string) : list target -> list target :=
  imap (fun j t => match t with Waiting _ => if bool_decide (id j = i) then Waiting true else t | _ => t end).
Definition replace (ais : AIStore) (name : nsname) (d : nat) : list target -> list target :=
  imap (fun j t => if bool_decide (name = in_ns ais (Target.PodName ais (Z.of_nat j))) then Down d else t).

Section Loop.
Context `{T : ThirdParty} (ais : AIStore) (n : nat) (rev_ : string) (D : nat) (id : nat -> string).
Hypothesis revision_named : rev_ ≠ "".

(** What a truthful listing of the target pods shows. *)
Definition shows_target (m : gmap string Pod) (j : nat) (t : target) : Prop :=
  let name := Target.PodName ais (Z.of_nat j) in
  match t with
  | Updated => pod_on_revision m ais rev_ (Z.of_nat j) /\ isPodRolloutCompleted (m !! name) = true
  | Down _ => m !! name = None \/ (exists p, m !! name = Some p /\ pod_Deleting p = true) \/
              (pod_on_revision m ais rev_ (Z.of_nat j) /\ isPodRolloutCompleted (m !! name) = false)
  | Waiting _ => pod_stale m ais rev_ (Z.of_nat j)
  end.
Definition listing (ts : list target) (pods : list Pod) : Prop :=
  forall j t, ts !! j = Some t -> shows_target (pod_map pods) j t.

(** What a truthful cluster map shows. *)
Definition mapped (ts : list target) (smap : Smap) : Prop :=
  forall j b, ts !! j = Some (Waiting b) ->
  exists node, findAISNodeByPodName (Tmap smap) (Target.PodName ais (Z.of_nat j)) = Ok node /\
               sn_ID node = id j /\ InMaint smap node = b.

(** A truthful status of the StatefulSet, which may lag behind. *)
Definition sees (w : world) (ss : StatefulSet) : Prop :=
  let st := ss_Status ss in
  sss_Replicas (ss_Spec ss) = Z.of_nat n /\ ssst_UpdateRevision st = rev_ /\
  (ssst_CurrentRevision st = rev_ \/
   Z.of_nat n <= ssst_UpdatedReplicas st /\ Z.of_nat n <= ssst_ReadyReplicas st -> all_updated w).

(** The answer to a request and its effect on the targets. *)
Definition truth (ts : list target) (r : req) : list target -> answer r -> Prop :=
  match r return list target -> answer r -> Prop with
  | KListPods ns sel => fun ts' x => ts' = ts /\ exists pods, x = Ok pods /\
      (ns = nn_namespace (ais_Name ais) -> sel = Target.SelectorLabels ais -> listing ts pods)
  | KGetPod _ => fun ts' x => ts' = ts /\ exists pod, x = Ok pod /\ isPodUnschedulable (Some pod) = false
  | AGetClient _ => fun ts' x => ts' = ts /\ exists c, x = Ok c
  | AGetClusterMap _ => fun ts' x => ts' = ts /\ exists smap, x = Ok smap /\ mapped ts smap
  | AStartMaintenance _ act => fun ts' x => ts' = drain (rm_DaemonID act) id ts /\ exists s, x = Ok s
  | KDelete KPod name => fun ts' x => (exists d, (d <= D)%nat /\ ts' = replace ais name d ts) /\ x = Ok tt
  | _ => fun ts' _ => ts' = ts
  end.

(** An error answer, for the requests a rollout issues. *)
Definition fails (r : req) : answer r -> Prop :=
  match r return answer r -> Prop with
  | KListPods _ _ => fun x => exists e, x = Err e
  | KGetPod _ => fun x => exists e, x = Err e
  | AGetClient _ => fun x => exists e, x = Err e
  | AGetClusterMap _ => fun x => exists e, x = Err e
  | AStartMaintenance _ _ => fun x => exists e, x = Err e
  | KDelete _ _ => fun x => exists e, x = Err e
  | _ => fun _ => True
  end.

(** A request is answered truthfully, or it fails: before it took effect or after. *)
Definition step (w : world) (r : req) (x : answer r) (w' : world) : Prop :=
  faults w' = faults w /\ truth (targets w) r (targets w') x \/
  faults w = S (faults w') /\ fails r x /\
    (targets w' = targets w \/ exists x', truth (targets w) r (targets w') x').

(** A round of the closed loop: a call of the handler on the StatefulSet, and time passes. *)
Definition round (w w' : world) : Prop :=
  exists ss t o w1, sees w ss /\ exec (handleTargetRollout ss ais) t o /\ plays step w t w1 /\ w' = tick w1.

Definition world_ok (w : world) : Prop :=
  length (targets w) = n /\ forall j d, targets w !! j = Some (Down d) -> (d <= D)%nat.

(** What a call of the handler can do. *)
Inductive moved (w w' : world) : Prop :=
| moved_fault : targets w' = targets w -> (faults w' < faults w)%nat -> moved w w'
| moved_idle : w' = w -> all_updated w \/ (exists j d, targets w !! j = Some (Down d)) -> moved w w'
| moved_drain k : targets w !! k = Some (Waiting false) -> (faults w' <= faults w)%nat ->
    targets w' = drain (id k) id (targets w) -> moved w w'
| moved_replace k b d : targets w !! k = Some (Waiting b) ->
    (forall j, (j < k)%nat -> targets w !! j = Some Updated) -> (d <= D)%nat ->
    (faults w' <= faults w)%nat ->
    targets w' = replace ais (in_ns ais (Target.PodName ais (Z.of_nat k))) d (targets w) -> moved w w'.

(** ** What a call does *)

(** The first target that is not updated. *)
Lemma first_pending ts :
  Forall (fun t => t = Updated) ts \/
  exists k t, ts !! k = Some t /\ t ≠ Updated /\ forall j, (j < k)%nat -> ts !! j = Some Updated.
Proof.
  induction ts as [|t ts IH]; [by left|].
  destruct t as [b|d|]; [right; exists 0%nat, (Waiting b); split_and!; [done|done|lia]
                        |right; exists 0%nat, (Down d); split_and!; [done|done|lia]|].
  destruct IH as [?|(k & t & Hk & Ht & Hb)]; [left; by constructor|].
  right. exists (S k), t. split_and!; [done|done|]. intros [|j] Hj; [done|]. apply Hb. lia.
Qed.

(** The pod chosen from a truthful listing. *)
Lemma chosen_target w ss pods :
  world_ok w -> sees w ss -> listing (targets w) pods ->
  (pod_needing_update ais ss pods = "" /\
   (all_updated w \/ exists j d, targets w !! j = Some (Down d))) \/
  exists k b, pod_needing_update ais ss pods = Target.PodName ais (Z.of_nat k) /\
    targets w !! k = Some (Waiting b) /\ forall j, (j < k)%nat -> targets w !! j = Some Updated.
Proof.
  intros [Hlen _] (Hn & Hrev & _) Hl.
  pose proof (pod_needing_update_chosen ais ss pods) as Hk. cbv zeta in Hk. setoid_rewrite Hn in Hk. setoid_rewrite Hrev in Hk.
  destruct (pod_needing_update_ordinal ais ss pods) as [He|(k & He)].
  - left. split; [done|]. destruct (first_pending (targets w)) as [?|(k & t & Hkt & Ht & Hb)]; [by left|].
    destruct t as [b|d|]; [|right; eauto|done].
    exfalso. apply (pod_name_not_empty ais (Z.of_nat k)). rewrite <-He. symmetry. apply Hk.
    split_and!; [|intros j Hj|].
    + apply lookup_lt_Some in Hkt. lia.
    + specialize (Hl (Z.to_nat j) _ (Hb (Z.to_nat j) ltac:(lia))). cbn in Hl. by rewrite Z2Nat.id in Hl by lia.
    + exact (Hl _ _ Hkt).
  - right. exists k. pose proof (proj1 (Hk k) He) as (Hlt & Hb & Hs).
    assert (forall j t, (j < k)%nat -> targets w !! j = Some t -> t = Updated) as Hbelow.
    { intros j t Hj Ht. destruct (Hb (Z.of_nat j)) as [(p & Hp & Hd & Hr) Hc]; [lia|].
      specialize (Hl _ _ Ht). destruct t; cbn in Hl; [| |done].
      - destruct Hl as (q & ? & ? & ?). congruence.
      - destruct Hl as [?|[(q & ? & ?)|[_ ?]]]; congruence. }
    destruct (targets w !! k) as [t|] eqn:Ht; [|apply lookup_ge_None in Ht; lia].
    destruct Hs as (p & Hp & Hd & Hr). specialize (Hl _ _ Ht).
    destruct t as [b|d|]; cbn in Hl.
    + exists b. split_and!; [done..|]. intros j Hj.
      destruct (targets w !! j) eqn:Hj'; [by rewrite (Hbelow _ _ Hj Hj')|].
      apply lookup_ge_None in Hj'. apply lookup_lt_Some in Ht. lia.
    + destruct Hl as [?|[(q & ? & ?)|[(q & ? & ? & ?) _]]]; congruence.
    + destruct Hl as [(q & ? & ? & ?) _]. congruence.
Qed.
(** The requests of a call, one at a time: a read is truthful and changes nothing, or it
    failed. *)
Definition read_result (w : world) {A} (x : res A) (P : A -> Prop) (w' : world) : Prop :=
  match x with
  | Ok a => w' = w /\ P a
  | Err _ => targets w' = targets w /\ (faults w' < faults w)%nat
  end.

Lemma same_world w w' : faults w' = faults w -> targets w' = targets w -> w' = w.
Proof. destruct w, w'; cbn. by intros -> ->. Qed.

Ltac read_step :=
  unfold step, read_result; intros [(Hf & Ht & Hx)|(Hf & [e ->] & [Ht|[x' [Ht _]]])];
  [destruct Hx as (a & -> & Ha); split; [by apply same_world | by auto] | split; [done | lia] ..].

Lemma step_pods w x w' :
  step w (KListPods (nn_namespace (ais_Name ais)) (Target.SelectorLabels ais)) x w' ->
  read_result w x (listing (targets w)) w'.
Proof. read_step. Qed.
Lemma step_pod w name x w' :
  step w (KGetPod name) x w' -> read_result w x (fun p => isPodUnschedulable (Some p) = false) w'.
Proof. read_step. Qed.
Lemma step_client w x w' : step w (AGetClient ais) x w' -> read_result w x (fun _ => True) w'.
Proof.
  unfold step, read_result; intros [(Hf & Ht & Hx)|(Hf & [e ->] & [Ht|[x' [Ht _]]])].
  - destruct Hx as (a & ->). split; [by apply same_world | done].
  - split; [done | lia].
  - split; [done | lia].
Qed.
Lemma step_smap w c x w' : step w (AGetClusterMap c) x w' -> read_result w x (mapped (targets w)) w'.
Proof. read_step. Qed.

(** A change happened, or a failure before it. *)
Lemma step_maintenance w c act x w' :
  step w (AStartMaintenance c act) x w' ->
  (faults w' <= faults w)%nat /\
  (targets w' = drain (rm_DaemonID act) id (targets w) \/ targets w' = targets w /\ (faults w' < faults w)%nat).
Proof.
  unfold step. intros [(Hf & Ht & _)|(Hf & _ & [Ht|[x' [Ht _]]])]; rewrite Ht; split; try lia; auto with lia.
Qed.

Lemma step_delete w name x w' :
  step w (KDelete KPod name) x w' ->
  (faults w' <= faults w)%nat /\
  ((exists d, (d <= D)%nat /\ targets w' = replace ais name d (targets w)) \/
   targets w' = targets w /\ (faults w' < faults w)%nat).
Proof.
  unfold step. intros [(Hf & Ht & _)|(Hf & _ & [Ht|[x' [Ht _]]])]; split; try lia; auto with lia.
Qed.

Ltac plays_inv :=
  repeat match goal with
  | H : step _ (KListPods _ _) _ _ |- _ => apply step_pods in H; unfold read_result in H
  | H : step _ (KGetPod _) _ _ |- _ => apply step_pod in H; unfold read_result in H
  | H : step _ (AGetClient _) _ _ |- _ => apply step_client in H; unfold read_result in H
  | H : step _ (AGetClusterMap _) _ _ |- _ => apply step_smap in H; unfold read_result in H
  | H : step _ (AStartMaintenance _ _) _ _ |- _ => apply step_maintenance in H as [? H]; cbn [rm_DaemonID] in H
  | H : step _ (KDelete KPod _) _ _ |- _ => apply step_delete in H as [? H]; cbn [rm_DaemonID] in H
  | H : ?w' = _ /\ _ |- _ => is_var w'; destruct H as [-> ?]
  | H : targets _ = targets _ /\ _ |- _ => destruct H
  end.

(** A StatefulSet whose rollout looks complete is complete. *)
Lemma sees_complete w ss :
  sees w ss ->
  (bool_decide (ssst_UpdateRevision (ss_Status ss) = "") ||
   bool_decide (ssst_CurrentRevision (ss_Status ss) = ssst_UpdateRevision (ss_Status ss))) = true \/
  ((sss_Replicas (ss_Spec ss) <=? ssst_UpdatedReplicas (ss_Status ss)) &&
   (sss_Replicas (ss_Spec ss) <=? ssst_ReadyReplicas (ss_Status ss))) = true -> moved w w.
Proof.
  intros (Hn & Hrev & Hdone) Hc. apply moved_idle; [done|]. left. apply Hdone.
  rewrite Hrev, Hn in Hc. destruct Hc as [[?|?]%orb_true_iff|?]; reflect_bools; naive_solver.
Qed.

Lemma call_moves w ss :
  world_ok w -> sees w ss ->
  loop_wpm step (handleTargetRollout ss) ais w (fun w' _ _ => moved w w').
Proof.
  intros Hok Hs. unfold handleTargetRollout, findPodNeedingUpdate, ListPods, prepareTargetForRollout,
    DeletePodIfExists, DeleteResourceIfExists.
  do 3 lw_step. { lw_step. apply (sees_complete _ ss); auto. }
  lw_step. { lw_step. apply (sees_complete _ ss); auto. }
  do 4 lw_step. destruct x as [pods|e]; [|repeat lw_step; plays_inv; by apply moved_fault].
  lw_step.
  { lw_step. plays_inv. destruct (chosen_target w ss pods) as [[_ ?]|(k & b & Hc & _)]; [done..| |].
    - by apply moved_idle.
    - reflect_bools. destruct (pod_name_not_empty ais (Z.of_nat k)). congruence. }
  repeat lw_step; try done.
  all: plays_inv; try congruence.
  all: try (by apply moved_fault; [done | lia]).
  all: destruct (chosen_target w ss pods) as [[Hc _]|(k & b & Hc & Hk & Hb)]; [done..| |];
    rewrite Hc in *; [done|].
  all: match goal with H : mapped _ _ |- _ => destruct (H k b Hk) as (node & Hn & Hid & Hm) end.
  all: try congruence.
  all: match goal with H : findAISNodeByPodName _ _ = Ok ?a |- _ => is_var a; rewrite Hn in H; injection H as <- end.
  all: rewrite ?Hid in *; reflect_bools; match goal with H : _ \/ _ |- _ => destruct H as [H|[? ?]] end;
    [|by apply moved_fault].
  1-2: by apply (moved_drain _ _ k); [congruence|..].
  all: match goal with H : exists _, _ |- _ => destruct H as (d & Hd & Ht) end; by apply (moved_replace _ _ k b d).
Qed.

(** ** What a round changes *)

Lemma replace_lookup k d ts j :
  replace ais (in_ns ais (Target.PodName ais (Z.of_nat k))) d ts !! j =
  (fun t => if decide (j = k) then Down d else t) <$> ts !! j.
Proof.
  unfold replace. rewrite list_lookup_imap. destruct (ts !! j) as [t|]; [|done]. cbn. f_equal.
  unfold in_ns. case_bool_decide as Hn; destruct (decide (j = k)) as [->|Hj]; try done.
  injection Hn as Hn%pod_name_inj. lia.
Qed.

Lemma drain_lookup i ts j :
  drain i id ts !! j =
  (fun t => match t with Waiting _ => if bool_decide (id j = i) then Waiting true else t | _ => t end) <$> ts !! j.
Proof. unfold drain. by rewrite list_lookup_imap. Qed.

Lemma moved_staged w w' : moved w w' -> staged (targets w) -> staged (targets (tick w')).
Proof.
  intros Hm Hs.
  assert (staged (targets w')) as (k & Hk).
  { destruct Hm as [-> _ | -> _ |k0 _ _ ->|k0 b d Hk0 Hb _ _ ->]; [done..| |]; destruct Hs as (k & Hk).
    - exists k. intros j t. rewrite drain_lookup. destruct (targets w !! j) as [t0|] eqn:Ht; [|done].
      intros [= <-]. destruct (Hk j t0 Ht) as [[? ->]|[?|(? & b & ->)]]; [by auto..|].
      right. right. split; [done|]. case_bool_decide; eauto.
    - exists k0. intros j t. rewrite replace_lookup. destruct (targets w !! j) as [t0|] eqn:Ht; [|done].
      intros [= <-]. destruct (decide (j = k0)); [by auto|]. destruct (decide (j < k0)%nat) as [Hj|].
      + left. split; [done|]. specialize (Hb j Hj). congruence.
      + right. right. split; [lia|]. destruct (Hk _ _ Hk0) as [[? ?]|[?|[? ?]]]; [done|..];
          destruct (Hk _ _ Ht) as [[? ?]|[?|[? ?]]]; try lia; done. }
  exists k. intros j t. cbn. rewrite list_lookup_fmap. destruct (targets w' !! j) as [t0|] eqn:Ht; [|done].
  intros [= <-]. destruct (Hk j t0 Ht) as [[? ->]|[?|(? & b & ->)]]; eauto 6.
Qed.

Lemma moved_ok w w' : world_ok w -> moved w w' -> world_ok (tick w').
Proof.
  intros [Hlen Hd] Hm.
  assert (world_ok w') as [Hlen' Hd'].
  { destruct Hm as [Ht _ | -> _ |k0 _ _ Ht|k0 b d Hk0 _ Hd0 _ Ht]; [|done|..].
    - unfold world_ok. by rewrite Ht.
    - split; [rewrite Ht; unfold drain; by rewrite length_imap|]. intros j d.
      rewrite Ht, drain_lookup. destruct (targets w !! j) as [[]|] eqn:Hj; cbn; [|naive_solver..].
      by case_bool_decide.
    - split; [rewrite Ht; unfold replace; by rewrite length_imap|]. intros j d'.
      rewrite Ht, replace_lookup. destruct (targets w !! j) as [t|] eqn:Hj; cbn; [|done].
      destruct (decide (j = k0)); [by intros [= ->]|]. intros [= ->]. by eapply Hd. }
  split; [cbn; by rewrite length_fmap|]. intros j d. cbn. rewrite list_lookup_fmap.
  destruct (targets w' !! j) as [[|[]|]|] eqn:Hj; cbn; try done.
  intros [= <-]. specialize (Hd' _ _ Hj). lia.
Qed.

Lemma updated_tick w : all_updated w -> all_updated (tick w).
Proof. unfold all_updated. cbn. rewrite Forall_fmap. intros H. apply (Forall_impl _ _ _ H). by intros ? ->. Qed.

Lemma not_updated w k t : all_updated w -> targets w !! k = Some t -> t = Updated.
Proof. intros Hu Hk. exact (Forall_lookup_1 _ _ _ _ Hu Hk). Qed.

Lemma moved_updated w w' : moved w w' -> all_updated w -> all_updated (tick w').
Proof.
  intros Hm Hu. apply updated_tick. destruct Hm as [Ht _ | -> _ |k0 Hk _ _|k0 b d Hk _ _ _ _];
    [|done|by apply (not_updated _ _ _ Hu) in Hk..].
  unfold all_updated. by rewrite Ht.
Qed.
Lemma tick_weight t : (weight D (tick_target t) <= weight D t)%nat.
Proof. destruct t as [[]|[]|]; cbn; lia. Qed.

Lemma tick_distance w : (distance D (tick w) <= distance D w)%nat.
Proof.
  unfold distance. cbn. rewrite fmap_is_imap.
  pose proof (sum_imap_le (weight D) (fun _ => tick_target) (targets w)
    (fun _ t _ => tick_weight t)). lia.
Qed.

(** A round that does not find the rollout complete brings it closer to its end. *)
Lemma moved_closer w w' :
  moved w w' -> all_updated w \/ (distance D (tick w') < distance D w)%nat.
Proof.
  intros Hm. destruct Hm as [Ht Hf | -> [?|(j & d & Hj)]|k Hk Hf Ht|k b d Hk _ Hd Hf Ht]; [| by left | | |];
    right.
  - eapply Nat.le_lt_trans; [apply tick_distance|]. unfold distance. rewrite Ht. lia.
  - unfold distance. cbn. rewrite fmap_is_imap.
    assert (weight D (tick_target (Down d)) < weight D (Down d))%nat as Hlt by (destruct d; cbn; lia).
    pose proof (sum_imap_lt (weight D) (fun _ => tick_target) (targets w) j (Down d)
      (fun _ t _ => tick_weight t) Hj Hlt). lia.
  - eapply Nat.le_lt_trans; [apply tick_distance|]. unfold distance. rewrite Ht. unfold drain.
    assert (sum_list_with (weight D) (drain (id k) id (targets w)) < sum_list_with (weight D) (targets w))%nat;
      [|unfold drain in *; lia].
    eapply sum_imap_lt; [|exact Hk|].
    + intros i [[]|?|] _; cbn; try case_bool_decide; cbn; lia.
    + cbn. rewrite bool_decide_eq_true_2 by done. cbn. lia.
  - eapply Nat.le_lt_trans; [apply tick_distance|]. unfold distance. rewrite Ht.
    assert (weight D (Down d) < weight D (Waiting b))%nat as Hlt by (destruct b; cbn; lia).
    assert (sum_list_with (weight D) (replace ais (in_ns ais (Target.PodName ais (Z.of_nat k))) d (targets w))
            < sum_list_with (weight D) (targets w))%nat; [|lia].
    eapply sum_imap_lt; [|exact Hk|]; cbv beta.
    + intros j t Hj. case_bool_decide as Hn; [|done]. injection Hn as Hn%pod_name_inj.
      assert (j = k) as -> by lia. rewrite Hk in Hj. injection Hj as <-. lia.
    + by rewrite bool_decide_eq_true_2.
Qed.

Lemma distance_bound w : world_ok w -> (distance D w <= n * (D + 3) + faults w)%nat.
Proof.
  intros [<- Hd]. unfold distance.
  pose proof (sum_bound (weight D) (D + 3) (targets w)) as Hb. apply Nat.add_le_mono_r, Hb.
  intros j [[]|d|] Hj; cbn; try lia. specialize (Hd _ _ Hj). lia.
Qed.

(** ** Rounds *)

Lemma round_moved w w' : world_ok w -> round w w' -> exists w1, moved w w1 /\ w' = tick w1.
Proof.
  intros Hok (ss & t & o & w1 & Hs & Hex & Hp & ->). exists w1. split; [|done].
  by destruct (loop_adequate _ _ _ _ _ _ _ (call_moves w ss Hok Hs) Hex Hp) as (a & _ & ?).
Qed.

#[export] Instance rollout_measured : Measured round world_ok all_updated (distance D).
Proof.
  split.
  - intros w w' Hok (w1 & Hm & ->)%round_moved; [by apply (moved_ok w) | done].
  - intros w w' Hok (w1 & Hm & ->)%round_moved; [by apply (moved_updated w) | done].
  - intros w w' Hok (w1 & Hm & ->)%round_moved; [by apply moved_closer | done].
  - intros w Hok Hd. apply Forall_forall. intros t Ht. apply (sum_list_with_in _ (weight D)) in Ht.
    unfold distance in Hd. destruct t as [[]|?|]; cbn in Ht; [lia..|done].
Qed.

Lemma rounds_staged N w w' :
  world_ok w -> nsteps round N w w' -> staged (targets w) -> staged (targets w').
Proof.
  intros Hok Hr. revert Hok. induction Hr as [w|N w w1 w' H1 _ IH]; intros Hok Hs; [done|].
  pose proof (measured_ok _ _ Hok H1). destruct (round_moved w w1 Hok H1) as (w0 & Hm & ->).
  apply IH; [done|]. by apply (moved_staged w).
Qed.
(** ** There are such rounds *)

(** The cluster can report any state of its targets. *)
Hypothesis reported_in_map : forall ts, length ts = n -> exists smap, mapped ts smap.

(** The pods of the targets, as a listing may show them. *)
Definition pod_of (j : nat) (t : target) : Pod :=
  MkPod (in_ns ais (Target.PodName ais (Z.of_nat j)))
    match t with Waiting _ => ∅ | _ => {[ ControllerRevisionHashLabelKey := rev_ ]} end
    match t with Down _ => true | _ => false end "" "Running" ""
    [MkPodCondition "Ready" CondTrue ""] [].

Lemma pod_map_snoc ps p : pod_map (ps ++ [p]) = <[ nn_name (pod_Name p) := p ]> (pod_map ps).
Proof. unfold pod_map. by rewrite fold_left_app. Qed.

Lemma pod_map_imap ts j :
  pod_map (imap pod_of ts) !! Target.PodName ais (Z.of_nat j) = pod_of j <$> ts !! j.
Proof.
  induction ts as [|t ts IH] using rev_ind; [done|].
  rewrite imap_app. cbn. rewrite pod_map_snoc, Nat.add_0_r. cbn.
  destruct (decide (j = length ts)) as [->|Hj].
  - by rewrite lookup_insert_eq, lookup_app_r, Nat.sub_diag by done.
  - rewrite lookup_insert_ne, IH.
    + f_equal. destruct (decide (j < length ts)%nat); [by rewrite lookup_app_l|].
      rewrite lookup_app_r by lia. destruct (j - length ts)%nat eqn:Hs; [lia|].
      rewrite (proj2 (lookup_ge_None ts j)) by lia. done.
    + intros Hn%pod_name_inj. lia.
Qed.

Lemma listing_exists ts : listing ts (imap pod_of ts).
Proof.
  intros j t Ht. pose proof (pod_map_imap ts j) as Hp. rewrite Ht in Hp. cbn in Hp.
  destruct t as [b|d|]; cbn.
  - exists (pod_of j (Waiting b)). split_and!; [done..|]. cbn. unfold index. rewrite lookup_empty.
    cbn. congruence.
  - right. left. by exists (pod_of j (Down d)).
  - split; [|by rewrite Hp]. exists (pod_of j Updated). split_and!; [done..|].
    unfold index. cbn [pod_Labels pod_of]. by rewrite lookup_singleton_eq.
Qed.

Lemma truth_total ts r :
  length ts = n -> exists ts' x, truth ts r ts' x /\ length ts' = n.
Proof.
  intros Hl. destruct r as [ |  |  |  |  |  |  |  |  |  |  | ns sel |  |  |  |  |  |  |  |  | [] nm |  |  |  |  | a |  | c |  |  |  | c act |  |  |  |  |  | ];
    try (exists ts, (some_answer _); by split).
  - exists ts, (Ok (pod_of 0 Updated)). split; [|done]. split; [done|]. by eexists.
  - exists ts, (Ok (imap pod_of ts)). split; [|done]. split; [done|]. eexists. split; [done|].
    intros _ _. apply listing_exists.
  - exists (replace ais nm 0 ts), (Ok tt). split; [|unfold replace; by rewrite length_imap].
    split; [|done]. exists 0%nat. split; [lia|done].
  - exists ts, (Ok 0). split; [|done]. split; [done|]. by eexists.
  - destruct (reported_in_map ts Hl) as [smap Hm]. exists ts, (Ok smap). split; [|done].
    split; [done|]. by eexists.
  - exists (drain (rm_DaemonID act) id ts), (Ok ""). split; [|unfold drain; by rewrite length_imap].
    split; [done|]. by eexists.
Qed.

Lemma sees_exists w : world_ok w -> exists ss, sees w ss.
Proof.
  intros [Hl _].
  exists (MkSS (in_ns ais "") ∅ ∅ 1 (MkSSSpec (Z.of_nat n) ∅ "" "" (MkUpdateStrategy OnDeleteStrategy None) []
    (MkPodTemplate ∅ ∅ (MkPodSpec [] [] false "" "" None [] None None ∅ [] [] "")) None) (MkSSStatus 1 0 0 0 0 (rev_ +:+ "x") rev_)).
  split_and!; [done..|]. cbn. intros [Hr|[Hn _]].
  - apply (f_equal String.length) in Hr. rewrite string_length_app in Hr. cbn in Hr. lia.
  - unfold all_updated. destruct (targets w); [constructor | cbn in Hl; lia].
Qed.

Lemma step_exists w r :
  length (targets w) = n -> exists x w', step w r x w' /\ length (targets w') = n.
Proof.
  intros Hl. destruct (truth_total (targets w) r Hl) as (ts & x & Ht & Hl').
  exists x, (MkWorld ts (faults w)). split; [by left | done].
Qed.

Lemma round_exists w : world_ok w -> exists w', round w w'.
Proof.
  intros Hok. destruct (sees_exists w Hok) as [ss Hss].
  destruct (plays_exist step (fun w => length (targets w) = n) (handleTargetRollout ss ais) w step_exists (proj1 Hok))
    as (t & o & w1 & Hex & Hp).
  by exists (tick w1), ss, t, o, w1.
Qed.

(** C4. The rollout of the targets completes. From any state of the targets the loop can always
    go on, and whatever sequence of rounds follows - the failures falling on any requests, each
    replaced pod taking any time up to [D] rounds to come back, the status of the StatefulSet
    lagging behind - every target is updated and ready once [n * (D + 3)] rounds and one more
    for every failed request have passed, and stays so. At most one target is down at a time:
    targets updated in order before the first round are updated in order throughout. *)
Theorem rollout_converges N w :
  world_ok w ->
  (exists w', nsteps round N w w') /\
  forall w', nsteps round N w w' ->
    (staged (targets w) -> staged (targets w')) /\
    ((n * (D + 3) + faults w <= N)%nat -> all_updated w').
Proof.
  intros Hok. split; [apply (rounds_go_on round _ _ _ N w round_exists Hok)|]. intros w' Hr. split.
  - by apply (rounds_staged N).
  - intros HN. apply (rounds_reach round world_ok all_updated (distance D) N w); [done..|].
    right. pose proof (distance_bound w Hok). lia.
Qed.
End Loop.
