(* ===== verification/ProxyProgress.v ===== *)
(** * Progress of the rollout of the proxies

    The closed loop: [handleProxyState] repeated on an AIStore of fixed size whose proxies are
    up, against a truthful world in which the StatefulSet controller replaces the pods above the
    partition one at a time and finitely many requests fail. Whatever the pod template was before,
    it is synchronized, every proxy restarted with it, and the StatefulSet settled; the primary,
    moved twice, is not taken down, unless the template changes again before that. *)

From stdpp Require Import relations.
From S2P Require Import Prelude Effects ClosedLoop K8sTypes AISConfig AIStoreTypes ThirdParty AIStoreMethods GlobalConfig CmnResources ProxyResources Templates Rollout ResourceFacts Requests K8sClient ClusterOps ProxyController TemplateFacts.

(** ** Worlds *)

(** A proxy: up with the template before, replaced and back after some more rounds, or up with
    the template of the StatefulSet. *)
Inductive proxy := Old | Down (rounds : nat) | New.
#[export] Instance proxy_eq_dec : EqDecision proxy.
Proof. solve_decision. Defined.

(** The StatefulSet, whether its controller has pods to replace, the pods by ordinal, the ordinal
    of the primary, and the requests that may still fail. *)
Record world := MkWorld {
  set : StatefulSetSpec; rolling : bool; pods : list proxy; primary : nat; faults : nat }.

Definition with_set (w : world) (s : StatefulSetSpec) : world := MkWorld s (rolling w) (pods w) (primary w) (faults w).
Definition with_primary (w : world) (j : nat) : world := MkWorld (set w) (rolling w) (pods w) j (faults w).
Definition with_pods (w : world) (ps : list proxy) : world := MkWorld (set w) (rolling w) ps (primary w) (faults w).
Definition with_faults (w : world) (n : nat) : world := MkWorld (set w) (rolling w) (pods w) (primary w) n.

Definition is_old (p : proxy) : bool := match p with Old => true | _ => false end.
Definition is_down (p : proxy) : bool := match p with Down _ => true | _ => false end.

(** A new template: all pods are to be replaced. *)
Definition restart (w : world) (s : StatefulSetSpec) : world :=
  MkWorld s true ((fun _ => Old) <$> pods w) (primary w) (faults w).

(** ** The StatefulSet controller *)

Definition partition_of (s : StatefulSetSpec) : Z := default 0 (us_RollingUpdate (sss_UpdateStrategy s)).

(** The pod to replace next: the old one of the highest ordinal not below the partition. The
    first pod of the list has ordinal [j]. *)
Fixpoint next_pod (p : Z) (j : nat) (ps : list proxy) : option nat :=
  match ps with
  | [] => None
  | x :: ps' =>
      match next_pod p (S j) ps' with
      | Some k => Some k
      | None => if is_old x && (p <=? Z.of_nat j) then Some j else None
      end
  end.

Definition tick_pod (p : proxy) : proxy :=
  match p with Down (S d) => Down d | Down O => New | _ => p end.

(** One round later: a pod that is down comes closer to being back; else the next is replaced,
    down for [d] more rounds; or the rollout is complete, if no pod is held back. *)
Definition tick (d : nat) (w : world) : world :=
  if existsb is_down (pods w) then with_pods w (tick_pod <$> pods w)
  else if negb (rolling w) then w
  else match next_pod (partition_of (set w)) 0 (pods w) with
       | Some k => with_pods w (<[ k := Down d ]> (pods w))
       | None => if partition_of (set w) =? 0
                 then MkWorld (set w) false (pods w) (primary w) (faults w) else w
       end.

(** ** Answers *)

Section Loop.
Context `{T : ThirdParty, L : !ThirdPartyLaws T} (ais : AIStore) (size : Z) (D : nat) (id : nat -> string).

Definition n : nat := Z.to_nat size.

(** A truthful status of a StatefulSet that is not behind. *)
Definition status_of (w : world) (st : StatefulSetStatus) : Prop :=
  if rolling w then
    ssst_UpdateRevision st ≠ "" /\ ssst_CurrentRevision st ≠ ssst_UpdateRevision st /\
    ssst_CurrentReplicas st = Z.of_nat (length (List.filter is_old (pods w)))
  else
    ssst_CurrentRevision st = ssst_UpdateRevision st /\ ssst_Replicas st = sss_Replicas (set w) /\
    ssst_ReadyReplicas st = sss_Replicas (set w) /\ ssst_UpdatedReplicas st = sss_Replicas (set w).
Definition sees (w : world) (ss : StatefulSet) : Prop :=
  ss_Name ss = Proxy.StatefulSetNSName ais /\ ss_Spec ss = set w /\ isStatusCurrent ss = true /\
  status_of w (ss_Status ss).

(** A truthful cluster map: the proxies that are up, by their host names, and the primary. *)
Definition mapped (w : world) (smap : Smap) : Prop :=
  (forall j p, pods w !! j = Some p ->
     match findAISNodeByPodName (Pmap smap) (Proxy.PodName ais (Z.of_nat j)) with
     | Ok node => is_down p = false /\ sn_ID node = id j
     | Err _ => is_down p = true
     end) /\
  ((exists p, pods w !! primary w = Some p /\ is_down p = false) ->
   exists node, Primary smap = Some node /\
     forall j, (j < length (pods w))%nat ->
       hostnameMatchesPod (sn_ControlHostname node) (Proxy.PodName ais (Z.of_nat j)) = bool_decide (j = primary w)).

(** The requests of the handler; others may do anything. A patch is merged into the spec it was
    made from. A second template before the rollout of the first is complete may do anything:
    the handler sends none. *)
Definition truth (w : world) (r : req) : answer r -> world -> Prop :=
  match r return answer r -> world -> Prop with
  | KGetStatefulSet nm => fun x w' => w' = w /\
      (nm = Proxy.StatefulSetNSName ais -> exists ss, x = Ok ss /\ sees w ss)
  | KPatchStatefulSet o m => fun x w' =>
      ss_Name m = Proxy.StatefulSetNSName ais -> ss_Spec o = set w -> x = Ok tt /\
      (sss_Template (ss_Spec m) = sss_Template (set w) -> w' = with_set w (ss_Spec m)) /\
      (sss_Template (ss_Spec m) ≠ sss_Template (set w) -> rolling w = false -> w' = restart w (ss_Spec m))
  | AGetClient _ => fun x w' => w' = w /\ exists c, x = Ok c
  | AGetClusterMap _ => fun x w' => w' = w /\ exists smap, x = Ok smap /\ mapped w smap
  | ASetPrimaryProxy _ i _ _ => fun x w' => x = Ok tt /\
      forall j p, pods w !! j = Some p -> is_down p = false -> i = id j -> w' = with_primary w j
  | r' => fun _ w' => is_read r' = true -> w' = w
  end.

(** A read of the StatefulSet whose status is behind counts as a failed request. *)
Definition fails_or_lags (r : req) : answer r -> Prop :=
  match r return answer r -> Prop with
  | KGetStatefulSet _ => fun x => failed_with x \/ exists ss, x = Ok ss /\ isStatusCurrent ss = false
  | r' => fails r'
  end.

Definition step : world -> forall r : req, answer r -> world -> Prop :=
  faulty_step truth fails_or_lags faults with_faults.

(** A round of the closed loop: a call of the handler, and time passes. *)
Definition round (w w' : world) : Prop :=
  exists t o w1 d, (d <= D)%nat /\ exec (handleProxyState ais) t o /\ plays step w t w1 /\ w' = tick d w1.

(** ** Invariant, goal and distance *)

Context (desired : PodTemplateSpec).

Definition stale (w : world) : bool := (shouldUpdatePodTemplate desired (sss_Template (set w))).1.
Definition retention_stale (w : world) : bool :=
  shouldUpdatePVCRetentionPolicy (ds_PVCRetentionPolicy (ProxySpec (Spec ais))) (sss_PVCRetentionPolicy (set w)).

(** The primary is up. *)
Definition primary_up (w : world) : Prop := exists p, pods w !! primary w = Some p /\ is_down p = false.
Definition one_down (ps : list proxy) : Prop :=
  forall i j a b, ps !! i = Some (Down a) -> ps !! j = Some (Down b) -> i = j.

(** A rollout holds back ordinal 0, which is old, until the primary is one of the new proxies,
    and takes it last. *)
Definition rollout_ok (w : world) : Prop :=
  stale w = false /\
  (us_RollingUpdate (sss_UpdateStrategy (set w)) = Some 1 /\ pods w !! 0%nat = Some Old /\
     (primary w = 0%nat \/ pods w !! primary w = Some New) \/
   partition_of (set w) = 0 /\ ((2 <= n)%nat -> pods w !! primary w = Some New)).

Record world_ok (w : world) : Prop := {
  ok_length : length (pods w) = n;
  ok_replicas : sss_Replicas (set w) = size;
  ok_strategy : us_Type (sss_UpdateStrategy (set w)) ≠ OnDeleteStrategy;
  ok_primary : (primary w < n)%nat;
  ok_rounds : forall j d, pods w !! j = Some (Down d) -> (d <= D)%nat;
  ok_one_down : one_down (pods w);
  ok_phase : if rolling w then rollout_ok w else Forall (fun p => p = New) (pods w);
}.

(** Everything is as the spec wants it. *)
Definition done_ (w : world) : Prop :=
  stale w = false /\ retention_stale w = false /\ rolling w = false /\ Forall (fun p => p = New) (pods w).

Definition weight (p : proxy) : nat := match p with Old => D + 2 | Down d => S d | New => 0 end.
Definition work (w : world) : nat :=
  if stale w then n * (D + 2) + 3
  else if rolling w then sum_list_with weight (pods w) + (if (partition_of (set w) =? 0)%Z then 1 else 2) else 0.
Definition distance (w : world) : nat := work w + (if retention_stale w then 1 else 0) + faults w.

(** ** Time passes *)

Lemma next_pod_some p ps : forall j k, next_pod p j ps = Some k ->
  exists i, k = (j + i)%nat /\ ps !! i = Some Old /\ p <= Z.of_nat k.
Proof.
  induction ps as [|x ps IH]; intros j k; cbn; [done|]. destruct (next_pod p (S j) ps) as [k'|] eqn:Hn.
  - intros [= ->]. destruct (IH _ _ Hn) as (i & -> & Hi & Hp). exists (S i). split_and!; [lia|done|lia].
  - destruct (is_old x) eqn:Hx; cbn; [|done]. destruct (p <=? Z.of_nat j) eqn:Hp; [|done]. intros [= <-].
    exists 0%nat. destruct x; try done. split_and!; [lia|done|lia].
Qed.

Lemma next_pod_none p ps : forall j, next_pod p j ps = None ->
  forall i, ps !! i = Some Old -> Z.of_nat (j + i) < p.
Proof.
  induction ps as [|x ps IH]; intros j; cbn; [done|]. destruct (next_pod p (S j) ps) as [k'|] eqn:Hn; [done|].
  intros Hx [|i]; cbn.
  - intros [= ->]. cbn in Hx. destruct (p <=? Z.of_nat j) eqn:Hp; [done|]. lia.
  - intros Hi. specialize (IH _ Hn i Hi). lia.
Qed.

Lemma no_down ps j d : existsb is_down ps = false -> ps !! j ≠ Some (Down d).
Proof.
  intros He Hj. apply (f_equal negb) in He. apply negb_true_iff in He. apply not_true_iff_false in He. apply He.
  apply existsb_exists. exists (Down d). split; [|done]. apply list_elem_of_In. by eapply list_elem_of_lookup_2.
Qed.

Lemma some_down ps : existsb is_down ps = true -> exists j d, ps !! j = Some (Down d).
Proof.
  intros (x & Hx & Hd)%existsb_exists. apply list_elem_of_In, list_elem_of_lookup in Hx as [j Hj].
  destruct x; try done. eauto.
Qed.

Lemma all_new_no_down ps : Forall (fun p => p = New) ps -> existsb is_down ps = false.
Proof. induction 1 as [|x ps -> _ IH]; [done|]. by cbn. Qed.

Lemma tick_pod_lookup (ps : list proxy) j q :
  (tick_pod <$> ps) !! j = Some q -> exists p, ps !! j = Some p /\ q = tick_pod p.
Proof. rewrite list_lookup_fmap. destruct (ps !! j); cbn; naive_solver. Qed.

Lemma one_down_tick ps : one_down ps -> one_down (tick_pod <$> ps).
Proof.
  intros Ho i j a b (p & Hp & Ep)%tick_pod_lookup (q & Hq & Eq)%tick_pod_lookup.
  destruct p as [|[]|], q as [|[]|]; try done. by eapply Ho.
Qed.

Lemma one_down_first ps k d : existsb is_down ps = false -> one_down (<[ k := Down d ]> ps).
Proof.
  intros He i j a b Hi Hj. apply list_lookup_insert_Some in Hi as [(-> & _ & _)|[_ Hi]]; [|by apply no_down in Hi].
  apply list_lookup_insert_Some in Hj as [(-> & _ & _)|[_ Hj]]; [done|by apply no_down in Hj].
Qed.

(** What a rollout asks of the pods and the primary is still true when time has passed. *)
Lemma rollout_ok_tick w ps :
  rollout_ok w ->
  (forall j, pods w !! j = Some New -> ps !! j = Some New) ->
  (us_RollingUpdate (sss_UpdateStrategy (set w)) = Some 1 -> pods w !! 0%nat = Some Old -> ps !! 0%nat = Some Old) ->
  rollout_ok (with_pods w ps).
Proof. intros (Hs & Hph) Hnew Hold. split; [done|]. cbn. destruct Hph as [(Hp & H0 & Hpr)|(Hp & Hpr)]; [left|right]; naive_solver. Qed.

Lemma proxies_tick_ok d w : (d <= D)%nat -> world_ok w -> world_ok (tick d w).
Proof.
  intros Hd [Hlen Hrep Hstr Hprim Hrounds Hone Hphase]. unfold tick. destruct (existsb is_down (pods w)) eqn:He.
  { assert (rolling w = true) as Hr.
    { destruct (rolling w); [done|]. apply all_new_no_down in Hphase. congruence. }
    rewrite Hr in Hphase. split; cbn; [by rewrite length_fmap|done..| |by apply one_down_tick|].
    - intros j d' (p & Hp & Ep)%tick_pod_lookup. destruct p as [|[|d0]|]; try done. injection Ep as ->.
      specialize (Hrounds _ _ Hp). lia.
    - rewrite Hr. apply rollout_ok_tick; [done|..]; [intros j Hj|intros _ Hj]; by rewrite list_lookup_fmap, Hj. }
  destruct (rolling w) eqn:Hr; cbn; [|by split; rewrite ?Hr].
  destruct (next_pod _ 0 (pods w)) as [k|] eqn:Hk.
  - apply next_pod_some in Hk as (i & -> & Hi & Hp). cbn in Hp |- *.
    split; cbn; [by rewrite length_insert|done..| |by apply one_down_first|].
    + intros j d' [(-> & [= ->] & _)|[_ Hj]]%list_lookup_insert_Some; [done|by eapply Hrounds].
    + rewrite Hr. apply rollout_ok_tick; [done|..].
      * intros j Hj. rewrite list_lookup_insert_ne; [done|congruence].
      * intros Hu Hj. rewrite list_lookup_insert_ne; [done|]. intros ->. unfold partition_of in Hp. rewrite Hu in Hp. cbn in Hp. lia.
  - destruct (partition_of (set w) =? 0) eqn:Hp; [|by split; rewrite ?Hr]. apply Z.eqb_eq in Hp. rewrite Hp in Hk.
    split; cbn; try done. apply Forall_lookup. intros j [|d'|] Hj; [|by apply no_down in Hj|done].
    pose proof (next_pod_none _ _ _ Hk _ Hj). lia.
Qed.

Lemma proxies_tick_weight p : (weight (tick_pod p) <= weight p)%nat.
Proof. destruct p as [|[]|]; cbn; lia. Qed.

Lemma sum_tick ps : (sum_list_with weight (tick_pod <$> ps) <= sum_list_with weight ps)%nat.
Proof. rewrite fmap_is_imap. apply sum_imap_le. intros j p _. apply proxies_tick_weight. Qed.

Lemma sum_tick_down ps j d :
  ps !! j = Some (Down d) -> (sum_list_with weight (tick_pod <$> ps) < sum_list_with weight ps)%nat.
Proof.
  intros Hj. rewrite fmap_is_imap. eapply sum_imap_lt; [|exact Hj|]; [intros i p _; apply proxies_tick_weight|destruct d; cbn; lia].
Qed.

(** There is something for the StatefulSet controller to do. *)
Definition moving (w : world) : Prop :=
  existsb is_down (pods w) = true \/ next_pod (partition_of (set w)) 0 (pods w) ≠ None \/ partition_of (set w) = 0.

Lemma tick_closer d w :
  (d <= D)%nat -> stale w = false -> rolling w = true -> moving w -> (distance (tick d w) < distance w)%nat.
Proof.
  intros Hd Hs Hr Hm. unfold distance, work, tick. rewrite Hr, Hs. destruct (existsb is_down (pods w)) eqn:He; cbn.
  - change (stale (with_pods w _)) with (stale w). rewrite Hs, Hr. apply some_down in He as (j & d' & Hj).
    pose proof (sum_tick_down _ _ _ Hj). unfold retention_stale in *. cbn. lia.
  - destruct (next_pod _ 0 (pods w)) as [k|] eqn:Hk.
    + apply next_pod_some in Hk as (i & -> & Hi & _). cbn. change (stale (with_pods w _)) with (stale w). rewrite Hs, Hr.
      pose proof (sum_insert weight (pods w) i Old (Down d) Hi) as Hsum. cbn in Hsum. unfold retention_stale. cbn. lia.
    + destruct Hm as [?|[?|Hp]]; [congruence|done|]. rewrite Hp. cbn. unfold stale in Hs |- *. cbn. rewrite Hs.
      unfold retention_stale. cbn. lia.
Qed.

Lemma tick_still d w : rolling w = false -> Forall (fun p => p = New) (pods w) -> tick d w = w.
Proof. intros Hr Hn. unfold tick. by rewrite (all_new_no_down _ Hn), Hr. Qed.

Lemma proxies_tick_distance d w : (d <= D)%nat -> world_ok w -> (distance (tick d w) <= distance w)%nat.
Proof.
  intros Hd Hok. pose proof (ok_phase _ Hok) as Hph. destruct (rolling w) eqn:Hr; [|by rewrite tick_still].
  destruct (existsb is_down (pods w)) eqn:He; [apply Nat.lt_le_incl, tick_closer; [done|apply Hph|done|by left]|].
  destruct (next_pod (partition_of (set w)) 0 (pods w)) as [k|] eqn:Hk;
    [apply Nat.lt_le_incl, tick_closer; [done|apply Hph|done|right; left; by rewrite Hk]|].
  destruct (decide (partition_of (set w) = 0)) as [Hp|Hp];
    [apply Nat.lt_le_incl, tick_closer; [done|apply Hph|done|by right; right]|].
  unfold tick. apply Z.eqb_neq in Hp. by rewrite He, Hr, Hk, Hp.
Qed.

(** When nothing moves, all proxies but the first are new, and the first is held back. *)
Lemma held_back w :
  world_ok w -> rolling w = true -> ~ moving w ->
  us_RollingUpdate (sss_UpdateStrategy (set w)) = Some 1 /\ pods w !! 0%nat = Some Old /\
  forall j p, pods w !! S j = Some p -> p = New.
Proof.
  intros Hok Hr Hm. pose proof (ok_phase _ Hok) as Hph. rewrite Hr in Hph. destruct Hph as (_ & Hph).
  assert (existsb is_down (pods w) = false) as He by (apply not_true_iff_false; intros ?; apply Hm; by left).
  destruct (next_pod (partition_of (set w)) 0 (pods w)) as [k|] eqn:Hk.
  { destruct Hm. right. left. by rewrite Hk. }
  destruct Hph as [(Hu & H0 & _)|[Hp _]]; [|destruct Hm; by right; right]. split_and!; [done..|].
  intros j [|d|] Hj; [|by apply no_down in Hj|done]. pose proof (next_pod_none _ _ _ Hk _ Hj) as Hlt.
  unfold partition_of in Hlt. rewrite Hu in Hlt. cbn in Hlt. lia.
Qed.

(** ** Requests *)

#[local] Abbreviation answers := (ClosedLoop.answers step failure faults with_faults).

Lemma proxy_client a : answers (AGetClient a) (fun x => x) anything no_error.
Proof. solve_answers. Qed.

Lemma proxy_smap c : answers (AGetClusterMap c) (fun x => x) mapped no_error.
Proof. solve_answers. Qed.

(** A patch of the StatefulSet takes effect, fails, or both. *)
Definition patch_result (w : world) (s : StatefulSetSpec) : world :=
  if decide (sss_Template s = sss_Template (set w)) then with_set w s else restart w s.

Lemma proxies_loop_patch (o m : StatefulSet) (s : AIStore) w (Q : world -> AIStore -> res unit -> Prop) :
  ss_Name m = Proxy.StatefulSetNSName ais -> ss_Spec o = set w ->
  (sss_Template (ss_Spec m) = sss_Template (set w) \/ rolling w = false) ->
  Q (patch_result w (ss_Spec m)) s (Ok tt) ->
  (forall f e, faults w = S f -> Q (with_faults w f) s (Err e) /\ Q (with_faults (patch_result w (ss_Spec m)) f) s (Err e)) ->
  loop_wpm step (patchStatefulSet o m) s w Q.
Proof.
  intros Hn Ho Ht HQ HE. unfold patchStatefulSet. lw_call_.
  assert (forall v x w', set v = set w -> rolling v = rolling w -> truth v (KPatchStatefulSet o m) x w' ->
    x = Ok tt /\ w' = patch_result v (ss_Spec m)) as Htruth.
  { intros v x w' Es Er Hv. cbn in Hv. rewrite Es in Hv. destruct (Hv Hn Ho) as (-> & Hsame & Hnew). split; [done|].
    unfold patch_result. rewrite Es. case_decide as Hd; [by apply Hsame|]. apply Hnew; [done|]. rewrite Er.
    by destruct Ht. }
  intros x w' [Hv|(f & Hf & (e & -> & _) & [->|[x' Hv]])].
  - by apply Htruth in Hv as [-> ->].
  - by apply HE.
  - apply Htruth in Hv as [_ ->]; [|done..]. specialize (HE f e Hf) as [_ HE]. revert HE. unfold patch_result. cbn. by case_decide.
Qed.

Context (id_inj : Inj (=) (=) id).

(** The primary is set to a proxy that is up. *)
Lemma loop_setPrimary (j : nat) (s : AIStore) w (Q : world -> AIStore -> res unit -> Prop) :
  length (pods w) = n -> primary_up w -> (j < n)%nat ->
  (forall p, pods w !! j = Some p -> is_down p = false -> Q (with_primary w j) s (Ok tt)) ->
  (forall d e, pods w !! j = Some (Down d) -> Q w s (Err e)) ->
  (forall f e, faults w = S f -> Q (with_faults w f) s (Err e)) ->
  (forall f e p, faults w = S f -> pods w !! j = Some p -> is_down p = false ->
     Q (with_faults (with_primary w j) f) s (Err e)) ->
  loop_wpm step (setPrimaryTo ais (Z.of_nat j)) s w Q.
Proof.
  intros Hlen Hup Hj HOk Hdown HE1 HE2. unfold setPrimaryTo. lw_step.
  apply (lw_read step _ _ _ _ _ _ _ _ (proxy_client _)). intros [c|e]; [|intros f Hf _; lw_step; by apply HE1].
  lw_step. apply (lw_answers step _ _ _ _ _ _ _ _ _ _ (proxy_smap _)). intros [smap|e].
  2: { split; [done|]. intros f Hf _. lw_step. by apply HE1. }
  intros [Hmap Hprim]. destruct (Hprim Hup) as (node & Hnode & Hhost). rewrite Hnode, Hhost by lia.
  assert (is_Some (pods w !! j)) as [p Hp] by (apply lookup_lt_is_Some; lia).
  case_bool_decide as Hjp.
  { lw_step. destruct Hup as (q & Hq & Hdq). rewrite <-Hjp in Hq. specialize (HOk q Hq Hdq). subst j. by destruct w. }
  specialize (Hmap j p Hp). destruct (findAISNodeByPodName _ _) as [nd|e]; [|lw_step; destruct p; try done; by eapply Hdown].
  destruct Hmap as [Hdp Hid]. lw_call_. intros x w' [[-> Hw]|(f & Hf & (e & -> & _) & [->|[x' [_ Hw]]])].
  - rewrite (Hw j p Hp Hdp Hid). by eapply HOk.
  - by apply HE1.
  - rewrite (Hw j p Hp Hdp Hid). by eapply HE2.
Qed.

(** ** What a call does *)

(** It brings the world closer to the goal, or there is something to wait for, or nothing to do. *)
Definition called (w w' : world) (o : outcome) : Prop :=
  world_ok w' /\ (done_ w -> done_ w') /\
  ((distance w' < distance w)%nat \/ w' = w /\ (done_ w /\ o = finished \/ rolling w = true /\ moving w)).

Lemma ok_faults w f : world_ok w -> world_ok (with_faults w f).
Proof. intros []. by split. Qed.

Lemma distance_faults w f : (distance (with_faults w f) + faults w = distance w + f)%nat.
Proof. unfold distance, work, stale, retention_stale. cbn. lia. Qed.

Lemma called_fault w w1 f o :
  world_ok w1 -> faults w1 = faults w -> faults w = S f -> (distance w1 <= distance w)%nat -> (done_ w -> done_ w1) ->
  called w (with_faults w1 f) o.
Proof.
  intros Hok Hf1 Hf Hd Hdone. split_and!; [by apply ok_faults|exact Hdone|left].
  pose proof (distance_faults w1 f). lia.
Qed.

Lemma called_failed w f o : world_ok w -> faults w = S f -> called w (with_faults w f) o.
Proof. intros Hok Hf. by apply called_fault. Qed.

(** Another primary, if a rollout permits it. *)
Lemma ok_with_primary w j :
  world_ok w -> (j < n)%nat ->
  (rolling w = true -> pods w !! j = Some New \/ (us_RollingUpdate (sss_UpdateStrategy (set w)) = Some 1 /\ pods w !! 0%nat = Some Old /\ j = 0%nat)) ->
  world_ok (with_primary w j).
Proof.
  intros [Hlen Hrep Hstr Hprim Hrounds Hone Hph] Hj Hr. split; cbn; try done. destruct (rolling w) eqn:Er; [|done].
  destruct Hph as [Hs Hph]. split; [done|]. cbn. destruct (Hr eq_refl) as [Hnew|(Hu & H0 & ->)]; [|by left; auto].
  destruct Hph as [(Hu & H0 & _)|[Hp _]]; [left|right]; auto.
Qed.

Context (Hpos : 0 < size) (Hi32 : is_i32 size).
Context (Hsize : GetProxySize ais = Some size) (Hfixed : IsProxyAutoScaling ais = false).
Context (built : StatefulSet) (Hbuilt : Proxy.NewProxyStatefulSet ais size = Some built).
Context (Hdesired : desired = sss_Template (ss_Spec built)).

Lemma primary_is_up w : world_ok w -> (2 <= n)%nat \/ existsb is_down (pods w) = false -> primary_up w.
Proof.
  intros [Hlen _ _ Hprim _ _ Hph] Hc.
  assert (is_Some (pods w !! primary w)) as [p Hp] by (apply lookup_lt_is_Some; lia).
  destruct Hc as [Hn|He]; [|exists p; split; [done|]; destruct p; try done; by apply no_down in Hp].
  destruct (rolling w).
  - destruct Hph as [_ [(_ & H0 & [Hz|Hnew])|[_ Hnew]]]; [exists Old; by rewrite Hz|by exists New|].
    exists New. by rewrite Hnew.
  - exists New. split; [|done]. eapply Forall_lookup in Hph; [|done]. by subst.
Qed.

(** The synchronized template is the one wanted. *)
Lemma synced_fresh current : (shouldUpdatePodTemplate desired (syncPodTemplate desired current).1).1 = false.
Proof.
  destruct (template_converges desired current) as [-> _]; [|done].
  rewrite Hdesired. by eapply proxy_template_volumes.
Qed.

Lemma loop_desired s w (Q : world -> AIStore -> PodTemplateSpec -> Prop) :
  Q w s desired -> loop_wpm step (desired_proxy_template ais) s w Q.
Proof.
  intros HQ. unfold desired_proxy_template. rewrite Hsize. apply lw_bind, lw_ret, lw_bind. rewrite Hbuilt.
  apply lw_ret, lw_ret. by rewrite <-Hdesired.
Qed.

(** A stale template is replaced, with all proxies held back but those above the primary. *)
Definition resynced (w : world) (ss : StatefulSet) : StatefulSetSpec :=
  ss_Spec (ss_set_template (ss_set_strategy ss (partitioned 1))
    (syncPodTemplate desired (sss_Template (ss_Spec ss))).1).

Lemma resynced_ok w ss :
  world_ok w -> sees w ss -> stale w = true -> rolling w = false ->
  patch_result (with_primary w 0) (resynced w ss) = restart (with_primary w 0) (resynced w ss) /\
  world_ok (restart (with_primary w 0) (resynced w ss)) /\
  (distance (restart (with_primary w 0) (resynced w ss)) < distance w)%nat.
Proof.
  intros [Hlen Hrep Hstr Hprim Hrounds Hone Hph] (_ & Hss & _) Hs Hr.
  assert (0 < n)%nat as Hn by (unfold n; lia).
  pose proof (synced_fresh (sss_Template (ss_Spec ss))) as Hfresh.
  assert (forall j, ((fun _ : proxy => Old) <$> pods w) !! j = (fun _ => Old) <$> pods w !! j) as Hl
    by (intros j; apply list_lookup_fmap).
  split_and!.
  - unfold patch_result. rewrite decide_False; [done|]. cbn. intros He. unfold stale in Hs. rewrite <-He, Hfresh in Hs. done.
  - split; cbn; [by rewrite length_fmap|by rewrite Hss|done|done| | |].
    + intros j d. rewrite Hl. by destruct (pods w !! j).
    + intros i j a b. rewrite Hl. by destruct (pods w !! i).
    + split; [exact Hfresh|]. left. cbn. rewrite Hl.
      assert (is_Some (pods w !! 0%nat)) as [p ->] by (apply lookup_lt_is_Some; lia). auto.
  - unfold distance, work. rewrite Hs. unfold stale, retention_stale. cbn. rewrite Hfresh, Hss. cbn.
    assert (sum_list_with weight ((fun _ : proxy => Old) <$> pods w) <= n * (D + 2))%nat; [|lia].
    rewrite <-Hlen, <-(length_fmap (fun _ : proxy => Old)). apply sum_bound. intros j p. rewrite Hl.
    destruct (pods w !! j); [|done]. intros [= <-]. cbn. lia.
Qed.

Lemma loop_sync w ss :
  world_ok w -> sees w ss -> stale w = true ->
  loop_wpm step (syncProxyPodSpec ss) ais w (fun w' s' r =>
    s' = ais /\ r ≠ Ok false /\ forall o, called w w' o).
Proof.
  intros Hok Hsees Hst. assert (rolling w = false) as Hr.
  { destruct (rolling w) eqn:Hr; [|done]. pose proof (ok_phase _ Hok) as Hph. rewrite Hr in Hph. destruct Hph. congruence. }
  destruct (resynced_ok w ss Hok Hsees Hst Hr) as (Hpatch & Hok' & Hlt).
  assert (forall j, (j < n)%nat -> world_ok (with_primary w j)) as Hprim
    by (intros j Hj; apply ok_with_primary; [done..|congruence]).
  pose proof (ok_phase _ Hok) as Hph. rewrite Hr in Hph. destruct Hsees as (Hn & Hspec & _ & Hstat).
  unfold status_of in Hstat. rewrite Hr in Hstat. destruct Hstat as (_ & _ & Hready & _).
  assert (0 < n)%nat as Hn0 by (unfold n; lia).
  unfold syncProxyPodSpec. lw_step. lw_step. lw_step. apply loop_desired.
  pose proof Hst as Hb. unfold stale in Hb. rewrite <-Hspec in Hb. destruct (shouldUpdatePodTemplate desired _) as [b why]. cbn in Hb. subst b.
  cbn [negb]. rewrite Hready, (ok_replicas _ Hok), (proj2 (Z.ltb_lt 0 size)) by done.
  assert (forall f o, faults w = S f -> called w (with_faults w f) o) as Hfail by (intros; by apply called_failed).
  assert (forall f o, faults w = S f -> called w (with_faults (with_primary w 0) f) o) as Hfail1
    by (intros f o Hf; apply called_fault; [by apply Hprim|done..]).
  lw_step. apply (loop_setPrimary 0); [apply Hok|by apply primary_is_up; [|right; apply all_new_no_down]|lia|..].
  - intros p Hp Hup. lw_step. apply proxies_loop_patch; [done|by rewrite Hspec|right; exact Hr|..].
    + lw_step. split_and!; [done..|]. intros o. change (ss_Spec _) with (resynced w ss). rewrite Hpatch.
      split_and!; [done| |by left]. intros (Hs & _). congruence.
    + intros f e Hf. split; (lw_step; split_and!; [done..|]); intros o; [by apply Hfail1|].
      change (ss_Spec _) with (resynced w ss). rewrite Hpatch.
      apply called_fault; [done..|by apply Nat.lt_le_incl|]. intros (Hs & _). congruence.
  - intros d e Hd. apply (Forall_lookup_1 _ _ _ _ Hph) in Hd. done.
  - intros f e Hf. lw_step. auto.
  - intros f e p Hf _ _. lw_step. auto.
Qed.

(** The retention policy of the claims is set once. *)
Lemma retention_set policy : shouldUpdatePVCRetentionPolicy policy policy = false.
Proof. destruct policy as [p|]; [|done]. cbn. apply negb_false_iff. by apply DeepEqual_spec. Qed.

Lemma loop_retention w ss :
  world_ok w -> sees w ss -> stale w = false ->
  loop_wpm step (syncProxyPVCRetentionPolicy ss) ais w (fun w' s' r =>
    s' = ais /\ match r with Ok false => w' = w /\ retention_stale w = false | _ => forall o, called w w' o end).
Proof.
  intros Hok (Hn & Hspec & _) Hst. unfold syncProxyPVCRetentionPolicy. do 2 lw_step.
  rewrite Hspec. fold (retention_stale w). destruct (retention_stale w) eqn:Hret; cbn [negb]; [|by lw_step].
  set (m := ss_set_retention _ _).
  assert (patch_result w (ss_Spec m) = with_set w (ss_Spec m)) as Hpatch.
  { unfold patch_result. rewrite decide_True; [done|]. cbn. by rewrite Hspec. }
  assert (world_ok (with_set w (ss_Spec m))) as Hok'.
  { destruct Hok as [Hlen Hrep Hstr Hprim Hrounds Hone Hph]. split; cbn; try done; [by rewrite Hspec..|].
    unfold rollout_ok, stale, partition_of in *. cbn. by rewrite Hspec. }
  assert (distance (with_set w (ss_Spec m)) < distance w)%nat as Hlt.
  { unfold distance, work. rewrite Hret, Hst. unfold stale, retention_stale, partition_of in *. cbn.
    rewrite retention_set, Hspec, Hst. lia. }
  assert (done_ w -> done_ (with_set w (ss_Spec m))) as Hdone by (intros (_ & ? & _); congruence).
  lw_step. apply proxies_loop_patch; [done|by rewrite Hspec|left; cbn; by rewrite Hspec|..]; rewrite Hpatch.
  - lw_step. split; [done|]. intros o. by split_and!; [..|left].
  - intros f e Hf. split; lw_step; (split; [done|]); intros o; [by apply called_failed|].
    apply called_fault; [done..|lia|done].
Qed.

(** *** Moving the primary on *)

Lemma one_old ps j :
  length (List.filter is_old ps) = 1%nat -> ps !! 0%nat = Some Old -> ps !! S j ≠ Some Old.
Proof.
  destruct ps as [|p ps]; [done|]. cbn. intros Hl [= ->] Hj. cbn in Hl. injection Hl as Hl%length_zero_iff_nil.
  assert (Old ∈ List.filter is_old ps) as Hin.
  { apply list_elem_of_In, filter_In. split; [|done]. apply list_elem_of_In. by eapply list_elem_of_lookup_2. }
  rewrite Hl in Hin. by apply elem_of_nil in Hin.
Qed.

(** The partition may be reset when all proxies but the first are replaced. *)
Lemma reset_permitted w ss :
  world_ok w -> sees w ss -> rolling w = true -> shouldResetPartition ss = true ->
  us_RollingUpdate (sss_UpdateStrategy (set w)) = Some 1 /\ pods w !! 0%nat = Some Old /\
  forall j, pods w !! S j ≠ Some Old.
Proof.
  intros Hok (_ & Hspec & _ & Hstat) Hr. unfold shouldResetPartition, status_of in *. rewrite Hspec. rewrite Hr in Hstat.
  destruct Hstat as (_ & _ & Hcount). pose proof (ok_phase _ Hok) as Hph. rewrite Hr in Hph. destruct Hph as (_ & Hph).
  destruct (us_RollingUpdate _) as [p|] eqn:Hu; [|done]. destruct (p =? 0) eqn:Hp; [done|].
  intros Hc. rewrite Hcount in Hc. apply Z.eqb_eq in Hc.
  destruct Hph as [(Hu1 & H0 & _)|[Hp0 _]].
  - split_and!; [congruence|done|]. intros j. apply one_old; [lia|done].
  - unfold partition_of in Hp0. rewrite Hu in Hp0. cbn in Hp0. subst. done.
Qed.

Lemma first_alone ps :
  ps !! 0%nat = Some Old -> (forall j p, ps !! S j = Some p -> p = New) -> length (List.filter is_old ps) = 1%nat.
Proof.
  destruct ps as [|p ps]; [done|]. intros [= ->] Hn. cbn. f_equal.
  assert (Forall (fun p => p = New) ps) as Hf by (apply Forall_lookup; exact Hn).
  clear Hn. induction Hf as [|x l -> _ IH]; [done|]. exact IH.
Qed.

Lemma reset_needed w ss :
  world_ok w -> sees w ss -> rolling w = true -> shouldResetPartition ss = false -> moving w.
Proof.
  intros Hok (_ & Hspec & _ & Hstat) Hr Hreset. destruct (decide (moving w)) as [?|Hm]; [done|].
  destruct (held_back w Hok Hr Hm) as (Hu & H0 & Hrest). unfold shouldResetPartition, status_of in *.
  rewrite Hspec, Hu in Hreset. rewrite Hr in Hstat. destruct Hstat as (_ & _ & Hcount).
  rewrite Hcount, first_alone in Hreset by done. done.
Qed.

(** The partition is reset once the highest proxy is the primary. *)
Lemma reset_ok w ss :
  world_ok w -> sees w ss -> rolling w = true -> shouldResetPartition ss = true ->
  (forall p, pods w !! (n - 1)%nat = Some p -> is_down p = false ->
   world_ok (with_primary w (n - 1)) /\
   let s := ss_Spec (ss_set_strategy ss (partitioned 0)) in
   patch_result (with_primary w (n - 1)) s = with_set (with_primary w (n - 1)) s /\
   world_ok (with_set (with_primary w (n - 1)) s) /\
   (distance (with_set (with_primary w (n - 1)) s) < distance w)%nat).
Proof.
  intros Hok Hsees Hr Hreset p Hp Hup. destruct (reset_permitted w ss Hok Hsees Hr Hreset) as (Hu & H0 & Hold).
  destruct Hsees as (_ & Hspec & _). pose proof (ok_phase _ Hok) as Hph. rewrite Hr in Hph. destruct Hph as (Hst & _).
  assert (0 < n)%nat as Hn by (unfold n; lia).
  assert ((2 <= n)%nat -> pods w !! (n - 1)%nat = Some New) as Hlast.
  { intros H2. destruct p; [|done|done]. destruct (n - 1)%nat as [|k] eqn:Hk; [lia|]. by destruct (Hold k). }
  cbv zeta. split_and!.
  - apply ok_with_primary; [done|lia|]. intros _. destruct (decide (2 <= n)%nat); [left; auto|right]. split_and!; [done..|lia].
  - unfold patch_result. rewrite decide_True; [done|]. cbn. by rewrite Hspec.
  - destruct Hok as [Hlen Hrep Hstr Hprim Hrounds Hone _]. split; cbn; try done; [by rewrite Hspec|lia|].
    rewrite Hr. split; [unfold stale in *; cbn; by rewrite Hspec|]. right. split; [done|exact Hlast].
  - unfold distance, work, stale, retention_stale, partition_of in *. cbn. rewrite Hspec, Hst, Hr, Hu. cbn. lia.
Qed.

Lemma highest_index : i32 (size - 1) = Z.of_nat (n - 1).
Proof. unfold n. rewrite i32_id by (unfold is_i32 in *; lia). lia. Qed.

Lemma loop_rollout w ss :
  world_ok w -> sees w ss -> rolling w = true ->
  loop_wpm step (handleProxyRollout ss) ais w (fun w' s' r => s' = ais /\ forall o, called w w' o).
Proof.
  intros Hok Hsees Hr.
  assert (done_ w -> False) as Hnd by (intros (_ & _ & ? & _); congruence).
  assert (moving w -> forall o, called w w o) as Hmoving by (intros Hm o; split_and!; [done..|right]; auto).
  assert (forall f o, faults w = S f -> called w (with_faults w f) o) as Hfail by (intros; by apply called_failed).
  pose proof Hsees as (Hn & Hspec & _ & Hstat). unfold status_of in Hstat. rewrite Hr in Hstat.
  destruct Hstat as (_ & Hrev & _). unfold handleProxyRollout. do 2 lw_step.
  rewrite bool_decide_eq_false_2 by congruence. destruct (shouldResetPartition ss) eqn:Hreset; cbn [negb].
  2: { lw_step. split; [done|]. apply Hmoving. by eapply reset_needed. }
  pose proof (reset_ok w ss Hok Hsees Hr Hreset) as Hgo.
  destruct (reset_permitted w ss Hok Hsees Hr Hreset) as (Hu & H0 & Hold).
  assert (primary_up w) as Hup.
  { pose proof (ok_phase _ Hok) as Hph. rewrite Hr in Hph. destruct Hph as (_ & [(_ & _ & [Hz|Hnew])|[Hp _]]).
    - exists Old. by rewrite Hz.
    - by exists New.
    - unfold partition_of in Hp. rewrite Hu in Hp. done. }
  unfold setHighestPodAsPrimary. rewrite Hspec, (ok_replicas _ Hok), highest_index. lw_step.
  apply loop_setPrimary; [apply Hok|done|unfold n; lia|..].
  - intros p Hp Hdp. destruct (Hgo p Hp Hdp) as (Hok1 & Hpatch & Hok2 & Hlt). unfold resetSSPartition.
    apply proxies_loop_patch; [done|by rewrite Hspec|left; cbn; by rewrite Hspec|..]; rewrite Hpatch.
    + split; [done|]. intros o. by split_and!; [..|left].
    + intros f e Hf. split; (split; [done|]); intros o; apply called_fault; try done. by apply Nat.lt_le_incl.
  - intros d e Hd. lw_step. split; [done|]. apply Hmoving. left. apply existsb_exists. exists (Down d).
    split; [|done]. apply list_elem_of_In. by eapply list_elem_of_lookup_2.
  - intros f e Hf. lw_step. auto.
  - intros f e p Hf Hp Hdp. lw_step. split; [done|]. intros o. destruct (Hgo p Hp Hdp) as (Hok1 & _).
    by apply called_fault.
Qed.

(** The StatefulSet read, or a failure: an error that does not say it is missing, or a status
    that is behind. *)
Lemma proxies_loop_get s w (Q : world -> AIStore -> res StatefulSet -> Prop) :
  (forall ss, sees w ss -> Q w s (Ok ss)) ->
  (forall f e, faults w = S f -> is_not_found e = false -> Q (with_faults w f) s (Err e)) ->
  (forall f ss, faults w = S f -> isStatusCurrent ss = false -> Q (with_faults w f) s (Ok ss)) ->
  loop_wpm step (GetStatefulSet (Proxy.StatefulSetNSName ais)) s w Q.
Proof.
  intros HOk HE Hlag. unfold GetStatefulSet. lw_call_. intros x w' [[-> Ht]|(f & Hf & Hx & Hw)].
  - destruct (Ht eq_refl) as (ss & -> & Hs). by apply HOk.
  - assert (w' = with_faults w f) as -> by (destruct Hw as [->|[x' [-> _]]]; done).
    destruct Hx as [(e & -> & [Hm _])|(ss & -> & Hc)]; [|by apply Hlag].
    apply HE; [done|]. by apply orb_false_iff in Hm as [? _].
Qed.

(** A settled StatefulSet of the size wanted is ready, and its rollout and scaling are over. *)
Lemma settled_ready w ss :
  world_ok w -> sees w ss -> rolling w = false ->
  isRolloutInProgress ss = false /\ isScalingInProgress ss = false /\
  isProxyScalingNeeded ais size ss = false /\ isProxyStatefulSetReady ais size size ss = true.
Proof.
  intros Hok (_ & Hspec & _ & Hstat) Hr. unfold status_of in Hstat. rewrite Hr in Hstat.
  destruct Hstat as (Hrev & Hrep & Hready & Hupd). pose proof (ok_replicas _ Hok) as Hn. rewrite Hn in *.
  assert (isRolloutInProgress ss = false) as Hroll.
  { unfold isRolloutInProgress. case_bool_decide; [done|]. by rewrite bool_decide_eq_true_2. }
  split_and!; [done|..].
  - unfold isScalingInProgress. by rewrite Hroll, Hspec, Hn, Hrep, Z.eqb_refl.
  - unfold isProxyScalingNeeded, statefulsetScalingNeeded. by rewrite Hspec, Hn, Z.ltb_irrefl, Z.eqb_refl.
  - unfold isProxyStatefulSetReady, isStatefulSetReady, isStatefulSetFullyReady.
    rewrite Hspec, Hn, Hrep, Hready, Hupd, Z.eqb_refl. by destruct (bool_decide _).
Qed.

Lemma rolling_status w ss :
  world_ok w -> sees w ss -> rolling w = true ->
  isRolloutInProgress ss = true /\ isScalingInProgress ss = false /\ isProxyScalingNeeded ais size ss = false.
Proof.
  intros Hok (_ & Hspec & _ & Hstat) Hr. unfold status_of in Hstat. rewrite Hr in Hstat.
  destruct Hstat as (Hne & Hrev & _). pose proof (ok_replicas _ Hok) as Hn.
  assert (isRolloutInProgress ss = true) as Hroll.
  { unfold isRolloutInProgress. rewrite bool_decide_eq_false_2, bool_decide_eq_false_2 by done.
    rewrite Hspec, bool_decide_eq_false_2 by apply Hok. done. }
  split_and!; [done|..].
  - unfold isScalingInProgress. by rewrite Hroll.
  - unfold isProxyScalingNeeded, statefulsetScalingNeeded. by rewrite Hspec, Hn, Z.ltb_irrefl, Z.eqb_refl.
Qed.

Lemma loop_unless m delay k s w (Q : world -> AIStore -> outcome -> Prop) :
  loop_wpm step m s w (fun w' s' r =>
    match r with
    | Ok true => Q w' s' (requeue delay)
    | Ok false => loop_wpm step k s' w' Q
    | Err e => Q w' s' (failed e)
    end) -> loop_wpm step (unless_updated m delay k) s w Q.
Proof. intros H. unfold unless_updated. lw_step. eapply lw_mono; [exact H|]. intros w' s' [[]|e] HQ; cbn; [exact HQ|exact HQ|by apply lw_ret]. Qed.

(** A call of the handler. *)
Lemma loop_state w :
  world_ok w -> loop_wpm step handleProxyState ais w (fun w' s' o => s' = ais /\ called w w' o).
Proof.
  intros Hok.
  assert (forall f o, faults w = S f -> called w (with_faults w f) o) as Hfail by (intros; by apply called_failed).
  unfold handleProxyState. do 3 lw_step. apply proxies_loop_get.
  2: { intros f e Hf He. rewrite He. lw_step. auto. }
  2: { intros f ss Hf Hc. rewrite Hc. cbn [negb]. lw_step. auto. }
  intros ss Hsees. pose proof Hsees as (_ & Hspec & Hcur & _). rewrite Hcur. cbn [negb].
  apply lw_bind. rewrite Hsize. apply lw_ret, lw_bind.
  assert (GetMinReadyProxies ais = Some size) as -> by (unfold GetMinReadyProxies; by rewrite Hsize, Hfixed).
  apply lw_ret, lw_bind, loop_desired.
  assert ((shouldUpdatePodTemplate desired (sss_Template (ss_Spec ss))).1 = stale w) as -> by (unfold stale; by rewrite Hspec).
  assert (isScalingInProgress ss = false /\ isProxyScalingNeeded ais size ss = false /\ isRolloutInProgress ss = rolling w)
    as (-> & -> & ->).
  { destruct (rolling w) eqn:Hr; [destruct (rolling_status w ss Hok Hsees Hr) as (? & ? & ?)
                                 |destruct (settled_ready w ss Hok Hsees Hr) as (? & ? & ? & _)]; done. }
  rewrite andb_true_r. apply loop_unless. destruct (stale w) eqn:Hst.
  { eapply lw_mono; [by apply loop_sync|]. intros w' s' [[]|e] (-> & Hne & Hc); [by split|done|by split]. }
  lw_step. apply loop_unless. eapply lw_mono; [by apply loop_retention|]. intros w' s' [[]|e] (-> & Hc); [by split| |by split].
  destruct Hc as [-> Hret]. cbn [andb]. destruct (rolling w) eqn:Hr.
  - lw_step. eapply lw_mono; [by apply loop_rollout|]. intros w' s' [[]|e] (-> & Hc); lw_step; auto.
  - destruct (settled_ready w ss Hok Hsees Hr) as (_ & _ & _ & ->). cbn [negb]. lw_step. split; [done|].
    pose proof (ok_phase _ Hok) as Hph. rewrite Hr in Hph. split_and!; [done..|]. right. split; [done|]. left. by split_and!.
Qed.

(** ** Rounds *)

Lemma round_called w w' :
  world_ok w -> round w w' -> exists w1 o d, (d <= D)%nat /\ called w w1 o /\ w' = tick d w1.
Proof.
  intros Hok (t & o & w1 & d & Hd & Hex & Hp & ->).
  destruct (loop_adequate _ _ _ _ _ _ _ (loop_state w Hok) Hex Hp) as ([s' o'] & _ & _ & Hc). by exists w1, o', d.
Qed.

Lemma done_tick d w : done_ w -> done_ (tick d w).
Proof. intros (Hs & Hret & Hr & Hn). rewrite tick_still by done. by split_and!. Qed.

#[export] Instance proxies_measured : Measured round world_ok done_ distance.
Proof.
  split.
  - intros w w' Hok (w1 & o & d & Hd & (Hok1 & _) & ->)%round_called; [by apply proxies_tick_ok | done].
  - intros w w' Hok (w1 & o & d & Hd & (_ & Hdone & _) & ->)%round_called; [|done]. intros. by apply done_tick, Hdone.
  - intros w w' Hok (w1 & o & d & Hd & (Hok1 & _ & Hc) & ->)%round_called; [|done].
    destruct Hc as [Hlt|[-> [[? _]|[Hr Hm]]]]; [right|by left|right].
    + pose proof (proxies_tick_distance d w1 Hd Hok1). lia.
    + pose proof (ok_phase _ Hok) as Hph. rewrite Hr in Hph. apply tick_closer; [done|apply Hph|done|done].
  - intros w Hok Hz. pose proof (ok_phase _ Hok) as Hph. unfold distance, work in Hz.
    destruct (stale w) eqn:Hs; [lia|]. destruct (rolling w) eqn:Hr; [destruct (partition_of (set w) =? 0)%Z; lia|].
    destruct (retention_stale w) eqn:Hret; [lia|]. by split_and!.
Qed.

Lemma proxies_distance_bound w : world_ok w -> (distance w <= n * (D + 2) + 4 + faults w)%nat.
Proof.
  intros [Hlen _ _ _ Hrounds _ _]. unfold distance, work.
  assert (sum_list_with weight (pods w) <= n * (D + 2))%nat.
  { rewrite <-Hlen. apply sum_bound. intros j [|d|] Hj; cbn; [lia| |lia]. specialize (Hrounds _ _ Hj). lia. }
  destruct (stale w), (rolling w), (retention_stale w), (partition_of (set w) =? 0)%Z; lia.
Qed.

(** *** There are such rounds *)

Definition node_of (j : nat) : Snode := MkSnode (id j) (Proxy.PodName ais (Z.of_nat j)) "" 0.
Definition up_at (w : world) (j : nat) : bool := match pods w !! j with Some p => negb (is_down p) | None => false end.
Definition map_of (w : world) : Smap :=
  MkSmap "" 0 (node_of <$> List.filter (up_at w) (seq 0 (length (pods w)))) [] (Some (node_of (primary w))).

Lemma host_matches i j :
  hostnameMatchesPod (sn_ControlHostname (node_of i)) (Proxy.PodName ais (Z.of_nat j)) = bool_decide (j = i).
Proof.
  cbn. case_bool_decide as Hij.
  - subst. unfold hostnameMatchesPod. by rewrite bool_decide_eq_true_2.
  - apply not_true_iff_false. intros Hm. apply Hij. apply Nat2Z.inj.
    eapply hostname_ordinal_unique; [exact Hm|]. unfold Proxy.PodName, hostnameMatchesPod. by rewrite bool_decide_eq_true_2.
Qed.

Lemma map_exists w : mapped w (map_of w).
Proof.
  split.
  - intros j p Hp. unfold findAISNodeByPodName. destruct (List.find _ _) as [nd|] eqn:Hf.
    + apply find_some in Hf as [Hin Hm]. cbn in Hin. apply list_elem_of_In, list_elem_of_fmap in Hin as (i & -> & Hi).
      rewrite host_matches in Hm. apply bool_decide_eq_true in Hm as ->.
      apply list_elem_of_In, filter_In in Hi as [_ Hup]. unfold up_at in Hup. rewrite Hp in Hup. by apply negb_true_iff in Hup.
    + destruct (is_down p) eqn:Hd; [done|].
      pose proof (find_none _ _ Hf (node_of j)) as Hno. cbn beta in Hno. rewrite host_matches, bool_decide_eq_true_2 in Hno by done.
      discriminate Hno. apply list_elem_of_In. apply list_elem_of_fmap. exists j. split; [done|].
      apply list_elem_of_In, filter_In. split; [|unfold up_at; by rewrite Hp, Hd].
      apply in_seq. apply lookup_lt_Some in Hp. lia.
  - intros _. exists (node_of (primary w)). split; [done|]. intros j _. apply host_matches.
Qed.

Definition set_of (w : world) : StatefulSet :=
  MkSS (Proxy.StatefulSetNSName ais) ∅ ∅ 0 (set w)
    (if rolling w then MkSSStatus 0 0 0 (Z.of_nat (length (List.filter is_old (pods w)))) 0 "old" "new"
     else MkSSStatus 0 (sss_Replicas (set w)) (sss_Replicas (set w)) (sss_Replicas (set w)) (sss_Replicas (set w)) "new" "new").

Lemma set_of_seen w : sees w (set_of w).
Proof. unfold sees, status_of, set_of, isStatusCurrent. cbn. by destruct (rolling w). Qed.

(** A world that answers truthfully, as a function. *)
Definition obeys (w : world) (r : req) : answer r * world :=
  match r return answer r * world with
  | KGetStatefulSet _ => (Ok (set_of w), w)
  | KPatchStatefulSet _ m => (Ok tt, patch_result w (ss_Spec m))
  | AGetClient _ => (Ok 0, w)
  | AGetClusterMap _ => (Ok (map_of w), w)
  | ASetPrimaryProxy _ i _ _ =>
      (Ok tt, match list_find (fun j => up_at w j = true /\ id j = i) (seq 0 (length (pods w))) with
              | Some (_, j) => with_primary w j
              | None => w
              end)
  | r' => (some_answer r', w)
  end.

Lemma proxies_obeys_truth w r : truth w r (obeys w r).1 (obeys w r).2.
Proof.
  destruct r as [ | |nm| | | | | | | | | | | | | | | | | | |o m| | | |a| |c| |c i u f| | | | | | | | ];
    try (by cbn).
  - split; [done|]. intros _. eexists. split; [done|apply set_of_seen].
  - intros _ _. split; [done|]. unfold obeys, patch_result. cbn.
    split; intros; [by rewrite decide_True|by rewrite decide_False].
  - split; [done|]. by eexists.
  - split; [done|]. eexists. split; [done|apply map_exists].
  - split; [done|]. unfold obeys. cbn. destruct (list_find _ _) as [[k j]|] eqn:Hf.
    + apply list_find_Some in Hf as (_ & [_ <-] & _). by intros j' p _ _ <-%id_inj.
    + intros j p Hp Hd ->. apply list_find_None in Hf.
      rewrite Forall_forall in Hf. destruct (Hf j); [|split; [unfold up_at; by rewrite Hp, Hd|done]].
      apply list_elem_of_In, in_seq. apply lookup_lt_Some in Hp. lia.
Qed.

Lemma proxy_round_exists w : exists w', round w w'.
Proof.
  destruct (plays_exist step (fun _ => True) (handleProxyState ais) w) as (t & o & w1 & Hex & Hp); [|done|].
  - intros v r _. exists (obeys v r).1, (obeys v r).2. split; [left; apply proxies_obeys_truth|done].
  - exists (tick 0 w1), t, o, w1, 0%nat. split_and!; [lia|done..].
Qed.

(** C5. One rollout of the proxies completes. The object, of a fixed size, does not change; the
    strategy of the StatefulSet is not OnDelete. From proxies that are all up, whatever their pod
    template, or in the midst of the rollout of the template now desired - but not of another, see
    [second_template_resets_early] in [LoopWitnesses] - the loop of [handleProxyState] can go on,
    and whatever follows - the failed requests and the stale reads falling anywhere, each proxy
    replaced taking any time up to [D] rounds to come back - after [n * (D + 2) + 4] rounds and one
    more for each failure the template and the retention policy are what the object asks for, every
    proxy runs it, the rollout is over, and a call of the handler says so. On the way at most one
    proxy is down, and the primary, if there are two proxies at least, never is. *)
Theorem proxy_rollout_completes N w :
  world_ok w ->
  (exists w', nsteps round N w w') /\
  forall w', nsteps round N w w' ->
    one_down (pods w') /\ ((2 <= n)%nat -> primary_up w') /\
    ((n * (D + 2) + 4 + faults w <= N)%nat ->
     done_ w' /\
     forall t o w'', exec (handleProxyState ais) t o -> plays step w' t w'' ->
       o = Some (ais, finished) \/ (faults w'' < faults w')%nat).
Proof.
  intros Hok. split; [apply (rounds_go_on round world_ok done_ distance N w (fun w _ => proxy_round_exists w) Hok)|].
  intros w' Hr. assert (world_ok w') as Hok' by exact (rounds_ok round world_ok done_ distance N w w' Hok Hr).
  split_and!; [apply Hok'|intros H2; apply primary_is_up; auto|]. intros HN.
  assert (done_ w') as Hd.
  { apply (rounds_reach round world_ok done_ distance N w); [done..|]. right. pose proof (proxies_distance_bound w Hok). lia. }
  split; [done|]. intros t o w'' Hex Hp.
  destruct (loop_adequate _ _ _ _ _ _ _ (loop_state w' Hok') Hex Hp) as ([s' o'] & -> & Hs & (_ & Hdone & Hc)).
  cbn in Hs, Hdone, Hc. subst s'. destruct Hc as [Hlt|[-> [[_ ->]|[Hroll _]]]]; [right|by left|].
  - specialize (Hdone Hd). destruct Hd as (H1 & H2 & H3 & _), Hdone as (H4 & H5 & H6 & _).
    unfold distance, work in Hlt. rewrite H1, H2, H3, H4, H5, H6 in Hlt. lia.
  - destruct Hd as (_ & _ & ? & _). congruence.
Qed.
End Loop.
