(* ===== verification/TargetScaleDown.v ===== *)
(** * A scale-down of the targets completes

    The closed loop: the scaling stage of [handleTargetState] repeated on an AIStore of fixed
    size with more target replicas than it asks for, against a truthful world in which a
    decommissioned target leaves the cluster after some rounds and its pod, whose daemon exits
    again and again, is in CrashLoopBackOff some rounds later. The surplus targets are told to
    leave, or put in maintenance, and the replicas lowered once they have; but a scale-down by
    decommission whose surplus targets are all in maintenance already never is. *)

From stdpp Require Import relations.
From S2P Require Import Prelude Effects ClosedLoop K8sTypes AISConfig AIStoreTypes ThirdParty AIStoreMethods GlobalConfig CmnResources TargetResources Rollout ResourceFacts Requests K8sClient ClusterOps ProxyController TargetController LoopStages TargetRollout.

(** ** Worlds *)

(** A target: a member of the cluster, a member in maintenance, decommissioned and a member for
    some more rounds, gone with its pod restarting, or gone for good. *)
Inductive member := Active | Maint | Leaving (rounds exit : nat) | Exited (rounds : nat) | Out.
#[export] Instance member_eq_dec : EqDecision member.
Proof. solve_decision. Defined.

(** The object, the replicas asked for, the targets by ordinal, the requests that may fail, and
    what the targets were whose pods have been removed. *)
Record world := MkWorld {
  stored : AIStore; asked : Z; members : list member; faults : nat; removed : list member }.

Definition with_stored (w : world) (a : AIStore) : world := MkWorld a (asked w) (members w) (faults w) (removed w).
Definition with_members (w : world) (ms : list member) : world := MkWorld (stored w) (asked w) ms (faults w) (removed w).
Definition with_faults (w : world) (n : nat) : world := MkWorld (stored w) (asked w) (members w) n (removed w).

(** The pods above the replica count go. *)
Definition resize (w : world) (n : Z) : world :=
  MkWorld (stored w) n (take (Z.to_nat n) (members w)) (faults w) (removed w ++ drop (Z.to_nat n) (members w)).

Definition in_map (m : member) : bool := match m with Active | Maint | Leaving _ _ => true | _ => false end.
Definition is_leaving (m : member) : bool := match m with Leaving _ _ => true | _ => false end.
Definition is_exited (m : member) : bool := match m with Exited _ => true | _ => false end.
Definition is_maint (m : member) : bool := match m with Maint => true | _ => false end.
Definition is_active (m : member) : bool := match m with Active => true | _ => false end.

(** A target that is told to leave does so if it is active. *)
Definition told (w : world) (j : nat) (m : member) : world :=
  if bool_decide (members w !! j = Some Active) then with_members w (<[ j := m ]> (members w)) else w.

(** One round later. *)
Definition tick_member (m : member) : member :=
  match m with
  | Leaving (S d) e => Leaving d e
  | Leaving O e => Exited e
  | Exited (S e) => Exited e
  | Exited O => Out
  | _ => m
  end.
Definition tick (w : world) : world := with_members w (tick_member <$> members w).

Section Loop.
Context `{T : ThirdParty} (ais : AIStore) (size : Z) (D : nat) (id : nat -> string).

Definition target_set : nsname := Target.StatefulSetNSName ais.
Definition sees (w : world) (ss : StatefulSet) : Prop :=
  ss_Name ss = target_set /\ sss_Replicas (ss_Spec ss) = asked w /\ isRolloutInProgress ss = false.

(** A truthful cluster map: all targets run in pods of the StatefulSet. *)
Definition mapped (w : world) (smap : Smap) : Prop :=
  (forall j m, members w !! j = Some m ->
     match findAISNodeByPodName (Tmap smap) (Target.PodName ais (Z.of_nat j)) with
     | Ok node => in_map m = true /\ sn_ID node = id j /\ InMaint smap node = is_maint m /\
                  InMaintOrDecomm smap (sn_ID node) = is_maint m || is_leaving m
     | Err _ => in_map m = false
     end) /\
  existsb (fun n => InMaintOrDecomm smap (sn_ID n) && negb (InMaint smap n)) (Tmap smap) = existsb is_leaving (members w) /\
  length (Tmap smap) = length (List.filter in_map (members w)).

(** The pod of a target that has gone: restarting, then backing off or deleted. *)
Definition pod_answers (w : world) (name : nsname) (x : res Pod) : Prop :=
  forall j m, members w !! j = Some m -> name = in_ns ais (Target.PodName ais (Z.of_nat j)) ->
    match m with
    | Exited _ => exists pod, x = Ok pod /\ isPodUnschedulable (Some pod) = false /\ isPodInCrashLoopBackOff pod = false
    | Out => (exists pod, x = Ok pod /\ isPodInCrashLoopBackOff pod = true) \/ (exists e, x = Err e /\ is_not_found e = true)
    | _ => True
    end.

(** The requests of the stage; others may do anything. *)
Definition truth (w : world) (r : req) : answer r -> world -> Prop :=
  match r return answer r -> world -> Prop with
  | KGetStatefulSet nm => fun x w' => w' = w /\ (nm = target_set -> exists ss, x = Ok ss /\ sees w ss)
  | KPatchStatefulSet _ m => fun x w' =>
      ss_Name m = target_set -> x = Ok tt /\ w' = resize w (sss_Replicas (ss_Spec m))
  | KPatchStatus _ st => fun x w' =>
      x = Ok (set_status (stored w) st) /\ w' = with_stored w (set_status (stored w) st)
  | KPatchAIStore _ m => fun x w' =>
      x = Ok (patched (stored w) m) /\ w' = with_stored w (patched (stored w) m)
  | KDelete KService _ => fun x w' => w' = w /\ (x = Ok tt \/ exists e, x = Err e /\ is_not_found e = true)
  | KGetPod nm => fun x w' => w' = w /\ pod_answers w nm x
  | AGetClient _ => fun x w' => w' = w /\ exists c, x = Ok c
  | AGetClusterMap _ => fun x w' => w' = w /\ exists smap, x = Ok smap /\ mapped w smap
  | ASetClusterConfig _ _ _ => fun x w' => w' = w /\ x = Ok tt
  | AStartMaintenance _ act => fun x w' => (exists s, x = Ok s) /\
      forall j, rm_DaemonID act = id j -> w' = told w j Maint
  | ADecommissionNode _ act => fun x w' => (exists s, x = Ok s) /\
      exists d e, (d <= D)%nat /\ (e <= D)%nat /\ forall j, rm_DaemonID act = id j -> w' = told w j (Leaving d e)
  | EEvent _ _ _ _ => fun _ w' => w' = w
  | r' => fun _ w' => is_read r' = true -> w' = w
  end.

Definition step : world -> forall r : req, answer r -> world -> Prop :=
  faulty_step truth fails faults with_faults.

(** The scaling stage of [handleTargetState]; no rollout is in progress in these worlds. *)
Definition scaling_stage (ss : StatefulSet) : H outcome :=
  ais ← get;
  if isTargetScalingNeeded ais size ss && negb (isRolloutInProgress ss) then handleTargetScaling ss else mret finished.

Definition round (w w' : world) : Prop :=
  exists ss t o w1, sees w ss /\ exec (scaling_stage ss (stored w)) t o /\ plays step w t w1 /\ w' = tick w1.

(** ** Invariant, goal and distance *)

Definition retain : bool := RetainOnScaleDown (spec_TargetSpec (Spec ais)).
Definition kept : nat := Z.to_nat size.
Definition surplus (w : world) : list member := drop kept (members w).
Definition rounds_left_ok (m : member) : Prop :=
  match m with Leaving d e => (d <= D)%nat /\ (e <= D)%nat | Exited e => (e <= D)%nat | _ => True end.

Record world_ok (w : world) : Prop := {
  ok_object : same_object ais (stored w);
  ok_asked : size <= asked w;
  ok_i32 : is_i32 (asked w);
  ok_length : Z.of_nat (length (members w)) = asked w;
  ok_kept : forall j m, (j < kept)%nat -> members w !! j = Some m -> m = Active \/ m = Maint;
  ok_rounds : Forall rounds_left_ok (members w);
  ok_removed : Forall (fun m => m = Out \/ m = Maint) (removed w);
}.

Definition resized (w : world) : Prop := asked w = size.

(** The targets stay: they are not retained, and all that are to go are in maintenance. *)
Definition stuck (w : world) : Prop :=
  retain = false /\ asked w ≠ size /\ Forall (fun m => m = Maint) (surplus w).

Definition weight (m : member) : nat :=
  match m with Active => 2 * D + 3 | Leaving d e => d + e + 2 | Exited e => S e | _ => 0 end.
Definition distance (w : world) : nat :=
  sum_list_with weight (surplus w) + (if asked w =? size then 0 else 1) + faults w.

(** What any part of a call keeps. *)
Record better (w w' : world) : Prop := {
  bt_ok : world_ok w'; bt_asked : asked w' = asked w;
  bt_stuck : stuck w' -> stuck w;
  bt_sum : (sum_list_with weight (surplus w') <= sum_list_with weight (surplus w))%nat;
  bt_faults : (faults w' <= faults w)%nat;
  bt_length : length (members w') = length (members w);
  bt_removed : removed w' = removed w;
  bt_kept : take kept (members w') = take kept (members w);
  bt_settled : forall j m, members w !! j = Some m -> m ≠ Active -> members w' !! j = Some m;
}.
Definition faulted (w w' : world) : Prop := better w w' /\ (faults w' < faults w)%nat.

(** ** Parts of a call *)

Lemma scale_better_refl w : world_ok w -> better w w.
Proof. by split. Qed.

Lemma scale_better_trans w1 w2 w3 : better w1 w2 -> better w2 w3 -> better w1 w3.
Proof. intros [] []. split; [done|congruence|auto|lia|lia|congruence..|auto]. Qed.

Lemma scale_better_faulted w1 w2 w3 : better w1 w2 -> faulted w2 w3 -> faulted w1 w3.
Proof. intros H1 [H2 Hf]. split; [by eapply scale_better_trans|]. pose proof (bt_faults _ _ H1). lia. Qed.

Lemma scale_faulted_here w f : world_ok w -> faults w = S f -> faulted w (with_faults w f).
Proof. intros [] Hf. split; [split; [by split|done|done|done|cbn; lia|done..]|cbn; lia]. Qed.

(** The object is written. *)
Lemma stored_better w a : world_ok w -> same_object ais a -> better w (with_stored w a).
Proof. intros [] Ha. split; [by split|done..]. Qed.

Lemma stored_faulted w a f :
  world_ok w -> same_object ais a -> faults w = S f -> faulted w (with_stored (with_faults w f) a).
Proof. intros [] Ha Hf. split; [split; [by split|done|done|done|cbn; lia|done..]|cbn; lia]. Qed.

(** A surplus target is told to leave. *)
Lemma told_better w j m :
  world_ok w -> (kept <= j)%nat -> rounds_left_ok m ->
  (m = Maint /\ retain = true) \/ is_leaving m = true ->
  better w (told w j m) /\
  (members w !! j = Some Active ->
   members (told w j m) !! j = Some m /\
   (sum_list_with weight (surplus (told w j m)) < sum_list_with weight (surplus w))%nat).
Proof.
  intros Hok Hj Hm Hmode. unfold told. case_bool_decide as Ha; [|split; [by apply scale_better_refl|done]].
  assert (surplus w !! (j - kept)%nat = Some Active) as Hs.
  { unfold surplus. rewrite lookup_drop. by replace (kept + (j - kept))%nat with j by lia. }
  pose proof (sum_insert weight (surplus w) (j - kept) Active m Hs) as Hsum.
  assert (weight m < weight Active)%nat as Hlt.
  { destruct m; cbn in *; try lia; by destruct Hmode as [[? _]|?]. }
  assert (surplus (with_members w (<[ j := m ]> (members w))) = <[ (j - kept)%nat := m ]> (surplus w)) as Hdrop
    by (by apply drop_insert_ge).
  split; [split|].
  - destruct Hok as [Ho Has Hi Hlen Hkept Hrounds Hrem]. split; cbn; [done..|by rewrite length_insert| | |done].
    + intros i mi Hi' Hmi. rewrite list_lookup_insert_ne in Hmi by lia. by eapply Hkept.
    + by apply Forall_insert.
  - done.
  - intros (Hr & Hne & Hall). exfalso. destruct Hmode as [[_ Hr']|Hl]; [congruence|].
    rewrite Hdrop, Forall_lookup in Hall. specialize (Hall (j - kept)%nat m).
    rewrite list_lookup_insert_eq in Hall by (by eapply lookup_lt_Some). specialize (Hall eq_refl). by subst m.
  - rewrite Hdrop. lia.
  - done.
  - cbn. by rewrite length_insert.
  - done.
  - by apply take_insert_ge.
  - intros i mi Hmi Hne. cbn. rewrite list_lookup_insert_ne; [done|]. intros ->. congruence.
  - intros _. rewrite Hdrop. split; [|lia]. cbn. apply list_lookup_insert_eq. by eapply lookup_lt_Some.
Qed.

(** ** Requests *)

#[local] Abbreviation answers := (ClosedLoop.answers step failure faults with_faults).

Lemma scale_client a : answers (AGetClient a) (fun x => x) anything no_error.
Proof. solve_answers. Qed.
Lemma scale_smap c : answers (AGetClusterMap c) (fun x => x) mapped no_error.
Proof. solve_answers. Qed.
Lemma scale_set_config c conf b : answers (ASetClusterConfig c conf b) (fun x => x) anything no_error.
Proof. solve_answers. Qed.
Lemma scale_pod nm : answers (KGetPod nm) (fun x => x) (fun w p => pod_answers w nm (Ok p)) (fun w e => pod_answers w nm (Err e)).
Proof. solve_answers. Qed.

(** A part that writes the object, if anything. *)
Definition wrote {A} (w w' : world) (s' : AIStore) (r : res A) : Prop :=
  match r with
  | Ok _ => same_object ais s' /\ w' = with_stored w s'
  | Err _ => exists f a, faults w = S f /\ same_object ais a /\ w' = with_stored (with_faults w f) a
  end.

Lemma wrote_nothing {A} w s (x : A) : same_object ais s -> stored w = s -> wrote w w s (Ok x).
Proof. intros Hs <-. split; [done|]. by destruct w. Qed.

Lemma wrote_failed {A} w s f e : same_object ais (stored w) -> faults w = S f -> wrote w (with_faults w f) s (Err e : res A).
Proof. intros Hs Hf. exists f, (stored w). split_and!; [done..|]. by destruct w. Qed.

Lemma scale_event b r a n s w (Q : world -> AIStore -> unit -> Prop) :
  Q w s tt -> loop_wpm step (call (EEvent b r a n)) s w Q.
Proof. intros HQ. lw_call_. intros [] w' [->|(n' & _ & Hno & _)]; done. Qed.

Lemma scale_patchStatus s w :
  same_object ais (stored w) -> same_object ais s -> s = set_status (stored w) (Status s) ->
  loop_wpm step patchStatus s w (wrote w).
Proof.
  intros Hw Ho Hs. unfold patchStatus. do 2 lw_step. apply lw_bind. lw_call_.
  intros x w' [Ht|(f & Hf & (e & -> & _) & Hx)].
  - cbn in Ht. rewrite <-Hs in Ht. destruct Ht as [-> ->]. repeat lw_step. by split.
  - unfold record_fail, recordError. apply lw_bind. apply scale_event. lw_step.
    destruct Hx as [->|[x' Ht]]; [by apply wrote_failed|]. cbn in Ht. rewrite <-Hs in Ht. destruct Ht as [_ ->].
    by exists f, s.
Qed.

Context (enc : encodes T).

(** The configuration is sent, and recorded. *)
Lemma scale_config s w :
  same_object ais s -> stored w = s -> loop_wpm step (handleConfigState true) s w (wrote w).
Proof.
  intros Ho Hs. destruct (config_encodes enc s) as (c & h & r & Hc & Hh & _ & Hrh).
  unfold handleConfigState, updateClusterConfig. do 2 lw_step. rewrite Hc. do 3 lw_step. rewrite Hh. cbn [negb andb].
  lw_step. apply (lw_read step _ _ _ _ _ _ _ _ (scale_client _)). intros [cl|e].
  2: { intros f Hf _. repeat lw_step. apply wrote_failed; [by rewrite Hs|done]. }
  lw_step. apply (lw_read step _ _ _ _ _ _ _ _ (scale_set_config _ _ _)). intros [u|e].
  2: { intros f Hf _. repeat lw_step. apply wrote_failed; [by rewrite Hs|done]. }
  lw_step. unfold calcRestartConfigAnnotation. rewrite Hrh. cbn [mbind res_bind].
  case_match; [lw_step; by apply wrote_nothing|].
  unfold patchAISAnnotations. do 4 lw_step. set (m := set_annotations s _).
  assert (same_object ais (patched s m)) as Hp by (destruct Ho; by split).
  lw_step. lw_call_. intros x w' [Ht|(f & Hf & (e & -> & _) & Hx)].
  - cbn in Ht. rewrite Hs in Ht. destruct Ht as [-> ->]. repeat lw_step. by split.
  - lw_step. destruct Hx as [->|[x' Ht]]; [apply wrote_failed; [by rewrite Hs|done]|]. cbn in Ht. rewrite Hs in Ht.
    destruct Ht as [_ ->]. by exists f, (patched s m).
Qed.

(** Rebalance is allowed before targets are decommissioned. *)
Lemma scale_rebalance s w :
  same_object ais s -> stored w = s ->
  loop_wpm step (let? _ := enableRebalanceCondition else e => mret (Err e) in handleConfigState true) s w (wrote w).
Proof.
  intros Ho Hs. unfold enableRebalanceCondition. do 3 lw_step. lw_step; [lw_step; by apply scale_config|].
  do 2 lw_step. set (s1 := SetCondition _ s). assert (same_object ais s1) as Ho1 by (destruct Ho; by split).
  eapply lw_mono; [apply (scale_patchStatus s1); by rewrite ?Hs|].
  intros w1 s2 [u|e]; [|intros Hw; by lw_step]. intros [Ho2 ->].
  eapply lw_mono; [by apply (scale_config s2)|]. intros w3 s3 [v|e]; [by intros [? ->]|].
  intros (f & a & Hf & Ha & ->). by exists f, a.
Qed.

Lemma scale_service nm s w :
  same_object ais (stored w) ->
  loop_wpm step (let? _ := DeleteServiceIfExists nm else e => mret (Err e) in mret (Ok tt)) s w (fun w' s' r =>
    s' = s /\ match r with Ok _ => w' = w | Err _ => exists f, faults w = S f /\ w' = with_faults w f end).
Proof.
  intros Ho. unfold DeleteServiceIfExists, DeleteResourceIfExists. do 2 lw_step. lw_call_.
  intros x w' [[-> Hx]|(f & Hf & (e & -> & [Hm _]) & Hx)].
  - destruct Hx as [->|(e & -> & He)]; cbn; lw_step; unfold allowObjNotFound; rewrite ?He; cbn; by lw_step.
  - apply orb_false_iff in Hm as [Hm1 Hm2]. lw_step. unfold allowObjNotFound. rewrite Hm1, Hm2. cbn. lw_step.
    split; [done|]. exists f. split; [done|]. by destruct Hx as [->|[x' [-> _]]].
Qed.

Context (Hsize : GetTargetSize ais = Some size) (Hfixed : IsTargetAutoScaling ais = false) (Hnonneg : 0 <= size).

(** The spec decides the size, the mode and the services. *)
Lemma same_size s : same_object ais s -> GetTargetSize s = Some size /\ IsTargetAutoScaling s = false.
Proof.
  intros [_ _ Hs _]. assert (IsTargetAutoScaling s = false) as Hf by (unfold IsTargetAutoScaling in *; by rewrite Hs).
  split; [|done]. revert Hsize. unfold GetTargetSize. rewrite Hf, Hfixed. by rewrite Hs.
Qed.

Lemma scale_services ss s w :
  same_object ais s -> stored w = s -> loop_wpm step (scaleDownLB ss) s w (wrote w).
Proof.
  intros Ho Hs. unfold scaleDownLB. do 2 lw_step. lw_step; [lw_step; by apply wrote_nothing|].
  rewrite (proj1 (same_size s Ho)). apply lw_bind, lw_ret.
  eapply lw_mono; [apply (lw_for_each step (fun w' s' => w' = w /\ s' = s)
    (fun w' s' => exists f, faults w = S f /\ w' = with_faults w f))|]; [done| |].
  - intros x s' w' _ [-> ->]. eapply lw_mono; [apply scale_service; by rewrite Hs|].
    intros w1 s1 [u|e] [-> H]; [by subst|exact H].
  - intros w' s' [u|e]; [intros [-> ->]; by apply wrote_nothing|]. intros (f & Hf & ->).
    apply wrote_failed; [by rewrite Hs|done].
Qed.

(** ** Preparing the targets *)

(** Told to leave, and not about to come back. *)
Definition fine (m : member) : bool := negb (is_active m) && negb (is_exited m).
Definition fine_at (w : world) (j : nat) : Prop := exists m, members w !! j = Some m /\ fine m = true.

(** The targets since the cluster map was read. *)
Definition since (w0 w : world) : Prop :=
  better w0 w /\ forall j, members w0 !! j = Some Active -> members w !! j = Some Active \/ fine_at w j.

Lemma fine_better w w' j : better w w' -> fine_at w j -> fine_at w' j.
Proof. intros Hb (m & Hm & Hf). exists m. split; [|done]. eapply bt_settled; [done..|]. by intros ->. Qed.

Lemma since_refl w : world_ok w -> since w w.
Proof. intros Hok. split; [by apply scale_better_refl | by left]. Qed.

Lemma since_told w0 w j m :
  since w0 w -> (kept <= j)%nat -> rounds_left_ok m -> (m = Maint /\ retain = true) \/ is_leaving m = true ->
  members w0 !! j = Some Active -> since w0 (told w j m) /\ better w (told w j m) /\ fine_at (told w j m) j.
Proof.
  intros [Hb Hs] Hj Hm Hmode H0. destruct (told_better w j m (bt_ok _ _ Hb) Hj Hm Hmode) as [Hb' Hnew].
  assert (fine m = true) as Hf by (destruct Hmode as [[-> _]|?]; [done|by destruct m]).
  assert (fine_at (told w j m) j) as Hj'.
  { destruct (Hs j H0) as [Ha|Hfj]; [exists m; split; [by apply Hnew|done]|]. by eapply fine_better. }
  split; [split; [by eapply scale_better_trans|]|by split]. intros i Hi. destruct (decide (i = j)) as [->|Hij]; [by right|].
  destruct (Hs i Hi) as [Ha|Hfi]; [left|right; by eapply fine_better].
  unfold told. case_bool_decide; [|done]. cbn. by rewrite list_lookup_insert_ne.
Qed.

(** A request that tells one target to leave. *)
Lemma scale_tell r (y : answer r -> res string) j s w0 w (m : nat -> nat -> member)
    (Q : world -> AIStore -> answer r -> Prop) :
  since w0 w -> (kept <= j)%nat -> members w0 !! j = Some Active ->
  (forall d e, (d <= D)%nat -> (e <= D)%nat -> rounds_left_ok (m d e) /\ ((m d e = Maint /\ retain = true) \/ is_leaving (m d e) = true)) ->
  (forall v x w', truth v r x w' -> exists d e, (d <= D)%nat /\ (e <= D)%nat /\ is_ok (y x) = true /\ w' = told v j (m d e)) ->
  (forall x, fails r x -> is_ok (y x) = false) ->
  (forall x w', is_ok (y x) = true -> since w0 w' -> better w w' -> fine_at w' j -> Q w' s x) ->
  (forall x w', is_ok (y x) = false -> faulted w w' -> Q w' s x) ->
  loop_wpm step (call r) s w Q.
Proof.
  intros Hs Hj H0 Hm Htruth Hfails HOk HErr. apply lw_call. intros x w' [Ht|(f & Hf & Hx & Hw)].
  - destruct (Htruth _ _ _ Ht) as (d & e & Hd & He & Hy & ->). destruct (Hm d e Hd He) as [Hr Hmode].
    destruct (since_told w0 w j (m d e) Hs Hj Hr Hmode H0) as (? & ? & ?). by apply HOk.
  - apply HErr; [by apply Hfails|]. assert (world_ok w) as Hok by apply Hs.
    pose proof (scale_faulted_here w f Hok Hf) as Hfh.
    destruct Hw as [->|[x' Ht]]; [done|]. destruct (Htruth _ _ _ Ht) as (d & e & Hd & He & _ & ->).
    destruct (Hm d e Hd He) as [Hr Hmode]. destruct Hfh as [Hb Hlt].
    destruct (told_better (with_faults w f) j (m d e) (bt_ok _ _ Hb) Hj Hr Hmode) as [Hb' _].
    split; [by eapply scale_better_trans|]. pose proof (bt_faults _ _ Hb'). lia.
Qed.
Lemma same_names a : same_object ais a ->
  (forall i, Target.PodName a i = Target.PodName ais i) /\ (forall p, in_ns a p = in_ns ais p) /\
  Target.StatefulSetNSName a = target_set.
Proof.
  intros [Hn _ _ _].
  unfold target_set, Target.StatefulSetNSName, Target.PodName, Target.statefulSetName, in_ns, aname. by rewrite Hn.
Qed.

(** A target that has gone and whose pod may come back. *)
Definition restarting (w : world) : Prop := existsb is_exited (surplus w) = true.

Lemma surplus_member w j m (f : member -> bool) :
  (kept <= j)%nat -> members w !! j = Some m -> f m = true -> existsb f (surplus w) = true.
Proof.
  intros Hj Hm Hf. apply existsb_exists. exists m. split; [|done]. apply list_elem_of_In.
  apply (list_elem_of_lookup_2 _ (j - kept)). unfold surplus. rewrite lookup_drop. by replace (kept + (j - kept))%nat with j by lia.
Qed.

(** What the preparation of some targets does. *)
Definition prepared (w0 w w' : world) (js : list Z) (r : res unit) : Prop :=
  match r with
  | Ok _ => since w0 w' /\ better w w' /\ forall i, i ∈ js -> fine_at w' (Z.to_nat i)
  | Err _ => faulted w0 w' \/ better w0 w' /\ restarting w'
  end.

(** A target that is not a member: its pod decides. *)
Lemma scale_prepare_gone name w0 w j m i s :
  since w0 w -> (kept <= j)%nat -> Z.to_nat i = j -> name = Target.PodName ais (Z.of_nat j) ->
  members w !! j = Some m -> in_map m = false ->
  loop_wpm step
    (r ← GetPod (in_ns ais name);
     mret (match r with
           | Err podErr => if is_not_found podErr then Ok tt else Err (wrap ("failed to get pod " +:+ name) podErr)
           | Ok pod =>
               if isPodUnschedulable (Some pod) || isPodInCrashLoopBackOff pod then Ok tt
               else Err (errorf ("waiting for target " +:+ name +:+ " to register in smap"))
           end)) s w (fun w' s' r => s' = s /\ prepared w0 w w' [i] r).
Proof.
  intros Hs Hkj Hij -> Hmj Hin. assert (world_ok w) as Hok by apply Hs.
  assert (m = Out -> prepared w0 w w [i] (Ok tt)) as Hout.
  { intros ->. split_and!; [done|by apply scale_better_refl|]. intros i' ->%list_elem_of_singleton. rewrite Hij. by exists Out. }
  apply lw_bind. eapply (lw_answers step); [apply scale_pod|]. intros [pod|pe].
  - intros Hp. specialize (Hp j m Hmj eq_refl). destruct m as [| | |k|]; try done.
    + destruct Hp as (pod' & [= <-] & -> & ->). lw_step. split; [done|]. right. split; [apply Hs|]. by eapply surplus_member.
    + assert (isPodInCrashLoopBackOff pod = true) as -> by (destruct Hp as [(? & [= <-] & ?)|(? & ? & _)]; done).
      rewrite orb_true_r. lw_step. split; [done|]. by apply Hout.
  - split.
    + intros Hp. specialize (Hp j m Hmj eq_refl). destruct m as [| | |k|]; try done; [by destruct Hp as (? & ? & _)|].
      assert (is_not_found pe = true) as -> by (destruct Hp as [(? & ? & _)|(? & [= <-] & ?)]; done).
      lw_step. split; [done|]. by apply Hout.
    + intros f Hf [Hm' _]. apply orb_false_iff in Hm' as [Hnf _]. rewrite Hnf. lw_step. split; [done|]. left.
      eapply scale_better_faulted; [apply Hs|]. by apply scale_faulted_here.
Qed.

Lemma scale_prepare_one a c smap w0 w i s :
  same_object ais a -> mapped w0 smap -> since w0 w -> size <= i < asked w0 ->
  loop_wpm step (prepare_target a c smap i) s w (fun w' s' r => s' = s /\ prepared w0 w w' [i] r).
Proof.
  intros Ha [Hmap _] Hs Hi. destruct (same_names a Ha) as (Hpod & Hns & _). pose proof Hs as [Hb _].
  assert (world_ok w) as Hok by apply Hb.
  set (j := Z.to_nat i). assert (Z.of_nat j = i) as Hji by (unfold j; lia).
  assert (kept <= j)%nat as Hkj by (unfold kept; lia).
  assert (is_Some (members w0 !! j)) as [m Hm].
  { apply lookup_lt_is_Some. pose proof (ok_length _ Hok). pose proof (bt_asked _ _ Hb). pose proof (bt_length _ _ Hb). lia. }
  assert (m ≠ Active -> members w !! j = Some m) as Hnow by (by apply (bt_settled _ _ Hb)).
  assert (forall w', since w0 w' -> better w w' -> fine_at w' j -> prepared w0 w w' [i] (Ok tt)) as Hdone
    by (intros w' Hw' Hb' Hf; split_and!; [done..|intros i' ->%list_elem_of_singleton; done]).
  assert (forall w' e, faulted w w' -> prepared w0 w w' [i] (Err e)) as Hfailed
    by (intros w' e Hf; left; by eapply scale_better_faulted).
  unfold prepare_target. rewrite Hpod, Hns. specialize (Hmap j m Hm). rewrite Hji in Hmap.
  destruct (findAISNodeByPodName _ _) as [node|e].
  - destruct Hmap as (Hin & Hid & _ & Hmd). rewrite Hmd. lw_step.
    { lw_step. split; [done|]. apply Hdone; [done|by apply scale_better_refl|]. exists m. split; [|by destruct m]. apply Hnow. by intros ->. }
    assert (m = Active) as -> by (by destruct m).
    lw_step; apply lw_try.
    + eapply (scale_tell (AStartMaintenance c (MkRmNode (sn_ID node) true false)) (fun x => x) j s w0 w (fun _ _ => Maint)); try done.
      * intros d e _ _. split; [done|]. left. split; [done|]. unfold retain. by rewrite <-(so_spec _ _ Ha).
      * intros v x w' [[y ->] Ht]. exists 0%nat, 0%nat. split_and!; [lia|lia|done|]. by apply Ht.
      * by intros x (e & -> & _).
      * intros [y|e] w' Hy Hsw Hbw Hfw; [|done]. lw_step. split; [done|]. by apply Hdone.
      * intros [y|e] w' Hy Hf; [done|]. lw_step. split; [done|]. by apply Hfailed.
    + eapply (scale_tell (ADecommissionNode c (MkRmNode (sn_ID node) false _)) (fun x => x) j s w0 w Leaving); try done.
      * intros d e Hd He. by split; [|right].
      * intros v x w' ([y ->] & d & e & Hd & He & Ht). exists d, e. split_and!; [done..|]. by apply Ht.
      * by intros x (e & -> & _).
      * intros [y|e] w' Hy Hsw Hbw Hfw; [|done]. lw_step. split; [done|]. by apply Hdone.
      * intros [y|e] w' Hy Hf; [done|]. lw_step. split; [done|]. by apply Hfailed.
  - apply (scale_prepare_gone _ w0 w j m); [done..|by rewrite Hji|apply Hnow; by intros ->|done].
Qed.

Lemma scale_prepare_each a c smap w0 js s w :
  same_object ais a -> mapped w0 smap -> since w0 w -> (forall i, i ∈ js -> size <= i < asked w0) ->
  loop_wpm step (for_each js (prepare_target a c smap)) s w (fun w' s' r => s' = s /\ prepared w0 w w' js r).
Proof.
  intros Ha Hm. revert s w. induction js as [|i js IH]; intros s w Hs Hjs; cbn [for_each].
  { lw_step. split; [done|]. split_and!; [done|apply scale_better_refl, Hs|]. by intros i Hi%not_elem_of_nil. }
  lw_step. eapply lw_mono; [apply scale_prepare_one; try done; apply Hjs; by left|].
  intros w1 s1 [u|e] [-> H1]; [|by lw_step]. destruct H1 as (Hs1 & Hb1 & Hf1).
  eapply lw_mono; [apply IH; [done|intros; apply Hjs; by right]|].
  intros w2 s2 [v|e] [-> H2]; [|by split]. destruct H2 as (Hs2 & Hb2 & Hf2). split; [done|].
  split_and!; [done|by eapply scale_better_trans|].
  intros i' [->|Hi']%elem_of_cons; [eapply fine_better; [done|]; apply Hf1; by left|by apply Hf2].
Qed.

(** The surplus targets, all told to leave. *)
Definition all_fine (w : world) : Prop := forallb fine (surplus w) = true.

(** What a stage of the scale-down does before the replicas are set. *)
Definition readied (w w' : world) (s' : AIStore) (r : res unit) : Prop :=
  match r with
  | Ok _ => better w w' /\ same_object ais s' /\ all_fine w'
  | Err _ => faulted w w' \/ better w w' /\ restarting w'
  end.

Lemma scale_prepare s w :
  world_ok w -> same_object ais s -> loop_wpm step (prepareTargetsForScaleDown (asked w)) s w (readied w).
Proof.
  intros Hok Hs. unfold prepareTargetsForScaleDown. do 2 lw_step. lw_step.
  apply (lw_read step _ _ _ _ _ _ _ _ (scale_client _)). intros [c|e].
  2: { intros f Hf _. repeat lw_step. left. by apply scale_faulted_here. }
  lw_step. eapply (lw_answers step); [apply scale_smap|]. intros [smap|e].
  2: { split; [done|]. intros f Hf _. repeat lw_step. left. by apply scale_faulted_here. }
  intros Hm. rewrite (proj1 (same_size s Hs)). apply lw_bind, lw_ret.
  eapply lw_mono; [apply (scale_prepare_each s c smap w); [done..|by apply since_refl|]|].
  { intros i Hi. by apply elem_of_removed_indices. }
  intros w' s' [u|e] [-> H]; [|exact H]. destruct H as (_ & Hb & Hf). split_and!; [done..|].
  apply forallb_forall. intros m Hin. apply list_elem_of_In, list_elem_of_lookup in Hin as [k Hk].
  unfold surplus in Hk. rewrite lookup_drop in Hk. apply lookup_lt_Some in Hk as Hlt.
  destruct (Hf (Z.of_nat (kept + k))) as (m' & Hm' & Hfine).
  - apply elem_of_removed_indices. pose proof (ok_length _ (bt_ok _ _ Hb)). pose proof (bt_asked _ _ Hb). unfold kept in *. lia.
  - rewrite Nat2Z.id in Hm'. congruence.
Qed.

Lemma wrote_better {A} w w' s (x : A) : world_ok w -> wrote w w' s (Ok x) -> better w w' /\ stored w' = s /\ same_object ais s.
Proof. intros Hok [Hs ->]. split_and!; [by apply stored_better|done..]. Qed.

Lemma wrote_faulted {A} w w' s e : world_ok w -> wrote w w' s (Err e : res A) -> faulted w w'.
Proof. intros Hok (f & a & Hf & Ha & ->). by apply stored_faulted. Qed.

Lemma readied_after w w1 w' s' r : better w w1 -> readied w1 w' s' r -> readied w w' s' r.
Proof.
  intros Hb. destruct r as [u|e]; [|intros [H|[H ?]]; [left; by eapply scale_better_faulted|right; split; [|done]]];
    [intros (H & ? & ?); split_and!; [|done..]|]; by eapply scale_better_trans.
Qed.

Lemma scale_start ss s w :
  world_ok w -> same_object ais s -> stored w = s -> sss_Replicas (ss_Spec ss) = asked w ->
  loop_wpm step (startTargetScaling ss) s w (readied w).
Proof.
  intros Hok Hs Hst Hss. unfold startTargetScaling. do 2 lw_step. rewrite (proj1 (same_size s Hs)). apply lw_bind, lw_ret.
  pose proof (ok_asked _ Hok). replace (sss_Replicas (ss_Spec ss) <? size) with false by (symmetry; apply Z.ltb_ge; lia).
  lw_step. eapply lw_mono; [instantiate (1 := wrote w)|].
  { destruct (RetainOnScaleDown _); [lw_step; by apply wrote_nothing|by apply scale_rebalance]. }
  intros w1 s1 [u|e] H1; [|lw_step; left; by eapply wrote_faulted].
  apply wrote_better in H1 as (Hb1 & Hst1 & Hs1); [|done]. pose proof (bt_ok _ _ Hb1) as Hok1.
  lw_step. eapply lw_mono; [by apply scale_services|].
  intros w2 s2 [v|e] H2; [|lw_step; left; eapply scale_better_faulted; [done|by eapply wrote_faulted]].
  apply wrote_better in H2 as (Hb2 & Hst2 & Hs2); [|done]. pose proof (scale_better_trans _ _ _ Hb1 Hb2) as Hb.
  rewrite Hss, <-(bt_asked _ _ Hb). eapply lw_mono; [apply scale_prepare; [apply Hb|done]|].
  intros w3 s3 r. by apply readied_after.
Qed.

(** ** Setting the replicas *)

(** Targets that have left the cluster, or are in maintenance. *)
Definition all_left (w : world) : Prop := Forall (fun m => m = Out \/ m = Maint) (surplus w).

(** The end of a call: the replicas are set, or not yet. *)
Inductive called (w w' : world) : Prop :=
| called_same : asked w = size -> w' = w -> called w w'
| called_faulted : faulted w w' -> called w w'
| called_waits : better w w' -> existsb is_leaving (surplus w') = true \/ restarting w' -> called w w'
| called_stuck : better w w' -> stuck w' -> called w w'
| called_resized w1 : better w w1 -> asked w ≠ size -> all_left w1 -> ~ stuck w1 -> w' = resize w1 size -> called w w'.

Lemma called_after w w1 w' : better w w1 -> asked w ≠ size -> called w1 w' -> called w w'.
Proof.
  intros Hb Hne [Ha ->|Hf|Hb1 H|Hb1 H|w2 Hb2 H1 H2 H3 ->].
  - rewrite (bt_asked _ _ Hb) in Ha. done.
  - apply called_faulted. by eapply scale_better_faulted.
  - apply called_waits; [by eapply scale_better_trans|done].
  - apply called_stuck; [by eapply scale_better_trans|done].
  - eapply called_resized; [by eapply scale_better_trans|done..].
Qed.

(** The answer of [isReadyToScaleDown]. *)
Definition ready_answer (a : AIStore) (smap : Smap) (current : Z) : bool :=
  if RetainOnScaleDown (spec_TargetSpec (Spec a)) then isReadyToScaleDownRetain a size smap current
  else isReadyToScaleDownDecommission smap current.

Lemma surplus_lookup w j m : (kept <= j)%nat -> members w !! j = Some m -> m ∈ surplus w.
Proof.
  intros Hj Hm. apply (list_elem_of_lookup_2 _ (j - kept)). unfold surplus. rewrite lookup_drop.
  by replace (kept + (j - kept))%nat with j by lia.
Qed.

Lemma surplus_from w m : m ∈ surplus w -> exists j, (kept <= j)%nat /\ members w !! j = Some m.
Proof. intros [k Hk]%list_elem_of_lookup. unfold surplus in Hk. rewrite lookup_drop in Hk. exists (kept + k)%nat. split; [lia|done]. Qed.

Lemma all_fine_in w m : all_fine w -> m ∈ surplus w -> fine m = true.
Proof. unfold all_fine. rewrite forallb_forall. intros H Hm. by apply H, list_elem_of_In. Qed.

Lemma leaving_surplus w : world_ok w -> existsb is_leaving (members w) = true -> existsb is_leaving (surplus w) = true.
Proof.
  intros Hok (m & Hm & Hl)%existsb_exists. apply list_elem_of_In, list_elem_of_lookup in Hm as [j Hm].
  destruct (decide (kept <= j)%nat) as [Hj|Hj]; [by eapply surplus_member|].
  destruct (ok_kept _ Hok j m ltac:(lia) Hm) as [-> | ->]; done.
Qed.

(** The surplus ordinals are those of the surplus targets. *)
Lemma surplus_index w i : world_ok w -> i ∈ indices_down (asked w) size ->
  exists m, members w !! Z.to_nat i = Some m /\ m ∈ surplus w /\ Z.of_nat (Z.to_nat i) = i.
Proof.
  intros Hok Hi%elem_of_removed_indices. pose proof (ok_length _ Hok).
  destruct (lookup_lt_is_Some_2 (members w) (Z.to_nat i) ltac:(lia)) as [m Hm].
  exists m. split_and!; [done| |lia]. eapply surplus_lookup; [|done]. unfold kept. lia.
Qed.

Lemma index_surplus w m : world_ok w -> m ∈ surplus w ->
  exists i, i ∈ indices_down (asked w) size /\ members w !! Z.to_nat i = Some m /\ Z.of_nat (Z.to_nat i) = i.
Proof.
  intros Hok (j & Hj & Hm)%surplus_from. exists (Z.of_nat j). rewrite Nat2Z.id. split_and!; [|done..].
  apply elem_of_removed_indices. apply lookup_lt_Some in Hm. pose proof (ok_length _ Hok). unfold kept in Hj. lia.
Qed.

Lemma retain_answer a w smap :
  same_object ais a -> world_ok w -> all_fine w -> mapped w smap ->
  if isReadyToScaleDownRetain a size smap (asked w) then all_left w else existsb is_leaving (surplus w) = true.
Proof.
  intros Ha Hok Hf [Hmap _]. destruct (same_names a Ha) as (Hpod & _ & _). unfold isReadyToScaleDownRetain.
  destruct (forallb _ _) eqn:Hb.
  - apply Forall_forall. intros m Hm. pose proof (all_fine_in _ _ Hf Hm) as Hfm.
    destruct (index_surplus _ _ Hok Hm) as (i & Hi & Hmi & Hz). rewrite forallb_forall in Hb.
    apply list_elem_of_In, Hb in Hi. rewrite Hpod in Hi. specialize (Hmap _ _ Hmi). rewrite Hz in Hmap.
    destruct (findAISNodeByPodName _ _) as [node|e].
    + destruct Hmap as (_ & _ & Him & _). rewrite Him in Hi. destruct m; try done. by right.
    + destruct m; try done. by left.
  - apply not_true_iff_false in Hb. apply not_false_iff_true. intros Hno. apply Hb, forallb_forall.
    intros i Hi%list_elem_of_In. destruct (surplus_index _ _ Hok Hi) as (m & Hmi & Hm & Hz). rewrite Hpod.
    specialize (Hmap _ _ Hmi). rewrite Hz in Hmap. destruct (findAISNodeByPodName _ _) as [node|e]; [|done].
    destruct Hmap as (Hin & _ & -> & _). pose proof (all_fine_in _ _ Hf Hm) as Hfm. destruct m; try done.
    exfalso. apply not_true_iff_false in Hno. apply Hno. apply existsb_exists. eexists. split; [by apply list_elem_of_In|done].
Qed.

(** The members are as many as the replicas exactly when no target is gone. *)
Lemma counted w smap :
  world_ok w -> mapped w smap ->
  (i32 (Z.of_nat (length (Tmap smap))) =? asked w) = true <-> forall m, m ∈ members w -> in_map m = true.
Proof.
  intros Hok (_ & _ & ->). pose proof (filter_length_le in_map (members w)) as Hle. pose proof (ok_length _ Hok) as Hl.
  pose proof (ok_i32 _ Hok) as Hi. rewrite i32_id by (unfold is_i32 in *; lia). rewrite Z.eqb_eq. split.
  - intros He. apply filter_all. lia.
  - intros He. rewrite all_filter by done. lia.
Qed.

Lemma surplus_sub w m : m ∈ surplus w -> m ∈ members w.
Proof. intros (j & _ & Hm)%surplus_from. by eapply list_elem_of_lookup_2. Qed.

Lemma decommission_answer w smap :
  world_ok w -> all_fine w -> mapped w smap -> asked w ≠ size ->
  if isReadyToScaleDownDecommission smap (asked w) then all_left w /\ ~ Forall (fun m => m = Maint) (surplus w)
  else existsb is_leaving (surplus w) = true \/ Forall (fun m => m = Maint) (surplus w).
Proof.
  intros Hok Hf Hmap Hne. pose proof (counted w smap Hok Hmap) as Hc. unfold isReadyToScaleDownDecommission.
  destruct Hmap as (_ & -> & _). destruct (existsb is_leaving (members w)) eqn:Hl; [left; by apply leaving_surplus|].
  assert (forall m, m ∈ surplus w -> m = Out \/ m = Maint) as Hal.
  { intros m Hm. pose proof (all_fine_in _ _ Hf Hm). apply not_true_iff_false in Hl.
    destruct m; try done; [by right| |by left]. exfalso. apply Hl, existsb_exists. eexists.
    split; [by apply list_elem_of_In, surplus_sub|done]. }
  destruct (i32 _ =? asked w); cbn [negb].
  - right. destruct Hc as [Hc _]. specialize (Hc eq_refl). apply Forall_forall. intros m Hm.
    destruct (Hal m Hm) as [->| ->]; [|done]. by apply surplus_sub, Hc in Hm.
  - split; [by apply Forall_forall|]. intros Hall. rewrite Forall_forall in Hall.
    destruct Hc as [_ Hc]. discriminate Hc. intros x [j Hx]%list_elem_of_lookup.
    destruct (decide (kept <= j)%nat) as [Hj|Hj]; [by rewrite (Hall x (surplus_lookup _ _ _ Hj Hx))|].
    destruct (ok_kept _ Hok j x ltac:(lia) Hx) as [-> | ->]; done.
Qed.

Lemma ready_means a w smap :
  same_object ais a -> world_ok w -> all_fine w -> mapped w smap -> asked w ≠ size ->
  if ready_answer a smap (asked w) then all_left w /\ ~ stuck w
  else existsb is_leaving (surplus w) = true \/ stuck w.
Proof.
  intros Ha Hok Hf Hm Hne. unfold ready_answer. rewrite (so_spec _ _ Ha). fold retain. destruct retain eqn:Hr.
  - pose proof (retain_answer a w smap Ha Hok Hf Hm). destruct (isReadyToScaleDownRetain _ _ _ _); [|by left].
    split; [done|]. intros [? _]. congruence.
  - pose proof (decommission_answer w smap Hok Hf Hm Hne) as H. destruct (isReadyToScaleDownDecommission _ _).
    + destruct H as [H1 H2]. split; [done|]. by intros (_ & _ & ?).
    + destruct H as [H|H]; [by left|by right].
Qed.

Lemma scale_get : answers (KGetStatefulSet target_set) (fun x => x) sees no_error.
Proof.
  intros w x w' [[-> H]|(n0 & Hn & (e & -> & He) & Hw)].
  - by destruct (H eq_refl) as (ss & -> & Hss).
  - right. split; [done|]. exists n0. split; [done|]. destruct Hw as [->|[x' [-> _]]]; done.
Qed.

(** The replicas are set once all have left. *)
Lemma scale_update s w :
  world_ok w -> asked w ≠ size -> all_left w -> ~ stuck w ->
  loop_wpm step (UpdateStatefulSetReplicas target_set size) s w (fun w' s' _ => called w w').
Proof.
  intros Hok Hne Hl Hns. unfold UpdateStatefulSetReplicas, GetStatefulSet. lw_step.
  eapply (lw_answers step); [apply scale_get|]. intros [ss|e].
  2: { split; [done|]. intros f Hf _. lw_step. apply called_faulted. by apply scale_faulted_here. }
  intros (Hname & Hrep & _). rewrite Hrep. lw_step; [apply Z.eqb_eq in Heqb; congruence|]. lw_step. lw_call_.
  intros x w' [Ht|(f & Hf & (e & -> & _) & Hx)].
  - destruct (Ht Hname) as [-> ->]. repeat lw_step. by apply (called_resized _ _ w); [apply scale_better_refl|..].
  - repeat lw_step. pose proof (scale_faulted_here w f Hok Hf) as Hfh. destruct Hx as [->|[x' Ht]]; [by apply called_faulted|].
    destruct (Ht Hname) as [_ ->]. by apply (called_resized _ _ (with_faults w f)); [apply Hfh|..].
Qed.

Lemma scale_ready a w s (Q : world -> AIStore -> res bool -> Prop) :
  world_ok w ->
  (forall smap, mapped w smap -> Q w s (Ok (ready_answer a smap (asked w)))) ->
  (forall f e, faults w = S f -> Q (with_faults w f) s (Err e)) ->
  loop_wpm step (isReadyToScaleDown a size (asked w)) s w Q.
Proof.
  intros Hok HQ He. unfold isReadyToScaleDown. lw_step.
  apply (lw_read step _ _ _ _ _ _ _ _ (scale_client _)). intros [c|e].
  2: { intros f Hf _. lw_step. by apply He. }
  lw_step. eapply (lw_answers step); [apply scale_smap|]. intros [smap|e].
  2: { split; [done|]. intros f Hf _. lw_step. by apply He. }
  intros Hm. lw_step. by apply HQ.
Qed.

Lemma scale_resolve s w :
  world_ok w -> asked w ≠ size -> same_object ais s -> all_fine w ->
  loop_wpm step resolveStatefulSetScaling s w (fun w' s' _ => called w w').
Proof.
  intros Hok Hne Hs Hf. pose proof (ok_asked _ Hok). destruct (same_names s Hs) as (_ & _ & Hset).
  unfold resolveStatefulSetScaling, GetStatefulSet. do 2 lw_step. rewrite (proj1 (same_size s Hs)), Hset.
  apply lw_bind, lw_ret. lw_step. eapply (lw_answers step); [apply scale_get|]. intros [ss|e].
  2: { split; [done|]. intros f Hfl _. lw_step. apply called_faulted. by apply scale_faulted_here. }
  intros (_ & -> & _). replace (asked w <? size) with false by (symmetry; apply Z.ltb_ge; lia).
  replace (size <? asked w) with true by (symmetry; apply Z.ltb_lt; lia).
  lw_step. apply scale_ready; [done| |].
  2: { intros f e Hfl. lw_step. apply called_faulted. by apply scale_faulted_here. }
  intros smap Hm. pose proof (ready_means s w smap Hs Hok Hf Hm Hne) as Hr. destruct (ready_answer _ _ _); cbn [negb].
  - destruct Hr as [Hl Hns]. do 3 lw_step. rewrite Hset. eapply lw_mono; [by apply scale_update|].
    intros w' s' [b|e] Hc; by lw_step.
  - lw_step. destruct Hr as [Hr|Hr]; [apply called_waits; [by apply scale_better_refl|by left]|].
    apply called_stuck; [by apply scale_better_refl|done].
Qed.

Lemma scale_call ss w :
  world_ok w -> sees w ss -> loop_wpm step (scaling_stage ss) (stored w) w (fun w' s' _ => called w w').
Proof.
  intros Hok (Hname & Hrep & Hroll). pose proof (ok_object _ Hok) as Hs. destruct (same_size _ Hs) as [Hsz Hau].
  unfold scaling_stage, isTargetScalingNeeded, statefulsetScalingNeeded. do 2 lw_step. rewrite Hrep, Hau, Hroll, andb_true_r.
  pose proof (ok_asked _ Hok). replace (asked w <? size) with false by (symmetry; apply Z.ltb_ge; lia).
  destruct (size =? asked w) eqn:He; [lw_step; by apply called_same; [symmetry; apply Z.eqb_eq|]|].
  assert (asked w ≠ size) as Hne by (apply Z.eqb_neq in He; congruence). cbn [negb].
  unfold handleTargetScaling, confirmScalingNeeded. do 2 lw_step. rewrite Hsz, Hau. apply lw_bind, lw_ret.
  cbn [negb orb]. do 2 lw_step. cbn [negb]. lw_step. eapply lw_mono; [by apply scale_start|].
  intros w1 s1 [u|e] H1.
  2: { lw_step. destruct H1 as [Hf|[Hb Hr]]; [by apply called_faulted|apply called_waits; [done|by right]]. }
  destruct H1 as (Hb & Hs1 & Hf). lw_step. eapply lw_mono; [apply scale_resolve; [apply Hb| |done..]|].
  { by rewrite (bt_asked _ _ Hb). }
  intros w2 s2 [u'|e] Hc; lw_step; by eapply called_after.
Qed.

(** ** Time passes *)

Lemma tick_lookup w j q : members (tick w) !! j = Some q -> exists m, members w !! j = Some m /\ q = tick_member m.
Proof. cbn. rewrite list_lookup_fmap. destruct (members w !! j); cbn; naive_solver. Qed.

Lemma surplus_tick w : surplus (tick w) = tick_member <$> surplus w.
Proof. symmetry. apply fmap_drop. Qed.

Lemma scale_tick_ok w : world_ok w -> world_ok (tick w).
Proof.
  intros [Ho Has Hi Hl Hk Hr Hrem]. split; cbn; [done..|by rewrite length_fmap| | |done].
  - intros j q Hj Hq. destruct (tick_lookup w j q Hq) as (m & Hm & ->). destruct (Hk j m Hj Hm) as [-> | ->]; auto.
  - apply Forall_fmap. eapply Forall_impl; [exact Hr|]. intros [| |[] e|[]|] Hm; cbn in *; lia.
Qed.

Lemma scale_tick_weight m : (weight (tick_member m) <= weight m)%nat.
Proof. destruct m as [| |[] e|[]|]; cbn; lia. Qed.

Lemma scale_tick_sum w :
  (sum_list_with weight (surplus (tick w)) <= sum_list_with weight (surplus w))%nat /\
  (existsb is_leaving (surplus w) = true \/ restarting w ->
   (sum_list_with weight (surplus (tick w)) < sum_list_with weight (surplus w))%nat).
Proof.
  rewrite surplus_tick, fmap_is_imap. split; [apply sum_imap_le; intros; apply scale_tick_weight|].
  intros Hm. assert (exists k m, surplus w !! k = Some m /\ (weight (tick_member m) < weight m)%nat) as (k & m & Hk & Hlt).
  { destruct Hm as [(m & Hin & Hm)%existsb_exists|(m & Hin & Hm)%existsb_exists];
      apply list_elem_of_In, list_elem_of_lookup in Hin as [k Hk]; exists k, m; (split; [done|]);
      destruct m as [| |[] e|[]|]; try done; cbn; lia. }
  eapply sum_imap_lt; [|done|done]. intros. apply scale_tick_weight.
Qed.

Lemma scale_tick_stuck w : stuck (tick w) -> stuck w.
Proof.
  intros (Hr & Hne & Hall). split_and!; [done..|]. rewrite surplus_tick in Hall. apply Forall_fmap in Hall.
  eapply Forall_impl; [exact Hall|]. by intros [| |[] e|[]|].
Qed.

(** ** Rounds *)

Lemma scale_round_called w w' : world_ok w -> round w w' -> exists w1, called w w1 /\ w' = tick w1.
Proof.
  intros Hok (ss & t & o & w1 & Hs & Hex & Hp & ->). exists w1. split; [|done].
  by destruct (loop_adequate _ _ _ _ _ _ _ (scale_call ss w Hok Hs) Hex Hp) as (a & _ & ?).
Qed.

Lemma scale_resized w : world_ok w -> all_left w -> world_ok (resize w size) /\ surplus (resize w size) = [].
Proof.
  intros [Ho Has Hi Hl Hk Hr Hrem] Hal. split.
  - split; cbn; [done|lia|unfold is_i32 in *; lia|rewrite length_take; lia| |by apply Forall_take|by apply Forall_app].
    intros j m Hj Hm. apply lookup_take_Some in Hm as [Hm _]. by eapply Hk.
  - unfold surplus, resize, kept. cbn. apply drop_ge. rewrite length_take. lia.
Qed.

Lemma called_ok w w' : world_ok w -> called w w' -> world_ok w' /\ (stuck w' -> stuck w).
Proof.
  intros Hok [_ ->|[Hb _]|Hb _|Hb _|w1 Hb _ Hl _ ->]; [done|split; apply Hb..|].
  destruct (scale_resized w1 (bt_ok _ _ Hb) Hl) as [H1 H2]. split; [done|]. by intros (_ & [] & _).
Qed.

Lemma called_asked w w' : called w w' -> asked w' = asked w \/ asked w' = size.
Proof. intros [_ ->|[Hb _]|Hb _|Hb _|w1 Hb _ Hl _ ->]; [by left|left; apply Hb..|by right]. Qed.

(** A round that does not end the scale-down brings it closer. *)
Lemma called_closer w w' : ~ stuck w -> called w w' -> asked w = size \/ (distance (tick w') < distance w)%nat.
Proof.
  intros Hmay Hc. destruct (scale_tick_sum w') as [Hle Hlt]. unfold distance. change (asked (tick w')) with (asked w').
  change (faults (tick w')) with (faults w').
  destruct Hc as [? ->|[Hb Hf]|Hb Hw|Hb Hns|w1 Hb Hne Hl _ ->]; [by left|right..].
  - pose proof (bt_sum _ _ Hb). rewrite (bt_asked _ _ Hb). lia.
  - pose proof (bt_sum _ _ Hb). pose proof (bt_faults _ _ Hb). specialize (Hlt Hw). rewrite (bt_asked _ _ Hb). lia.
  - by destruct Hmay; apply Hb.
  - destruct (scale_resized w1 (bt_ok _ _ Hb) Hl) as [_ H2]. rewrite H2 in Hle. cbn in Hle |- *. rewrite Z.eqb_refl.
    apply Z.eqb_neq in Hne. rewrite Hne. pose proof (bt_faults _ _ Hb). lia.
Qed.

#[export] Instance scale_down_measured :
  Measured round (fun w => world_ok w /\ ~ stuck w) resized distance.
Proof.
  split.
  - intros w w' [Hok Hm] (w1 & Hc & ->)%scale_round_called; [|done]. destruct (called_ok w w1 Hok Hc) as [? H1].
    split; [by apply scale_tick_ok|]. by intros ?%scale_tick_stuck%H1.
  - intros w w' [Hok _] (w1 & Hc & ->)%scale_round_called Ha; [|done]. apply called_asked in Hc. unfold resized in *. cbn. destruct Hc; congruence.
  - intros w w' [Hok Hm] (w1 & Hc & ->)%scale_round_called; [|done]. by apply called_closer.
  - intros w [Hok _] Hd. unfold distance in Hd. destruct (asked w =? size) eqn:He; [by apply Z.eqb_eq|lia].
Qed.

Lemma scale_distance_bound w : world_ok w -> (distance w <= Z.to_nat (asked w - size) * (2 * D + 3) + 1 + faults w)%nat.
Proof.
  intros Hok. unfold distance. enough (sum_list_with weight (surplus w) <= length (surplus w) * (2 * D + 3))%nat as Hs.
  { unfold surplus at 2 in Hs. rewrite length_drop in Hs. pose proof (ok_length _ Hok).
    replace (length (members w) - kept)%nat with (Z.to_nat (asked w - size)) in Hs by (unfold kept; lia).
    destruct (asked w =? size); lia. }
  apply sum_bound. intros j m Hm. unfold surplus in Hm. rewrite lookup_drop in Hm.
  pose proof (ok_rounds _ Hok) as Hr. rewrite Forall_forall in Hr. apply list_elem_of_lookup_2, Hr in Hm.
  destruct m; cbn in *; lia.
Qed.

(** A scale-down whose targets stay goes on for ever. *)
Lemma stuck_better w w' : better w w' -> stuck w -> stuck w'.
Proof.
  intros Hb (Hr & Hne & Hs). split_and!; [done|by rewrite (bt_asked _ _ Hb)|]. rewrite Forall_forall in *. intros m (j & Hj & Hm)%surplus_from.
  apply lookup_lt_Some in Hm as Hlt. rewrite (bt_length _ _ Hb) in Hlt. apply lookup_lt_is_Some_2 in Hlt as [m0 Hm0].
  pose proof (Hs m0 (surplus_lookup _ _ _ Hj Hm0)) as ->. pose proof (bt_settled _ _ Hb j Maint Hm0 ltac:(done)). congruence.
Qed.

Lemma round_stuck w w' : world_ok w -> stuck w -> round w w' -> stuck w' /\ asked w' = asked w.
Proof.
  intros Hok Hst (w1 & Hc & ->)%scale_round_called; [|done].
  assert (stuck w1 /\ asked w1 = asked w) as [(Hr & Hne & Hs) Ha].
  { destruct Hc as [? ->|[Hb _]|Hb _|Hb _|w2 Hb _ _ Hns _]; [by destruct Hst as (_ & ? & _)|split; [by eapply stuck_better|apply Hb]..|].
    by destruct Hns; eapply stuck_better. }
  split; [|done]. split_and!; [done..|]. rewrite surplus_tick. apply Forall_fmap. eapply Forall_impl; [exact Hs|]. by intros m ->.
Qed.

Lemma rounds_stuck N w w' : world_ok w -> stuck w -> nsteps round N w w' -> asked w' = asked w.
Proof.
  intros Hok Hst Hr. revert Hok Hst. induction Hr as [w|N w w1 w' H1 _ IH]; intros Hok Hst; [done|].
  destruct (scale_round_called w w1 Hok H1) as (w0 & Hc & ->). destruct (round_stuck w _ Hok Hst H1) as [Hst1 <-].
  apply IH; [by apply scale_tick_ok; eapply called_ok|done].
Qed.

(** ** There are such rounds *)

Context (limit : Z) `{Hid : !Inj (=) (=) id}.

(** The cluster can report any state of its targets. *)
Hypothesis reported_in_map : forall w, Z.of_nat (length (members w)) <= limit -> exists smap, mapped w smap.

(** The target with an identifier, and with a pod. *)
Definition find_member (w : world) (f : nat -> bool) : option nat := List.find f (seq 0 (length (members w))).

Lemma find_member_spec w f :
  match find_member w f with
  | Some j => f j = true
  | None => forall j, f j = true -> members w !! j = None
  end.
Proof.
  unfold find_member. destruct (List.find f _) as [j|] eqn:Hj; [by apply find_some in Hj as [_ ?]|].
  intros j Hf. apply lookup_ge_None. destruct (decide (j < length (members w))%nat) as [Hlt|]; [|lia].
  assert (f j = false) as Hno by (apply (find_none _ _ Hj), in_seq; lia). congruence.
Qed.

Lemma told_exists w i m : exists w', (forall j, i = id j -> w' = told w j m) /\ length (members w') = length (members w).
Proof.
  pose proof (find_member_spec w (fun j => bool_decide (i = id j))) as Hf.
  destruct (find_member w _) as [j|].
  - apply bool_decide_eq_true in Hf. exists (told w j m). split; [intros j' Hj'; f_equal; apply Hid; congruence|].
    unfold told. case_bool_decide; [cbn; by rewrite length_insert|done].
  - exists w. split; [|done]. intros j Hj. unfold told. rewrite Hf; [done|by apply bool_decide_eq_true].
Qed.

(** A pod that runs. *)
Definition running_pod (nm : nsname) : Pod := MkPod nm ∅ false "" "Running" "" [] [].

Lemma pod_exists w nm : exists x, pod_answers w nm x.
Proof.
  pose proof (find_member_spec w (fun j => bool_decide (nm = in_ns ais (Target.PodName ais (Z.of_nat j))))) as Hf.
  destruct (find_member w _) as [j|].
  - apply bool_decide_eq_true in Hf.
    exists (match members w !! j with Some (Exited _) => Ok (running_pod nm) | _ => Err (MkError EkNotFound "") end).
    intros j' m Hm Hn. assert (j' = j) as ->.
    { rewrite Hf in Hn. injection Hn as Hn. apply pod_name_inj in Hn. lia. }
    rewrite Hm. destruct m; try done; [by exists (running_pod nm)|right; eauto].
  - exists (Err (MkError EkNotFound "")). intros j m Hm Hn. rewrite Hf in Hm; [done|by apply bool_decide_eq_true].
Qed.

Definition set_with (nm : nsname) (n : Z) : StatefulSet :=
  MkSS nm ∅ ∅ 1 (MkSSSpec n ∅ "" "" (MkUpdateStrategy OnDeleteStrategy None) []
    (MkPodTemplate ∅ ∅ (MkPodSpec [] [] false "" "" None [] None None ∅ [] [] "")) None) (MkSSStatus 1 0 0 0 0 "" "").

Definition small (w : world) : Prop := Z.of_nat (length (members w)) <= limit.

Lemma scale_truth_total w r : small w -> exists x w', truth w r x w' /\ small w'.
Proof.
  unfold small. intros Hl. destruct r as [ | |nm|nm|  |  |  |  |  |  |  |  |  |  |  |  |  |  |  |  |[] nm|o m|  | o m |  nm st| a | | c |  |  | c act | c act |  |  | w0 r0 a0 n0 |  |  | ];
    try (exists (some_answer _), w; by split).
  - exists (Ok (set_with nm (asked w))), w. split; [|done]. split; [done|]. intros ->. by eexists.
  - destruct (pod_exists w nm) as [x Hx]. by exists x, w.
  - exists (Ok tt), w. split; [|done]. by split; [|left].
  - exists (Ok tt), (resize w (sss_Replicas (ss_Spec m))). split; [done|]. cbn. rewrite length_take. lia.
  - exists (Ok (patched (stored w) m)), (with_stored w (patched (stored w) m)). by split.
  - exists (Ok (set_status (stored w) st)), (with_stored w (set_status (stored w) st)). by split.
  - exists (Ok 0), w. split; [|done]. split; [done|]. by eexists.
  - destruct (reported_in_map w Hl) as [smap Hm]. exists (Ok smap), w. split; [|done]. split; [done|]. by eexists.
  - exists (Ok tt), w. by split.
  - destruct (told_exists w (rm_DaemonID act) (Leaving 0 0)) as (w' & Hw & Hlen). exists (Ok ""), w'. rewrite Hlen. split; [|done].
    split; [by eexists|]. exists 0%nat, 0%nat. split_and!; [lia..|done].
  - destruct (told_exists w (rm_DaemonID act) Maint) as (w' & Hw & Hlen). exists (Ok ""), w'. rewrite Hlen. split; [|done].
    split; [by eexists|done].
Qed.

Lemma scale_round_exists w :
  world_ok w -> asked w <= limit -> exists w', round w w' /\ world_ok w' /\ asked w' <= limit.
Proof.
  intros Hok Hl. set (ss := set_with target_set (asked w)).
  destruct (plays_exist step small (scaling_stage ss (stored w)) w) as (t & o & w1 & Hex & Hp).
  { intros v r Hv. destruct (scale_truth_total v r Hv) as (x & w' & Ht & Hs). exists x, w'. split; [by left|done]. }
  { unfold small. by rewrite (ok_length _ Hok). }
  assert (round w (tick w1)) as Hr by (by exists ss, t, o, w1). exists (tick w1). split; [done|].
  destruct (scale_round_called w _ Hok Hr) as (w2 & Hc & ->). split; [by apply scale_tick_ok; eapply called_ok|].
  apply called_asked in Hc. cbn. pose proof (ok_asked _ Hok). destruct Hc; lia.
Qed.

(** The targets that are to stay do. *)
Lemma round_keeps w w' : world_ok w -> round w w' -> take kept (members w') = take kept (members w).
Proof.
  intros Hok (w1 & Hc & ->)%scale_round_called; [|done].
  assert (world_ok w1 /\ take kept (members w1) = take kept (members w)) as [Hok1 <-].
  { split; [by eapply called_ok|]. destruct Hc as [_ ->|[Hb _]|Hb _|Hb _|w2 Hb _ _ _ ->]; [done|apply Hb..|].
    cbn. fold kept. rewrite take_take, Nat.min_id. apply Hb. }
  apply list_eq. intros j. destruct (decide (j < kept)%nat) as [Hj|Hj].
  - rewrite !lookup_take_lt by done. cbn. rewrite list_lookup_fmap. destruct (members w1 !! j) as [m|] eqn:Hm; [|done].
    by destruct (ok_kept _ Hok1 j m Hj Hm) as [-> | ->].
  - rewrite !lookup_take_ge by lia. done.
Qed.

Lemma rounds_keep N w w' : world_ok w -> nsteps round N w w' -> world_ok w' /\ take kept (members w') = take kept (members w).
Proof.
  intros Hok Hr. revert Hok. induction Hr as [w|N w w1 w' H1 _ IH]; intros Hok; [done|].
  destruct (scale_round_called w w1 Hok H1) as (w0 & Hc & ->). destruct IH as [? ->]; [by apply scale_tick_ok; eapply called_ok|].
  split; [done|]. by apply round_keeps.
Qed.

(** C6. A scale-down of the targets completes, unless targets are to be decommissioned that are
    all in maintenance. From any number of targets the loop can always go on, and whatever
    sequence of rounds follows - the failures falling on any requests, each decommissioned target
    taking up to [D] rounds to leave the cluster and its pod up to [D] rounds to back off - the
    targets that stay are never told to leave, and each target whose pod was removed had left the
    cluster or was in maintenance. If targets are retained, or one of those that are to go is not
    in maintenance, the replicas are as asked once [2 * D + 3] rounds for every target to go, one
    round and one more for every failed request have passed. If they are not retained and all
    that are to go are in maintenance, the replicas never change. *)
Theorem scale_down_completes N w :
  world_ok w -> asked w <= limit ->
  (exists w', nsteps round N w w') /\
  forall w', nsteps round N w w' ->
    take kept (members w') = take kept (members w) /\
    Forall (fun m => m = Out \/ m = Maint) (removed w') /\
    (~ stuck w -> (Z.to_nat (asked w - size) * (2 * D + 3) + 1 + faults w <= N)%nat -> asked w' = size) /\
    (stuck w -> asked w' = asked w).
Proof.
  intros Hok Hl. split.
  { apply (rounds_extend round (fun w => world_ok w /\ asked w <= limit)); [|done]. intros v [? ?]. by apply scale_round_exists. }
  intros w' Hr. destruct (rounds_keep N w w' Hok Hr) as [Hok' Hk]. split_and!; [done|apply Hok'| |].
  - intros Hm HN. apply (rounds_reach round (fun w => world_ok w /\ ~ stuck w) resized distance N w); [done..|].
    right. pose proof (scale_distance_bound w Hok). lia.
  - intros Hs. by apply (rounds_stuck N w).
Qed.
End Loop.
