(* ===== verification/Completion.v ===== *)
(** * Reconciliations complete

    The handlers dereference pointers of the spec: the sizes of the daemons, the parts of a
    resource built from them. A reconciliation validates the spec before it gets there, but goes
    on with the objects the API server returns for its patches. [completes] states that a handler
    returns in every execution whose answers are acceptable, with an invariant of the object in
    memory; it is proved of every stage by the structure of the handlers. *)

From S2P Require Import Prelude Effects K8sTypes AISConfig AIStoreTypes ThirdParty AuthConf AIStoreMethods AIStoreFacts Validation GlobalConfig CmnResources Certificates ProxyResources TargetResources AdminClient Requests K8sClient ClusterOps Nodes ProxyController TargetController Cleanup Cluster Executions.

(** ** Handlers that return *)

Section Completes.
Context (OK : @event req answer -> Prop) (I : AIStore -> Prop).

(** From an object with [I], in every execution whose answers are [OK], [m] returns, with [I]
    again and a value with [Q]. *)
Definition completes {A} (m : H A) (Q : A -> Prop) : Prop :=
  forall s t o, I s -> exec (m s) t o -> Forall OK t -> exists s' a, o = Some (s', a) /\ I s' /\ Q a.

Abbreviation returns m := (completes m (fun _ => True)).

Lemma completes_mono {A} (m : H A) (Q Q' : A -> Prop) :
  (forall a, Q a -> Q' a) -> completes m Q -> completes m Q'.
Proof. intros HQ Hm s t o Hs Hex Ht. destruct (Hm s t o Hs Hex Ht) as (s' & a & ? & ? & ?). naive_solver. Qed.

Lemma completes_ret {A} (a : A) (Q : A -> Prop) : Q a -> completes (mret a) Q.
Proof. intros HQ s t o Hs Hex _. apply exec_inv in Hex as [_ ->]. eauto. Qed.

Lemma completes_bind {A B} (m : H A) (f : A -> H B) R Q :
  completes m R -> (forall a, R a -> completes (f a) Q) -> completes (m ≫= f) Q.
Proof.
  intros Hm Hf s t o Hs Hex Ht.
  apply exec_bind in Hex as [(t1 & [s1 a] & t2 & H1 & H2 & ->)|[H1 _]].
  - apply Forall_app in Ht as [Ht1 Ht2].
    destruct (Hm _ _ _ Hs H1 Ht1) as (s' & a' & [= <- <-] & Hs1 & HR). by apply (Hf a HR s1 t2).
  - by destruct (Hm _ _ _ Hs H1 Ht) as (? & ? & ? & _).
Qed.

Lemma completes_try {A B} (m : H (res A)) (e : error -> H B) (k : A -> H B) R Q :
  completes m R -> (forall x, completes (e x) Q) -> (forall a, R (Ok a) -> completes (k a) Q) ->
  completes (try_ m e k) Q.
Proof. intros Hm He Hk. apply (completes_bind _ _ R); [done|]. intros [a|x] HR; auto. Qed.

Lemma completes_get_bind {A} (f : AIStore -> H A) Q :
  (forall a, I a -> completes (f a) Q) -> completes (get ≫= f) Q.
Proof.
  intros Hf. apply (completes_bind _ _ I); [|done].
  intros s t o Hs Hex _. apply exec_inv in Hex as [_ ->]. eauto.
Qed.

Lemma completes_put s' : I s' -> returns (put s').
Proof. intros Hi s t o _ Hex _. apply exec_inv in Hex as [_ ->]. eauto. Qed.

Lemma completes_modify f : (forall s, I s -> I (f s)) -> returns (modify f).
Proof. intros Hf s t o Hs Hex _. apply exec_inv in Hex as [_ ->]. eauto 6. Qed.

Lemma completes_call r (Q : answer r -> Prop) : (forall x, OK (ev r x) -> Q x) -> completes (call r) Q.
Proof.
  intros HQ s t o Hs Hex Ht. apply exec_inv in Hex as (x & t' & -> & Hex).
  apply exec_inv in Hex as [_ ->]. apply Forall_cons_1 in Ht as [Hx _]. eauto 6.
Qed.

(** The continuation of a request knows the answer is acceptable. *)
Lemma completes_call_bind {B} r (f : answer r -> H B) Q :
  (forall x, OK (ev r x) -> completes (f x) Q) -> completes (call r ≫= f) Q.
Proof. intros Hf. apply (completes_bind _ _ (fun x => OK (ev r x))); [by apply completes_call | done]. Qed.

Lemma completes_deref {A} (o : option A) : is_Some o -> returns (deref o).
Proof. intros [a ->]. by apply completes_ret. Qed.

Lemma completes_unless_done (m k : H outcome) : returns m -> returns k -> returns (unless_done m k).
Proof.
  intros Hm Hk. apply (completes_bind _ _ (fun _ => True)); [done|].
  intros [r [e|]] _; [by apply completes_ret|]. case_match; [done | by apply completes_ret].
Qed.

Lemma completes_for_each {A} (l : list A) (f : A -> H (res unit)) :
  (forall x, x ∈ l -> returns (f x)) -> returns (for_each l f).
Proof.
  induction l as [|x l IH]; intros Hf; [by apply completes_ret|].
  apply (completes_try _ _ _ (fun _ => True)); [apply Hf; by left | by intros; apply completes_ret|].
  intros _ _. apply IH. intros y Hy. apply Hf. by right.
Qed.
End Completes.

Abbreviation returns OK I m := (completes OK I m (fun _ => True)).

Create HintDb completes discriminated.

(** Follow the structure of a handler: known lemmas first, then the handler's definition. *)
Ltac completes_request :=
  lazymatch goal with |- completes ?OK ?I (call ?r) ?Q => refine (completes_call OK I r Q _); intros ? ? end.
Ltac completes_step :=
  lazymatch goal with
  | |- forall _, _ => intros ?
  | |- completes _ _ (call _) _ => completes_request; try exact Logic.I
  | |- completes _ _ (mret _) _ => apply completes_ret; try exact Logic.I
  | |- completes _ _ (put _) _ => apply completes_put; eauto 3 with completes
  | |- completes _ _ (modify _) _ => apply completes_modify; intros ? ?; try eassumption
  | |- completes _ _ (deref _) _ => apply completes_deref; eauto 3 with completes
  | |- completes _ _ (mbind _ get) _ => apply completes_get_bind; intros ? ?
  | |- completes ?OK ?I (try_ (call ?r) ?e ?k) ?Q =>
      refine (completes_call_bind OK I r (fun x => match x with Ok a => k a | Err x => e x end) Q _);
      intros [?|?] ?
  | |- completes ?OK ?I (mbind ?f (call ?r)) ?Q =>
      refine (completes_call_bind OK I r f Q _); intros ? ?
  | |- completes _ _ (try_ _ _ _) _ => apply (completes_try _ _ _ _ _ (fun _ => True)); [| | intros ? _]
  | |- completes _ _ (unless_done _ _) _ => apply completes_unless_done
  | |- completes _ _ (for_each _ _) _ => apply completes_for_each; intros ? ?
  | |- completes _ _ (mbind _ _) _ => apply (completes_bind _ _ _ _ (fun _ => True)); [| intros ? _]
  | |- completes _ _ (if ?b then _ else _) _ => destruct b eqn:?
  | |- completes _ _ (match ?x with _ => _ end) _ => destruct x eqn:?
  | |- completes _ _ (let _ := _ in _) _ => cbv zeta
  | |- completes _ _ ?m _ =>
      first [ solve [eauto 3 with completes] | let f := head_of m in unfold f ]
  end.
Ltac completes_auto := repeat completes_step; try done.

(** ** What the handlers dereference *)

(** Both daemons have a size. *)
Definition sizes_given (s : AIStoreSpec) : bool :=
  (bool_decide (is_Some (ds_Size (ProxySpec s))) || bool_decide (is_Some (Size s))) &&
  (bool_decide (is_Some (ds_Size (target_ds s))) || bool_decide (is_Some (Size s))).

Section Sizes.
Context (ais : AIStore) (Hs : sizes_given (Spec ais) = true).

Lemma some_ProxySize : is_Some (GetProxySize ais).
Proof.
  unfold GetProxySize. case_match; [by eexists|]. revert Hs. unfold sizes_given.
  destruct (ds_Size (ProxySpec (Spec ais))); [by eexists|]. cbn.
  by destruct (Size (Spec ais)); [eexists|].
Qed.

Lemma some_TargetSize : is_Some (GetTargetSize ais).
Proof.
  unfold GetTargetSize. case_match; [by eexists|]. revert Hs. unfold sizes_given.
  rewrite andb_true_iff. intros [_ Ht]. revert Ht.
  destruct (ds_Size (target_ds (Spec ais))); [by eexists|]. cbn.
  by destruct (Size (Spec ais)); [eexists|].
Qed.

Lemma some_MinReadyProxies : is_Some (GetMinReadyProxies ais).
Proof. unfold GetMinReadyProxies. destruct some_ProxySize as [n ->]. by eexists. Qed.
Lemma some_MinReadyTargets : is_Some (GetMinReadyTargets ais).
Proof. unfold GetMinReadyTargets. destruct some_TargetSize as [n ->]. by eexists. Qed.

Context `{T : ThirdParty}.
Lemma some_ProxySS n : is_Some (Proxy.NewProxyStatefulSet ais n).
Proof.
  unfold Proxy.NewProxyStatefulSet, Proxy.proxyPodSpec. destruct some_TargetSize as [m ->]. by eexists.
Qed.
Lemma some_TargetSS n : is_Some (Target.NewTargetSS ais n).
Proof.
  unfold Target.NewTargetSS, Target.targetPodSpec. destruct some_TargetSize as [m ->]. by eexists.
Qed.
Lemma some_LBList : is_Some (Target.NewLoadBalancerSVCList ais).
Proof. unfold Target.NewLoadBalancerSVCList. destruct some_TargetSize as [m ->]. by eexists. Qed.
End Sizes.

(** The sizes are those validation asks for. *)
Lemma validateSize_given ais : (validateSize ais).2 = None -> sizes_given (Spec ais) = true.
Proof.
  intros Hv. pose proof (validateSize_proxy ais Hv) as (n & Hn & _).
  pose proof (validateSize_target ais Hv) as (m & Hm & _).
  unfold GetProxySize, GetTargetSize, IsProxyAutoScaling, IsTargetAutoScaling in *. unfold sizes_given.
  destruct (Size (Spec ais)) as [z|]; cbn; [by rewrite !orb_true_r|].
  destruct (ds_Size (ProxySpec (Spec ais))); [|done]. by destruct (ds_Size (target_ds (Spec ais))).
Qed.

Section Some.
Context `{T : ThirdParty}.
Lemma ValidateSpec_given ais : (ValidateSpec ais).2 = None -> sizes_given (Spec ais) = true.
Proof.
  intros H. apply ValidateSpec_checks in H. unfold validations in H.
  apply validateSize_given. rewrite !Forall_cons in H. apply H.
Qed.

Lemma some_Certificate ais hosts : UseTLSCertificate ais = true -> is_Some (NewCertificate ais hosts).
Proof.
  unfold UseTLSCertificate, NewCertificate. destruct (GetTLSCertificate ais); [|done]. intros _. cbn.
  destruct (buildCertificateSANs ais hosts). by eexists.
Qed.

Lemma client_containers ais conf :
  AdminClientEnabled ais = true ->
  exists d c, NewClientDeployment ais conf = Some d /\ ps_Containers (pt_Spec (dep_Template d)) = [c].
Proof.
  unfold AdminClientEnabled, NewClientDeployment. destruct (AdminClient (Spec ais)) as [a|]; [|done].
  intros _. cbn. by eexists _, _.
Qed.

Lemma some_SyncDeployment desired existing c :
  ps_Containers (pt_Spec (dep_Template desired)) = [c] ->
  ps_Containers (pt_Spec (dep_Template existing)) ≠ [] -> is_Some (SyncDeployment desired existing).
Proof.
  unfold SyncDeployment. intros ->. destruct (ps_Containers (pt_Spec (dep_Template existing))); [done|].
  intros _. repeat case_match. by eexists.
Qed.
End Some.

(** ** Acceptable answers *)

Definition ok_of {A} (r : res A) : option A := match r with Ok a => Some a | Err _ => None end.

(** An object read or returned by a patch; [K]: its spec says how large both daemons are. *)
Definition object_answer (e : @event req answer) : option AIStore :=
  match e with
  | existT r x =>
      match r return answer r -> option AIStore with
      | KGetAIStore _ | KPatchAIStore _ _ | KPatchStatus _ _ => ok_of
      | _ => fun _ => None
      end x
  end.

Definition deployment_answer (e : @event req answer) : option Deployment :=
  match e with
  | existT r x =>
      match r return answer r -> option Deployment with KGetDeployment _ => ok_of | _ => fun _ => None end x
  end.

(** The objects agree on whether the sizes are given; a deployment has a container, as the API
    server requires. *)
Record acceptable (K : bool) (e : @event req answer) : Prop := {
  acc_sizes : forall a, object_answer e = Some a -> sizes_given (Spec a) = K;
  acc_containers : forall d, deployment_answer e = Some d -> ps_Containers (pt_Spec (dep_Template d)) ≠ [];
}.

Definition sized (K : bool) (s : AIStore) : Prop := sizes_given (Spec s) = K.

Lemma acceptable_status K n st a : acceptable K (ev (KPatchStatus n st) (Ok a)) -> sized K a.
Proof. intros [H _]. by apply H. Qed.
Lemma acceptable_patch K o m a : acceptable K (ev (KPatchAIStore o m) (Ok a)) -> sized K a.
Proof. intros [H _]. by apply H. Qed.
Lemma acceptable_read K n a : acceptable K (ev (KGetAIStore n) (Ok a)) -> sized K a.
Proof. intros [H _]. by apply H. Qed.
Lemma acceptable_deployment K n d :
  acceptable K (ev (KGetDeployment n) (Ok d)) -> ps_Containers (pt_Spec (dep_Template d)) ≠ [].
Proof. intros [_ H]. by apply H. Qed.
#[export] Hint Resolve acceptable_status acceptable_patch acceptable_read acceptable_deployment : completes.

(** ** The stages *)

Section Stages.
Context `{T : ThirdParty} (K : bool).
#[local] Abbreviation done_ m := (completes (acceptable K) (sized K) m (fun _ => True)).

Lemma returns_patchStatus : done_ patchStatus.
Proof. completes_auto. Qed.
#[local] Hint Resolve returns_patchStatus : completes.

Lemma returns_updateStatusWithState st : done_ (updateStatusWithState st).
Proof. completes_auto. Qed.
Lemma returns_patchAISAnnotations a b : done_ (patchAISAnnotations a b).
Proof. completes_auto. Qed.
Lemma returns_updateAutoScaleStatus st : done_ (updateAutoScaleStatus st).
Proof. completes_auto. Qed.
#[local] Hint Resolve returns_updateStatusWithState returns_patchAISAnnotations
  returns_updateAutoScaleStatus : completes.

Lemma returns_handleConfigState force : done_ (handleConfigState force).
Proof. completes_auto. Qed.
#[local] Hint Resolve returns_handleConfigState : completes.
Lemma returns_disableRebalance reason msg : done_ (disableRebalance reason msg).
Proof. completes_auto. Qed.
Lemma returns_enableRebalanceCondition : done_ enableRebalanceCondition.
Proof. completes_auto. Qed.
Lemma returns_determineAutoScaleStatus : done_ determineAutoScaleStatus.
Proof. completes_auto. Qed.
Lemma returns_initializeCR : done_ initializeCR.
Proof. completes_auto. Qed.
Lemma returns_updateStatusAndRequeue r : done_ (updateStatusAndRequeue r).
Proof. completes_auto. Qed.
Lemma returns_UpdateReplicas n z : done_ (UpdateStatefulSetReplicas n z).
Proof. completes_auto. Qed.
Lemma returns_DeleteResource k n : done_ (DeleteResourceIfExists k n).
Proof. completes_auto. Qed.
#[local] Hint Resolve returns_disableRebalance returns_enableRebalanceCondition
  returns_determineAutoScaleStatus returns_initializeCR returns_updateStatusAndRequeue
  returns_UpdateReplicas returns_DeleteResource : completes.

Lemma returns_shutdownCluster : done_ shutdownCluster.
Proof. completes_auto. Qed.
Lemma returns_decommissionCluster : done_ decommissionCluster.
Proof. completes_auto. Qed.
Lemma returns_finalize : done_ finalize.
Proof. completes_auto. Qed.
Lemma returns_start_shutdown : done_ start_shutdown.
Proof. completes_auto. Qed.
Lemma returns_start_decommission : done_ start_decommission.
Proof. completes_auto. Qed.

Lemma returns_delete_all k ns b : done_ (delete_all k ns b).
Proof. revert b. induction ns as [|n ns IH]; intros b; cbn [delete_all]; completes_auto. Qed.

Lemma returns_any_func fs b : Forall (fun f => done_ f) fs -> done_ (any_func fs b).
Proof.
  intros Hfs. revert b. induction Hfs as [|f fs Hf _ IH]; intros b; cbn [any_func]; [by apply completes_ret|].
  apply (completes_try _ _ _ _ _ (fun _ => True)); [done | completes_auto | auto].
Qed.

Lemma returns_AnyFunc f fs : Forall (fun f => done_ f) (f :: fs) -> done_ (AnyFunc (f :: fs)).
Proof. apply returns_any_func. Qed.

Lemma returns_delete_finished jobs : forall rest, done_ (delete_finished jobs rest).
Proof. induction jobs as [|j jobs IH]; intros rest; cbn [delete_finished]; completes_auto. Qed.

Lemma returns_createCleanupJobs ais nodes : done_ (createCleanupJobs ais nodes).
Proof. induction nodes as [|n nodes IH]; cbn [createCleanupJobs]; completes_auto. Qed.

Lemma returns_try_primaries ais ss smap idxs : done_ (try_primaries ais ss smap idxs).
Proof. induction idxs as [|idx idxs IH]; cbn [try_primaries]; completes_auto. Qed.

Lemma returns_decommission_indices ais smap c idxs : done_ (decommission_indices ais smap c idxs).
Proof. induction idxs as [|idx idxs IH]; cbn [decommission_indices]; completes_auto. Qed.
#[local] Hint Resolve returns_delete_all returns_delete_finished returns_createCleanupJobs
  returns_try_primaries returns_decommission_indices : completes.

Lemma returns_cleanup : done_ cleanup.
Proof.
  assert (forall ais, done_ (cleanupTarget ais)) by (intros; apply returns_AnyFunc; forall_list; completes_auto).
  assert (forall ais, done_ (cleanupProxy ais)) by (intros; apply returns_AnyFunc; forall_list; completes_auto).
  assert (forall ais, done_ (cleanupRBAC ais)) by (intros; apply returns_AnyFunc; forall_list; completes_auto).
  unfold cleanup. completes_step. eapply completes_try.
  - apply returns_AnyFunc. forall_list; completes_auto.
  - completes_auto.
  - intros ? _. completes_auto.
Qed.
#[local] Hint Resolve returns_cleanup : completes.

Lemma returns_cleanupClusterRes : done_ cleanupClusterRes.
Proof. completes_auto. Qed.
Lemma returns_cleanupHost : done_ cleanupHost.
Proof. completes_auto. Qed.
End Stages.

(** ** The stages of a running cluster: the sizes are given *)

Lemma sized_given ais : sized true ais -> sizes_given (Spec ais) = true.
Proof. done. Qed.
#[export] Hint Resolve sized_given some_ProxySize some_TargetSize some_MinReadyProxies
  some_MinReadyTargets some_ProxySS some_TargetSS some_LBList some_Certificate : completes.
#[export] Hint Resolve returns_patchStatus returns_updateStatusWithState returns_patchAISAnnotations
  returns_updateAutoScaleStatus returns_handleConfigState returns_disableRebalance
  returns_enableRebalanceCondition returns_determineAutoScaleStatus returns_initializeCR
  returns_updateStatusAndRequeue returns_UpdateReplicas returns_DeleteResource returns_delete_all
  returns_try_primaries returns_decommission_indices returns_shutdownCluster
  returns_decommissionCluster returns_finalize returns_start_shutdown returns_start_decommission
  returns_cleanupClusterRes returns_cleanupHost : completes.

Section Running.
Context `{T : ThirdParty}.
#[local] Abbreviation done_ m := (completes (acceptable true) (sized true) m (fun _ => True)).

Lemma returns_desired_proxy_template ais : sized true ais -> done_ (desired_proxy_template ais).
Proof. completes_auto. Qed.
Lemma returns_desired_target_template ais : sized true ais -> done_ (desired_target_template ais).
Proof. completes_auto. Qed.
#[local] Hint Resolve returns_desired_proxy_template returns_desired_target_template : completes.

Lemma returns_initProxies : done_ initProxies.
Proof. completes_auto. Qed.
Lemma returns_handleProxyScale ss : done_ (handleProxyScale ss).
Proof. completes_auto. Qed.
#[local] Hint Resolve returns_initProxies returns_handleProxyScale : completes.

Lemma returns_handleProxyState : done_ handleProxyState.
Proof. completes_auto. Qed.

Lemma returns_initTargets : done_ initTargets.
Proof. completes_auto. Qed.
Lemma returns_prepareTargets n : done_ (prepareTargetsForScaleDown n).
Proof. completes_auto. Qed.
Lemma returns_startTargetScaling ss : done_ (startTargetScaling ss).
Proof. completes_auto. Qed.
Lemma returns_resolveStatefulSetScaling : done_ resolveStatefulSetScaling.
Proof. completes_auto. Qed.
#[local] Hint Resolve returns_initTargets returns_prepareTargets returns_startTargetScaling
  returns_resolveStatefulSetScaling : completes.

Lemma returns_handleTargetScaling ss : done_ (handleTargetScaling ss).
Proof. completes_auto. Qed.
Lemma returns_syncTargetPodSpec ss : done_ (syncTargetPodSpec ss).
Proof. completes_auto. Qed.
#[local] Hint Resolve returns_handleTargetScaling returns_syncTargetPodSpec : completes.

Lemma returns_handleTargetState : done_ handleTargetState.
Proof. completes_auto. Qed.
Lemma returns_checkAISClusterReady : done_ checkAISClusterReady.
Proof. completes_auto. Qed.
#[local] Hint Resolve returns_handleProxyState returns_handleTargetState
  returns_checkAISClusterReady : completes.

Lemma returns_handleCREvents : done_ handleCREvents.
Proof. completes_auto. Qed.
Lemma returns_bootstrapNew : done_ bootstrapNew.
Proof. completes_auto. Qed.
Lemma returns_reconcileExternalAccess : done_ reconcileExternalAccess.
Proof. completes_auto. Qed.
#[local] Hint Resolve returns_handleCREvents returns_bootstrapNew returns_reconcileExternalAccess : completes.

Lemma returns_reconcileTLSCertificate : done_ reconcileTLSCertificate.
Proof. completes_auto. Qed.

Lemma returns_reconcileClientDeployment ais d :
  AdminClientEnabled ais = true -> ps_Containers (pt_Spec (dep_Template d)) ≠ [] ->
  done_ (reconcileClientDeployment ais d).
Proof.
  intros He Hd. unfold reconcileClientDeployment. completes_step; [completes_auto..|].
  match goal with |- context [NewClientDeployment ais ?conf] =>
    destruct (client_containers ais conf He) as (desired & c & -> & Hc) end.
  destruct (some_SyncDeployment desired d c Hc Hd) as [[[m ch] reason] Hs].
  cbn [deref]. eapply completes_bind; [by apply (completes_ret _ _ desired (eq desired))|].
  intros ? <-. rewrite Hs. completes_auto.
Qed.

Lemma returns_createClientDeployment ais :
  AdminClientEnabled ais = true -> done_ (createClientDeployment ais).
Proof.
  intros He. unfold createClientDeployment. completes_step; [completes_auto..|].
  match goal with |- context [NewClientDeployment ais ?conf] =>
    destruct (client_containers ais conf He) as (desired & c & -> & _) end. completes_auto.
Qed.
#[local] Hint Resolve returns_reconcileTLSCertificate returns_reconcileClientDeployment
  returns_createClientDeployment : completes.

Lemma returns_reconcileAdminClient : done_ reconcileAdminClient.
Proof. unfold reconcileAdminClient, GetDeployment. completes_auto. Qed.
#[local] Hint Resolve returns_reconcileAdminClient : completes.

Lemma returns_ensurePrereqs : done_ ensurePrereqs.
Proof. completes_auto. Qed.
#[local] Hint Resolve returns_ensurePrereqs : completes.

Lemma returns_reconcile_running : done_ reconcile_running.
Proof. completes_auto. Qed.
End Running.

(** ** An object without sizes is rejected before anything uses them *)

Section Rejected.
Context `{T : ThirdParty}.

Lemma returns_rejected : completes (acceptable false) (sized false) reconcile_running (fun _ => True).
Proof.
  unfold reconcile_running, unless_done.
  eapply (completes_bind _ _ _ _ (fun o => is_Some o.2)); [|intros [r [e|]] He; [by apply completes_ret | by destruct He]].
  unfold ensurePrereqs. eapply (completes_try _ _ _ _ _ (fun r => is_Some (err_of r))).
  - unfold reconcileResources. apply completes_get_bind. intros ais Hi.
    destruct (ValidateSpec ais).2 as [e|] eqn:Ev.
    + unfold record_fail, recordError. apply completes_call_bind. intros x _. apply completes_ret. by eexists.
    + apply ValidateSpec_given in Ev. unfold sized in Hi. congruence.
  - intros e. apply completes_ret. by eexists.
  - intros ? H. by destruct H.
Qed.
End Rejected.

(** ** Reconciliation *)

Section Reconcile.
Context `{T : ThirdParty}.

Lemma returns_running K : completes (acceptable K) (sized K) reconcile_running (fun _ => True).
Proof. destruct K; [apply returns_reconcile_running | apply returns_rejected]. Qed.
#[local] Hint Resolve returns_running : completes.

Lemma returns_object K : completes (acceptable K) (sized K) reconcile_object (fun _ => True).
Proof. completes_auto. Qed.

(** C17. Reconciliations complete. Suppose the objects the API server answers with during one
    pass agree on whether they say how large the daemons are, and a deployment it returns has a
    container. Then no execution of the pass dereferences a nil pointer: it ends with a result,
    and whichever stage it was in leaves in memory an object that still agrees. That holds with
    the admission webhook disabled too: an object without sizes is rejected by the validation
    before they are used. *)
Theorem reconcile_completes K :
  (forall request t o, exec (Reconcile request) t o -> Forall (acceptable K) t -> exists r, o = Some r) /\
  (forall s t o, sized K s -> exec (reconcile_object s) t o -> Forall (acceptable K) t ->
     exists s' r, o = Some (s', r) /\ sized K s').
Proof.
  split.
  - intros request t o Hex Ht. unfold Reconcile in Hex. apply exec_inv in Hex as (x & t' & -> & Hex).
    apply Forall_cons_1 in Ht as [Hx Ht]. destruct x as [ais|e].
    + apply exec_bind in Hex as [(t1 & [s a] & t2 & _ & H2 & ->)|[H1 _]].
      * apply exec_inv in H2 as [_ ->]. by eexists.
      * destruct (returns_object K ais t' None) as (? & ? & ? & _); [|done..]. by apply acceptable_read in Hx.
    + apply exec_inv in Hex as [_ ->]. by eexists.
  - intros s t o Hs Hex Ht. destruct (returns_object K s t o Hs Hex Ht) as (s' & r & ? & ? & _). by exists s', r.
Qed.
End Reconcile.
