(* ===== verification/Deletion.v ===== *)
(** * Deletion completes

    The closed loop of [Reconcile] on an AIStore that is being deleted: against a world that
    answers truthfully, apart from finitely many failed requests, in which daemons told to leave
    are gone after a while, the finalizer is removed after a bounded number of reconciliations,
    each of which asks for the next one, and nothing the clean-up deletes by name is left. *)

From stdpp Require Import relations.
From S2P Require Import Prelude Effects ClosedLoop K8sTypes AISConfig AIStoreTypes ThirdParty AuthConf AIStoreMethods AIStoreFacts Validation GlobalConfig CmnResources Certificates ProxyResources TargetResources AdminClient Requests K8sClient ClusterOps Nodes ProxyController TargetController LoopStages Cleanup Cluster Executions Lifecycle.

(** ** Worlds *)

(** The daemons of the cluster: serving, told to leave and gone after some rounds, or gone. *)
Inductive service := Serving | Leaving (rounds : nat) | Gone.

(** The stored object, the daemons, the resources that exist, how many deletions may still find
    something more to delete, the clock and the time up to which clean-up jobs were created, and
    how many requests may still fail. *)
Record world := MkWorld {
  stored : option AIStore; daemons : service; live : list (kind * nsname); lingering : nat;
  clock : Z; jobs_until : Z; faults : nat }.

Definition with_stored (w : world) (o : option AIStore) : world :=
  MkWorld o (daemons w) (live w) (lingering w) (clock w) (jobs_until w) (faults w).
Definition with_daemons (w : world) (d : service) : world :=
  MkWorld (stored w) d (live w) (lingering w) (clock w) (jobs_until w) (faults w).
Definition with_live (w : world) (l : list (kind * nsname)) (g : nat) : world :=
  MkWorld (stored w) (daemons w) l g (clock w) (jobs_until w) (faults w).
Definition with_clock (w : world) (now : Z) : world :=
  MkWorld (stored w) (daemons w) (live w) (lingering w) now (jobs_until w) (faults w).
Definition with_jobs (w : world) (until : Z) : world :=
  MkWorld (stored w) (daemons w) (live w) (lingering w) (clock w) until (faults w).
Definition with_faults (w : world) (n : nat) : world :=
  MkWorld (stored w) (daemons w) (live w) (lingering w) (clock w) (jobs_until w) n.

(** What the clean-up deletes by name. *)
Definition named_resources `{T : ThirdParty} (ais : AIStore) : list (kind * nsname) :=
  let target := [ (KPDB, Target.PDBNSName ais); (KStatefulSet, Target.StatefulSetNSName ais);
    (KService, Target.HeadlessSVCNSName ais); (KConfigMap, Target.ConfigMapNSName ais) ] in
  let proxy := [ (KStatefulSet, Proxy.StatefulSetNSName ais); (KService, Proxy.HeadlessSVCNSName ais);
    (KService, Proxy.LoadBalancerSVCNSName ais); (KConfigMap, Proxy.ConfigMapNSName ais) ] in
  let rbac := [ (KRoleBinding, in_ns ais (roleBindingName ais)); (KRole, in_ns ais (roleName ais));
    (KServiceAccount, in_ns ais (ServiceAccountName ais)) ] in
  concat [ target; proxy; [(KDeployment, DeploymentNSName ais)]; [(KConfigMap, statsd_ConfigMapNSName ais)];
    rbac; []; [(KCertificate, CertificateNSName ais)] ].

(** The API server stores the finalizers of a patch, and removes an object without any. *)
Definition apply_finalizers (a : AIStore) (fs : list string) : option AIStore :=
  match fs with [] => None | _ => Some (set_finalizers a fs) end.

Section Loop.
Context `{T : ThirdParty, L : !ThirdPartyLaws T} (ais : AIStore) (D : nat).

(** A truthful answer. Reads and patches of the object are those of the API server; the
    daemons show ready replicas at will until they are gone; a deletion of something that
    exists removes it; lists are arbitrary but for the jobs, none of which is newer than the
    last creation. Writes that are not named here may do anything: a deletion issues none. *)
Definition truth (w : world) (r : req) : answer r -> world -> Prop :=
  match r return answer r -> world -> Prop with
  | KGetAIStore _ => fun x w' => w' = w /\
      match stored w with Some a => x = Ok a | None => exists e, x = Err e /\ is_not_found e = true end
  | KPatchStatus _ st => fun x w' =>
      match stored w with
      | Some a => x = Ok (set_status a st) /\ w' = with_stored w (Some (set_status a st))
      | None => w' = w /\ exists e, x = Err e /\ is_not_found e = true
      end
  | KPatchAIStore o m => fun x w' =>
      match stored w with
      | Some a => x = Ok (set_finalizers a (ais_Finalizers m)) /\
                  w' = with_stored w (apply_finalizers a (ais_Finalizers m))
      | None => w' = w /\ exists e, x = Err e /\ is_not_found e = true
      end
  | KGetStatefulSet _ => fun x w' => w' = w /\
      match x with
      | Ok ss => daemons w = Gone -> ssst_ReadyReplicas (ss_Status ss) <= 0
      | Err e => is_not_found e = true
      end
  | AGetClient _ => fun x w' => w' = w /\ exists c, x = Ok c
  | ADecommissionCluster _ _ | AShutdownCluster _ => fun x w' => x = Ok tt /\
      match daemons w with
      | Serving => exists d, (d <= D)%nat /\ w' = with_daemons w (Leaving d)
      | _ => w' = w
      end
  | KListNodes _ => fun x w' => w' = w /\ exists l, x = Ok l
  | KListPods _ _ => fun x w' => w' = w /\ exists l, x = Ok l
  | KListServices _ _ => fun x w' => w' = w /\ exists l, x = Ok l
  | KListPVCs _ _ => fun x w' => w' = w /\ exists l, x = Ok l
  | KListJobs _ => fun x w' => w' = w /\ exists l, x = Ok l /\
      Forall (fun j => job_CreationTimestamp j <= jobs_until w) l
  | KCreate (_, OJob _) => fun x w' => w' = with_jobs w (clock w) /\
      match x with Ok _ => True | Err e => is_already_exists e = true end
  | KDelete KJob _ => fun x w' => w' = w /\
      match x with Ok _ => True | Err e => missing e = true end
  | KDelete k n => fun x w' =>
      match x with
      | Ok _ => exists g, w' = with_live w (filter (fun y => y ≠ (k, n)) (live w)) g /\
          (if decide ((k, n) ∈ live w) then g = lingering w else lingering w = S g)
      | Err e => w' = w /\ missing e = true /\ (k, n) ∉ live w
      end
  | ENow => fun x w' => clock w <= x /\ w' = with_clock w x
  | EEvent _ _ _ _ => fun _ w' => w' = w
  | r' => fun _ w' => is_read r' = true -> w' = w
  end.

Definition step : world -> forall r : req, answer r -> world -> Prop :=
  faulty_step truth fails faults with_faults.

(** ** The distance to the end *)

(** States before the clean-up of the resources. *)
Definition early (st : ClusterState) : bool :=
  match st with ClusterCleanup | HostCleanup | ClusterFinalized => false | _ => true end.

Definition finalizing (a : AIStore) : bool := ContainsFinalizer (ais_Finalizers a) aisFinalizer.

(** Rounds until every job is old enough to be deleted; a round lasts [cleanupJobDelay] at least. *)
Definition waiting (w : world) : nat :=
  Z.to_nat ((jobs_until w + 2 * minute - clock w) / cleanupJobDelay + 1).

Definition leave_rounds (d : service) : nat :=
  match d with Serving => D + 2 | Leaving d => S d | Gone => 0 end.
Definition potential (w : world) : nat := length (live w) + lingering w.

Definition stage_distance (w : world) : nat :=
  match stored w with
  | None => 0
  | Some a =>
      if negb (finalizing a) then 0
      else match State (Status a) with
           | ClusterFinalized => 1
           | HostCleanup => 2 + waiting w
           | ClusterCleanup => 28 + potential w
           | _ => 29 + potential w + leave_rounds (daemons w)
           end
  end.
Definition distance (w : world) : nat := stage_distance w + faults w.

(** The end: the object is gone, or only the finalizers of others hold it. *)
Definition released (w : world) : Prop :=
  match stored w with None => True | Some a => finalizing a = false end.

Definition nothing_left (l : list (kind * nsname)) : Prop := Forall (fun y => y ∉ l) (named_resources ais).

(** The object is the deleted one. What the clean-up deletes by name is gone once the object is
    past it, and the finalizer is removed last. *)
Record object_ok (l : list (kind * nsname)) (a : AIStore) : Prop := {
  oo_name : ais_Name a = ais_Name ais;
  oo_deleting : ais_Deleting a = true;
  oo_finalizer : finalizing a = false -> State (Status a) = ClusterFinalized;
  oo_late : State (Status a) = HostCleanup \/ State (Status a) = ClusterFinalized -> nothing_left l;
}.
Definition world_ok (w : world) : Prop :=
  match stored w with None => nothing_left (live w) | Some a => object_ok (live w) a end /\
  jobs_until w <= clock w.

(** ** Deletions *)

(** A world in which only resources went away. *)
Record shrinks (w w' : world) : Prop := {
  sh_stored : stored w' = stored w; sh_daemons : daemons w' = daemons w;
  sh_clock : clock w' = clock w; sh_jobs : jobs_until w' = jobs_until w;
  sh_live : forall y, y ∈ live w' -> y ∈ live w;
  sh_potential : (potential w' <= potential w)%nat; sh_faults : (faults w' <= faults w)%nat;
}.
#[local] Instance shrinks_preorder : PreOrder shrinks.
Proof.
  split; [done|]. intros w1 w2 w3 [] []. split; try congruence; [auto | lia..].
Qed.

Lemma shrinks_gone w w' l : shrinks w w' -> Forall (fun y => y ∉ live w) l -> Forall (fun y => y ∉ live w') l.
Proof. intros Hs Hl. eapply Forall_impl; [exact Hl|]. intros y Hy Hl'. by apply Hy, (sh_live _ _ Hs). Qed.

(** [m] deletes what is named, reports whether something was there only if that is so, and fails
    only when a request did. *)
Definition deletes (m : H (res bool)) (names : list (kind * nsname)) : Prop :=
  forall s w, loop_wpm step m s w (fun w' s' r => s' = s /\ shrinks w w' /\
    match r with
    | Ok b => (b = true -> (potential w' < potential w)%nat) /\ Forall (fun y => y ∉ live w') names
    | Err _ => (faults w' < faults w)%nat
    end).

Lemma filter_shorter (y : kind * nsname) l :
  y ∈ l -> (length (filter (fun z => z ≠ y) l) < length l)%nat.
Proof. intros Hy. apply (length_filter_lt (fun z => z ≠ y) _ y); [done | tauto]. Qed.

(** The effect of a deletion. *)
Lemma truth_delete w k n x w' :
  k ≠ KJob -> truth w (KDelete k n) x w' ->
  shrinks w w' /\ (k, n) ∉ live w' /\ faults w' = faults w /\
  match x with Ok _ => (potential w' < potential w)%nat | Err e => missing e = true end.
Proof.
  intros Hk Ht.
  assert (match x with
      | Ok _ => exists g, w' = with_live w (filter (fun y => y ≠ (k, n)) (live w)) g /\
          (if decide ((k, n) ∈ live w) then g = lingering w else lingering w = S g)
      | Err e => w' = w /\ missing e = true /\ (k, n) ∉ live w
      end) as Hx by (destruct k; done).
  clear Ht. destruct x as [u|e].
  - destruct Hx as (g & -> & Hg).
    assert ((length (filter (fun y => y ≠ (k, n)) (live w)) + g < potential w)%nat).
    { unfold potential. destruct (decide ((k, n) ∈ live w)) as [Hl|_].
      - subst g. pose proof (filter_shorter _ _ Hl). lia.
      - pose proof (length_filter (fun y => y ≠ (k, n)) (live w)). lia. }
    split_and!; try done; [split; try done|].
    + cbn. intros y. rewrite list_elem_of_filter. tauto.
    + unfold potential in *. cbn. lia.
    + cbn. rewrite list_elem_of_filter. tauto.
  - destruct Hx as (-> & ? & ?). split_and!; done.
Qed.

Lemma deletes_resource k n : k ≠ KJob -> deletes (DeleteResourceIfExists k n) [(k, n)].
Proof.
  intros Hk s w. unfold DeleteResourceIfExists. apply lw_bind. lw_call_. intros x w' [Ht|(f & Hf & Hx & Hw)].
  - apply (truth_delete _ _ _ _ _ Hk) in Ht as (Hs & Hg & _ & Hp). lw_step. split_and!; [done..|].
    unfold allowObjNotFound. unfold missing in Hp. destruct x as [u|e].
    + split; [done | by constructor].
    + rewrite Hp. split; [done | by constructor].
  - destruct Hx as (e & -> & Hm & _). lw_step. unfold allowObjNotFound. unfold missing in Hm. rewrite Hm.
    destruct Hw as [->|[x' Ht]].
    + split_and!; [done | split; cbn; auto with lia | cbn; lia].
    + apply (truth_delete _ _ _ _ _ Hk) in Ht as ([] & _ & Hf' & _). cbn in *.
      split_and!; [done | split; cbn; auto with lia | lia].
Qed.

Lemma deletes_any_func fs nss b0 :
  Forall2 deletes fs nss ->
  forall s w, loop_wpm step (any_func fs b0) s w (fun w' s' r => s' = s /\ shrinks w w' /\
    match r with
    | Ok b => (b0 = false -> b = true -> (potential w' < potential w)%nat) /\
              Forall (fun y => y ∉ live w') (concat nss)
    | Err _ => (faults w' < faults w)%nat
    end).
Proof.
  intros Hfs. revert b0. induction Hfs as [|f ns fs nss Hf _ IH]; intros b0 s w; cbn [any_func].
  - lw_step. split_and!; [done..| |constructor]. by intros ->.
  - apply lw_try. eapply lw_mono; [apply Hf|]. intros w1 s1 [b1|e] (-> & Hs1 & Hr1); cbn; [|by lw_step].
    eapply lw_mono; [apply IH|]. intros w2 s2 [b2|e] (-> & Hs2 & Hr2); cbn.
    + destruct Hr1 as [Hp1 Hg1], Hr2 as [Hp2 Hg2]. split_and!; [done | by trans w1 | |].
      * intros -> ->. cbn in Hp2. pose proof (sh_potential _ _ Hs1). pose proof (sh_potential _ _ Hs2).
        destruct b1; [specialize (Hp1 eq_refl); lia | specialize (Hp2 eq_refl eq_refl); lia].
      * apply Forall_app. split; [by apply (shrinks_gone w1) | done].
    + split_and!; [done | by trans w1|]. pose proof (sh_faults _ _ Hs1). lia.
Qed.

Lemma deletes_AnyFunc f fs nss : Forall2 deletes (f :: fs) nss -> deletes (AnyFunc (f :: fs)) (concat nss).
Proof.
  intros Hfs s w. eapply lw_mono; [by apply (deletes_any_func (f :: fs) nss false)|].
  intros w' s' [b|e]; cbn; naive_solver.
Qed.

Lemma deletes_ret b : b = false -> deletes (mret (Ok b)) [].
Proof. intros -> s w. lw_step. split_and!; [done..|constructor]. Qed.

Lemma deletes_delete_all k ns b0 :
  k ≠ KJob ->
  forall s w, loop_wpm step (delete_all k ns b0) s w (fun w' s' r => s' = s /\ shrinks w w' /\
    match r with Ok b => b0 = false -> b = true -> (potential w' < potential w)%nat
               | Err _ => (faults w' < faults w)%nat end).
Proof.
  intros Hk. revert b0. induction ns as [|n ns IH]; intros b0 s w; cbn [delete_all].
  - lw_step. split_and!; [done..|]. by intros ->.
  - apply lw_try. eapply lw_mono; [by apply deletes_resource|]. intros w1 s1 [b1|e] (-> & Hs1 & Hr1); cbn; [|by lw_step].
    eapply lw_mono; [apply IH|]. intros w2 s2 [b2|e] (-> & Hs2 & Hr2); cbn;
      (split_and!; [done | by trans w1|]); pose proof (sh_potential _ _ Hs1); pose proof (sh_potential _ _ Hs2).
    + intros -> ->. destruct Hr1 as [Hp1 _].
      destruct b1; [specialize (Hp1 eq_refl); lia | specialize (Hr2 eq_refl eq_refl); lia].
    + pose proof (sh_faults _ _ Hs1). lia.
Qed.

(** The resources found by a list are deleted one by one. *)
Lemma deletes_listed {A} (r : req) (ask : answer r -> res (list A)) (m : list A -> H (res bool)) :
  (forall w x w', step w r x w' -> match ask x with Ok _ => shrinks w w' | Err e =>
     shrinks w w' /\ (faults w' < faults w)%nat /\ missing e = false end) ->
  (forall l, deletes (m l) []) ->
  deletes (call r ≫= fun x => match ask x with
    | Ok l => m l | Err e => mret (if is_not_found e then Ok false else Err e) end) [].
Proof.
  intros Hr Hm s w. apply lw_bind. lw_call_. intros x w' Hx. specialize (Hr w x w' Hx).
  destruct (ask x) as [l|e].
  - eapply lw_mono; [apply Hm|]. intros w2 s2 [b|e] (-> & Hs & Hp); cbn; (split; [done | split; [by trans w'|]]);
      pose proof (sh_potential _ _ Hr); pose proof (sh_faults _ _ Hr); [|lia].
    destruct Hp as [Hp ?]. split; [|done]. intros Hb. specialize (Hp Hb). lia.
  - destruct Hr as (Hs & Hf & Hmi). unfold missing in Hmi. apply orb_false_iff in Hmi as [-> _]. by lw_step.
Qed.

Lemma shrinks_fault w n : faults w = S n -> shrinks w (with_faults w n) /\ (faults (with_faults w n) < faults w)%nat.
Proof. intros Hf. split; [split|]; cbn; auto with lia. Qed.

Ltac listed :=
  intros w x w' [[-> [l ->]]|(n & Hf & (e & -> & Hm & _) & Hw)]; [done|];
  destruct (shrinks_fault w n Hf); destruct Hw as [->|[x' [-> _]]]; auto.

Lemma deletes_services ns ls : deletes (DeleteAllServicesIfExist ns ls) [].
Proof.
  apply (deletes_listed (KListServices ns ls) (fun x => x) (fun svcs => delete_all KService (svc_Name <$> svcs) false));
    [listed|]. intros l s w. eapply lw_mono; [by apply deletes_delete_all|].
  cbn. intros w' s' [b|e] (? & ? & ?); auto.
Qed.

Lemma deletes_pvcs ns ls sc : deletes (DeletePVCs ns ls sc) [].
Proof.
  apply (deletes_listed (KListPVCs ns ls) (fun x => x) (fun pvcs => deleteAllPVCsIfExist pvcs sc)); [listed|].
  intros l s w. eapply lw_mono; [by apply deletes_delete_all|]. cbn. intros w' s' [b|e] (? & ? & ?); auto.
Qed.

Lemma deletes_cleanupPVC a : deletes (cleanupPVC a) [].
Proof.
  unfold cleanupPVC. case_match; [by apply deletes_ret|]. intros s w. unfold deleteAllPVCs. apply lw_try.
  eapply lw_mono; [apply deletes_pvcs|]. intros w1 s1 [b|e] (-> & H1 & Hr); cbn; [|by lw_step].
  eapply lw_mono; [apply deletes_pvcs|]. intros w2 s2 [b2|e] (-> & H2 & Hr2); cbn; (split; [done | split; [by trans w1|]]);
    pose proof (sh_potential _ _ H1); pose proof (sh_faults _ _ H1); [|lia].
  destruct Hr2 as [Hp ?]. split; [|done]. intros Hb. specialize (Hp Hb). lia.
Qed.

Ltac deletes_each :=
  repeat first [apply Forall2_nil_2 | apply Forall2_cons_2];
  first [by apply deletes_resource | apply deletes_services | apply deletes_cleanupPVC].

Lemma deletes_cleanup_resources a :
  deletes (AnyFunc
    [ cleanupTarget a; cleanupProxy a; cleanupAdminClient a;
      DeleteConfigMapIfExists (statsd_ConfigMapNSName a);
      cleanupRBAC a; cleanupPVC a; cleanupTLS a ]) (named_resources a).
Proof.
  unfold named_resources. cbv zeta. apply deletes_AnyFunc.
  repeat first [apply Forall2_nil_2 | apply Forall2_cons_2]; [| | deletes_each | deletes_each | | deletes_each..].
  - apply (deletes_AnyFunc _ _ [[_]; [_]; [_]; []; [_]]). deletes_each.
  - apply (deletes_AnyFunc _ _ [[_]; [_]; [_]; [_]]). deletes_each.
  - apply (deletes_AnyFunc _ _ [[_]; [_]; [_]]). deletes_each.
Qed.

(** ** Writing the status *)

(** Not further from the end than before. *)
Definition noworse (w w' : world) : Prop :=
  world_ok w' /\ (stage_distance w' <= stage_distance w)%nat /\ (faults w' <= faults w)%nat.
(** A request failed. *)
Definition faulted (w w' : world) : Prop := noworse w w' /\ (faults w' < faults w)%nat.

Lemma noworse_refl w : world_ok w -> noworse w w.
Proof. done. Qed.
Lemma noworse_trans w1 w2 w3 : noworse w1 w2 -> noworse w2 w3 -> noworse w1 w3.
Proof. intros (? & ? & ?) (? & ? & ?). split_and!; [done|lia..]. Qed.
Lemma noworse_faulted w1 w2 w3 : noworse w1 w2 -> faulted w2 w3 -> faulted w1 w3.
Proof. intros H1 [H2 Hf]. split; [by eapply noworse_trans|]. destruct H1 as (_ & _ & ?). lia. Qed.

Lemma faulted_here w n : world_ok w -> faults w = S n -> faulted w (with_faults w n).
Proof. intros Hok Hf. split; [split_and!; [exact Hok | apply Nat.le_refl | cbn; lia] | cbn; lia]. Qed.

Lemma ok_status w a s :
  world_ok w -> stored w = Some a -> s = set_status a (Status s) ->
  State (Status s) = State (Status a) \/
  (finalizing a = true /\ (State (Status s) = HostCleanup \/ State (Status s) = ClusterFinalized -> nothing_left (live w))) ->
  world_ok (with_stored w (Some s)).
Proof.
  intros [Ho Hj] Ha Hs Hst. split; [|done]. rewrite Ha in Ho. destruct Ho as [Hn Hd Hf Hl]. cbn.
  split.
  - by rewrite Hs.
  - by rewrite Hs.
  - rewrite Hs. change (finalizing a = false -> State (Status s) = ClusterFinalized).
    intros Hf'. destruct Hst as [->|[? _]]; [auto | congruence].
  - destruct Hst as [->|[_ Hst]]; [exact Hl | exact Hst].
Qed.

(** [patchStatus], with the status of [s] for the stored object. *)
Lemma loop_patchStatus s w a :
  world_ok w -> stored w = Some a -> s = set_status a (Status s) ->
  world_ok (with_stored w (Some s)) ->
  (stage_distance (with_stored w (Some s)) <= stage_distance w)%nat ->
  loop_wpm step patchStatus s w (fun w' s' r =>
    match r with Ok _ => w' = with_stored w (Some s) /\ s' = s | Err _ => faulted w w' end).
Proof.
  intros Hok Ha Hs Hok' Hd. unfold patchStatus. do 2 lw_step. apply lw_bind. lw_call_.
  intros x w' [Ht|(n & Hf & (e & -> & _) & Hw)].
  - cbn in Ht. rewrite Ha, <-Hs in Ht. destruct Ht as [-> ->]. by repeat lw_step.
  - unfold record_fail, recordError. apply lw_bind. lw_call_. intros u w2 [->|(n' & _ & Hno & _)]; [|done].
    lw_step. destruct Hw as [->|[x' Ht]]; [by apply faulted_here|]. cbn in Ht. rewrite Ha, <-Hs in Ht.
    destruct Ht as [_ ->]. split; [split_and!; [done..|]|]; cbn; lia.
Qed.

Lemma loop_updateStatusWithState st s w a :
  world_ok w -> stored w = Some a -> s = set_status a (Status s) ->
  world_ok (with_stored w (Some (SetState st s))) ->
  (stage_distance (with_stored w (Some (SetState st s))) <= stage_distance w)%nat ->
  loop_wpm step (updateStatusWithState st) s w (fun w' s' r =>
    match r with Ok _ => w' = with_stored w (Some (SetState st s)) /\ s' = SetState st s | Err _ => faulted w w' end).
Proof.
  intros Hok Ha Hs Hok' Hd. unfold updateStatusWithState. apply lw_bind, lw_modify.
  apply (loop_patchStatus _ _ a); try done. rewrite Hs. done.
Qed.

Lemma loop_event b r a n s w (Q : world -> AIStore -> unit -> Prop) :
  Q w s tt -> loop_wpm step (call (EEvent b r a n)) s w Q.
Proof. intros HQ. lw_call_. intros [] w' [->|(n' & _ & Hno & _)]; done. Qed.

(** ** Up to the state of the deletion *)

(** What the stages before the state switch leave: the object in memory is the one stored, no
    further from the end; nothing else changed. *)
Record prepared (w w' : world) (s' : AIStore) : Prop := {
  pr_ok : world_ok w'; pr_stored : stored w' = Some s'; pr_distance : stage_distance w' = stage_distance w;
  pr_faults : faults w' = faults w;
  pr_state : exists a, stored w = Some a /\ (State (Status s') = State (Status a) \/
             early (State (Status a)) = true /\ early (State (Status s')) = true);
}.

Lemma prepared_refl w s : world_ok w -> stored w = Some s -> prepared w w s.
Proof. intros Hok Hs. split; try done. exists s. auto. Qed.
Lemma prepared_trans w1 w2 w3 s2 s3 : prepared w1 w2 s2 -> prepared w2 w3 s3 -> prepared w1 w3 s3.
Proof.
  intros [_ Hs2 ? ? (a & Ha & H2)] [? ? ? ? (b & Hb & H3)]. split; try congruence. exists a. split; [done|].
  rewrite Hs2 in Hb. injection Hb as <-. destruct H3 as [->|[? ?]]; [done|]. destruct H2 as [<-|[? ?]]; auto.
Qed.
Lemma prepared_noworse w w' s' : prepared w w' s' -> noworse w w'.
Proof. intros []. split_and!; [done|lia..]. Qed.

(** The object in the loop, in a state before its finalization. *)
Lemma still_finalizing w a : world_ok w -> stored w = Some a -> State (Status a) ≠ ClusterFinalized -> finalizing a = true.
Proof.
  intros [Ho _] Ha Hst. rewrite Ha in Ho. destruct (finalizing a) eqn:Hf; [done|]. by destruct Hst; apply (oo_finalizer _ _ Ho).
Qed.

Lemma stage_early w a :
  stored w = Some a -> finalizing a = true -> early (State (Status a)) = true ->
  stage_distance w = (29 + potential w + leave_rounds (daemons w))%nat.
Proof. unfold stage_distance. intros -> -> He. by destruct (State (Status a)). Qed.

Lemma stage_cleanup w a :
  stored w = Some a -> finalizing a = true -> State (Status a) = ClusterCleanup ->
  stage_distance w = (28 + potential w)%nat.
Proof. unfold stage_distance. by intros -> -> ->. Qed.
Lemma stage_host w a :
  stored w = Some a -> finalizing a = true -> State (Status a) = HostCleanup ->
  stage_distance w = (2 + waiting w)%nat.
Proof. unfold stage_distance. by intros -> -> ->. Qed.
Lemma stage_finalized w a :
  stored w = Some a -> finalizing a = true -> State (Status a) = ClusterFinalized -> stage_distance w = 1%nat.
Proof. unfold stage_distance. by intros -> -> ->. Qed.

Lemma stage_restatus w a s :
  stored w = Some a -> s = set_status a (Status s) ->
  State (Status s) = State (Status a) \/ early (State (Status a)) = true /\ early (State (Status s)) = true ->
  stage_distance (with_stored w (Some s)) = stage_distance w.
Proof.
  intros Ha Hs Hst. assert (finalizing s = finalizing a) as Hf by (rewrite Hs; done).
  unfold stage_distance. rewrite Ha. cbn. rewrite Hf. destruct Hst as [->|[H1 H2]]; [done|].
  by destruct (finalizing a), (State (Status a)), (State (Status s)).
Qed.

Lemma prepared_status w a s :
  world_ok w -> stored w = Some a -> s = set_status a (Status s) ->
  State (Status s) = State (Status a) \/ early (State (Status a)) = true /\ early (State (Status s)) = true ->
  prepared w (with_stored w (Some s)) s.
Proof.
  intros Hok Ha Hs Hst. split; [|done| |done|by exists a]; [|by apply (stage_restatus _ a)].
  apply (ok_status _ a); [done..|]. destruct Hst as [?|[H1 H2]]; [by left|]. right. split.
  - apply (still_finalizing w); [done..|]. intros He. by rewrite He in H1.
  - intros [He|He]; by rewrite He in H2.
Qed.

Lemma same_status (s : AIStore) : s = set_status s (Status s).
Proof. by destruct s. Qed.

#[local] Abbreviation answers := (ClosedLoop.answers step failure faults with_faults).

Lemma reads_nodes sel : answers (KListNodes sel) (fun x => x) anything no_error.
Proof. solve_answers. Qed.
Lemma reads_pods ns sel : answers (KListPods ns sel) (fun x => x) anything no_error.
Proof. solve_answers. Qed.
Lemma reads_client a : answers (AGetClient a) (fun x => x) anything no_error.
Proof. solve_answers. Qed.

Lemma loop_autoscale s w :
  world_ok w -> stored w = Some s ->
  loop_wpm step determineAutoScaleStatus s w (fun w' s' r =>
    match r with Ok _ => prepared w w' s' /\ State (Status s') = State (Status s) | Err _ => faulted w w' end).
Proof.
  intros Hok Hs. apply (loop_determine step faults with_faults reads_nodes reads_pods); [|intros; by apply faulted_here].
  intros status. unfold updateAutoScaleStatus. lw_step. lw_step. lw_step; [lw_step; split; [by apply prepared_refl | done]|].
  do 2 lw_step. set (s2 := set_autoscale s _).
  assert (prepared w (with_stored w (Some s2)) s2) as Hp by (apply (prepared_status _ s); auto).
  eapply lw_mono; [apply (loop_patchStatus _ _ s); [done..|by destruct Hp|]; rewrite (pr_distance _ _ _ Hp); done|].
  intros w3 s3 [[]|e]; [by intros [-> ->] | done].
Qed.

(** A state change among those before the clean-up. *)
Lemma loop_early st s w a :
  world_ok w -> stored w = Some a -> s = set_status a (Status s) -> early (State (Status a)) = true -> early st = true ->
  loop_wpm step (updateStatusWithState st) s w (fun w' s' r =>
    match r with Ok _ => prepared w w' s' /\ State (Status s') = st | Err _ => faulted w w' end).
Proof.
  intros Hok Ha Hs He Hst.
  assert (prepared w (with_stored w (Some (SetState st s))) (SetState st s)) as Hp.
  { apply (prepared_status _ a); [done..| |by right]. rewrite Hs. done. }
  eapply lw_mono; [apply (loop_updateStatusWithState _ _ _ a); [done..|by destruct Hp|]; by rewrite (pr_distance _ _ _ Hp)|].
  intros w' s' [[]|e]; [by intros [-> ->] | done].
Qed.

Lemma loop_initializeCR s w :
  world_ok w -> stored w = Some s -> State (Status s) = NoState ->
  loop_wpm step initializeCR s w (fun w' s' r =>
    match r with Ok _ => prepared w w' s' /\ State (Status s') = ClusterInitialized | Err _ => faulted w w' end).
Proof.
  intros Hok Hs Hst. unfold initializeCR. do 3 lw_step.
  assert (ContainsFinalizer (ais_Finalizers s) aisFinalizer = true) as ->.
  { apply (still_finalizing w); [done..|]. by rewrite Hst. }
  do 3 lw_step. apply (loop_early _ _ _ s); [done..| |done]. by rewrite Hst.
Qed.

Lemma deleting_spec s : IsDecommissioningOrCleaning s = deleting (State (Status s)).
Proof. unfold IsDecommissioningOrCleaning, HasState. by destruct (State (Status s)). Qed.
Lemma deleting_or_early st : deleting st = true \/ early st = true.
Proof. destruct st; auto. Qed.

Lemma loop_start_decommission s w :
  world_ok w -> stored w = Some s ->
  loop_wpm step start_decommission s w (fun w' s' r =>
    match r with Ok _ => prepared w w' s' /\ deleting (State (Status s')) = true | Err _ => faulted w w' end).
Proof.
  intros Hok Hs. assert (ais_Deleting s = true) as Hd.
  { destruct Hok as [Ho _]. rewrite Hs in Ho. apply Ho. }
  unfold start_decommission. do 2 lw_step. unfold ShouldDecommission, IsMarkedForDeletion.
  rewrite Hd, andb_true_r, negb_involutive, deleting_spec. lw_step; [lw_step; split; [by apply prepared_refl | done]|].
  destruct (deleting_or_early (State (Status s))) as [?|He]; [congruence|].
  lw_step. eapply lw_mono; [apply (loop_early _ _ _ s); try done; apply same_status|]. intros w1 s1 [[]|e] H1; cbn in H1; [|by lw_step].
  destruct H1 as [H1 H1']. lw_step. apply loop_event. lw_step. by rewrite H1'.
Qed.

Lemma loop_start_shutdown s w (Q : world -> AIStore -> res unit -> Prop) :
  deleting (State (Status s)) = true -> Q w s (Ok tt) -> loop_wpm step start_shutdown s w Q.
Proof.
  intros Hd HQ. unfold start_shutdown, ShouldStartShutdown, HasState. do 2 lw_step.
  replace (bool_decide (State (Status s) = ClusterReady)) with false by (by destruct (State (Status s))).
  rewrite andb_false_r. by lw_step.
Qed.

(** ** One pass *)

Definition tick_service (d : service) : service :=
  match d with Leaving (S d) => Leaving d | Leaving O => Gone | _ => d end.

(** Time passes between two passes. *)
Definition tick (w w' : world) : Prop :=
  exists now, clock w + cleanupJobDelay <= now /\
    w' = with_clock (with_daemons w (tick_service (daemons w))) now.

(** Time alone brings the end closer. *)
Definition ticking (w : world) : Prop := forall w', tick w w' -> (distance w' < distance w)%nat.

(** The pass asks for another one: by an error, by a delay, or by an event of the object it changed. *)
Definition asks (w w' : world) (o : outcome) : Prop :=
  snd o ≠ None \/ 0 < RequeueAfter (fst o) \/
  (exists a b, stored w = Some a /\ stored w' = Some b /\ State (Status a) ≠ State (Status b) /\
     early (State (Status b)) = false).

Record moved (w w' : world) (o : outcome) : Prop := {
  mv_ok : world_ok w'; mv_released : released w -> released w';
  mv_asks : released w' \/ asks w w' o;
  mv_closer : released w \/ (distance w' < distance w)%nat \/ (distance w' <= distance w)%nat /\ ticking w';
}.

Lemma released_stage w : released w <-> stage_distance w = 0%nat.
Proof.
  unfold released, stage_distance. destruct (stored w) as [a|]; [|done].
  destruct (finalizing a); [|done]. by destruct (State (Status a)).
Qed.

Lemma moved_faulted w w' o : faulted w w' -> asks w w' o -> moved w w' o.
Proof.
  intros [(Hok & Hd & _) Hf] Ha. split; [done| |by right|].
  - rewrite !released_stage. lia.
  - right. left. unfold distance. lia.
Qed.

(** Closer to the end. *)
Definition advanced (w w' : world) : Prop :=
  world_ok w' /\ (stage_distance w' < stage_distance w)%nat /\ (faults w' <= faults w)%nat.

Lemma noworse_advanced w1 w2 w3 : noworse w1 w2 -> advanced w2 w3 -> advanced w1 w3.
Proof. intros (? & ? & ?) (? & ? & ?). split_and!; [done|lia..]. Qed.
Lemma advanced_noworse w1 w2 w3 : advanced w1 w2 -> noworse w2 w3 -> advanced w1 w3.
Proof. intros (? & ? & ?) (? & ? & ?). split_and!; [done|lia..]. Qed.
Lemma is_noworse w w' : advanced w w' -> noworse w w'.
Proof. intros (? & ? & ?). split_and!; [done|lia..]. Qed.

Lemma closer_moved w w' o : advanced w w' -> released w' \/ asks w w' o -> moved w w' o.
Proof.
  intros (Hok & Hd & Hf) Ha. split; [done| |done|].
  - rewrite released_stage. lia.
  - right. left. unfold distance. lia.
Qed.

(** The pass ends by writing the next state. *)
Lemma moved_next w w' s st o :
  stored w = Some s -> State (Status s) ≠ st -> early st = false ->
  advanced w w' -> stored w' = Some (SetState st s) -> moved w w' o.
Proof.
  intros Hs Hn He Ha Hs'. apply closer_moved; [done|]. right. right. right. by exists s, (SetState st s).
Qed.

Lemma moved_prepared w w1 s1 w2 o : prepared w w1 s1 -> moved w1 w2 o -> moved w w2 o.
Proof.
  intros [_ Hs Hd Hf (a0 & Hw & Hst)] [Hok2 Hr Ha Hc].
  assert (released w <-> released w1) as Hrw by (rewrite !released_stage; lia).
  assert (distance w1 = distance w) as Hdw by (unfold distance; lia).
  split; [done|tauto| |rewrite <-Hdw; tauto].
  destruct Ha as [?|[?|[?|(a & b & Ha & Hb & Hn & He)]]]; [by left|right..]; [by left|by right; left|].
  right. right. exists a0, b. rewrite Hs in Ha. injection Ha as <-. split_and!; try done.
  destruct Hst as [<-|[H1 _]]; congruence.
Qed.

(** A stage that ends by writing the next state. *)
Lemma loop_next st s w :
  world_ok w -> stored w = Some s -> finalizing s = true ->
  (st = HostCleanup \/ st = ClusterFinalized -> nothing_left (live w)) ->
  (stage_distance (with_stored w (Some (SetState st s))) < stage_distance w)%nat ->
  loop_wpm step (updateStatusWithState st) s w (fun w' s' r =>
    match r with Ok _ => advanced w w' /\ stored w' = Some (SetState st s) /\ s' = SetState st s
               | Err _ => faulted w w' end).
Proof.
  intros Hok Hs Hfin Hl Hd.
  assert (world_ok (with_stored w (Some (SetState st s)))) as Hok' by (apply (ok_status _ s); try done; by right).
  eapply lw_mono; [apply (loop_updateStatusWithState _ _ _ s); try done; [apply same_status|lia]|].
  intros w' s' [[]|e]; [|done]. by intros [-> ->].
Qed.

(** *** Decommission *)

Lemma loop_replicas name s w (Q : world -> AIStore -> bool -> Prop) :
  (forall b, (b = true -> daemons w ≠ Gone) -> Q w s b) ->
  (forall n, faults w = S n -> Q (with_faults w n) s true) ->
  loop_wpm step (ssHasReadyReplicas name) s w Q.
Proof.
  intros HQ Hf. unfold ssHasReadyReplicas, GetStatefulSet. apply lw_bind. lw_call_.
  intros x w' [[-> Hx]|(n & Hn & (e & -> & He) & Hw)].
  - destruct x as [ss|e]; lw_step; apply HQ.
    + intros Hb%Z.ltb_lt Hd. specialize (Hx Hd). lia.
    + by rewrite Hx.
  - assert (w' = with_faults w n) as -> by (destruct Hw as [->|[x' [-> _]]]; done).
    lw_step. destruct He as [He _]. unfold missing in He. apply orb_false_iff in He as [-> _]. by apply Hf.
Qed.

Lemma loop_running a s w :
  loop_wpm step (isClusterRunning a) s w (fun w' s' b => s' = s /\
    (w' = w /\ (b = true -> daemons w ≠ Gone) \/ exists n, (n < faults w)%nat /\ w' = with_faults w n)).
Proof.
  unfold isClusterRunning. apply lw_bind. apply loop_replicas.
  - intros [] Hb; cbn; [|lw_step; by auto]. apply loop_replicas; [by auto|].
    intros n Hf. split; [done|]. right. exists n. split; [lia|done].
  - intros n Hf. cbn. apply loop_replicas.
    + intros b _. split; [done|]. right. exists n. split; [lia|done].
    + intros n' Hf'. cbn in Hf'. split; [done|]. right. exists n'. split; [lia|done].
Qed.

(** Arithmetic on the parts of worlds. *)
Ltac world_lia :=
  unfold potential; cbn [stored daemons live lingering clock jobs_until faults with_stored with_daemons
    with_live with_clock with_jobs with_faults leave_rounds tick_service]; lia.

(** A request to leave was received, or was before. *)
Definition told (w w' : world) : Prop :=
  noworse w w' /\ stored w' = stored w /\ (daemons w = Gone \/ exists d, daemons w' = Leaving d).

Lemma told_step w a w' :
  world_ok w -> stored w = Some a -> finalizing a = true -> early (State (Status a)) = true ->
  match daemons w with Serving => exists d, (d <= D)%nat /\ w' = with_daemons w (Leaving d) | _ => w' = w end ->
  told w w'.
Proof.
  intros Hok Ha Hf He. destruct (daemons w) as [|d|] eqn:Hd.
  - intros (d & ? & ->). split; [|split; [done|right; by exists d]]. split; [exact Hok|split; [|done]].
    rewrite !(stage_early _ a) by done. rewrite Hd. world_lia.
  - intros ->. split; [by apply noworse_refl|]. split; [done|]. right. by exists d.
  - intros ->. split; [by apply noworse_refl|]. auto.
Qed.

Lemma told_faults w n w' : told (with_faults w n) w' -> faults w = S n -> faulted w w'.
Proof.
  intros [(Hok & Hd & Hf) _] Hn. cbn in Hf. split; [split_and!; [done|exact Hd|lia]|lia].
Qed.

Lemma loop_leave s w :
  world_ok w -> stored w = Some s -> finalizing s = true -> early (State (Status s)) = true ->
  loop_wpm step (decommissionAIS s) s w (fun w' _ _ => faulted w w' \/ told w w').
Proof.
  intros Hok Hs Hf He. unfold decommissionAIS, attemptGracefulDecommission, attemptGracefulShutdown. lw_step.
  1: cbv zeta.
  all: apply lw_try, (lw_read step _ _ _ _ _ _ _ _ (reads_client _)); intros [c|e]; cbn;
    [|intros n Hn _; lw_step; left; by apply faulted_here].
  all: lw_call_; intros x w' [[_ Ht]|(n & Hn & _ & [->|[x' [_ Ht]]])].
  all: try (right; by apply (told_step w s)).
  all: left; first [by apply faulted_here | by apply (told_faults _ n); [apply (told_step _ s)|]].
Qed.

Lemma ticking_leaving w a d :
  stored w = Some a -> finalizing a = true -> early (State (Status a)) = true -> daemons w = Leaving d -> ticking w.
Proof.
  intros Ha Hf He Hd w' (now & _ & ->). unfold distance. rewrite !(stage_early _ a) by done.
  destruct d; cbn [tick_service with_clock with_daemons daemons]; rewrite Hd; world_lia.
Qed.

Lemma moved_told w w' a d :
  told w w' -> stored w = Some a -> finalizing a = true -> early (State (Status a)) = true ->
  daemons w ≠ Gone -> 0 < d -> moved w w' (requeue d).
Proof.
  intros ((Hok & Hd & Hf) & Hs & Hl) Ha Hfin He Hg Hp. destruct Hl as [?|[k Hk]]; [done|].
  split; [done| |right; right; by left|].
  - rewrite !released_stage. lia.
  - right. right. split; [unfold distance; lia|]. apply (ticking_leaving _ a k); congruence.
Qed.

(** The stages after the state switch, in the state they are for. *)
Definition passes (w : world) (s : AIStore) (m : H outcome) : Prop :=
  loop_wpm step m s w (fun w' _ o => moved w w' o).

Lemma moved_fewer w n w' o : (n < faults w)%nat -> moved (with_faults w n) w' o -> moved w w' o.
Proof.
  intros Hn [Hok Hr Ha Hc]. split; [done..|]. destruct Hc as [?|Hc]; [by left|]. right.
  assert (distance (with_faults w n) < distance w)%nat.
  { change (stage_distance w + n < stage_distance w + faults w)%nat. lia. }
  destruct Hc as [?|[? ?]]; left; lia.
Qed.

Lemma moved_fewer_still w n w' o :
  (n < faults w)%nat -> noworse (with_faults w n) w' -> asks w w' o -> moved w w' o.
Proof.
  intros Hn (Hok & Hd & Hf) Ha. apply moved_faulted; [|done]. cbn in Hf. split; [split_and!; [done|exact Hd|lia]|lia].
Qed.

Lemma pass_decommission s w :
  world_ok w -> stored w = Some s -> State (Status s) = ClusterDecommissioning -> passes w s decommissionCluster.
Proof.
  intros Hok Hs Hst. assert (finalizing s = true) as Hf by (apply (still_finalizing w); [done..|by rewrite Hst]).
  assert (early (State (Status s)) = true) as He by (by rewrite Hst).
  assert (0 < 10 * second) as Hpos by done.
  unfold passes, decommissionCluster. do 3 lw_step. eapply lw_mono; [apply loop_running|].
  intros w1 s1 b [-> [[-> Hb]|(n & Hn & ->)]]; destruct b.
  - lw_step. eapply lw_mono; [by apply loop_leave|]. intros w2 s2 _ [Ht|Ht]; cbn; lw_step.
    + apply moved_faulted; [done|]. right. by left.
    + apply (moved_told _ _ s); auto.
  - lw_step. eapply lw_mono; [apply (loop_next ClusterCleanup); try done; [by intros []|]|].
    + rewrite (stage_cleanup _ (SetState ClusterCleanup s)), (stage_early _ s) by done. world_lia.
    + intros w2 s2 [[]|e] H2; cbn in *; [destruct H2 as (? & ? & _); lw_step; apply loop_event|]; lw_step;
        [apply (moved_next _ _ s ClusterCleanup); try done; by rewrite Hst|].
      apply moved_faulted; [done|by left].
  - lw_step. eapply lw_mono; [by apply loop_leave|]. intros w2 s2 r Ht; cbn in Ht |- *; lw_step.
    apply (moved_fewer_still _ n); [done| |right; by left]. by destruct Ht as [[? _]|[? _]].
  - lw_step. eapply lw_mono; [apply (loop_next ClusterCleanup); try done; [by intros []|]|].
    + rewrite (stage_cleanup _ (SetState ClusterCleanup s)), (stage_early _ s) by done. world_lia.
    + intros w2 s2 [[]|e] H2; cbn in *; [destruct H2 as (? & ? & _); lw_step; apply loop_event|]; lw_step; apply (moved_fewer _ n); try done;
        [apply (moved_next _ _ s ClusterCleanup); try done; by rewrite Hst|].
      apply moved_faulted; [done|by left].
Qed.

(** *** Clean-up of the resources *)

Lemma shrinks_ok w w' : world_ok w -> shrinks w w' -> world_ok w'.
Proof.
  intros [Ho Hj] Hs. pose proof (shrinks_gone _ _ (named_resources ais) Hs) as Hg.
  split; [|by rewrite (sh_jobs _ _ Hs), (sh_clock _ _ Hs)]. rewrite (sh_stored _ _ Hs).
  destruct (stored w) as [a|]; [|by apply Hg]. destruct Ho as [? ? ? Hl]. split; [done..|].
  intros Hst. by apply Hg, Hl.
Qed.

Lemma shrinks_noworse w w' a :
  world_ok w -> stored w = Some a -> finalizing a = true -> State (Status a) = ClusterCleanup -> shrinks w w' -> noworse w w'.
Proof.
  intros Hok Ha Hf Hst Hs. split; [by apply (shrinks_ok w)|]. split; [|apply Hs].
  rewrite !(stage_cleanup _ a) by (rewrite ?(sh_stored _ _ Hs); done). pose proof (sh_potential _ _ Hs). lia.
Qed.

(** The names of the deleted resources are those of the object. *)
Lemma named_resources_name a b : ais_Name a = ais_Name b -> named_resources a = named_resources b.
Proof. destruct a, b. cbn. by intros ->. Qed.

(** A world in which only clean-up jobs were created. *)
Record hired (w w' : world) : Prop := {
  hi_stored : stored w' = stored w; hi_live : live w' = live w; hi_lingering : lingering w' = lingering w;
  hi_clock : clock w' = clock w; hi_jobs : jobs_until w' = jobs_until w \/ jobs_until w' = clock w;
  hi_faults : (faults w' <= faults w)%nat;
}.
Lemma hired_refl w : hired w w.
Proof. split; auto. Qed.
Lemma hired_trans w1 w2 w3 : hired w1 w2 -> hired w2 w3 -> hired w1 w3.
Proof.
  intros [? ? ? ? H1 ?] [? ? ? ? H2 ?]. split; [congruence..| |lia].
  destruct H2 as [->| ->]; [done|right; congruence].
Qed.

Lemma hired_noworse w w' a :
  world_ok w -> stored w = Some a -> finalizing a = true -> State (Status a) = ClusterCleanup -> hired w w' -> noworse w w'.
Proof.
  intros [Ho Hj] Ha Hf Hst [Hs Hl Hg Hc Hju Hfa]. split; [split|split; [|done]].
  - by rewrite Hs, Hl.
  - rewrite Hc. destruct Hju as [->| ->]; [done|lia].
  - rewrite !(stage_cleanup _ a) by (rewrite ?Hs; done). unfold potential. by rewrite Hl, Hg.
Qed.

Lemma loop_createCleanupJobs a nodes s w :
  loop_wpm step (createCleanupJobs a nodes) s w (fun w' s' r => s' = s /\ hired w w' /\
    match r with Ok _ => True | Err _ => (faults w' < faults w)%nat end).
Proof.
  revert w. induction nodes as [|node nodes IH]; intros w; cbn [createCleanupJobs].
  - lw_step. split_and!; [done|apply hired_refl|done].
  - assert (hired w (with_jobs w (clock w))) as Hh by (split; cbn; auto).
    assert (loop_wpm step (createCleanupJobs a nodes) s (with_jobs w (clock w)) (fun w' s' r => s' = s /\ hired w w' /\
      match r with Ok _ => True | Err _ => (faults w' < faults w)%nat end)) as IH'.
    { eapply lw_mono; [apply IH|]. intros w2 s2 [[]|e] (-> & H2 & ?); cbn; split_and!; try done; by eapply hired_trans. }
    unfold Create. apply lw_bind. lw_call_. intros x w' [[-> Hx]|(n & Hn & (e & -> & He) & Hw)].
    + destruct x as [u|e]; [done|]. by rewrite Hx.
    + destruct He as [_ ->]. lw_step. split_and!; [done| |]; destruct Hw as [->|[x' [-> _]]]; try (split; cbn; auto with lia); cbn; lia.
Qed.

Lemma loop_matching_nodes a s w (Q : world -> AIStore -> res (list string) -> Prop) :
  (forall l, Q w s (Ok l)) -> (forall e n, faults w = S n -> Q (with_faults w n) s (Err e)) ->
  loop_wpm step (ListNodesMatchingAISSelectors a) s w Q.
Proof.
  intros Ho He. unfold ListNodesMatchingAISSelectors, ListNodesMatchingSelector.
  lw_step. apply (lw_read step _ _ _ _ _ _ _ _ (reads_nodes _)). intros [l|e]; cbn; [|intros n Hf _; lw_step; by apply He].
  lw_step. apply (lw_read step _ _ _ _ _ _ _ _ (reads_nodes _)). intros [l'|e]; cbn; [by lw_step|]. intros n Hf _. lw_step. by apply He.
Qed.

Lemma waiting_bound w : world_ok w -> (waiting w <= 25)%nat.
Proof.
  intros [_ Hj]. unfold waiting.
  assert ((jobs_until w + 2 * minute - clock w) / cleanupJobDelay <= 2 * minute / cleanupJobDelay) as Hd
    by (apply Z.div_le_mono; [done|lia]).
  change (2 * minute / cleanupJobDelay) with 24 in Hd. lia.
Qed.

Lemma loop_hosts s w :
  world_ok w -> stored w = Some s -> State (Status s) = ClusterCleanup -> nothing_left (live w) ->
  loop_wpm step (cleanupHostStateMounts s) s w (fun w' s' r =>
    match r with Ok _ => advanced w w' /\ stored w' = Some (SetState HostCleanup s) /\ s' = SetState HostCleanup s
               | Err _ => faulted w w' end).
Proof.
  intros Hok Hs Hst Hl. assert (finalizing s = true) as Hf by (apply (still_finalizing w); [done..|by rewrite Hst]).
  unfold cleanupHostStateMounts. lw_step. apply loop_matching_nodes; [intros l|intros e n Hn; lw_step; by apply faulted_here].
  lw_step. eapply lw_mono; [apply loop_createCleanupJobs|]. intros w1 s1 [[]|e] (-> & Hh & Hfa); cbn.
  - pose proof (hired_noworse _ _ _ Hok Hs Hf Hst Hh) as Hn. destruct (Hn) as (Hok1 & Hd1 & Hf1).
    assert (stored w1 = Some s) as Hs1 by (by rewrite (hi_stored _ _ Hh)).
    assert (nothing_left (live w1)) as Hl1 by (by rewrite (hi_live _ _ Hh)).
    eapply lw_mono; [apply (loop_next HostCleanup s w1); try done|].
    + rewrite (stage_host _ (SetState HostCleanup s)), (stage_cleanup w1 s) by done.
      pose proof (waiting_bound _ Hok1). change (waiting (with_stored w1 _)) with (waiting w1). lia.
    + intros w2 s2 [[]|e]; [|by apply noworse_faulted]. intros [Ha ?]. split; [by apply (noworse_advanced _ w1)|done].
  - lw_step. split; [|done]. by apply (hired_noworse _ _ s).
Qed.

Lemma noworse_next w w1 w2 s st o :
  noworse w w1 -> stored w = Some s -> State (Status s) ≠ st -> early st = false ->
  advanced w1 w2 -> stored w2 = Some (SetState st s) -> moved w w2 o.
Proof. intros ? ? ? ? ? ?. apply (moved_next _ _ s st); try done. by apply (noworse_advanced _ w1). Qed.

(** The state may be written once more. *)
Lemma loop_again st s w :
  world_ok w -> stored w = Some (SetState st s) ->
  loop_wpm step (updateStatusWithState st) (SetState st s) w (fun w' s' r =>
    match r with Ok _ => noworse w w' /\ stored w' = Some (SetState st s) | Err _ => faulted w w' end).
Proof.
  intros Hok Hs.
  assert (prepared w (with_stored w (Some (SetState st s))) (SetState st s)) as Hp by (apply (prepared_status _ (SetState st s)); auto).
  pose proof (prepared_noworse _ _ _ Hp) as Hn. destruct Hp as [? _ Hd _ _].
  eapply lw_mono; [apply (loop_updateStatusWithState _ _ _ (SetState st s)); try done; exact (Nat.eq_le_incl _ _ Hd)|].
  intros w' s' [[]|e]; [|done]. by intros [-> _].
Qed.

Lemma pass_cleanup s w :
  world_ok w -> stored w = Some s -> State (Status s) = ClusterCleanup -> passes w s cleanupClusterRes.
Proof.
  intros Hok Hs Hst. assert (finalizing s = true) as Hf by (apply (still_finalizing w); [done..|by rewrite Hst]).
  assert (State (Status s) ≠ HostCleanup) as Hne by (by rewrite Hst).
  unfold passes, cleanupClusterRes. do 2 lw_step. change (ContainsFinalizer _ _) with (finalizing s). rewrite Hf. cbn [negb].
  unfold cleanup. do 4 lw_step. eapply lw_mono; [apply deletes_cleanup_resources|].
  intros w1 s1 r (-> & Hsh & Hr).
  pose proof (shrinks_noworse _ _ _ Hok Hs Hf Hst Hsh) as Hn. pose proof (proj1 Hn) as Hok1.
  assert (stored w1 = Some s) as Hs1 by (by rewrite (sh_stored _ _ Hsh)).
  destruct r as [b|e]; [|lw_step; lw_step; apply loop_event; lw_step; apply moved_faulted; [done|by left]].
  destruct Hr as [Hb Hg].
  assert (nothing_left (live w1)) as Hl.
  { unfold nothing_left. erewrite named_resources_name; [exact Hg|]. destruct Hok as [Ho _]. rewrite Hs in Ho. symmetry. apply Ho. }
  lw_step.
  - lw_step. eapply lw_mono; [by apply (loop_hosts s w1)|]. intros w2 s2 [[]|e] H2; cbn in H2.
    + destruct H2 as (Ha & Hs2 & ->). lw_step. destruct b.
      * lw_step. by apply (noworse_next _ w1 _ s HostCleanup).
      * lw_step. eapply lw_mono; [by apply loop_again; [destruct Ha|]|]. intros w3 s3 [[]|e] H3; cbn in H3; lw_step.
        -- destruct H3 as [H3 Hs3]. apply (noworse_next _ w1 _ s HostCleanup); try done. by apply (advanced_noworse _ w2).
        -- apply moved_faulted; [|by left]. apply (noworse_faulted _ w2); [|done]. by apply is_noworse, (noworse_advanced _ w1).
    + lw_step. lw_step. apply loop_event. lw_step. apply moved_faulted; [by apply (noworse_faulted _ w1)|by left].
  - lw_step. destruct b.
    + lw_step. apply closer_moved; [|right; by right; left]. split; [done|]. split; [|apply Hsh].
      rewrite !(stage_cleanup _ s) by done. specialize (Hb eq_refl). lia.
    + lw_step. eapply lw_mono; [apply (loop_next HostCleanup s w1); try done|].
      * rewrite (stage_host _ (SetState HostCleanup s)), (stage_cleanup w1 s) by done.
        pose proof (waiting_bound _ Hok1). change (waiting (with_stored w1 _)) with (waiting w1). lia.
      * intros w2 s2 [[]|e] H2; cbn in H2; lw_step.
        -- destruct H2 as (? & ? & _). by apply (noworse_next _ w1 _ s HostCleanup).
        -- apply moved_faulted; [by apply (noworse_faulted _ w1)|by left].
Qed.

(** *** Clean-up of the hosts *)

(** A world in which only the clock moved. *)
Record waited (w w' : world) : Prop := {
  wt_stored : stored w' = stored w; wt_live : live w' = live w; wt_jobs : jobs_until w' = jobs_until w;
  wt_clock : clock w <= clock w'; wt_faults : (faults w' <= faults w)%nat;
}.
Lemma waited_refl w : waited w w.
Proof. by split. Qed.
Lemma waited_trans w1 w2 w3 : waited w1 w2 -> waited w2 w3 -> waited w1 w3.
Proof. intros [] []. split; [congruence..|lia|lia]. Qed.

Lemma waiting_mono w w' : waited w w' -> (waiting w' <= waiting w)%nat.
Proof.
  intros [_ _ Hj Hc _]. unfold waiting. rewrite Hj.
  assert ((jobs_until w + 2 * minute - clock w') / cleanupJobDelay <= (jobs_until w + 2 * minute - clock w) / cleanupJobDelay)
    by (apply Z.div_le_mono; [done|lia]). lia.
Qed.

Lemma waited_noworse w w' a :
  world_ok w -> stored w = Some a -> finalizing a = true -> State (Status a) = HostCleanup -> waited w w' -> noworse w w'.
Proof.
  intros [Ho Hj] Ha Hf Hst Hw. destruct (Hw) as [Hs Hl Hju Hc Hfa]. split; [split|split; [|done]].
  - by rewrite Hs, Hl.
  - rewrite Hju. lia.
  - rewrite !(stage_host _ a) by (rewrite ?Hs; done). pose proof (waiting_mono _ _ Hw). lia.
Qed.

Lemma loop_delete_job n s w :
  loop_wpm step (DeleteResourceIfExists KJob n) s w (fun w' s' r => s' = s /\ waited w w' /\
    match r with Ok _ => True | Err _ => (faults w' < faults w)%nat end).
Proof.
  unfold DeleteResourceIfExists, allowObjNotFound. apply lw_bind. lw_call_.
  intros x w' [[-> Hx]|(k & Hk & (e & -> & He) & Hw)]; lw_step.
  - destruct x as [u|e]; [by split_and!|]. unfold missing in Hx. by rewrite Hx.
  - destruct He as [He _]. unfold missing in He. rewrite He.
    assert (w' = with_faults w k) as -> by (destruct Hw as [->|[x' [-> _]]]; done).
    split_and!; [done|split; cbn; auto with lia|cbn; lia].
Qed.

(** Jobs remain only while some may be younger than two minutes. *)
Lemma loop_delete_finished jobs rem s w :
  Forall (fun j => job_CreationTimestamp j <= jobs_until w) jobs ->
  loop_wpm step (delete_finished jobs rem) s w (fun w' s' r => s' = s /\ waited w w' /\
    match r with Ok l => l = rem \/ clock w <= jobs_until w + 2 * minute | Err _ => (faults w' < faults w)%nat end).
Proof.
  intros Hjs. revert rem w Hjs. induction jobs as [|j jobs IH]; intros rem w Hjs; cbn [delete_finished].
  { lw_step. split_and!; [done|apply waited_refl|by left]. }
  apply Forall_cons in Hjs as [Hj Hjs].
  (* the rest of the jobs, later *)
  assert (forall w1 rem1, waited w w1 -> (rem1 = rem \/ clock w <= jobs_until w + 2 * minute) ->
    loop_wpm step (delete_finished jobs rem1) s w1 (fun w' s' r => s' = s /\ waited w w' /\
      match r with Ok l => l = rem \/ clock w <= jobs_until w + 2 * minute | Err _ => (faults w' < faults w)%nat end)) as Hrest.
  { intros w1 rem1 Hw Hr. eapply lw_mono; [apply IH; by rewrite (wt_jobs _ _ Hw)|].
    intros w2 s2 [l|e] (-> & H2 & Hl); (split; [done|]; split; [by apply (waited_trans _ w1)|]); destruct Hw; [|lia].
    destruct Hl as [->|Hl]; [done|]. right. lia. }
  assert (forall w1, waited w w1 ->
    loop_wpm step (let? _ := DeleteResourceIfExists KJob (job_Name j) else e => mret (Err e) in delete_finished jobs rem) s w1
      (fun w' s' r => s' = s /\ waited w w' /\
        match r with Ok l => l = rem \/ clock w <= jobs_until w + 2 * minute | Err _ => (faults w' < faults w)%nat end)) as Hdel.
  { intros w1 Hw. lw_step. eapply lw_mono; [apply loop_delete_job|]. intros w2 s2 [b|e] (-> & H2 & Hf).
    - apply Hrest; [by apply (waited_trans _ w1)|by left].
    - lw_step. split_and!; [done|by apply (waited_trans _ w1)|]. destruct Hw. lia. }
  lw_step; [by apply Hdel, waited_refl|]. apply lw_bind. lw_call_. intros now w1 [[Hnow ->]|(n & _ & [] & _)].
  assert (waited w (with_clock w now)) as Hw by (split; cbn; auto with lia).
  lw_step; [by apply Hdel|]. apply Hrest; [done|]. right. reflect_bools. lia.
Qed.

(** Within the delay the oldest job may become older than two minutes. *)
Lemma ticking_hosts w a :
  stored w = Some a -> finalizing a = true -> State (Status a) = HostCleanup -> (0 < waiting w)%nat -> ticking w.
Proof.
  intros Ha Hf Hst Hp w' (now & Hnow & ->). unfold distance. rewrite !(stage_host _ a) by done.
  enough (waiting (with_clock (with_daemons w (tick_service (daemons w))) now) < waiting w)%nat by (cbn; lia).
  unfold waiting in *. cbn [jobs_until clock with_clock with_daemons].
  assert ((jobs_until w + 2 * minute - now) / cleanupJobDelay <= (jobs_until w + 2 * minute - clock w + (-1) * cleanupJobDelay) / cleanupJobDelay)
    as Hd by (apply Z.div_le_mono; [done|lia]).
  rewrite Z.div_add in Hd by done. lia.
Qed.

Lemma pass_hosts s w :
  world_ok w -> stored w = Some s -> State (Status s) = HostCleanup -> passes w s cleanupHost.
Proof.
  intros Hok Hs Hst. assert (finalizing s = true) as Hf by (apply (still_finalizing w); [done..|by rewrite Hst]).
  unfold passes, cleanupHost, listCleanupJobs, ListJobsInNamespace. do 4 lw_step. lw_call_.
  intros x w1 [(-> & l & -> & Hl)|(n & Hn & (e & -> & He) & Hw)]; cbn.
  2: { assert (w1 = with_faults w n) as -> by (destruct Hw as [->|[x' [-> _]]]; done).
       do 2 lw_step. apply moved_faulted; [by apply faulted_here|by left]. }
  do 2 lw_step. eapply lw_mono; [apply loop_delete_finished|].
  { apply Forall_forall. intros j [_ Hj]%list_elem_of_filter. rewrite Forall_forall in Hl. by apply Hl. }
  intros w1 s1 r (-> & Hw & Hr). pose proof (waited_noworse _ _ _ Hok Hs Hf Hst Hw) as Hn. pose proof (proj1 Hn) as Hok1.
  assert (stored w1 = Some s) as Hs1 by (by rewrite (wt_stored _ _ Hw)).
  destruct r as [rem|e]; [|lw_step; apply moved_faulted; [done|by left]].
  lw_step; reflect_bools.
  - lw_step. destruct Hr as [->|Hr]; [done|]. split; [done| |right; by right; left|].
    + rewrite !released_stage. rewrite (stage_host w s) by done. lia.
    + right. destruct Hn as (_ & Hd & Hfa). destruct (decide (waiting w1 = 0%nat)) as [H0|H0].
      * left. unfold distance. rewrite !(stage_host _ s) by done. rewrite H0.
        enough (0 < waiting w)%nat by lia. unfold waiting.
        assert (0 <= (jobs_until w + 2 * minute - clock w) / cleanupJobDelay) by (apply Z.div_pos; [lia|done]). lia.
      * right. split; [unfold distance; lia|]. apply (ticking_hosts _ s); auto with lia.
  - subst. lw_step. eapply lw_mono; [apply (loop_next ClusterFinalized s w1); try done|].
    + intros _. rewrite (wt_live _ _ Hw). destruct Hok as [Ho _]. rewrite Hs in Ho. apply Ho. by left.
    + rewrite (stage_finalized _ (SetState ClusterFinalized s)), (stage_host w1 s) by done. lia.
    + intros w2 s2 [[]|e] H2; cbn in H2; lw_step.
      * destruct H2 as (? & ? & _). apply (noworse_next _ w1 _ s ClusterFinalized); try done. by rewrite Hst.
      * apply moved_faulted; [by apply (noworse_faulted _ w1)|by left].
Qed.

(** *** Finalization *)

(** What is stored once the finalizer is removed. *)
Lemma finalized_ok w a :
  world_ok w -> stored w = Some a -> State (Status a) = ClusterFinalized ->
  let w' := with_stored w (apply_finalizers a (RemoveFinalizer (ais_Finalizers a) aisFinalizer)) in
  world_ok w' /\ released w'.
Proof.
  intros [Ho Hj] Ha Hst. rewrite Ha in Ho. destruct Ho as [Hn Hd _ Hl]. cbv zeta.
  assert (nothing_left (live w)) as Hnl by (apply Hl; by right).
  pose proof (ContainsFinalizer_Remove (ais_Finalizers a) aisFinalizer) as Hr.
  unfold apply_finalizers. destruct (RemoveFinalizer (ais_Finalizers a) aisFinalizer) as [|f fs] eqn:Hfs.
  - split; [by split|done].
  - split; [split; [|done]|done]. by split.
Qed.

Lemma pass_finalize s w :
  world_ok w -> stored w = Some s -> State (Status s) = ClusterFinalized -> passes w s finalize.
Proof.
  intros Hok Hs Hst. unfold passes, finalize. do 2 lw_step. change (ContainsFinalizer (ais_Finalizers s) aisFinalizer) with (finalizing s).
  destruct (finalizing s) eqn:Hf; cbn [negb].
  2: { lw_step. assert (released w) by (unfold released; by rewrite Hs). split; [done..|by left|by left]. }
  assert (forall n, let w0 := with_faults w n in (n <= faults w)%nat ->
    let w' := with_stored w0 (apply_finalizers s (RemoveFinalizer (ais_Finalizers s) aisFinalizer)) in
    released w' /\ advanced w w') as Hdone.
  { intros n w0 Hn. destruct (finalized_ok w0 s Hok Hs Hst) as [Hok' Hr]. cbv zeta. split; [done|].
    split; [done|]. rewrite (stage_finalized w s) by done. apply released_stage in Hr. rewrite Hr. cbn. lia. }
  unfold PatchIfExists. do 3 lw_step. apply lw_bind. lw_call_. intros x w' [Ht|(n & Hn & (e & -> & He) & Hw)].
  - cbn in Ht. rewrite Hs in Ht. destruct Ht as [-> ->]. repeat lw_step.
    destruct (Hdone (faults w)) as [Hr Ha]; [done|]. apply closer_moved; [exact Ha|by left].
  - destruct He as [He _]. unfold missing in He. apply orb_false_iff in He as [-> _].
    do 2 lw_step. apply loop_event. lw_step. apply moved_faulted; [|by left].
    destruct Hw as [->|[x' Ht]]; [by apply faulted_here|]. cbn in Ht. rewrite Hs in Ht. destruct Ht as [_ ->].
    destruct (Hdone n) as [_ Ha]; [lia|]. split; [by apply is_noworse|]. cbn. lia.
Qed.

(** ** The whole reconciliation *)

Lemma pass_state s w :
  world_ok w -> stored w = Some s -> deleting (State (Status s)) = true -> passes w s reconcile_state.
Proof.
  intros Hok Hs Hd. unfold passes, reconcile_state. do 2 lw_step.
  destruct (State (Status s)) eqn:Hst; try done.
  - by apply pass_decommission.
  - by apply pass_cleanup.
  - by apply pass_hosts.
  - by apply pass_finalize.
Qed.

Lemma pass_object s w :
  world_ok w -> stored w = Some s -> passes w s reconcile_object.
Proof.
  intros Hok Hs. unfold passes, reconcile_object. do 3 lw_step.
  assert (loop_wpm step (if HasState s NoState then initializeCR else mret (Ok tt)) s w (fun w' s' r =>
    match r with Ok _ => prepared w w' s' | Err _ => faulted w w' end)) as H1.
  { unfold HasState. case_bool_decide as Hst; [|lw_step; by apply prepared_refl].
    eapply lw_mono; [by apply loop_initializeCR|]. intros w1 s1 [[]|e]; [by intros [? _]|done]. }
  eapply lw_mono; [exact H1|]. clear H1. intros w1 s1 [[]|e] H1; cbn in H1; [|lw_step; apply moved_faulted; [done|by left]].
  assert (world_ok w1) as Hok1 by apply H1. assert (stored w1 = Some s1) as Hs1 by apply H1.
  do 3 lw_step.
  assert (loop_wpm step (if IsTargetAutoScaling s1 || IsProxyAutoScaling s1 then determineAutoScaleStatus else mret (Ok tt)) s1 w1
    (fun w' s' r => match r with Ok _ => prepared w w' s' | Err _ => faulted w w' end)) as H2.
  { destruct (_ || _); [|by lw_step]. eapply lw_mono; [by apply loop_autoscale|].
    intros w2 s2 [[]|e] H2; [by apply (prepared_trans _ w1 _ s1); [|destruct H2]|].
    apply (noworse_faulted _ w1); [by apply (prepared_noworse _ _ s1)|done]. }
  eapply lw_mono; [exact H2|]. clear H1 Hok1 Hs1 H2 w1 s1. intros w1 s1 [[]|e] H1; cbn in H1; [|lw_step; apply moved_faulted; [done|by left]].
  lw_step. eapply lw_mono; [apply loop_start_decommission; apply H1|]. intros w2 s2 [[]|e] H2; cbn in H2.
  - destruct H2 as [H2 Hd]. lw_step. apply loop_start_shutdown; [done|].
    eapply lw_mono; [apply pass_state; [apply H2..|done]|]. intros w3 s3 o.
    apply (moved_prepared _ _ s2). by apply (prepared_trans _ w1 _ s1).
  - lw_step. apply moved_faulted; [|by left]. apply (noworse_faulted _ w1); [|done]. by apply (prepared_noworse _ _ s1).
Qed.

(** A call of [Reconcile]. *)
Lemma pass_Reconcile w :
  world_ok w -> loop_wp step (Reconcile (ais_Name ais)) w (fun w' o => moved w w' o).
Proof.
  intros Hok. unfold Reconcile. cbn [loop_wp]. intros x w' [[-> Hx]|(n & Hn & (e & -> & He) & Hw)].
  - destruct (stored w) as [s|] eqn:Hs.
    + subst x. apply loop_wp_bind. eapply loop_wp_mono; [|exact (pass_object s w Hok Hs)]. by intros w1 [s1 o].
    + destruct Hx as (e & -> & He). cbn. rewrite He. assert (released w) by (unfold released; by rewrite Hs).
      split; [done..|by left|by left].
  - assert (w' = with_faults w n) as -> by (destruct Hw as [->|[x' [-> _]]]; done).
    destruct He as [He _]. unfold missing in He. apply orb_false_iff in He as [He _]. cbn. rewrite He.
    apply moved_faulted; [by apply faulted_here|by left].
Qed.

(** ** Rounds *)

(** A round of the closed loop: a call of [Reconcile], and time passes. *)
Definition round (w w' : world) : Prop :=
  exists t o w1, exec (Reconcile (ais_Name ais)) t o /\ plays step w t w1 /\ tick w1 w'.

Lemma tick_noworse w w' : world_ok w -> tick w w' -> noworse w w'.
Proof.
  intros [Ho Hj] (now & Hn & ->). assert (clock w <= now) as Hc by (unfold cleanupJobDelay, second in Hn; lia).
  split; [split; [exact Ho|cbn; lia]|split; [|done]].
  assert (waiting (with_clock (with_daemons w (tick_service (daemons w))) now) <= waiting w)%nat as Hw by (by apply waiting_mono).
  assert (leave_rounds (tick_service (daemons w)) <= leave_rounds (daemons w))%nat as Hl by (destruct (daemons w) as [|[]|]; cbn; lia).
  unfold stage_distance. cbn [stored with_clock with_daemons]. destruct (stored w) as [a|]; [|done].
  destruct (negb (finalizing a)); [done|]. destruct (State (Status a)); world_lia.
Qed.

Lemma deletion_round w w' : world_ok w -> round w w' -> exists w1 o, moved w w1 o /\ tick w1 w'.
Proof.
  intros Hok (t & o & w1 & Hex & Hp & Ht). exists w1.
  destruct (loop_adequate _ _ _ _ _ _ _ (pass_Reconcile w Hok) Hex Hp) as (r & _ & ?). by exists r.
Qed.

#[export] Instance deletion_measured : Measured round world_ok released distance.
Proof.
  split.
  - intros w w' Hok (w1 & o & Hm & Ht)%deletion_round; [|done]. eapply tick_noworse, Ht. apply Hm.
  - intros w w' Hok (w1 & o & Hm & Ht)%deletion_round Hr; [|done].
    destruct (tick_noworse _ _ (mv_ok _ _ _ Hm) Ht) as (_ & Hd & _).
    pose proof (mv_released _ _ _ Hm Hr) as Hr1. rewrite released_stage in Hr1 |- *. lia.
  - intros w w' Hok (w1 & o & Hm & Ht)%deletion_round; [|done].
    destruct (tick_noworse _ _ (mv_ok _ _ _ Hm) Ht) as (_ & Hd & Hf).
    destruct (mv_closer _ _ _ Hm) as [?|[?|[? Hti]]]; [by left|right..].
    + unfold distance in *. lia.
    + specialize (Hti w' Ht). lia.
  - intros w _ Hd. apply released_stage. unfold distance in Hd. lia.
Qed.

(** The world can always answer. *)
Definition gone : error := MkError EkNotFound "".
Definition present (n : nsname) : StatefulSet :=
  MkSS n ∅ ∅ 1 (MkSSSpec 1 ∅ "" "" (MkUpdateStrategy OnDeleteStrategy None) []
    (MkPodTemplate ∅ ∅ (MkPodSpec [] [] false "" "" None [] None None ∅ [] [] "")) None) (MkSSStatus 1 1 1 1 1 "" "").
Definition served (w : world) (r : req) : answer r * world :=
  match r return answer r * world with
  | KGetAIStore _ => (match stored w with Some a => Ok a | None => Err gone end, w)
  | KPatchStatus _ st =>
      match stored w with Some a => (Ok (set_status a st), with_stored w (Some (set_status a st))) | None => (Err gone, w) end
  | KPatchAIStore _ m =>
      match stored w with
      | Some a => (Ok (set_finalizers a (ais_Finalizers m)), with_stored w (apply_finalizers a (ais_Finalizers m)))
      | None => (Err gone, w)
      end
  | KGetStatefulSet n => (match daemons w with Gone => Err gone | _ => Ok (present n) end, w)
  | AGetClient _ => (Ok 0, w)
  | ADecommissionCluster _ _ | AShutdownCluster _ =>
      (Ok tt, match daemons w with Serving => with_daemons w (Leaving D) | _ => w end)
  | KListNodes _ => (Ok [], w)
  | KListPods _ _ => (Ok [], w)
  | KListServices _ _ => (Ok [], w)
  | KListPVCs _ _ => (Ok [], w)
  | KListJobs _ => (Ok [], w)
  | KCreate (_, OJob _) => (Ok tt, with_jobs w (clock w))
  | KDelete KJob _ => (Ok tt, w)
  | KDelete k n =>
      if decide ((k, n) ∈ live w) then (Ok tt, with_live w (filter (fun y => y ≠ (k, n)) (live w)) (lingering w))
      else (Err gone, w)
  | ENow => (clock w, with_clock w (clock w))
  | r => (some_answer r, w)
  end.

Lemma served_truth w r : truth w r (served w r).1 (served w r).2.
Proof.
  destruct r as [| | | | | | | | | | | | | | | | |[? []]| | |k nm| | | | | | | | | | | | | | | | |]; try done; cbn.
  all: try (split; [done|]; destruct (stored w) eqn:Hs; rewrite ?Hs; by eauto).
  all: try (destruct (stored w); by eauto).
  all: try (by destruct (daemons w)).
  all: try (split; by eauto).
  - destruct k; try done; case_decide; cbn.
    all: try (split_and!; done).
    all: by exists (lingering w).
  - split; [done|]. destruct (daemons w); eauto.
  - split; [done|]. destruct (daemons w); eauto.
Qed.

Lemma deletion_round_exists w : exists w', round w w'.
Proof.
  destruct (plays_exist step (fun _ => True) (Reconcile (ais_Name ais)) w) as (t & o & w1 & Hex & Hp); [|done|].
  - intros w0 r _. exists (served w0 r).1, (served w0 r).2. split; [left; apply served_truth|done].
  - exists (with_clock (with_daemons w1 (tick_service (daemons w1))) (clock w1 + cleanupJobDelay)), t, o, w1.
    split_and!; [done..|]. by exists (clock w1 + cleanupJobDelay).
Qed.

(** The distance at the start. *)
Lemma deletion_bound w :
  world_ok w -> (forall d, daemons w = Leaving d -> (d <= D)%nat) ->
  (distance w <= length (live w) + lingering w + D + faults w + 31)%nat.
Proof.
  intros Hok Hd. pose proof (waiting_bound w Hok) as Hw.
  assert (leave_rounds (daemons w) <= D + 2)%nat by (destruct (daemons w) as [|d|]; cbn; [lia|specialize (Hd d eq_refl); lia|lia]).
  unfold distance, stage_distance, potential. destruct (stored w) as [a|]; [|lia].
  destruct (negb (finalizing a)); [lia|]. destruct (State (Status a)); lia.
Qed.

(** C2. The deletion of a cluster completes. From any state of the deleted object the loop can always
    go on, and whatever sequence of rounds follows - the failures falling on any requests, before
    or after they took effect, the daemons taking any time up to [D] rounds to leave, lists
    showing any claims and services, clean-up jobs never succeeding - every reconciliation runs
    to its end and, unless the operator has let go of the object, asks for the next one: it
    returns an error or a delay, or changed the object. Once as many rounds have passed as
    there are things to delete, rounds to leave and failures, and 31 more, the finalizer of the operator is
    removed (the object is gone, or left to other finalizers), and nothing the clean-up deletes
    by name exists. *)
Theorem deletion_completes N w :
  world_ok w -> (forall d, daemons w = Leaving d -> (d <= D)%nat) ->
  (exists w', nsteps round N w w') /\
  forall w', nsteps round N w w' ->
    (forall t o w1, exec (Reconcile (ais_Name ais)) t o -> plays step w' t w1 ->
       exists r, o = Some r /\
         (released w1 \/ snd r ≠ None \/ 0 < RequeueAfter (fst r) \/ stored w1 ≠ stored w')) /\
    ((length (live w) + lingering w + D + faults w + 31 <= N)%nat -> released w' /\ nothing_left (live w')).
Proof.
  intros Hok Hd. split; [apply (rounds_go_on round _ _ _ N w); [intros; apply deletion_round_exists|done]|].
  intros w' Hr. pose proof (rounds_ok round _ _ _ _ _ _ Hok Hr) as Hok'. split.
  - intros t o w1 Hex Hp. destruct (loop_adequate _ _ _ _ _ _ _ (pass_Reconcile w' Hok') Hex Hp) as (r & -> & Hm).
    exists r. split; [done|]. destruct (mv_asks _ _ _ Hm) as [?|[?|[?|(a & b & -> & -> & Hn & _)]]]; [auto..|].
    right. right. right. by intros [= ->].
  - intros HN. assert (released w') as Hrel.
    { apply (rounds_reach round world_ok released distance N w); [done..|]. right. pose proof (deletion_bound w Hok Hd). lia. }
    split; [done|]. destruct Hok' as [Ho _]. unfold released in Hrel. destruct (stored w') as [a|]; [|done].
    apply Ho. right. by apply Ho.
Qed.
End Loop.
