(* ===== verification/Shutdown.v ===== *)
(** * A shutdown completes

    The closed loop of [Reconcile] on a ready AIStore whose spec asks for a shutdown: against a
    truthful world with finitely many failed requests, in which pods are gone some rounds after
    they were asked to go, rebalance is disabled, both StatefulSets are scaled to zero, and the
    cluster is reported down once they are, where it stays. *)

From stdpp Require Import relations.
From S2P Require Import Prelude Effects ClosedLoop K8sTypes AISConfig AIStoreTypes ThirdParty AIStoreMethods GlobalConfig CmnResources ProxyResources TargetResources Requests K8sClient ClusterOps Nodes ProxyController TargetController LoopStages Cluster.

(** ** Worlds *)

(** A StatefulSet: the replicas its spec asks for, and the rounds until it has as many. *)
Record pods := MkPods { asked : Z; rounds_left : nat }.
Record world := MkWorld { stored : AIStore; proxies : pods; targets : pods; faults : nat }.

Definition with_stored (w : world) (a : AIStore) : world := MkWorld a (proxies w) (targets w) (faults w).
Definition with_proxies (w : world) (p : pods) : world := MkWorld (stored w) p (targets w) (faults w).
Definition with_targets (w : world) (p : pods) : world := MkWorld (stored w) (proxies w) p (faults w).
Definition with_faults (w : world) (n : nat) : world := MkWorld (stored w) (proxies w) (targets w) n.

(** One round later. *)
Definition tick_pods (p : pods) : pods := MkPods (asked p) (pred (rounds_left p)).
Definition tick (w : world) : world := MkWorld (stored w) (tick_pods (proxies w)) (tick_pods (targets w)) (faults w).

(** All pods up; no pods. *)
Definition running (p : pods) : bool := (0 <? asked p) && (rounds_left p =? 0)%nat.
Definition gone (p : pods) : bool := (asked p =? 0) && (rounds_left p =? 0)%nat.

(** A truthful read: the status counts the pods there are. *)
Definition counts (p : pods) (ss : StatefulSet) : Prop :=
  sss_Replicas (ss_Spec ss) = asked p /\
  (ssst_Replicas (ss_Status ss) = asked p <-> rounds_left p = 0%nat).

Section Loop.
Context `{T : ThirdParty, L : !ThirdPartyLaws T} (ais : AIStore) (D : nat).

Definition proxy_set : nsname := Proxy.StatefulSetNSName ais.
Definition target_set : nsname := Target.StatefulSetNSName ais.

Definition pods_of (w : world) (n : nsname) : option pods :=
  if bool_decide (n = proxy_set) then Some (proxies w)
  else if bool_decide (n = target_set) then Some (targets w) else None.
Definition with_pods (w : world) (n : nsname) (p : pods) : world :=
  if bool_decide (n = proxy_set) then with_proxies w p
  else if bool_decide (n = target_set) then with_targets w p else w.

(** The AIS cluster answers as long as all its daemons are up. Writes not named here may do
    anything: a shutdown issues none. *)
Definition truth (w : world) (r : req) : answer r -> world -> Prop :=
  match r return answer r -> world -> Prop with
  | KGetAIStore _ => fun x w' => w' = w /\ x = Ok (stored w)
  | KPatchStatus _ st => fun x w' =>
      x = Ok (set_status (stored w) st) /\ w' = with_stored w (set_status (stored w) st)
  | KPatchAIStore _ m => fun x w' =>
      x = Ok (patched (stored w) m) /\ w' = with_stored w (patched (stored w) m)
  | KGetStatefulSet n => fun x w' => w' = w /\
      match pods_of w n with
      | Some p => exists ss, x = Ok ss /\ ss_Name ss = n /\ counts p ss
      | None => exists e, x = Err e /\ is_not_found e = true
      end
  | KPatchStatefulSet _ m => fun x w' =>
      match pods_of w (ss_Name m) with
      | Some _ => x = Ok tt /\ exists d, (d <= D)%nat /\
          w' = with_pods w (ss_Name m) (MkPods (sss_Replicas (ss_Spec m)) d)
      | None => w' = w /\ exists e, x = Err e /\ is_not_found e = true
      end
  | AGetClient _ => fun x w' => w' = w /\ exists c, x = Ok c
  | ASetClusterConfig _ _ _ => fun x w' => w' = w /\
      (running (proxies w) = true -> running (targets w) = true -> x = Ok tt)
  | KListNodes _ => fun x w' => w' = w /\ exists l, x = Ok l
  | KListPods _ _ => fun x w' => w' = w /\ exists l, x = Ok l
  | EEvent _ _ _ _ => fun _ w' => w' = w
  | r' => fun _ w' => is_read r' = true -> w' = w
  end.

Definition step : world -> forall r : req, answer r -> world -> Prop :=
  faulty_step truth fails faults with_faults.

(** ** Invariant, goal and distance *)

(** The cluster is down, and said to be. *)
Definition down (w : world) : bool :=
  bool_decide (State (Status (stored w)) = ClusterShutdown) && gone (proxies w) && gone (targets w).

Definition state_ok (w : world) (st : ClusterState) : Prop :=
  match st with
  | ClusterReady => running (proxies w) = true /\ running (targets w) = true
  | ClusterShuttingDown => True
  | ClusterShutdown => gone (proxies w) = true /\ gone (targets w) = true
  | _ => False
  end.

Record world_ok (w : world) : Prop := {
  ok_object : same_object ais (stored w);
  ok_state : state_ok w (State (Status (stored w)));
}.

(** Rounds until the pods are gone, which take up to [D] from the moment they are asked to go. *)
Definition left_of (p : pods) : nat := if asked p =? 0 then rounds_left p else S D.
Definition work (w : world) : nat := left_of (proxies w) + left_of (targets w).
Definition distance (w : world) : nat := if down w then 0 else S (work w + faults w).

(** Rounds that pass bring the goal closer. *)
Definition leaving (w : world) : bool :=
  (asked (proxies w) =? 0) && negb (rounds_left (proxies w) =? 0)%nat ||
  (asked (targets w) =? 0) && negb (rounds_left (targets w) =? 0)%nat.

Record noworse (w w' : world) : Prop := {
  nw_ok : world_ok w'; nw_work : (work w' <= work w)%nat; nw_faults : (faults w' <= faults w)%nat;
  nw_down : down w = true -> down w' = true;
}.
Definition faulted (w w' : world) : Prop := noworse w w' /\ (faults w' < faults w)%nat.

Lemma shut_noworse_refl w : world_ok w -> noworse w w.
Proof. by split. Qed.
Lemma shut_noworse_trans w1 w2 w3 : noworse w1 w2 -> noworse w2 w3 -> noworse w1 w3.
Proof. intros [] []. split; [done|lia..|auto]. Qed.
Lemma shut_noworse_faulted w1 w2 w3 : noworse w1 w2 -> faulted w2 w3 -> faulted w1 w3.
Proof. intros H1 [H2 Hf]. split; [by eapply shut_noworse_trans|]. pose proof (nw_faults _ _ H1). lia. Qed.

Lemma shut_faulted_here w n : world_ok w -> faults w = S n -> faulted w (with_faults w n).
Proof. intros [] Hf. split; [split; [by split|done|cbn; lia|done]|cbn; lia]. Qed.

(** ** Writing the object *)

(** The object changes, in a state that fits the pods. *)
Lemma stored_noworse w a :
  world_ok w -> same_object ais a -> state_ok w (State (Status a)) ->
  (State (Status (stored w)) = ClusterShutdown -> State (Status a) = ClusterShutdown) ->
  noworse w (with_stored w a).
Proof.
  intros Hok Ha Hst Hd. split; [by split|done..|]. unfold down. cbn. rewrite !andb_true_iff, !bool_decide_eq_true. tauto.
Qed.

Lemma same_restatus a s : same_object ais a -> s = set_status a (Status s) -> same_object ais s.
Proof. intros [] ->. by split. Qed.

(** [patchStatus] with a status for the stored object. *)
Lemma shut_patchStatus s w :
  world_ok w -> s = set_status (stored w) (Status s) -> noworse w (with_stored w s) ->
  loop_wpm step patchStatus s w (fun w' s' r =>
    match r with Ok _ => w' = with_stored w s /\ s' = s | Err _ => faulted w w' end).
Proof.
  intros Hok Hs Hn. unfold patchStatus. do 2 lw_step. apply lw_bind. lw_call_.
  intros x w' [Ht|(n & Hf & (e & -> & _) & Hw)].
  - cbn in Ht. rewrite <-Hs in Ht. destruct Ht as [-> ->]. by repeat lw_step.
  - unfold record_fail, recordError. apply lw_bind. lw_call_. intros u w2 [->|(n' & _ & Hno & _)]; [|done].
    lw_step. destruct Hw as [->|[x' Ht]]; [by apply shut_faulted_here|]. cbn in Ht. rewrite <-Hs in Ht.
    destruct Ht as [_ ->]. destruct Hn as [[] ? ? ?]. split; [split; [by split|done|cbn; lia|done]|cbn; lia].
Qed.

Lemma shut_updateStatus st s w :
  world_ok w -> s = set_status (stored w) (Status s) -> noworse w (with_stored w (SetState st s)) ->
  loop_wpm step (updateStatusWithState st) s w (fun w' s' r =>
    match r with Ok _ => w' = with_stored w (SetState st s) /\ s' = SetState st s | Err _ => faulted w w' end).
Proof.
  intros Hok Hs Hn. unfold updateStatusWithState. apply lw_bind, lw_modify. apply shut_patchStatus; [done| |done].
  rewrite Hs. done.
Qed.

Lemma shut_event b r a n s w (Q : world -> AIStore -> unit -> Prop) :
  Q w s tt -> loop_wpm step (call (EEvent b r a n)) s w Q.
Proof. intros HQ. lw_call_. intros [] w' [->|(n' & _ & Hno & _)]; done. Qed.

Lemma status_self (s : AIStore) : s = set_status s (Status s).
Proof. by destruct s. Qed.

(** ** Before the state is looked at *)

#[local] Abbreviation answers := (ClosedLoop.answers step failure faults with_faults).

Lemma shut_nodes sel : answers (KListNodes sel) (fun x => x) anything no_error.
Proof. solve_answers. Qed.
Lemma shut_pods ns sel : answers (KListPods ns sel) (fun x => x) anything no_error.
Proof. solve_answers. Qed.
Lemma shut_client a : answers (AGetClient a) (fun x => x) anything no_error.
Proof. solve_answers. Qed.
Lemma shut_set_config c conf b :
  answers (ASetClusterConfig c conf b) (fun x => x) anything (fun w _ => ~ (running (proxies w) = true /\ running (targets w) = true)).
Proof.
  intros w x w' [[-> Ht]|(n & Hn & (e & -> & He) & Hw)].
  - destruct x as [u|e]; [done|]. left. split; [done|]. intros [Hp Hg]. by specialize (Ht Hp Hg).
  - right. split; [done|]. exists n. split; [done|]. destruct Hw as [->|[x' Ht]]; [done|]. by destruct Ht as [-> _].
Qed.

(** A stage that only writes the object, which is the one in memory at the end. *)
Definition writes (w : world) (st : ClusterState) (w' : world) (s' : AIStore) (r : res unit) : Prop :=
  match r with
  | Ok _ => noworse w w' /\ stored w' = s' /\ proxies w' = proxies w /\ targets w' = targets w /\
            State (Status s') = st
  | Err _ => faulted w w'
  end.

Lemma writes_after w w1 st w2 s2 r :
  noworse w w1 -> proxies w1 = proxies w -> targets w1 = targets w ->
  writes w1 st w2 s2 r -> writes w st w2 s2 r.
Proof.
  unfold writes. intros Hn Hp Ht. destruct r as [[]|e]; [|by apply shut_noworse_faulted].
  intros (H & ? & ? & ? & ?). split_and!; [by eapply shut_noworse_trans|congruence..].
Qed.

Lemma writes_refl s w : world_ok w -> stored w = s -> writes w (State (Status s)) w s (Ok tt).
Proof. intros Hok Hs. split_and!; [by apply shut_noworse_refl|done..]. Qed.

Lemma same_state w a :
  world_ok w -> same_object ais a -> State (Status a) = State (Status (stored w)) -> noworse w (with_stored w a).
Proof.
  intros Hok Ha Hst. apply stored_noworse; [done..| |by rewrite Hst]. rewrite Hst. apply Hok.
Qed.

Lemma shut_restatus s w s1 :
  world_ok w -> stored w = s -> s1 = set_status s (Status s1) -> State (Status s1) = State (Status s) ->
  loop_wpm step patchStatus s1 w (writes w (State (Status s))).
Proof.
  intros Hok Hs Hs1 Hst.
  assert (noworse w (with_stored w s1)) as Hn.
  { apply same_state; [done| |by rewrite Hs]. rewrite <-Hs in Hs1. eapply same_restatus; [apply Hok|exact Hs1]. }
  eapply lw_mono; [apply shut_patchStatus; [done|by rewrite Hs|done]|].
  intros w' s' [[]|e]; [intros [-> ->]|done]. by split_and!.
Qed.

Lemma shut_autoscale s w :
  world_ok w -> stored w = s -> loop_wpm step determineAutoScaleStatus s w (writes w (State (Status s))).
Proof.
  intros Hok Hs. apply (loop_determine step faults with_faults shut_nodes shut_pods); [|intros; by apply shut_faulted_here].
  intros status. unfold updateAutoScaleStatus. do 3 lw_step; [lw_step; by apply writes_refl|].
  do 2 lw_step. by apply shut_restatus.
Qed.

Context (enc : encodes T).

(** The configuration is sent to a cluster that runs, and recorded. *)
Lemma shut_config s w :
  world_ok w -> stored w = s -> running (proxies w) = true -> running (targets w) = true ->
  loop_wpm step (handleConfigState true) s w (writes w (State (Status s))).
Proof.
  intros Hok Hs Hrp Hrt. destruct (config_encodes enc s) as (c & h & r & Hc & Hh & _ & Hrh).
  unfold handleConfigState, updateClusterConfig. do 2 lw_step. rewrite Hc. do 3 lw_step. rewrite Hh. cbn [negb andb].
  lw_step. apply (lw_read step _ _ _ _ _ _ _ _ (shut_client _)). intros [cl|e].
  2: { intros n Hn _. repeat lw_step. by apply shut_faulted_here. }
  lw_step. eapply (lw_answers step); [apply shut_set_config|]. intros [u|e]; [intros _|].
  2: { split; [intros Hno; by destruct Hno|]. intros n Hn _. repeat lw_step. by apply shut_faulted_here. }
  lw_step. unfold calcRestartConfigAnnotation. rewrite Hrh. cbn [mbind res_bind].
  case_match; [lw_step; by apply writes_refl|].
  unfold patchAISAnnotations. do 4 lw_step. set (m := set_annotations s _).
  assert (forall n, noworse (with_faults w n) (with_stored (with_faults w n) (patched s m)) /\
    State (Status (patched s m)) = State (Status s)) as Hn.
  { intros n. split; [|done]. apply (same_state (with_faults w n)); [by destruct Hok|destruct Hok as [[] _]|by rewrite <-Hs].
    subst s. by split. }
  lw_step. lw_call_. intros x w' [Ht|(n & Hf & (e & -> & _) & Hw)].
  - cbn in Ht. rewrite Hs in Ht. destruct Ht as [-> ->]. repeat lw_step. destruct (Hn (faults w)) as [Hn' _]. destruct w; by split_and!.
  - lw_step. destruct Hw as [->|[x' Ht]]; [by apply shut_faulted_here|]. cbn in Ht. rewrite Hs in Ht. destruct Ht as [_ ->].
    destruct (shut_faulted_here w n Hok Hf) as [H1 H2]. split; [|done]. eapply shut_noworse_trans; [exact H1|apply Hn].
Qed.

Context (wanted : ShouldBeShutdown ais = true).

Lemma still_wanted w : world_ok w -> ShouldBeShutdown (stored w) = true.
Proof. intros [[_ _ Hs _] _]. unfold ShouldBeShutdown. by rewrite Hs. Qed.

(** Rebalance is disabled while the cluster still runs; then the shutdown is started. *)
Lemma shut_start s w :
  world_ok w -> stored w = s ->
  loop_wpm step start_shutdown s w (fun w' s' r =>
    match r with Ok _ => noworse w w' /\ stored w' = s' /\ State (Status s') ≠ ClusterReady | Err _ => faulted w w' end).
Proof.
  intros Hok Hs. unfold start_shutdown, ShouldStartShutdown, HasState. do 2 lw_step.
  rewrite <-Hs, (still_wanted w Hok), Hs. cbn [andb]. case_bool_decide as Hst; cbn [negb].
  2: { lw_step. split_and!; [by apply shut_noworse_refl|done..]. }
  destruct Hok as [Ho Hr]. assert (world_ok w) as Hok by (by split). rewrite Hs, Hst in Hr. destruct Hr as [Hrp Hrt].
  unfold disableRebalance. do 4 lw_step. eapply lw_mono; [by apply (shut_restatus s)|].
  intros w1 s1 [[]|e] H1; cbn in H1; [|by repeat lw_step]. destruct H1 as (Hn1 & Hs1 & Hp1 & Ht1 & Hst1).
  assert (world_ok w1) as Hok1 by apply Hn1.
  eapply lw_mono; [apply shut_config; [done..|by rewrite Hp1|by rewrite Ht1]|].
  intros w2 s2 r2 H2%(writes_after w _ _ _ _ _ Hn1 Hp1 Ht1). rewrite Hst1, Hst in H2.
  destruct r2 as [[]|e]; cbn in H2; [|by repeat lw_step]. destruct H2 as (Hn2 & Hs2 & Hp2 & Ht2 & Hst2).
  assert (world_ok w2) as Hok2 by apply Hn2.
  assert (noworse w2 (with_stored w2 (SetState ClusterShuttingDown s2))) as Hn3.
  { apply stored_noworse; [done| |done|].
    - subst s2. eapply same_restatus; [apply Hok2|]. done.
    - rewrite Hs2, Hst2. done. }
  lw_step. eapply lw_mono; [apply shut_updateStatus; [done|by rewrite Hs2; apply status_self|done]|].
  intros w3 s3 [[]|e] H3; cbn in H3; [|lw_step; by apply (shut_noworse_faulted _ w2)].
  destruct H3 as [-> ->]. lw_step. apply shut_event. lw_step. split_and!; [by eapply shut_noworse_trans|done..].
Qed.

(** ** Scaling to zero *)

Lemma pods_proxies w : pods_of w (Proxy.StatefulSetNSName ais) = Some (proxies w).
Proof. unfold pods_of. by rewrite bool_decide_eq_true_2. Qed.
Lemma pods_targets w : pods_of w (Target.StatefulSetNSName ais) = Some (targets w).
Proof. unfold pods_of. rewrite bool_decide_eq_false_2 by (intros H; by destruct (sets_distinct ais)). by rewrite bool_decide_eq_true_2. Qed.
Lemma with_pods_proxies w p : with_pods w (Proxy.StatefulSetNSName ais) p = with_proxies w p.
Proof. unfold with_pods. by rewrite bool_decide_eq_true_2. Qed.
Lemma with_pods_targets w p : with_pods w (Target.StatefulSetNSName ais) p = with_targets w p.
Proof. unfold with_pods. rewrite bool_decide_eq_false_2 by (intros H; by destruct (sets_distinct ais)). by rewrite bool_decide_eq_true_2. Qed.

Lemma pods_with w n p p' : pods_of w n = Some p ->
  pods_of (with_pods w n p') n = Some p' /\ stored (with_pods w n p') = stored w /\ faults (with_pods w n p') = faults w /\
  (work (with_pods w n p') + left_of p = work w + left_of p')%nat /\
  (asked p' = 0 -> rounds_left p' ≠ 0%nat -> leaving (with_pods w n p') = true).
Proof.
  unfold pods_of, with_pods, work, leaving. case_bool_decide as H1; [|case_bool_decide as H2; [|done]]; intros [= <-]; cbn;
    rewrite ?bool_decide_eq_true_2, ?bool_decide_eq_false_2 by done; cbn; (split_and!; [done..|lia|]);
    intros -> Hr%Nat.eqb_neq; rewrite Hr; cbn; by rewrite ?orb_true_r.
Qed.

(** A StatefulSet is scaled to zero: it is there, or the pods still leave. *)
Definition scaled (w : world) (s : AIStore) (n : nsname) (w' : world) (s' : AIStore) (o : option outcome) : Prop :=
  match o with
  | None => s' = s /\ noworse w w' /\ exists p, gone p = true /\ pods_of w' n = Some p /\ (w' = w \/ w' = with_pods w n p)
  | Some (r, None) => noworse w w' /\ 0 < RequeueAfter r /\ leaving w' = true
  | Some (r, Some _) => faulted w w'
  end.

Lemma scaled_noworse w n p d :
  world_ok w -> State (Status (stored w)) = ClusterShuttingDown -> pods_of w n = Some p -> asked p ≠ 0 -> (d <= D)%nat ->
  noworse w (with_pods w n (MkPods 0 d)).
Proof.
  intros [Ho _] Hst Hp Ha Hd. destruct (pods_with w n p (MkPods 0 d) Hp) as (_ & Hs & Hf & Hw & _).
  split; [split; rewrite Hs; [done|by rewrite Hst]| |by rewrite Hf|].
  - unfold left_of in Hw. cbn in Hw. apply Z.eqb_neq in Ha. rewrite Ha in Hw. lia.
  - unfold down. by rewrite Hst.
Qed.

(** The read that checks the size. *)
Lemma scaled_size w0 w n p s :
  noworse w0 w -> pods_of w n = Some p -> asked p = 0 -> (w = w0 \/ w = with_pods w0 n p) ->
  loop_wpm step (IsStatefulSetSize n 0) s w (fun w' s' r => scaled w0 s n w' s'
    (match r with Err e => Some (MkResult aisShutdownRequeueDelay, Some e)
     | Ok done_ => if done_ : bool then None else Some (requeue aisShutdownRequeueDelay) end)).
Proof.
  intros Hn Hp Ha Hw. unfold IsStatefulSetSize, GetStatefulSet. lw_step. lw_call_.
  intros x w' [[-> Ht]|(m & Hm & (e & -> & _) & Hw')].
  - rewrite Hp in Ht. destruct Ht as (ss & -> & _ & _ & Hc). rewrite Ha in Hc. lw_step.
    destruct (Z.eqb_spec (ssst_Replicas (ss_Status ss)) 0) as [Hz|Hz].
    + do 2 (split; [done|]). exists p. split_and!; [|done..]. unfold gone. rewrite Ha. apply Hc in Hz. by rewrite Hz.
    + split_and!; [done|done|]. destruct (pods_with w n p p Hp) as (_ & _ & _ & _ & Hl).
      assert (with_pods w n p = w) as Heq.
      { revert Hp. unfold pods_of, with_pods. destruct w. repeat case_bool_decide; [by intros [= <-]..|done]. }
      rewrite Heq in Hl. apply Hl; [done|]. tauto.
  - assert (w' = with_faults w m) as -> by (destruct Hw' as [->|[x' [-> _]]]; done). lw_step. cbn.
    eapply shut_noworse_faulted; [exact Hn|]. apply shut_faulted_here; [apply Hn|done].
Qed.

Lemma shut_scale s w n p :
  world_ok w -> State (Status (stored w)) = ClusterShuttingDown -> pods_of w n = Some p ->
  loop_wpm step (scale_to_zero n) s w (scaled w s n).
Proof.
  intros Hok Hst Hp. unfold scale_to_zero, UpdateStatefulSetReplicas, GetStatefulSet. lw_step. lw_step. lw_call_.
  intros x w' [[-> Ht]|(m & Hm & (e & -> & _) & Hw)].
  2: { assert (w' = with_faults w m) as -> by (destruct Hw as [->|[x' [-> _]]]; done). repeat lw_step.
       by apply shut_faulted_here. }
  rewrite Hp in Ht. destruct Ht as (ss & -> & Hname & Hr & _). rewrite Hr.
  destruct (Z.eqb_spec (asked p) 0) as [Ha|Ha].
  { lw_step. lw_step. eapply lw_mono; [apply (scaled_size w w n p); auto using shut_noworse_refl|]. intros w1 s1 r1 H1. by lw_step. }
  lw_step. lw_call_. intros x w' [Ht|(m & Hm & (e & -> & _) & Hw)].
  - cbn in Ht. rewrite Hname, Hp in Ht. destruct Ht as (-> & d & Hd & ->). repeat lw_step.
    destruct (pods_with w n p (MkPods 0 d) Hp) as (Hp' & _).
    eapply lw_mono; [apply (scaled_size w _ n (MkPods 0 d)); [by eapply scaled_noworse|done|done|by right]|].
    intros w1 s1 r1 H1. by lw_step.
  - repeat lw_step. destruct Hw as [->|[x' Ht]]; [by apply shut_faulted_here|]. cbn in Ht.
    change (pods_of (with_faults w m) (ss_Name ss)) with (pods_of w (ss_Name ss)) in Ht.
    rewrite Hname, Hp in Ht. destruct Ht as (_ & d & Hd & ->).
    destruct (shut_faulted_here w m Hok Hm) as [H1 H2].
    pose proof (scaled_noworse (with_faults w m) n p d (nw_ok _ _ H1) Hst Hp Ha Hd) as H3.
    split; [by eapply shut_noworse_trans|]. apply nw_faults in H3. lia.
Qed.

(** ** One pass *)

(** The pass leaves the goal where it is, asks for another one before it, and comes closer to
    it: at once or with the rounds that pass. *)
Record moved (w w' : world) (o : outcome) : Prop := {
  mv_noworse : noworse w w';
  mv_asks : down w' = true \/ snd o ≠ None \/ 0 < RequeueAfter (fst o);
  mv_closer : down w' = true \/ (faults w' < faults w)%nat \/ leaving w' = true;
}.
Definition passes (w : world) (s : AIStore) (m : H outcome) : Prop :=
  loop_wpm step m s w (fun w' _ o => moved w w' o).

Lemma moved_after w w1 w2 o : noworse w w1 -> moved w1 w2 o -> moved w w2 o.
Proof.
  intros Hn [Hn1 Ha Hc]. split; [by eapply shut_noworse_trans|done|]. pose proof (nw_faults _ _ Hn). intuition lia.
Qed.
Lemma passes_after w w1 s m :
  noworse w w1 -> passes w1 s m -> loop_wpm step m s w1 (fun w' _ o => moved w w' o).
Proof. intros Hn Hp. eapply lw_mono; [exact Hp|]. intros w2 s2 o. by apply moved_after. Qed.
Lemma moved_failed w w' r e : faulted w w' -> moved w w' (r, Some e).
Proof. intros [Hn Hf]. split; [done|right; by left|right; by left]. Qed.
Lemma moved_scaled w s n w' s' o : scaled w s n w' s' (Some o) -> moved w w' o.
Proof. destruct o as [r [e|]]; [apply moved_failed|]. intros (? & ? & ?). split; auto. Qed.

Lemma pass_shutdown s w :
  world_ok w -> stored w = s -> State (Status s) = ClusterShuttingDown -> passes w s shutdownCluster.
Proof.
  intros Hok Hs Hst. assert (ais_Name s = ais_Name ais) as Hname by (subst s; apply Hok).
  assert (Proxy.StatefulSetNSName s = Proxy.StatefulSetNSName ais /\ Target.StatefulSetNSName s = Target.StatefulSetNSName ais)
    as [Hps Hts].
  { unfold Proxy.StatefulSetNSName, Target.StatefulSetNSName, in_ns, ProxyStatefulSetName, Target.statefulSetName, aname. by rewrite Hname. }
  rewrite <-Hs in Hst. unfold passes, shutdownCluster. do 3 lw_step. rewrite Hps, Hts.
  eapply lw_mono; [eapply shut_scale; [done..|apply pods_proxies]|]. intros w1 s1 [o|] H1; [lw_step; by eapply moved_scaled|].
  destruct H1 as (-> & Hn1 & p & Hp & Hp1 & Hw1). rewrite pods_proxies in Hp1. injection Hp1 as Hp1. rewrite with_pods_proxies in Hw1.
  assert (stored w1 = s) as Hs1 by (by destruct Hw1 as [->| ->]).
  assert (world_ok w1) as Hok1 by apply Hn1. rewrite Hs in Hst. lw_step.
  eapply lw_mono; [eapply shut_scale; [done|by rewrite Hs1|apply pods_targets]|].
  intros w2 s2 [o|] H2; [lw_step; eapply moved_after, moved_scaled; done|].
  destruct H2 as (-> & Hn2 & q & Hq & Hq2 & Hw2). rewrite pods_targets in Hq2. injection Hq2 as Hq2. rewrite with_pods_targets in Hw2.
  assert (stored w2 = s /\ proxies w2 = p) as [Hs2 Hp2] by (rewrite <-Hp1, <-Hs1; by destruct Hw2 as [->| ->]).
  assert (noworse w w2) as Hn by (by eapply shut_noworse_trans).
  assert (noworse w2 (with_stored w2 (SetState ClusterShutdown s))) as Hn3.
  { assert (world_ok w2) as Hok2 by apply Hn2. apply stored_noworse; [done| |cbn; by rewrite Hp2, Hq2|done].
    eapply same_restatus; [apply Hok2|]. by rewrite Hs2. }
  lw_step. eapply lw_mono; [apply shut_updateStatus; [apply Hn2|rewrite Hs2; apply status_self|done]|].
  intros w3 s3 [[]|e] H3; cbn in H3; [|lw_step; by apply moved_failed, (shut_noworse_faulted _ w2)].
  destruct H3 as [-> ->]. lw_step. apply shut_event. lw_step.
  assert (down (with_stored w2 (SetState ClusterShutdown s)) = true) as Hd.
  { unfold down. cbn. by rewrite Hp2, Hq2, Hp, Hq. }
  split; [by eapply shut_noworse_trans|by left|by left].
Qed.

Lemma pass_down s w :
  world_ok w -> stored w = s -> State (Status s) ≠ ClusterReady -> passes w s reconcile_state.
Proof.
  intros Hok Hs Hst. unfold passes, reconcile_state. do 2 lw_step.
  pose proof (still_wanted w Hok) as Hw. rewrite Hs in Hw. pose proof (ok_state _ Hok) as Hso. rewrite Hs in Hso.
  destruct (State (Status s)) eqn:Hs'; try done; rewrite Hw.
  - by apply pass_shutdown.
  - lw_step. assert (down w = true) as Hd.
    { unfold down. rewrite Hs, Hs'. destruct Hso as [-> ->]. done. }
    split; [by apply shut_noworse_refl|by left|by left].
Qed.

Lemma shut_object s w : world_ok w -> stored w = s -> passes w s reconcile_object.
Proof.
  intros Hok Hs. unfold passes, reconcile_object. do 3 lw_step.
  assert (HasState s NoState = false) as ->.
  { apply bool_decide_eq_false. intros Hst. pose proof (ok_state _ Hok) as Hso. by rewrite Hs, Hst in Hso. }
  do 4 lw_step.
  eapply (lw_mono _ _ _ _ (writes w (State (Status s)))); [destruct (_ || _); [by apply shut_autoscale|by lw_step; apply writes_refl]|].
  intros w1 s1 [[]|e] H1; [|by repeat lw_step; apply moved_failed]. destruct H1 as (Hn1 & Hs1 & _ & _ & _).
  assert (world_ok w1) as Hok1 by apply Hn1.
  lw_step. unfold start_decommission, ShouldDecommission, IsMarkedForDeletion. do 2 lw_step.
  assert (ais_Deleting s1 = false) as -> by (subst s1; apply Hok1). rewrite andb_false_r. cbn [negb]. do 2 lw_step.
  eapply lw_mono; [by apply shut_start|]. intros w2 s2 [[]|e] H2; cbn in H2;
    [|lw_step; apply (moved_after _ w1); [done|by apply moved_failed]].
  destruct H2 as (Hn2 & Hs2 & Hst2). apply passes_after; [by eapply shut_noworse_trans|]. apply pass_down; [apply Hn2|done..].
Qed.

Lemma shut_Reconcile w :
  world_ok w -> loop_wp step (Reconcile (ais_Name ais)) w (fun w' o => moved w w' o).
Proof.
  intros Hok. unfold Reconcile. cbn [loop_wp]. intros x w' [[-> ->]|(n & Hn & (e & -> & He) & Hw)].
  - apply loop_wp_bind. eapply loop_wp_mono; [|exact (shut_object _ w Hok eq_refl)]. by intros w1 [s1 o].
  - assert (w' = with_faults w n) as -> by (destruct Hw as [->|[x' [-> _]]]; done).
    destruct He as [He _]. unfold missing in He. apply orb_false_iff in He as [He _]. cbn. rewrite He.
    by apply moved_failed, shut_faulted_here.
Qed.

(** ** Rounds *)

(** A round of the closed loop: a call of [Reconcile], and time passes. *)
Definition round (w w' : world) : Prop :=
  exists t o w1, exec (Reconcile (ais_Name ais)) t o /\ plays step w t w1 /\ w' = tick w1.

Lemma tick_gone p : gone p = true -> gone (tick_pods p) = true.
Proof. destruct p as [n [|r]]; unfold gone; cbn; [done|]. by rewrite andb_false_r. Qed.
Lemma tick_running p : running p = true -> running (tick_pods p) = true.
Proof. destruct p as [n [|r]]; unfold running; cbn; [done|]. by rewrite andb_false_r. Qed.

Lemma shut_tick w : world_ok w -> noworse w (tick w) /\ (leaving w = true -> (work (tick w) < work w)%nat).
Proof.
  intros [Ho Hst]. split.
  - split; [split; [done|]| |done|].
    + unfold state_ok in *. cbn. destruct (State (Status (stored w))); try done; destruct Hst; auto using tick_gone, tick_running.
    + unfold work, left_of. cbn. repeat case_match; lia.
    + unfold down. cbn. rewrite !andb_true_iff. intros [[? ?] ?]. auto using tick_gone.
  - unfold leaving, work, left_of. cbn. rewrite orb_true_iff, !andb_true_iff, !negb_true_iff, !Nat.eqb_neq.
    intros [[-> ?]|[-> ?]]; repeat case_match; lia.
Qed.

Lemma shut_round w w' : world_ok w -> round w w' -> exists w1 o, moved w w1 o /\ w' = tick w1.
Proof.
  intros Hok (t & o & w1 & Hex & Hp & Ht). exists w1.
  destruct (loop_adequate _ _ _ _ _ _ _ (shut_Reconcile w Hok) Hex Hp) as (r & _ & ?). by exists r.
Qed.

#[export] Instance shutdown_measured : Measured round world_ok (fun w => down w = true) distance.
Proof.
  assert (forall w w', world_ok w -> round w w' -> noworse w w' /\ (down w' = true \/ (work w' + faults w' < work w + faults w)%nat)) as Hr.
  { intros w w' Hok (w1 & o & [Hn _ Hc] & ->)%shut_round; [|done]. destruct (shut_tick w1 (nw_ok _ _ Hn)) as [Ht Hl].
    split; [by eapply shut_noworse_trans|]. pose proof (nw_work _ _ Hn). pose proof (nw_faults _ _ Hn).
    pose proof (nw_work _ _ Ht). pose proof (nw_faults _ _ Ht). destruct Hc as [Hd|[?|Hc]]; [left; by apply (nw_down _ _ Ht)|right; lia|].
    right. specialize (Hl Hc). lia. }
  split.
  - intros w w' Hok Hw. by apply (Hr w w').
  - intros w w' Hok Hw. by apply (Hr w w').
  - intros w w' Hok Hw. destruct (Hr w w' Hok Hw) as [_ Hd]. unfold distance. destruct (down w); [by left|right].
    destruct Hd as [->|?]; [lia|]. destruct (down w'); lia.
  - intros w _. unfold distance. by destruct (down w).
Qed.

(** ** The world can always answer *)

Definition not_there : error := MkError EkNotFound "".
Definition counted (n : nsname) (p : pods) : StatefulSet :=
  MkSS n ∅ ∅ 1 (MkSSSpec (asked p) ∅ "" "" (MkUpdateStrategy OnDeleteStrategy None) []
    (MkPodTemplate ∅ ∅ (MkPodSpec [] [] false "" "" None [] None None ∅ [] [] "")) None)
    (let k := if (rounds_left p =? 0)%nat then asked p else asked p + 1 in MkSSStatus 1 k k k k "" "").

Definition obeys (w : world) (r : req) : answer r * world :=
  match r return answer r * world with
  | KGetAIStore _ => (Ok (stored w), w)
  | KPatchStatus _ st => (Ok (set_status (stored w) st), with_stored w (set_status (stored w) st))
  | KPatchAIStore _ m => (Ok (patched (stored w) m), with_stored w (patched (stored w) m))
  | KGetStatefulSet n => (match pods_of w n with Some p => Ok (counted n p) | None => Err not_there end, w)
  | KPatchStatefulSet _ m =>
      match pods_of w (ss_Name m) with
      | Some _ => (Ok tt, with_pods w (ss_Name m) (MkPods (sss_Replicas (ss_Spec m)) D))
      | None => (Err not_there, w)
      end
  | AGetClient _ => (Ok 0, w)
  | ASetClusterConfig _ _ _ => (Ok tt, w)
  | KListNodes _ => (Ok [], w)
  | KListPods _ _ => (Ok [], w)
  | r => (some_answer r, w)
  end.

Lemma counted_counts n p : counts p (counted n p).
Proof. unfold counts, counted. cbn. destruct (Nat.eqb_spec (rounds_left p) 0); (split; [done|split]); lia || done. Qed.

Lemma obeys_truth w r : truth w r (obeys w r).1 (obeys w r).2.
Proof.
  destruct r; try done; cbn; try (by eauto).
  - split; [done|]. destruct (pods_of w _) as [p|]; [|by exists not_there]. eexists. split_and!; [done..|apply counted_counts].
  - destruct (pods_of w _); cbn; [|by eauto]. split; [done|]. by exists D.
Qed.

Lemma shut_round_exists w : exists w', round w w'.
Proof.
  destruct (plays_exist step (fun _ => True) (Reconcile (ais_Name ais)) w) as (t & o & w1 & Hex & Hp); [|done|].
  - intros w0 r _. exists (obeys w0 r).1, (obeys w0 r).2. split; [left; apply obeys_truth|done].
  - by exists (tick w1), t, o, w1.
Qed.

(** The distance at the start. *)
Lemma shut_bound w :
  (rounds_left (proxies w) <= D)%nat -> (rounds_left (targets w) <= D)%nat ->
  (distance w <= 2 * D + faults w + 3)%nat.
Proof. intros Hp Ht. unfold distance, work, left_of. repeat case_match; lia. Qed.

(** C3. A shutdown completes. For an object that is to be shut down and was reported ready, with all
    its pods up, or is being shut down already, the loop can always go on, and whatever sequence
    of rounds follows - failures falling on any requests, before or after they took effect, pods
    taking any time up to [D] rounds to go - every reconciliation runs to its end and, unless the
    cluster is down, asks for the next one: it returns an error or a delay. Once [2 * D + 3]
    rounds, and one for every failed request, have passed, both StatefulSets ask for no replicas
    and have none, and the object says that the cluster is shut down, from then on. *)
Theorem shutdown_completes N w :
  world_ok w -> (rounds_left (proxies w) <= D)%nat -> (rounds_left (targets w) <= D)%nat ->
  (exists w', nsteps round N w w') /\
  forall w', nsteps round N w w' ->
    (forall t o w1, exec (Reconcile (ais_Name ais)) t o -> plays step w' t w1 ->
       exists r, o = Some r /\ (down w1 = true \/ snd r ≠ None \/ 0 < RequeueAfter (fst r))) /\
    ((2 * D + faults w + 3 <= N)%nat -> down w' = true).
Proof.
  intros Hok Hp Ht. split; [apply (rounds_go_on round _ _ _ N w); [intros; apply shut_round_exists|done]|].
  intros w' Hr. pose proof (rounds_ok round _ _ _ _ _ _ Hok Hr) as Hok'. split.
  - intros t o w1 Hex Hpl. destruct (loop_adequate _ _ _ _ _ _ _ (shut_Reconcile w' Hok') Hex Hpl) as (r & -> & Hm).
    exists r. split; [done|]. apply (mv_asks _ _ _ Hm).
  - intros HN. apply (rounds_reach round world_ok (fun w => down w = true) distance N w); [done..|].
    right. pose proof (shut_bound w Hp Ht). lia.
Qed.
End Loop.
