(* ===== verification/Bootstrap.v ===== *)
(** * Creating a cluster: the world and the stages that only write elsewhere

    The closed loop of [Reconcile] on an AIStore that is to run: the worlds it is run against,
    what of them a pass may not spoil, the distance to a cluster that is ready and at rest, and
    the stages that change nothing of the object in memory ([quiet]) or just its status. The
    passes themselves and the theorem are in [BecomesReady]. *)

From stdpp Require Import relations.
From S2P Require Import Prelude Effects ClosedLoop K8sTypes AISConfig AIStoreTypes ThirdParty AuthConf AIStoreMethods AIStoreFacts Validation GlobalConfig CmnResources Certificates ProxyResources TargetResources AdminClient Templates Rollout ResourceFacts TemplateFacts Requests K8sClient ClusterOps Nodes ProxyController TargetController LoopStages Cluster Executions Completion.

(** ** Worlds *)

(** A StatefulSet that exists: its spec, and the rounds until its pods are those asked for,
    up and ready, and its status says so. *)
Record workload := MkWorkload { wl_spec : StatefulSetSpec; wl_rounds : nat }.

(** The object as stored, the two StatefulSets, the rounds until the external services have
    their addresses, and how many requests may still fail. *)
Record world := MkWorld {
  stored : AIStore; proxies : option workload; targets : option workload;
  proxy_lb : nat; target_lb : nat; faults : nat }.

Definition with_stored (w : world) (a : AIStore) : world :=
  MkWorld a (proxies w) (targets w) (proxy_lb w) (target_lb w) (faults w).
Definition with_proxies (w : world) (o : option workload) : world :=
  MkWorld (stored w) o (targets w) (proxy_lb w) (target_lb w) (faults w).
Definition with_targets (w : world) (o : option workload) : world :=
  MkWorld (stored w) (proxies w) o (proxy_lb w) (target_lb w) (faults w).
Definition with_faults (w : world) (n : nat) : world :=
  MkWorld (stored w) (proxies w) (targets w) (proxy_lb w) (target_lb w) n.

(** One round later. *)
Definition tick_workload (wl : workload) : workload := MkWorkload (wl_spec wl) (pred (wl_rounds wl)).
Definition tick (w : world) : world :=
  MkWorld (stored w) (tick_workload <$> proxies w) (tick_workload <$> targets w)
    (pred (proxy_lb w)) (pred (target_lb w)) (faults w).

Definition restart_of (a : AIStore) : string := index (ais_Annotations a) RestartConfigHashAnnotation.

(** The spec the API server keeps of the one sent: an unset retention policy gets the default. *)
Definition admitted (sent kept : StatefulSetSpec) : Prop :=
  sss_Replicas kept = sss_Replicas sent /\ sss_Template kept = sss_Template sent /\
  (sss_PVCRetentionPolicy kept = sss_PVCRetentionPolicy sent \/
   sss_PVCRetentionPolicy sent = None /\
   sss_PVCRetentionPolicy kept = Some (MkPVCRetentionPolicy RetainPolicy RetainPolicy)).

(** A truthful read of a StatefulSet. While its pods are not ready the status may lag behind,
    but says so or counts another number of ready replicas. *)
Definition shows (wl : workload) (ss : StatefulSet) : Prop :=
  let st := ss_Status ss in let n := sss_Replicas (wl_spec wl) in
  ss_Spec ss = wl_spec wl /\ ssst_UpdateRevision st = ssst_CurrentRevision st /\
  (wl_rounds wl = 0%nat -> ss_Generation ss <= ssst_ObservedGeneration st /\
     ssst_Replicas st = n /\ ssst_UpdatedReplicas st = n /\ ssst_ReadyReplicas st = n) /\
  (wl_rounds wl ≠ 0%nat -> ssst_ObservedGeneration st < ss_Generation ss \/ ssst_ReadyReplicas st ≠ n).

(** States of a cluster on the way up, and of one that is not being deleted. *)
Definition running_state (st : ClusterState) : bool :=
  match st with
  | NoState | ClusterInitialized | ClusterInitializingLBService | ClusterPendingLBService
  | ClusterCreated | ClusterReady | ClusterUpgrading => true
  | _ => false
  end.
Definition alive (st : ClusterState) : bool :=
  match st with ClusterShuttingDown | ClusterShutdown => true | _ => running_state st end.

Section Loop.
Context `{T : ThirdParty, L : !ThirdPartyLaws T} (ais : AIStore) (np nt : Z) (uuid : string) (D : nat).

(** The spec is valid, of fixed sizes, not to be shut down, and names a way to log in. *)
Record bootable : Prop := {
  bt_valid : (ValidateSpec ais).2 = None;
  bt_fixed : IsProxyAutoScaling ais = false /\ IsTargetAutoScaling ais = false;
  bt_proxies : GetProxySize ais = Some np;
  bt_targets : GetTargetSize ais = Some nt;
  bt_width : is_i32 np /\ is_i32 nt;
  bt_running : ShouldBeShutdown ais = false;
  bt_auth : forall a, Auth (Spec ais) = Some a -> as_ProfileRef a = None ->
    as_TokenExchange a ≠ None \/ as_UsernamePassword a ≠ None;
}.

#[local] Abbreviation same_object := (LoopStages.same_object ais).

(** ** Truthful answers *)

Definition proxy_set : nsname := Proxy.StatefulSetNSName ais.
Definition target_set : nsname := Target.StatefulSetNSName ais.
Definition workload_of (w : world) (n : nsname) : option workload :=
  if bool_decide (n = proxy_set) then proxies w
  else if bool_decide (n = target_set) then targets w else None.
Definition with_workload (w : world) (n : nsname) (o : option workload) : world :=
  if bool_decide (n = proxy_set) then with_proxies w o
  else if bool_decide (n = target_set) then with_targets w o else w.

(** A StatefulSet starts over when its spec changes: its pods take up to [D] rounds. *)
Definition starts (sent : StatefulSet) (w w' : world) : Prop :=
  exists wl, admitted (ss_Spec sent) (wl_spec wl) /\ (wl_rounds wl <= D)%nat /\
    w' = with_workload w (ss_Name sent) (Some wl).

Definition settled (o : option workload) (n : Z) : bool :=
  match o with Some wl => (wl_rounds wl =? 0)%nat && (sss_Replicas (wl_spec wl) =? n) | None => false end.

(** The pods asked for are up. *)
Definition up (o : option workload) : bool :=
  match o with Some wl => (wl_rounds wl =? 0)%nat && negb (sss_Replicas (wl_spec wl) =? 0) | None => false end.

(** Rounds until the external services in use have addresses. *)
Definition waiting_lb (w : world) : nat :=
  (if ProxyExternalAccessEnabled ais then proxy_lb w else 0) +
  (if TargetExternalAccessEnabled ais then target_lb w else 0).

(** The daemons are as many as asked for and ready, and reachable from outside. *)
Definition calm (w : world) : bool :=
  settled (proxies w) np && settled (targets w) nt && (waiting_lb w =? 0)%nat.

(** All the services of the targets have an address. *)
Definition lb_ready (svcs : list Service) : bool :=
  if Z.of_nat (length svcs) <? nt then false
  else forallb (fun s => LoadBalancerIngressReady (svc_Ingress s)) svcs.

Definition truth (w : world) (r : req) : answer r -> world -> Prop :=
  match r return answer r -> world -> Prop with
  | KGetAIStore _ => fun x w' => w' = w /\ x = Ok (stored w)
  | KPatchStatus _ st => fun x w' =>
      x = Ok (set_status (stored w) st) /\ w' = with_stored w (set_status (stored w) st)
  | KPatchAIStore _ m => fun x w' =>
      x = Ok (patched (stored w) m) /\ w' = with_stored w (patched (stored w) m)
  | KGetStatefulSet n => fun x w' => w' = w /\
      match workload_of w n with
      | Some wl => exists ss, x = Ok ss /\ ss_Name ss = n /\ shows wl ss
      | None => exists e, x = Err e /\ is_not_found e = true
      end
  | KCreate (_, OStatefulSet ss) => fun x w' =>
      match workload_of w (ss_Name ss) with
      | None => x = Ok tt /\ starts ss w w'
      | Some _ => w' = w /\ exists e, x = Err e /\ is_already_exists e = true
      end
  | KPatchStatefulSet _ m => fun x w' =>
      match workload_of w (ss_Name m) with
      | Some _ => x = Ok tt /\ starts m w w'
      | None => w' = w /\ exists e, x = Err e /\ is_not_found e = true
      end
  | KDelete KStatefulSet _ => fun _ _ => True
  (* pods, endpoints and services follow the StatefulSets *)
  | KGetPod n => fun x w' => w' = w /\
      (n = Proxy.DefaultPrimaryNSName ais -> up (proxies w) = true ->
       exists p, x = Ok p /\ pod_Phase p = "Running")
  | KListEndpointSlices n => fun x w' => w' = w /\ exists l, x = Ok l /\
      (n = Proxy.HeadlessSVCNSName ais -> up (proxies w) = true -> endpoint_ready l = true)
  | KGetService n => fun x w' => w' = w /\ exists s, x = Ok s /\
      (n = Proxy.LoadBalancerSVCNSName ais -> LoadBalancerIngressReady (svc_Ingress s) = (proxy_lb w =? 0)%nat)
  | KListServices _ sel => fun x w' => w' = w /\ exists l, x = Ok l /\
      (sel = NewServiceLabels (aname ais) "target-lb" -> lb_ready l = (target_lb w =? 0)%nat)
  (* the AIS cluster *)
  | AGetClient _ => fun x w' => w' = w /\ exists c, x = Ok c
  | AHealth _ _ => fun x w' => w' = w /\ (calm w = true -> x = Ok tt)
  | AGetClusterMap _ => fun x w' => w' = w /\
      (calm w = true -> exists m, x = Ok m /\ sm_UUID m = uuid /\
         Z.of_nat (length (Pmap m)) = np /\ Z.of_nat (length (Tmap m)) = nt)
  | ASetClusterConfig _ _ _ => fun x w' => w' = w /\ x = Ok tt
  (* other objects, of which nothing else depends *)
  | KGetDeployment _ => fun x w' => w' = w /\
      match x with Ok d => ps_Containers (pt_Spec (dep_Template d)) ≠ [] | Err e => is_not_found e = true end
  | KGetConfigMap _ => fun x w' => w' = w /\
      match x with Ok _ => True | Err e => is_not_found e = true end
  | KGetObject _ _ => fun x w' => w' = w /\ exists o, x = Ok o
  | KGetAuthProfile _ => fun x w' => w' = w /\ exists p, x = Ok p
  | KListNodes _ => fun x w' => w' = w /\ exists l, x = Ok l
  | KListPods _ _ => fun x w' => w' = w /\ exists l, x = Ok l
  | KApply _ | KUpdate _ | KPatchDeployment _ _ => fun x w' => w' = w /\ x = Ok tt
  | KCreate _ => fun x w' => w' = w /\ match x with Ok _ => True | Err e => is_already_exists e = true end
  | KDelete _ _ => fun x w' => w' = w /\ match x with Ok _ => True | Err e => missing e = true end
  | EEvent _ _ _ _ => fun _ w' => w' = w
  | r' => fun _ w' => is_read r' = true -> w' = w
  end.

Definition step : world -> forall r : req, answer r -> world -> Prop :=
  faulty_step truth fails faults with_faults.
(** ** What a pass may not spoil *)

(** The templates built for the object when its restart annotation is [a]. *)
Definition with_restart (a : string) : AIStore := set_annotations ais {[ RestartConfigHashAnnotation := a ]}.
Definition proxy_template (a : string) : option PodTemplateSpec :=
  (fun ss => sss_Template (ss_Spec ss)) <$> Proxy.NewProxyStatefulSet (with_restart a) np.
Definition target_template (a : string) : option PodTemplateSpec :=
  (fun ss => sss_Template (ss_Spec ss)) <$> Target.NewTargetSS (with_restart a) nt.

(** The restart annotation of a cluster that never had another configuration. *)
Definition initial_restart : string :=
  match GenerateGlobalConfig (SetCondition ConditionReadyRebalance ais) ≫= HashRestartConfigs with
  | Ok h => h +:+ RestartConfigHashInitial
  | Err _ => ""
  end.

(** A StatefulSet created by the operator, before the restart annotation was recorded or after. *)
Record built (template : string -> option PodTemplateSpec) (policy : option PVCRetentionPolicy)
    (restart : string) (spec : StatefulSetSpec) : Prop := {
  bu_template : exists a, (a = "" \/ a = restart) /\ template a = Some (sss_Template spec);
  bu_policy : shouldUpdatePVCRetentionPolicy policy (sss_PVCRetentionPolicy spec) = false;
}.
Definition proxies_built (restart : string) : StatefulSetSpec -> Prop :=
  built proxy_template (ds_PVCRetentionPolicy (ProxySpec (Spec ais))) restart.
Definition targets_built (restart : string) : StatefulSetSpec -> Prop :=
  built target_template (ds_PVCRetentionPolicy (target_ds (Spec ais))) restart.

Definition sized (o : option workload) (n : Z) : Prop :=
  exists wl, o = Some wl /\ sss_Replicas (wl_spec wl) = n.

Definition created (a : AIStore) : bool := IsConditionTrue a ConditionCreated.
Definition declared_ready (a : AIStore) : bool := HasState a ClusterReady.

(** The sizes a pass gives the StatefulSets, those it finds after a shutdown, and the one proxy
    a cluster is started with. *)
Definition proxy_size (a : AIStore) (r : Z) : Prop := r = np \/ r = if created a then 0 else 1.
Definition target_size (a : AIStore) (r : Z) : Prop := r = nt \/ created a = true /\ r = 0.

Record world_ok (w : world) : Prop := {
  ok_object : same_object (stored w);
  ok_state : alive (State (Status (stored w))) = true;
  ok_restart : restart_of (stored w) = "" \/ restart_of (stored w) = initial_restart;
  ok_proxies : forall wl, proxies w = Some wl ->
    proxies_built (restart_of (stored w)) (wl_spec wl) /\
    proxy_size (stored w) (sss_Replicas (wl_spec wl));
  ok_targets : forall wl, targets w = Some wl ->
    targets_built (restart_of (stored w)) (wl_spec wl) /\
    target_size (stored w) (sss_Replicas (wl_spec wl));
  ok_created : created (stored w) = true -> is_Some (proxies w) /\ is_Some (targets w);
  ok_ready : declared_ready (stored w) = true -> calm w = true;
}.

(** ** The goal and the distance to it *)

(** The configuration recorded as sent is the one the object asks for. *)
Definition hash_recorded (a : AIStore) : bool :=
  match GenerateGlobalConfig a ≫= HashGlobalConfig with
  | Ok h => bool_decide (index (ais_Annotations a) ConfigHashAnnotation = h)
  | Err _ => false
  end.

(** The daemons are ready, and the object says so and everything else there is to say. *)
Definition at_rest (w : world) : bool :=
  let a := stored w in
  calm w && HasState a ClusterReady && created a && IsConditionTrue a ConditionReady &&
  IsConditionTrue a ConditionReadyRebalance && hash_recorded a &&
  bool_decide (AIStoreTypes.IntraClusterURL (Status a) ≠ "") && bool_decide (ClusterID (Status a) = uuid).

Definition proxies_left (o : option workload) : nat :=
  match o with
  | None => 2 * D + 2
  | Some wl => wl_rounds wl + (if sss_Replicas (wl_spec wl) =? np then 0 else D + 1)
  end.
Definition targets_left (o : option workload) : nat :=
  match o with
  | None => D + 1
  | Some wl => wl_rounds wl + (if sss_Replicas (wl_spec wl) =? nt then 0 else D + 1)
  end.
(** Steps left that only the object records: its creation, the end of an aborted shutdown. *)
Definition phase (a : AIStore) : nat := (if created a then 0 else 1) + (if HasState a ClusterShuttingDown then 1 else 0).
Definition pending (w : world) : nat :=
  proxies_left (proxies w) + targets_left (targets w) + waiting_lb w + phase (stored w).
Definition distance (w : world) : nat := if at_rest w then 0 else S (pending w + faults w).

(** Not further from the goal, which is not left. *)
Record noworse (w w' : world) : Prop := {
  nw_ok : world_ok w';
  nw_pending : (pending w' <= pending w)%nat;
  nw_faults : (faults w' <= faults w)%nat;
  nw_phase : (phase (stored w') <= phase (stored w))%nat;
  nw_rest : at_rest w = true -> stored w' = stored w /\ at_rest w' = true;
}.
Definition faulted (w w' : world) : Prop := noworse w w' /\ (faults w' < faults w)%nat.

(** Nothing but the object changed. *)
Record kept (w w' : world) : Prop := {
  kp_noworse : noworse w w';
  kp_proxies : proxies w' = proxies w; kp_targets : targets w' = targets w;
  kp_proxy_lb : proxy_lb w' = proxy_lb w; kp_target_lb : target_lb w' = target_lb w;
}.

Lemma boot_noworse_refl w : world_ok w -> noworse w w.
Proof. by split. Qed.
Lemma boot_noworse_trans w1 w2 w3 : noworse w1 w2 -> noworse w2 w3 -> noworse w1 w3.
Proof.
  intros [_ H1 H2 H3 H4] [? ? ? ? H5]. split; [done|lia..|]. intros Hr. destruct (H4 Hr) as [<- Hr'].
  by apply H5.
Qed.
Lemma kept_refl w : world_ok w -> kept w w.
Proof. intros Hok. split; [by apply boot_noworse_refl|done..]. Qed.
Lemma kept_trans w1 w2 w3 : kept w1 w2 -> kept w2 w3 -> kept w1 w3.
Proof. intros [] []. split; [by eapply boot_noworse_trans|congruence..]. Qed.
Lemma boot_noworse_faulted w1 w2 w3 : noworse w1 w2 -> faulted w2 w3 -> faulted w1 w3.
Proof. intros H1 [H2 Hf]. split; [by eapply boot_noworse_trans|]. pose proof (nw_faults _ _ H1). lia. Qed.
Lemma faulted_noworse w1 w2 w3 : faulted w1 w2 -> noworse w2 w3 -> faulted w1 w3.
Proof. intros [H1 Hf] H2. split; [by eapply boot_noworse_trans|]. pose proof (nw_faults _ _ H2). lia. Qed.

Lemma calm_sets w w' :
  proxies w' = proxies w -> targets w' = targets w -> proxy_lb w' = proxy_lb w -> target_lb w' = target_lb w ->
  calm w' = calm w.
Proof. unfold calm, waiting_lb. by intros -> -> -> ->. Qed.

(** Failed requests alone. *)
Lemma faults_ok w n : world_ok w -> world_ok (with_faults w n).
Proof. intros []. by split. Qed.
Lemma faults_kept w n : world_ok w -> (n <= faults w)%nat -> kept w (with_faults w n).
Proof. intros Hok Hn. split; [|done..]. split; [by apply faults_ok|done|done|done|by split]. Qed.
Lemma boot_faulted_here w n : world_ok w -> faults w = S n -> faulted w (with_faults w n).
Proof. intros Hok Hf. split; [apply faults_kept; [done|lia]|cbn; lia]. Qed.

(** ** Writing the object *)

(** A new status that spoils nothing. *)
Record fit_status (w : world) (s : AIStore) : Prop := {
  fs_status : s = set_status (stored w) (Status s);
  fs_not_rest : at_rest w = false;
  fs_state : running_state (State (Status s)) = true \/ State (Status s) = State (Status (stored w));
  fs_created : created (stored w) = true -> created s = true;
  fs_create : created s = true -> created (stored w) = true \/ sized (proxies w) np /\ sized (targets w) nt;
  fs_ready : declared_ready s = true -> declared_ready (stored w) = true \/ calm w = true;
}.

(** The sizes remain those allowed: a cluster is created at full size. *)
Lemma fit_sizes w s wl : fit_status w s ->
  (proxies w = Some wl -> proxy_size (stored w) (sss_Replicas (wl_spec wl)) -> proxy_size s (sss_Replicas (wl_spec wl))) /\
  (targets w = Some wl -> target_size (stored w) (sss_Replicas (wl_spec wl)) -> target_size s (sss_Replicas (wl_spec wl))).
Proof.
  intros [_ _ _ Hc1 Hc2 _]. unfold proxy_size, target_size.
  destruct (created (stored w)) eqn:Hc; [by rewrite Hc1|]. destruct (created s) eqn:Hcs; [|done].
  destruct (Hc2 eq_refl) as [?|[(wp & -> & Hp) (wt & -> & Ht)]]; [done|]. split; intros [= ->]; auto.
Qed.

Lemma status_kept w s : world_ok w -> fit_status w s -> kept w (with_stored w s).
Proof.
  intros [Ho Hst Hr Hp Ht Hc Hd] Hfit. pose proof (fun wl => fit_sizes w s wl Hfit) as Hsz.
  destruct Hfit as [Hs Hn Hst' Hc1 Hc2 Hd']. split; [|done..].
  assert (phase s <= phase (stored w))%nat as Hph.
  { unfold phase, HasState. assert (State (Status s) = ClusterShuttingDown -> State (Status (stored w)) = ClusterShuttingDown) as Hab
      by (intros H; destruct Hst' as [H1| <-]; [by rewrite H in H1|done]).
    destruct (created (stored w)); [rewrite Hc1 by done|destruct (created s)]; repeat case_bool_decide; try lia; by destruct Hab. }
  assert (same_object s) as Ho' by (destruct Ho; rewrite Hs; by split).
  assert (restart_of s = restart_of (stored w)) as Hrs by (by rewrite Hs).
  split.
  - split; cbn; rewrite ?Hrs; auto.
    + destruct Hst' as [Hs'| ->]; [|done]. by destruct (State (Status s)).
    + intros wl Hwl. destruct (Hp wl Hwl), (Hsz wl). auto.
    + intros wl Hwl. destruct (Ht wl Hwl), (Hsz wl). auto.
    + intros Hcs. destruct (Hc2 Hcs) as [?|[(? & -> & _) (? & -> & _)]]; eauto.
    + intros Hds. change (calm w = true). destruct (Hd' Hds); auto.
  - unfold pending. cbn. change (waiting_lb (with_stored w s)) with (waiting_lb w). lia.
  - done.
  - done.
  - by rewrite Hn.
Qed.

(** ** What the handlers build depends on the spec, the name and the UID *)

Context (boot : bootable) (enc : encodes T).

Section Same.
Context (a : AIStore) (Ha : same_object a).

Ltac same := destruct Ha as [Hn Hu Hs _]; destruct a, ais; cbn in Hn, Hu, Hs; subst; reflexivity.

Lemma same_sizes : GetProxySize a = Some np /\ GetTargetSize a = Some nt.
Proof.
  pose proof (bt_proxies boot) as Hp. pose proof (bt_targets boot) as Ht. destruct (bt_fixed boot) as [Hpf Htf].
  unfold GetProxySize, GetTargetSize, IsProxyAutoScaling, IsTargetAutoScaling in *. rewrite (so_spec _ _ Ha).
  by rewrite Hpf in Hp |- *; rewrite Htf in Ht |- *.
Qed.
Lemma same_fixed : IsProxyAutoScaling a = false /\ IsTargetAutoScaling a = false.
Proof. unfold IsProxyAutoScaling, IsTargetAutoScaling. rewrite (so_spec _ _ Ha). apply (bt_fixed boot). Qed.
Lemma same_min_ready : GetMinReadyProxies a = Some np /\ GetMinReadyTargets a = Some nt.
Proof.
  unfold GetMinReadyProxies, GetMinReadyTargets. destruct same_sizes as [-> ->], same_fixed as [-> ->]. done.
Qed.
Lemma same_valid : (ValidateSpec a).2 = None.
Proof.
  transitivity (ValidateSpec ais).2; [|apply (bt_valid boot)]. f_equal. same.
Qed.
Lemma same_sets : Proxy.StatefulSetNSName a = proxy_set /\ Target.StatefulSetNSName a = target_set.
Proof.
  unfold proxy_set, target_set, Proxy.StatefulSetNSName, Target.StatefulSetNSName, in_ns, ProxyStatefulSetName,
    Target.statefulSetName, aname. by rewrite (so_name _ _ Ha).
Qed.

Lemma restart_with h : restart_of (with_restart h) = h.
Proof. unfold restart_of, index, with_restart. cbn. by rewrite lookup_insert_eq. Qed.

Lemma same_proxy_set n :
  exists ss, Proxy.NewProxyStatefulSet a n = Some ss /\ ss_Name ss = proxy_set /\ sss_Replicas (ss_Spec ss) = n /\
    proxy_template (restart_of a) = Some (sss_Template (ss_Spec ss)) /\
    sss_PVCRetentionPolicy (ss_Spec ss) = ds_PVCRetentionPolicy (ProxySpec (Spec ais)).
Proof.
  destruct same_sizes as [_ Ht]. pose proof (bt_targets boot) as Ht'.
  unfold proxy_template, Proxy.NewProxyStatefulSet, Proxy.proxyPodSpec.
  change (GetTargetSize (with_restart (restart_of a))) with (GetTargetSize ais). rewrite Ht, Ht'.
  pose proof (restart_with (restart_of a)) as Hr. unfold restart_of at 1 in Hr. rewrite Hr. cbn.
  eexists. split; [done|]. cbn. rewrite <-(proj1 same_sets), (so_spec _ _ Ha). split_and!; try done.
  f_equal. clear Ht Ht' Hr. unfold with_restart. destruct Ha as [Hn Hu Hs _]. destruct a, ais; cbn in Hn, Hu, Hs; subst. reflexivity.
Qed.

Lemma same_target_set n :
  exists ss, Target.NewTargetSS a n = Some ss /\ ss_Name ss = target_set /\ sss_Replicas (ss_Spec ss) = n /\
    target_template (restart_of a) = Some (sss_Template (ss_Spec ss)) /\
    sss_PVCRetentionPolicy (ss_Spec ss) = ds_PVCRetentionPolicy (target_ds (Spec ais)).
Proof.
  destruct same_sizes as [_ Ht]. pose proof (bt_targets boot) as Ht'.
  unfold target_template, Target.NewTargetSS, Target.targetPodSpec.
  change (GetTargetSize (with_restart (restart_of a))) with (GetTargetSize ais). rewrite Ht, Ht'.
  pose proof (restart_with (restart_of a)) as Hr. unfold restart_of at 1 in Hr. rewrite Hr. cbn.
  eexists. split; [done|]. cbn. rewrite <-(proj2 same_sets), (so_spec _ _ Ha). split_and!; try done.
  f_equal. clear Ht Ht' Hr. unfold with_restart. destruct Ha as [Hn Hu Hs _]. destruct a, ais; cbn in Hn, Hu, Hs; subst. reflexivity.
Qed.

(** ** Configuration *)

Lemma spec_config_same b :
  IsConditionTrue a ConditionReadyRebalance = IsConditionTrue b ConditionReadyRebalance ->
  ais_Name b = ais_Name ais -> Spec b = Spec ais -> GenerateGlobalConfig a = GenerateGlobalConfig b.
Proof.
  intros Hc Hn' Hs'. unfold GenerateGlobalConfig, GenerateConfigToSet, spec_config, configure_rebalance. rewrite Hc.
  clear Hc. destruct Ha as [Hn Hu Hs _]. rewrite <-Hn' in Hn. rewrite <-Hs' in Hs.
  destruct a as [na ? ? ? ? ? sa ?], b as [nb ? ? ? ? ? sb ?]; cbn in Hn, Hs. subst na sa. reflexivity.
Qed.

Lemma same_configs : (exists cm, NewGlobalCM a = Ok cm) /\ (exists cm, Proxy.NewProxyCM a = Ok cm) /\
  exists cm, Target.NewTargetCM a = Ok cm.
Proof.
  split_and!.
  - unfold NewGlobalCM. destruct (config_encodes enc a) as (c & _ & _ & -> & _ & _). cbn.
    destruct (enc_config _ enc c) as [d ->]. cbn. destruct (HostnameMap (Spec a)) as [m|]; [|by eexists].
    destruct (enc_map _ enc m) as [x ->]. by eexists.
  - unfold Proxy.NewProxyCM. destruct (enc_local _ enc (Proxy.localConfTemplate (ds_ServiceSpec (ProxySpec (Spec a))))) as [x ->].
    by eexists.
  - unfold Target.NewTargetCM, Target.buildLocalConf.
    destruct (enc_local _ enc (Target.templateLocalConf (Spec a) (local_net_config (ds_ServiceSpec (target_ds (Spec a)))))) as [x ->].
    by eexists.
Qed.
End Same.

(** ** Templates built by the operator need no update *)

Lemma proxy_template_inv h d :
  proxy_template h = Some d ->
  exists ss, Proxy.NewProxyStatefulSet (with_restart h) np = Some ss /\ d = sss_Template (ss_Spec ss).
Proof. unfold proxy_template. intros (ss & -> & ?)%fmap_Some. eauto. Qed.
Lemma target_template_inv h d :
  target_template h = Some d ->
  exists ss, Target.NewTargetSS (with_restart h) nt = Some ss /\ d = sss_Template (ss_Spec ss).
Proof. unfold target_template. intros (ss & -> & ?)%fmap_Some. eauto. Qed.

Lemma initial_tagged : initial_restart = "" \/ has_suffix initial_restart RestartConfigHashInitial = true.
Proof. unfold initial_restart. case_match; [right; apply has_suffix_app|by left]. Qed.

(** Two templates that differ in the restart annotation alone, one of them the initial one. *)
Definition same_but_restart (user : labels) (net : option string) (d c : PodTemplateSpec) (h h' : string) : Prop :=
  pt_Labels d = pt_Labels c /\ pt_Spec d = pt_Spec c /\
  pt_Annotations d = PrepareAnnotations user net (Some h) /\ pt_Annotations c = PrepareAnnotations user net (Some h').

Lemma proxy_templates h h' d c :
  proxy_template h = Some d -> proxy_template h' = Some c ->
  same_but_restart (ds_Annotations (ProxySpec (Spec ais))) (NetAttachment (Spec ais)) d c h h'.
Proof.
  intros (ss & H1 & ->)%proxy_template_inv (ss' & H2 & ->)%proxy_template_inv.
  pose proof (restart_with h) as Hh. pose proof (restart_with h') as Hh'. unfold restart_of in Hh, Hh'.
  unfold Proxy.NewProxyStatefulSet, Proxy.proxyPodSpec in H1, H2.
  change (GetTargetSize (with_restart _)) with (GetTargetSize ais) in H1, H2. rewrite (bt_targets boot) in H1, H2.
  rewrite Hh in H1. rewrite Hh' in H2. injection H1 as <-. injection H2 as <-. done.
Qed.
Lemma target_templates h h' d c :
  target_template h = Some d -> target_template h' = Some c ->
  same_but_restart (ds_Annotations (target_ds (Spec ais))) (NetAttachment (Spec ais)) d c h h'.
Proof.
  intros (ss & H1 & ->)%target_template_inv (ss' & H2 & ->)%target_template_inv.
  pose proof (restart_with h) as Hh. pose proof (restart_with h') as Hh'. unfold restart_of in Hh, Hh'.
  unfold Target.NewTargetSS, Target.targetPodSpec in H1, H2.
  change (GetTargetSize (with_restart _)) with (GetTargetSize ais) in H1, H2. rewrite (bt_targets boot) in H1, H2.
  rewrite Hh in H1. rewrite Hh' in H2. injection H1 as <-. injection H2 as <-. done.
Qed.

Lemma built_no_update template policy user net restart spec d :
  (forall h h' d c, template h = Some d -> template h' = Some c -> same_but_restart user net d c h h') ->
  (forall h d, template h = Some d -> NoDup (vol_Name <$> ps_Volumes (pt_Spec d))) ->
  restart = "" \/ restart = initial_restart -> built template policy restart spec ->
  template restart = Some d -> (shouldUpdatePodTemplate d (sss_Template spec)).1 = false.
Proof.
  intros Hsame Hvol Hr [(h & Hh & Hc) _] Hd. pose proof (Hvol _ _ Hd) as Hnd.
  destruct (Hsame _ _ _ _ Hd Hc) as (Hl & Hs & Ha & Hac).
  destruct (decide (h = restart)) as [->|Hne].
  - rewrite Hc in Hd. injection Hd as <-. rewrite in_sync_no_update; [done|done|]. repeat split. apply DeepDerivative_refl.
  - destruct Hh as [->|?]; [|done]. erewrite tagged_no_rollout; [done..|].
    destruct Hr as [->| ->]; [done|]. by destruct initial_tagged as [He|?]; [rewrite He in Hne|].
Qed.

Lemma proxies_no_update restart spec d :
  restart = "" \/ restart = initial_restart -> proxies_built restart spec -> proxy_template restart = Some d ->
  (shouldUpdatePodTemplate d (sss_Template spec)).1 = false.
Proof.
  apply (built_no_update proxy_template _ _ _ _ _ _ proxy_templates).
  intros h t (ss & Hss & ->)%proxy_template_inv. by eapply proxy_template_volumes.
Qed.
Lemma targets_no_update restart spec d :
  restart = "" \/ restart = initial_restart -> targets_built restart spec -> target_template restart = Some d ->
  (shouldUpdatePodTemplate d (sss_Template spec)).1 = false.
Proof.
  apply (built_no_update target_template _ _ _ _ _ _ target_templates).
  intros h t (ss & Hss & ->)%target_template_inv. by eapply target_template_volumes.
Qed.

(** ** Requests that change nothing *)

#[local] Abbreviation answers := (ClosedLoop.answers step failure faults with_faults).

Lemma answers_apply o : answers (KApply o) (fun x => x) anything no_error.
Proof. solve_answers. Qed.
Lemma answers_update o : answers (KUpdate o) (fun x => x) anything no_error.
Proof. solve_answers. Qed.
Lemma answers_patch_deployment o m : answers (KPatchDeployment o m) (fun x => x) anything no_error.
Proof. solve_answers. Qed.
Lemma answers_object k n : answers (KGetObject k n) (fun x => x) anything no_error.
Proof. solve_answers. Qed.
Lemma answers_profile n : answers (KGetAuthProfile n) (fun x => x) anything no_error.
Proof. solve_answers. Qed.
Lemma answers_nodes sel : answers (KListNodes sel) (fun x => x) anything no_error.
Proof. solve_answers. Qed.
Lemma answers_services ns sel : answers (KListServices ns sel) (fun x => x)
  (fun w l => sel = NewServiceLabels (aname ais) "target-lb" -> lb_ready l = (target_lb w =? 0)%nat) no_error.
Proof. solve_answers. Qed.
Lemma answers_service n : answers (KGetService n) (fun x => x)
  (fun w s => n = Proxy.LoadBalancerSVCNSName ais -> LoadBalancerIngressReady (svc_Ingress s) = (proxy_lb w =? 0)%nat) no_error.
Proof. solve_answers. Qed.
Lemma answers_endpoints n : answers (KListEndpointSlices n) (fun x => x)
  (fun w l => n = Proxy.HeadlessSVCNSName ais -> up (proxies w) = true -> endpoint_ready l = true) no_error.
Proof. solve_answers. Qed.
Lemma answers_client a : answers (AGetClient a) (fun x => x) anything no_error.
Proof. solve_answers. Qed.
Lemma answers_set_config c conf b : answers (ASetClusterConfig c conf b) (fun x => x) anything no_error.
Proof. solve_answers. Qed.
Lemma answers_deployment n : answers (KGetDeployment n) (fun x => x)
  (fun _ d => ps_Containers (pt_Spec (dep_Template d)) ≠ []) (fun _ e => is_not_found e = true).
Proof. solve_answers. Qed.
Lemma answers_config_map n : answers (KGetConfigMap n) (fun x => x) anything (fun _ e => is_not_found e = true).
Proof. solve_answers. Qed.
Lemma answers_pod n : answers (KGetPod n) (fun x => x)
  (fun w p => n = Proxy.DefaultPrimaryNSName ais -> up (proxies w) = true -> pod_Phase p = "Running")
  (fun w _ => n = Proxy.DefaultPrimaryNSName ais -> up (proxies w) = false).
Proof.
  intros w x w' [Ht|(n' & Hn & (e & -> & He) & Hw)].
  - destruct Ht as [-> Ht]. destruct x as [p|e]; [split; [done|]|left; split; [done|]].
    + intros Hp Hu. destruct (Ht Hp Hu) as (? & [= <-] & ?). done.
    + intros Hp. destruct (up (proxies w)); [|done]. by destruct Ht as (? & ? & _).
  - right. split; [done|]. exists n'. split; [done|]. destruct Hw as [->|[x' Ht]]; [done|]. by destruct Ht as [-> _].
Qed.
Lemma answers_health c b : answers (AHealth c b) (fun x => x) anything (fun w _ => calm w = false).
Proof.
  intros w x w' [Ht|(n' & Hn & (e & -> & He) & Hw)].
  - destruct Ht as [-> Ht]. destruct x as [p|e]; [done|]. left. split; [done|]. destruct (calm w); [|done]. by specialize (Ht eq_refl).
  - right. split; [done|]. exists n'. split; [done|]. destruct Hw as [->|[x' Ht]]; [done|]. by destruct Ht as [-> _].
Qed.
Lemma answers_smap c : answers (AGetClusterMap c) (fun x => x)
  (fun w m => calm w = true -> sm_UUID m = uuid /\ Z.of_nat (length (Pmap m)) = np /\ Z.of_nat (length (Tmap m)) = nt)
  (fun w _ => calm w = false).
Proof.
  intros w x w' [Ht|(n' & Hn & (e & -> & He) & Hw)].
  - destruct Ht as [-> Ht]. destruct x as [m|e]; [split; [done|]|left; split; [done|]].
    + intros Hc. by destruct (Ht Hc) as (? & [= <-] & ?).
    + destruct (calm w); [|done]. by destruct Ht as (? & ? & _).
  - right. split; [done|]. exists n'. split; [done|]. destruct Hw as [->|[x' Ht]]; [done|]. by destruct Ht as [-> _].
Qed.
Lemma answers_set n : answers (KGetStatefulSet n) (fun x => x)
  (fun w ss => exists wl, workload_of w n = Some wl /\ ss_Name ss = n /\ shows wl ss)
  (fun w e => workload_of w n = None /\ is_not_found e = true).
Proof.
  intros w x w' [Ht|(n' & Hn & (e & -> & He) & Hw)].
  - destruct Ht as [-> Ht]. destruct (workload_of w n) as [wl|]; destruct Ht as (y & -> & ?); eauto 6.
  - right. split; [done|]. exists n'. split; [done|]. destruct Hw as [->|[x' Ht]]; [done|]. by destruct Ht as [-> _].
Qed.
Lemma answers_delete k n : k ≠ KStatefulSet ->
  answers (KDelete k n) (fun x => x) anything (fun _ e => missing e = true).
Proof. intros Hk. destruct k; try done; solve_answers. Qed.
Lemma answers_create o : (forall ss, o.2 ≠ OStatefulSet ss) ->
  answers (KCreate o) (fun x => x) anything (fun _ e => is_already_exists e = true).
Proof. intros Ho. destruct o as [own []]; try solve_answers. by destruct (Ho ss). Qed.

(** ** Stages that change nothing *)

Definition spent (w w' : world) : Prop := exists n, (n <= faults w)%nat /\ w' = with_faults w n.

Lemma spent_refl w : spent w w.
Proof. exists (faults w). by destruct w. Qed.
Lemma spent_trans w1 w2 w3 : spent w1 w2 -> spent w2 w3 -> spent w1 w3.
Proof. intros (n & ? & ->) (m & Hm & ->). exists m. split; [cbn in Hm; lia|done]. Qed.
Lemma spent_faults w w' : spent w w' -> (faults w' <= faults w)%nat.
Proof. by intros (n & ? & ->). Qed.
Lemma spent_kept w w' : world_ok w -> spent w w' -> kept w w'.
Proof. intros Hok (n & ? & ->). by apply faults_kept. Qed.

(** [m] leaves the object in memory and the world alone, and fails only when a request did:
    in [m], or before it ([f]). *)
Definition quiet (f : bool) {A} (m : H (res A)) : Prop :=
  forall s w, same_object s -> loop_wpm step m s w (fun w' s' r => s' = s /\ spent w w' /\
    match r with Ok _ => True | Err _ => f = true \/ (faults w' < faults w)%nat end).

Lemma quiet_ok f {A} (a : A) : quiet f (mret (Ok a)).
Proof. intros s w _. apply lw_ret. auto using spent_refl. Qed.
Lemma quiet_err {A} (e : error) : quiet true (mret (Err e : res A)).
Proof. intros s w _. apply lw_ret. auto using spent_refl. Qed.
Lemma quiet_res {A} (r : res A) : (exists a, r = Ok a) -> quiet false (mret r).
Proof. intros [a ->]. apply quiet_ok. Qed.

Lemma quiet_bind f {A B} (m : H (res A)) (k : res A -> H (res B)) :
  quiet f m -> (forall x, quiet true (k (Err x))) -> (forall a, quiet f (k (Ok a))) -> quiet f (m ≫= k).
Proof.
  intros Hm He Hk s w Hs. apply lw_bind. eapply lw_mono; [by apply Hm|].
  intros w1 s1 [a|x] (-> & H1 & Hf).
  - eapply lw_mono; [by apply Hk|]. intros w2 s2 r (-> & H2 & Hr). split_and!; [done|by eapply spent_trans|].
    destruct r; [done|]. pose proof (spent_faults _ _ H1). destruct Hr; [auto|right; lia].
  - eapply lw_mono; [by apply He|]. intros w2 s2 r (-> & H2 & Hr). split_and!; [done|by eapply spent_trans|].
    destruct r; [done|]. pose proof (spent_faults _ _ H2). destruct Hf; [auto|right; lia].
Qed.
Lemma quiet_try f {A B} (m : H (res A)) (e : error -> H (res B)) (k : A -> H (res B)) :
  quiet f m -> (forall x, quiet true (e x)) -> (forall a, quiet f (k a)) -> quiet f (try_ m e k).
Proof. apply (quiet_bind f m (fun r => match r with Ok a => k a | Err x => e x end)). Qed.

Lemma quiet_get f {A} (k : AIStore -> H (res A)) : (forall a, same_object a -> quiet f (k a)) -> quiet f (get ≫= k).
Proof. intros Hk s w Hs. apply lw_bind, lw_get. by apply Hk. Qed.
Lemma quiet_deref f {A B} (o : option A) (k : A -> H (res B)) :
  is_Some o -> (forall a, o = Some a -> quiet f (k a)) -> quiet f (deref o ≫= k).
Proof. intros [a ->] Hk s w Hs. apply lw_bind, lw_ret. by apply Hk. Qed.
Lemma quiet_event f b r a n {A} (k : unit -> H (res A)) : quiet f (k tt) -> quiet f (call (EEvent b r a n) ≫= k).
Proof. intros Hk s w Hs. apply lw_bind. lw_call_. intros [] w' [->|(n' & _ & [] & _)]. by apply Hk. Qed.
Lemma quiet_if f {A} (b : bool) (m m' : H (res A)) :
  (b = true -> quiet f m) -> (b = false -> quiet f m') -> quiet f (if b then m else m').
Proof. destruct b; auto. Qed.
Lemma quiet_for_each f {A} (l : list A) (m : A -> H (res unit)) : (forall x, quiet f (m x)) -> quiet f (for_each l m).
Proof. intros Hm. induction l as [|x l IH]; [apply quiet_ok|]. apply quiet_try; [done|apply quiet_err|by intros []]. Qed.

(** A request, and what becomes of its answer. *)
Lemma quiet_call_bind r {A B} (ask : answer r -> res A) P Q (k : answer r -> H (res B)) :
  answers r ask P Q ->
  (forall w x, match ask x with
             | Ok a => P w a -> quiet false (k x)
             | Err e => (Q w e -> quiet false (k x)) /\ (failure e -> quiet true (k x))
             end) ->
  quiet false (call r ≫= k).
Proof.
  intros Hr Hk s w Hs. apply lw_bind. apply (lw_answers _ _ _ _ _ _ _ _ _ _ _ Hr). intros x. specialize (Hk w x).
  destruct (ask x) as [a|e]; [intros HP; by apply Hk|]. destruct Hk as [H1 H2]. split; [intros HQ; by apply H1|].
  intros n Hn He. eapply lw_mono; [by apply H2|]. intros w' s' r' (-> & (m & Hm & ->) & Hr'). cbn in Hm.
  split_and!; [done|exists m; split; [lia|done]|]. destruct r'; [done|]. right. cbn. lia.
Qed.

Lemma quiet_call r {A} (ask : answer r -> res A) P (k : answer r -> H (res A)) :
  answers r ask P no_error -> (forall x, k x = mret (ask x)) -> quiet false (call r ≫= k).
Proof.
  intros Hr Hk. apply (quiet_call_bind _ _ _ _ _ Hr). intros w x. rewrite Hk.
  destruct (ask x); [intros _; apply quiet_ok|split; [by intros []|intros _; apply quiet_err]].
Qed.

(** *** Requests whose failure is the only error *)

Lemma quiet_Apply o : quiet false (Apply o).
Proof. exact (quiet_call _ _ _ (fun x => mret x) (answers_apply o) (fun _ => eq_refl)). Qed.
Lemma quiet_Update o : quiet false (Update o).
Proof. exact (quiet_call _ _ _ (fun x => mret x) (answers_update o) (fun _ => eq_refl)). Qed.
Lemma quiet_patch_deployment o m : quiet false (call (KPatchDeployment o m) : H (res unit)).
Proof. exact (quiet_call _ _ _ (fun x => mret x) (answers_patch_deployment o m) (fun _ => eq_refl)). Qed.
Lemma quiet_object k n : quiet false (call (KGetObject k n) : H (res owned)).
Proof. exact (quiet_call _ _ _ (fun x => mret x) (answers_object k n) (fun _ => eq_refl)). Qed.
Lemma quiet_profile n : quiet false (GetAuthProfile n).
Proof. exact (quiet_call _ _ _ (fun x => mret x) (answers_profile n) (fun _ => eq_refl)). Qed.
Lemma quiet_nodes sel : quiet false (ListNodesMatchingSelector sel).
Proof. exact (quiet_call _ _ _ (fun x => mret x) (answers_nodes sel) (fun _ => eq_refl)). Qed.
Lemma quiet_services ns sel : quiet false (call (KListServices ns sel) : H (res (list Service))).
Proof. exact (quiet_call _ _ _ (fun x => mret x) (answers_services ns sel) (fun _ => eq_refl)). Qed.

Lemma quiet_delete k n : k ≠ KStatefulSet -> quiet false (DeleteResourceIfExists k n).
Proof.
  intros Hk. apply (quiet_call_bind _ _ _ _ _ (answers_delete k n Hk)). intros w [u|e].
  - intros _. apply quiet_ok.
  - unfold allowObjNotFound, missing. split; [intros ->; apply quiet_ok|].
    unfold failure, missing. intros [-> _]. apply quiet_err.
Qed.
Lemma quiet_create owner o : (forall ss, o ≠ OStatefulSet ss) -> quiet false (CreateResourceIfNotExists owner o).
Proof.
  intros Ho. apply (quiet_call_bind _ _ _ _ _ (answers_create (_, o) Ho)). intros w [u|e].
  - intros _. apply quiet_ok.
  - split; [intros ->; apply quiet_ok|]. intros [_ ->]. apply quiet_err.
Qed.

Lemma quiet_record_fail {A} msg e : quiet true (record_fail msg e : H (res A)).
Proof. apply quiet_event, quiet_err. Qed.
Lemma quiet_weak {A} (m : H (res A)) : quiet false m -> quiet true m.
Proof. intros Hm s w Hs. eapply lw_mono; [by apply Hm|]. intros w' s' r (? & ? & ?). split_and!; [done..|]. by destruct r; [|left]. Qed.
End Loop.

Create HintDb quiet discriminated.
#[export] Hint Resolve quiet_ok quiet_err quiet_Apply quiet_Update quiet_patch_deployment quiet_object quiet_profile
  quiet_nodes quiet_services quiet_delete quiet_create quiet_record_fail : quiet.

(** Follow the structure of a quiet handler. *)
Ltac quiet_step :=
  lazymatch goal with
  | |- forall _, _ => intros ?
  | |- quiet _ _ _ _ _ _ (try_ _ _ _) => apply quiet_try
  | |- quiet _ _ _ _ _ _ (mbind _ get) => apply quiet_get; intros ? ?
  | |- quiet _ _ _ _ _ _ (mbind _ (deref _)) => apply quiet_deref; [eauto 3 with completes|]; intros ? ?
  | |- quiet _ _ _ _ _ _ (mbind _ _) => apply quiet_bind
  | |- quiet _ _ _ _ _ _ (for_each _ _) => apply quiet_for_each
  | |- quiet _ _ _ _ _ _ (if ?b then _ else _) => apply quiet_if; intros ?
  | |- quiet _ _ _ _ _ _ (match ?x with _ => _ end) => destruct x eqn:?
  | |- quiet _ _ _ _ _ _ (let _ := _ in _) => cbv zeta
  | |- quiet _ _ _ _ _ _ ?m => first [ solve [eauto 4 with quiet] | let f := head_of m in unfold f ]
  end.
Ltac quiet_auto := repeat quiet_step; try done.
