(* ===== verification/BecomesReady.v ===== *)
(** * A cluster becomes ready

    The stages and passes of the closed loop of [Bootstrap], and the theorem: a cluster that is
    to run is brought up, declared ready and left alone. *)

From stdpp Require Import relations.
From S2P Require Import Prelude Effects ClosedLoop K8sTypes AISConfig AIStoreTypes ThirdParty AuthConf AIStoreMethods AIStoreFacts Validation GlobalConfig CmnResources Certificates ProxyResources TargetResources AdminClient Templates Rollout ResourceFacts Requests K8sClient ClusterOps Nodes ProxyController TargetController LoopStages Cluster Executions Completion Bootstrap.

Section Stages.
Context `{T : ThirdParty, L : !ThirdPartyLaws T} (ais : AIStore) (np nt : Z) (uuid : string) (D : nat).
Context (boot : bootable ais np nt) (enc : encodes T).

#[local] Abbreviation quiet := (Bootstrap.quiet ais np nt uuid D).
#[local] Abbreviation same_object := (LoopStages.same_object ais).
#[local] Abbreviation step := (Bootstrap.step ais np nt uuid D).
#[local] Abbreviation world_ok := (Bootstrap.world_ok ais np nt).
#[local] Abbreviation calm := (Bootstrap.calm ais np nt).
#[local] Abbreviation at_rest := (Bootstrap.at_rest ais np nt uuid).
#[local] Abbreviation noworse := (Bootstrap.noworse ais np nt uuid D).
#[local] Abbreviation faulted := (Bootstrap.faulted ais np nt uuid D).
#[local] Abbreviation kept := (Bootstrap.kept ais np nt uuid D).
#[local] Abbreviation pending := (Bootstrap.pending ais np nt D).
#[local] Abbreviation distance := (Bootstrap.distance ais np nt uuid D).
#[local] Abbreviation fit_status := (Bootstrap.fit_status ais np nt uuid).

Lemma same_given a : same_object a -> sizes_given (Spec a) = true.
Proof. intros Ha. apply ValidateSpec_given. by apply (same_valid ais np nt boot). Qed.
#[local] Hint Resolve same_given : completes.

Lemma sizes_positive : 1 <= np /\ 1 <= nt.
Proof.
  pose proof (ValidateSpec_checks ais (bt_valid _ _ _ boot)) as Hv. unfold validations in Hv. rewrite !Forall_cons in Hv.
  destruct Hv as (_ & Hv & _), (bt_fixed _ _ _ boot) as [Hp Ht].
  destruct (validateSize_proxy ais Hv) as (n & Hn & H1), (validateSize_target ais Hv) as (m & Hm & H2).
  rewrite (bt_proxies _ _ _ boot) in Hn. rewrite (bt_targets _ _ _ boot) in Hm. injection Hn as <-. injection Hm as <-. auto.
Qed.

(** ** Quiet stages *)

Lemma quiet_resolveAuthConf a : same_object a -> quiet false (resolveAuthConf a).
Proof.
  intros Ha. unfold resolveAuthConf. destruct (Auth (Spec a)) as [spec|] eqn:Hs; [|apply quiet_ok].
  apply quiet_try; [|apply quiet_err|intros; apply quiet_ok]. unfold ResolveAuthConfig.
  destruct (as_ProfileRef spec) as [name|] eqn:Hr; [quiet_auto|]. apply quiet_res.
  rewrite (so_spec _ _ Ha) in Hs. destruct (bt_auth _ _ _ boot spec Hs Hr) as [Ht|Hu].
  - destruct (as_TokenExchange spec); [by eexists|done].
  - destruct (as_UsernamePassword spec); [|done]. destruct (as_TokenExchange spec); by eexists.
Qed.
#[local] Hint Resolve quiet_resolveAuthConf : quiet.

Lemma quiet_CreateOrUpdate a o : (forall ss, o ≠ OStatefulSet ss) -> quiet false (CreateOrUpdateResource a o).
Proof. intros Ho. unfold CreateOrUpdateResource. quiet_auto. Qed.
#[local] Hint Resolve quiet_CreateOrUpdate : quiet.

Lemma quiet_rbac : quiet false createOrUpdateRBACResources.
Proof. quiet_auto. Qed.
Lemma quiet_certificate : quiet false reconcileTLSCertificate.
Proof. quiet_auto. Qed.
Lemma quiet_external_services : quiet false createExternalServices.
Proof. quiet_auto. Qed.
Lemma quiet_proxy_prereqs : quiet false ensureProxyPrereqs.
Proof.
  apply quiet_get. intros a Ha. destruct (same_configs enc a) as (_ & [cm ->] & _). quiet_auto.
Qed.
Lemma quiet_target_prereqs : quiet false ensureTargetPrereqs.
Proof.
  apply quiet_get. intros a Ha. destruct (same_configs enc a) as (_ & _ & [cm ->]). quiet_auto.
Qed.
Lemma quiet_pdb a : quiet false (reconcileTargetPDB a).
Proof. quiet_auto. Qed.

Lemma quiet_admin_client : quiet false reconcileAdminClient.
Proof.
  apply quiet_get. intros a Ha. cbv zeta. unfold GetDeployment.
  apply (quiet_call_bind _ _ _ _ _ _ _ _ _ _ (answers_deployment _ _ _ _ _ _)). intros w [d|e].
  - intros Hd. apply quiet_if; [intros; apply quiet_ok|intros _]. apply quiet_if; [|quiet_auto].
    intros Hen. unfold reconcileClientDeployment. quiet_step; [quiet_auto..|]. intros conf.
    destruct (client_containers a conf Hen) as (desired & c & Hdes & Hc). rewrite Hdes.
    apply quiet_deref; [done|]. intros ? [= <-].
    destruct (some_SyncDeployment desired d c Hc Hd) as [[[m ch] reason] ->]. apply quiet_deref; [done|].
    intros ? [= <-]. quiet_auto.
  - split; [|unfold failure, missing; intros [[-> _]%orb_false_iff _]; apply quiet_err].
    intros ->. apply quiet_if; [done|intros _]. apply quiet_if; [|quiet_auto]. intros Hen. unfold createClientDeployment.
    quiet_step; [quiet_auto..|]. intros conf. destruct (client_containers a conf Hen) as (desired & c & -> & Hc).
    apply quiet_deref; [done|]. intros ? [= <-]. quiet_auto.
Qed.

Lemma quiet_recording {A} (m : H (res A)) msg : quiet false m -> quiet false (recording m msg).
Proof. intros Hm. unfold recording. quiet_auto. Qed.

Lemma quiet_resources : quiet false reconcileResources.
Proof.
  unfold reconcileResources. apply quiet_get. intros a Ha. rewrite (same_valid _ _ _ boot a Ha).
  destruct (same_configs enc a) as ([cm ->] & _).
  repeat (apply quiet_try; [apply quiet_recording|apply quiet_err|intros _]); [| | |apply quiet_recording].
  - apply quiet_rbac.
  - apply quiet_certificate.
  - auto with quiet.
  - apply quiet_admin_client.
Qed.

Lemma quiet_statsd : quiet false reconcileDeprecatedStatsDCM.
Proof.
  apply quiet_get. intros a Ha. cbv zeta.
  apply (quiet_call_bind _ _ _ _ _ _ _ _ _ _ (answers_config_map _ _ _ _ _ _)). intros w [cm|e].
  - intros _. quiet_auto.
  - split; [intros ->; apply quiet_ok|]. unfold failure, missing. intros [[-> _]%orb_false_iff _]. apply quiet_err.
Qed.

(** ** What a pass achieves *)

(** Something is not up yet. *)
Definition rounds_of (o : option workload) : nat := match o with Some wl => wl_rounds wl | None => 0 end.
Definition busy (w : world) : nat := rounds_of (proxies w) + rounds_of (targets w) + waiting_lb ais w.

(** The pass asks for another one: by an error, by a delay, or by an event of the object. *)
Definition asks (w w' : world) (o : outcome) : Prop :=
  snd o ≠ None \/ 0 < RequeueAfter (fst o) \/ (phase (stored w') < phase (stored w))%nat.

Record moved (w w' : world) (o : outcome) : Prop := {
  mv_ok : world_ok w';
  mv_faults : (faults w' <= faults w)%nat;
  mv_rest : at_rest w = true -> stored w' = stored w /\ at_rest w' = true;
  mv_asks : at_rest w' = true \/ asks w w' o;
  mv_closer : at_rest w' = true \/ (distance w' < distance w)%nat \/ (distance w' <= distance w)%nat /\ (0 < busy w')%nat;
  mv_finished : at_rest w = true -> faults w' = faults w -> o = finished;
}.

Lemma distance_noworse w w' : noworse w w' -> (distance w' <= distance w)%nat.
Proof.
  intros [_ Hp Hf _ Hr]. unfold Bootstrap.distance. destruct (at_rest w).
  - by destruct (Hr eq_refl) as [_ ->].
  - destruct (at_rest w'); lia.
Qed.
Lemma distance_closer w w' :
  at_rest w = false -> (pending w' + faults w' < pending w + faults w)%nat -> (distance w' < distance w)%nat.
Proof. unfold Bootstrap.distance. intros ->. destruct (at_rest w'); lia. Qed.

Lemma calm_busy w : calm w = true -> busy w = 0%nat.
Proof.
  unfold Bootstrap.calm, busy, settled, rounds_of. destruct (proxies w), (targets w); cbn; rewrite ?andb_false_r; try done.
  rewrite !andb_true_iff, !Nat.eqb_eq. lia.
Qed.
Lemma rest_calm w : at_rest w = true -> calm w = true.
Proof. unfold Bootstrap.at_rest. rewrite !andb_true_iff. tauto. Qed.
Lemma busy_not_rest w : (0 < busy w)%nat -> at_rest w = false.
Proof.
  intros Hb. apply not_true_is_false. intros Hr%rest_calm%calm_busy. lia.
Qed.

Lemma moved_noworse w w1 w2 o : noworse w w1 -> moved w1 w2 o -> moved w w2 o.
Proof.
  intros Hn [Hok Hf Hr Ha Hc Hd]. pose proof (distance_noworse _ _ Hn). pose proof (nw_faults _ _ _ _ _ _ _ Hn).
  split; [done|lia| | | |].
  - intros H1. destruct (nw_rest _ _ _ _ _ _ _ Hn H1) as [<- ?]. auto.
  - destruct Ha as [?|[?|[?|?]]]; [by left|right..]; [by left|by right; left|].
    right. right. pose proof (nw_phase _ _ _ _ _ _ _ Hn). lia.
  - destruct Hc as [?|[?|[? ?]]]; [by left|right; left; lia|right; right; split; [lia|done]].
  - intros H1 H2. destruct (nw_rest _ _ _ _ _ _ _ Hn H1) as [_ ?]. apply Hd; [done|lia].
Qed.

(** A request failed, and the pass says so or comes back. *)
Lemma boot_moved_faulted w w' o : faulted w w' -> asks w w' o -> moved w w' o.
Proof.
  intros [Hn Hf] Ha. split; [by destruct Hn|by destruct Hn|by destruct Hn|by right| |lia].
  destruct (at_rest w) eqn:Hr; [left; by apply (nw_rest _ _ _ _ _ _ _ Hn)|]. right. left.
  apply distance_closer; [done|]. pose proof (nw_pending _ _ _ _ _ _ _ Hn). lia.
Qed.

(** The pass waits for what is not up yet. *)
Lemma moved_busy w w' o : noworse w w' -> (0 < busy w')%nat -> asks w w' o -> moved w w' o.
Proof.
  intros Hn Hb Ha. split; [by destruct Hn..|by right| |].
  - right. right. split; [by apply distance_noworse|done].
  - intros Hr. apply (nw_rest _ _ _ _ _ _ _ Hn) in Hr as [_ Hr]. apply busy_not_rest in Hb. congruence.
Qed.

(** Something was created, or resized. *)
Lemma rest_pending w : at_rest w = true -> pending w = 0%nat.
Proof.
  intros Hr. pose proof (rest_calm w Hr) as Hc. revert Hr. unfold Bootstrap.at_rest, Bootstrap.pending.
  rewrite !andb_true_iff. intros H. assert (phase (stored w) = 0%nat) as ->.
  { unfold phase. destruct H as [[[[[[[_ Hst] ->] _] _] _] _] _]. unfold HasState in *. apply bool_decide_eq_true in Hst. by rewrite Hst. }
  clear H. revert Hc.
  unfold Bootstrap.calm, settled. destruct (proxies w), (targets w); cbn; rewrite ?andb_false_r; try done.
  rewrite !andb_true_iff, !Nat.eqb_eq. intros [[[-> ->] [-> ->]] ->]. done.
Qed.
Lemma boot_moved_closer w w' o : noworse w w' -> (pending w' < pending w)%nat -> asks w w' o -> moved w w' o.
Proof.
  intros Hn Hp Ha. assert (at_rest w = false) as Hr.
  { destruct (at_rest w) eqn:Hr; [|done]. apply rest_pending in Hr. lia. }
  split; [by destruct Hn..|by right| |congruence]. right. left. apply distance_closer; [done|]. pose proof (nw_faults _ _ _ _ _ _ _ Hn). lia.
Qed.

Lemma moved_waiting w w' o :
  noworse w w' -> (0 < busy w')%nat \/ (pending w' < pending w)%nat -> asks w w' o -> moved w w' o.
Proof. intros Hn [?|?]; [by apply moved_busy|by apply boot_moved_closer]. Qed.
(** The object records a step. *)
Lemma moved_phase w w' o : kept w w' -> (phase (stored w') < phase (stored w))%nat -> moved w w' o.
Proof.
  intros Hk Hp. apply boot_moved_closer; [apply Hk| |by right; right].
  destruct Hk as [_ H1 H2 H3 H4]. unfold Bootstrap.pending, waiting_lb. rewrite H1, H2, H3, H4. lia.
Qed.
Lemma kept_busy w w' : kept w w' -> busy w' = busy w.
Proof. intros [_ H1 H2 H3 H4]. unfold busy, waiting_lb. by rewrite H1, H2, H3, H4. Qed.

(** The end of the way. *)
Lemma moved_rest w w' : noworse w w' -> at_rest w' = true -> moved w w' finished.
Proof. intros Hn Hr. split; [by destruct Hn..|by left|by left|done]. Qed.
Lemma moved_rest_faulted w w' o : noworse w w' -> at_rest w' = true -> (faults w' < faults w)%nat -> moved w w' o.
Proof. intros Hn Hr Hf. split; [by destruct Hn..|by left|by left|lia]. Qed.

(** ** Writing the object *)

(** A stage that writes at most the object: afterwards the object in memory is the one stored. *)
Definition ends {A} (w : world) (P : world -> AIStore -> A -> Prop) (w' : world) (s' : AIStore) (r : res A) : Prop :=
  match r with Ok a => kept w w' /\ stored w' = s' /\ P w' s' a | Err _ => faulted w w' end.

Lemma boot_loop_event b r a n s w (Q : world -> AIStore -> unit -> Prop) :
  Q w s tt -> loop_wpm step (call (EEvent b r a n)) s w Q.
Proof. intros HQ. lw_call_. intros [] w' [->|(n' & _ & [] & _)]. done. Qed.

Lemma kept_faulted w n w2 :
  world_ok w -> faults w = S n -> kept (with_faults w n) w2 -> faulted w w2.
Proof.
  intros Hok Hn [Hk _ _ _ _]. destruct (boot_faulted_here ais np nt uuid D w n Hok Hn) as [H1 Hf].
  split; [by eapply boot_noworse_trans|]. pose proof (nw_faults _ _ _ _ _ _ _ Hk). lia.
Qed.

Lemma fit_faults w n s : fit_status w s -> fit_status (with_faults w n) s.
Proof. intros []. by split. Qed.

Lemma boot_loop_patchStatus s w :
  world_ok w -> fit_status w s ->
  loop_wpm step patchStatus s w (ends w (fun _ s' _ => s' = s)).
Proof.
  intros Hok Hf. pose proof (fs_status _ _ _ _ _ _ Hf) as Hs. unfold patchStatus. do 2 lw_step. apply lw_bind. lw_call_.
  intros x w' [Ht|(n & Hn & (e & -> & _) & Hw)].
  - cbn in Ht. rewrite <-Hs in Ht. destruct Ht as [-> ->]. repeat lw_step. split_and!; [|done..].
    by apply status_kept.
  - unfold record_fail, recordError. lw_step. apply boot_loop_event. lw_step.
    destruct Hw as [->|[x' Ht]]; [by apply boot_faulted_here|]. cbn in Ht. rewrite <-Hs in Ht. destruct Ht as [_ ->].
    apply (kept_faulted w n); [done..|]. apply (status_kept _ _ _ _ _ (with_faults w n));
      [by apply faults_ok|by apply fit_faults].
Qed.

Lemma boot_loop_updateStatusWithState st s w :
  world_ok w -> fit_status w (SetState st s) ->
  loop_wpm step (updateStatusWithState st) s w (ends w (fun _ s' _ => s' = SetState st s)).
Proof. intros Hok Hf. unfold updateStatusWithState. apply lw_bind, lw_modify. by apply boot_loop_patchStatus. Qed.

(** A patch of annotations and finalizers. *)
Lemma built_restart template policy restart spec :
  built template policy "" spec -> built template policy restart spec.
Proof. intros [(h & Hh & Ht) Hp]. split; [|done]. exists h. split; [|done]. left. by destruct Hh. Qed.

Definition fit_patch (w : world) (m : AIStore) : Prop :=
  at_rest w = false /\
  (restart_of m = restart_of (stored w) \/ restart_of (stored w) = "" /\ restart_of m = initial_restart ais).

Lemma patch_kept w m : world_ok w -> fit_patch w m -> kept w (with_stored w (patched (stored w) m)).
Proof.
  intros [Ho Hst Hr Hp Ht Hc Hd] [Hn Hm]. set (a := patched (stored w) m).
  assert (restart_of a = restart_of m) as Ha by done.
  split; [|done..]. split; [|done..|by rewrite Hn]. split; cbn; fold a; rewrite ?Ha; auto.
  - destruct Ho. by split.
  - destruct Hm as [->|[_ ->]]; auto.
  - intros wl Hwl. destruct (Hp wl Hwl) as [Hb ?]. split; [|done].
    destruct Hm as [->|[He _]]; [done|]. rewrite He in Hb. by apply built_restart.
  - intros wl Hwl. destruct (Ht wl Hwl) as [Hb ?]. split; [|done].
    destruct Hm as [->|[He _]]; [done|]. rewrite He in Hb. by apply built_restart.
Qed.

Definition patch_ends (m s : AIStore) (w w' : world) (s' : AIStore) (r : res AIStore) : Prop :=
  s' = s /\ match r with Ok a => a = patched (stored w) m /\ kept w w' /\ stored w' = a | Err _ => faulted w w' end.

Lemma loop_patch o m s w :
  world_ok w -> fit_patch w m -> loop_wpm step (call (KPatchAIStore o m)) s w (patch_ends m s w).
Proof.
  intros Hok Hf. lw_call_. intros x w' [Ht|(n & Hn & (e & -> & _) & Hw)].
  - cbn in Ht. destruct Ht as [-> ->]. split_and!; try done. by apply patch_kept.
  - split; [done|]. destruct Hw as [->|[x' Ht]]; [by apply boot_faulted_here|]. cbn in Ht. destruct Ht as [_ ->].
    apply (kept_faulted w n); [done..|]. apply (patch_kept (with_faults w n)); [by apply faults_ok|done].
Qed.

(** ** New statuses *)

Lemma not_rest_state w : State (Status (stored w)) ≠ ClusterReady -> at_rest w = false.
Proof.
  intros Hs. apply not_true_is_false. unfold Bootstrap.at_rest, HasState. rewrite !andb_true_iff, bool_decide_eq_true. tauto.
Qed.

(** The state and the conditions alone decide what a status says. *)
Lemma fit_same w s :
  at_rest w = false -> s = set_status (stored w) (Status s) ->
  State (Status s) = State (Status (stored w)) -> Conditions (Status s) = Conditions (Status (stored w)) -> fit_status w s.
Proof.
  intros Hn Hs Hst Hc.
  assert (forall c, IsConditionTrue s c = IsConditionTrue (stored w) c) as Hcond by (intros; unfold IsConditionTrue; by rewrite Hc).
  split; [done..| | | |]; unfold created, declared_ready, HasState; rewrite ?Hcond, ?Hst; auto.
Qed.

Lemma fit_state w st :
  at_rest w = false -> running_state st = true -> (st = ClusterReady -> calm w = true) ->
  fit_status w (SetState st (stored w)).
Proof.
  intros Hn Hst Hr. split; [done..| | | |]; unfold created, declared_ready, HasState; cbn; auto.
  rewrite bool_decide_eq_true. tauto.
Qed.

Lemma fit_condition w c :
  at_rest w = false -> (c = ConditionCreated -> sized (proxies w) np /\ sized (targets w) nt) ->
  fit_status w (SetCondition c (stored w)).
Proof.
  intros Hn Hc. split; [done..| | | |]; unfold created, declared_ready, HasState; rewrite ?IsConditionTrue_set; cbn.
  - by right.
  - intros ->. by case_decide.
  - case_decide; auto.
  - rewrite bool_decide_eq_true. tauto.
Qed.

Lemma fit_condition_state w st c :
  at_rest w = false -> running_state st = true -> (st = ClusterReady -> calm w = true) ->
  (c = ConditionCreated -> sized (proxies w) np /\ sized (targets w) nt) ->
  fit_status w (SetState st (SetCondition c (stored w))).
Proof.
  intros Hn Hst Hr Hc.
  assert (forall d, IsConditionTrue (SetState st (SetCondition c (stored w))) d =
    if decide (c = d) then true else IsConditionTrue (stored w) d) as Hd by (intros d; exact (IsConditionTrue_set (stored w) c d)).
  split; [done..| | | |]; unfold created, declared_ready, HasState; rewrite ?Hd; cbn.
  - by left.
  - intros ->. by case_decide.
  - case_decide; auto.
  - rewrite bool_decide_eq_true. tauto.
Qed.

(** Not ready any more. *)
Lemma fit_upgrading w r m :
  at_rest w = false -> fit_status w (SetState ClusterUpgrading (SetConditionFalse ConditionReady r m (stored w))).
Proof.
  intros Hn.
  assert (forall d, IsConditionTrue (SetState ClusterUpgrading (SetConditionFalse ConditionReady r m (stored w))) d =
    if decide (ConditionReady = d) then false else IsConditionTrue (stored w) d) as Hd by (intros d; exact (IsConditionTrue_set_false _ _ _ _ d)).
  split; [done..| | | |]; unfold created, declared_ready, HasState; rewrite ?Hd; cbn; auto. by rewrite bool_decide_eq_true.
Qed.

(** ** The stages before the StatefulSets *)

Lemma boot_loop_initializeCR s w :
  world_ok w -> stored w = s -> State (Status s) = NoState ->
  loop_wpm step initializeCR s w (ends w (fun _ _ _ => True)).
Proof.
  intros Hok Hs Hst. unfold initializeCR. do 2 lw_step.
  assert (forall w1 s1, kept w w1 -> stored w1 = s1 -> State (Status s1) = NoState ->
    loop_wpm step (modify (SetCondition ConditionInitialized) ≫= fun _ => updateStatusWithState ClusterInitialized) s1 w1
      (ends w (fun _ _ _ => True))) as Hlast.
  { intros w1 s1 Hk <- Hst1. lw_step. lw_step. eapply lw_mono; [apply boot_loop_updateStatusWithState|].
    - by destruct Hk as [[]].
    - apply fit_condition_state; try done. apply not_rest_state. by rewrite Hst1.
    - intros w2 s2 [[]|e]; cbn; [intros (Hk2 & <- & _); split_and!; [by eapply kept_trans|done..]|].
      intros Hf. eapply boot_noworse_faulted; [apply Hk|done]. }
  lw_step. lw_step; [lw_step; apply Hlast; [by apply kept_refl|done..]|].
  lw_step. lw_step. lw_step. eapply lw_mono; [apply loop_patch; [done|]|].
  { split; [apply not_rest_state; by rewrite Hs, Hst|]. left. by rewrite Hs. }
  intros w1 s1 [a|e] [-> H1]; [|by repeat lw_step]. destruct H1 as (-> & Hk & Hs1). do 3 lw_step. apply Hlast; [done..|].
  cbn. by rewrite Hs.
Qed.

Lemma loop_url s w :
  world_ok w -> stored w = s ->
  loop_wpm step (if bool_decide (AIStoreTypes.IntraClusterURL (Status s) = "") then updateIntraClusterURLStatus else mret (Ok tt))
    s w (ends w (fun _ s' _ => AIStoreTypes.IntraClusterURL (Status s') ≠ "")).
Proof.
  intros Hok <-. case_bool_decide as Hu; [|lw_step; split_and!; [by apply kept_refl|done..]].
  unfold updateIntraClusterURLStatus. lw_step. lw_step.
  assert (at_rest w = false) as Hn.
  { apply not_true_is_false. unfold Bootstrap.at_rest. rewrite !andb_true_iff, !bool_decide_eq_true. tauto. }
  eapply lw_mono; [apply boot_loop_patchStatus; [done|by apply fit_same]|]. intros w1 s1 [[]|e]; cbn; [|done].
  intros (? & ? & ->). split_and!; [done..|]. cbn. unfold IntraClusterURL, urlScheme. by destruct (UseHTTPS _).
Qed.

(** ** Handlers that may end the pass *)

Definition stops (o : outcome) : bool :=
  match o with (_, Some _) => true | (r, None) => negb (result_is_zero r) end.

(** Either the pass is over, and achieved something, or it goes on with the object stored. *)
Definition goes (w : world) (P : world -> AIStore -> Prop) (w' : world) (s' : AIStore) (o : outcome) : Prop :=
  if stops o then moved w w' o else noworse w w' /\ stored w' = s' /\ P w' s'.

Lemma goes_noworse w w1 P w2 s2 o : noworse w w1 -> goes w1 P w2 s2 o -> goes w P w2 s2 o.
Proof.
  unfold goes. intros Hn. destruct (stops o); [by apply moved_noworse|]. intros (? & ? & ?).
  split_and!; [by eapply boot_noworse_trans|done..].
Qed.

Lemma loop_unless_done (m k : H outcome) s w P Q :
  loop_wpm step m s w (goes w P) ->
  (forall w1 s1, noworse w w1 -> stored w1 = s1 -> P w1 s1 -> loop_wpm step k s1 w1 (goes w1 Q)) ->
  loop_wpm step (unless_done m k) s w (goes w Q).
Proof.
  intros Hm Hk. unfold unless_done. lw_step. eapply lw_mono; [exact Hm|]. intros w1 s1 [r [e|]]; unfold goes at 1; cbn.
  - intros Hmv. by lw_step.
  - destruct (result_is_zero r) eqn:Hr; cbn.
    + intros (Hn & Hs & HP). eapply lw_mono; [by apply Hk|]. intros w2 s2 o. by apply goes_noworse.
    + intros Hmv. lw_step. unfold goes. cbn. by rewrite Hr.
Qed.

Lemma loop_quiet {A B} (m : H (res A)) (e : error -> H B) (k : A -> H B) s w Q :
  quiet false m -> world_ok w -> stored w = s ->
  (forall w1 x, faulted w w1 -> loop_wpm step (e x) s w1 Q) ->
  (forall w1 a, kept w w1 -> world_ok w1 -> stored w1 = s -> loop_wpm step (k a) s w1 Q) ->
  loop_wpm step (try_ m e k) s w Q.
Proof.
  intros Hm Hok Hs He Hk. apply lw_try. eapply lw_mono; [apply Hm; subst s; apply Hok|].
  intros w1 s1 r (-> & Hsp & Hr). pose proof (spent_kept ais np nt uuid D _ _ Hok Hsp) as Hkp.
  destruct r as [a|x].
  - apply Hk; [done|by destruct Hkp as [[]]|]. by destruct Hsp as (n & _ & ->).
  - apply He. split; [apply Hkp|]. by destruct Hr.
Qed.

Lemma goes_failed w w' s' P (e : error) : faulted w w' -> goes w P w' s' (failed e).
Proof. intros Hf. unfold goes. cbn. apply boot_moved_faulted; [done|]. by left. Qed.
Lemma goes_on w w' (P : world -> AIStore -> Prop) s' : noworse w w' -> stored w' = s' -> P w' s' -> goes w P w' s' finished.
Proof. done. Qed.

(** ** Access from outside *)

Lemma same_external a : same_object a ->
  ProxyExternalAccessEnabled a = ProxyExternalAccessEnabled ais /\
  TargetExternalAccessEnabled a = TargetExternalAccessEnabled ais.
Proof. intros Ha. unfold ProxyExternalAccessEnabled, TargetExternalAccessEnabled. by rewrite (so_spec _ _ Ha). Qed.

Lemma loop_wait_external s w :
  world_ok w -> stored w = s ->
  loop_wpm step (waitForExternalSvcReady s) s w (ends w (fun w' s' b => s' = s /\ b = (waiting_lb ais w' =? 0)%nat)).
Proof.
  intros Hok Hs. assert (same_object s) as Ha by (subst s; apply Hok). destruct (same_external s Ha) as [Hpe Hte].
  assert (forall n, faults w = S n -> faulted w (with_faults w n)) as Hfault by (intros; by apply boot_faulted_here).
  assert (nn_name (ais_Name s) = nn_name (ais_Name ais)) as Hname by (by rewrite (so_name _ _ Ha)).
  unfold waitForExternalSvcReady, waiting_lb. rewrite Hpe, Hte. lw_step.
  eapply (lw_mono _ _ _ _ (fun w' s' r => match r with
    | Ok b => w' = w /\ s' = s /\ b = ((if ProxyExternalAccessEnabled ais then proxy_lb w else 0) =? 0)%nat
    | Err _ => faulted w w' end)).
  { destruct (ProxyExternalAccessEnabled ais); [|by lw_step]. unfold proxyExternalSvcReady, GetService. lw_step.
    eapply (lw_answers step); [apply answers_service|]. intros [svc|e].
    - intros Hsv. lw_step. split_and!; [done..|]. apply Hsv. unfold Proxy.LoadBalancerSVCNSName, Proxy.loadBalancerSVCName, in_ns, aname.
      by rewrite (so_name _ _ Ha).
    - split; [done|]. intros n Hn _. lw_step. by apply Hfault. }
  intros w1 s1 [b|e]; cbn; [|intros; by lw_step]. intros (-> & -> & ->).
  destruct (_ =? 0)%nat eqn:Hp; cbn [negb].
  2: { apply Nat.eqb_neq in Hp. lw_step. split_and!; [by apply kept_refl|done..|]. symmetry. apply Nat.eqb_neq.
       destruct (TargetExternalAccessEnabled ais); lia. }
  apply Nat.eqb_eq in Hp.
  destruct (TargetExternalAccessEnabled ais); [|lw_step; split_and!; [by apply kept_refl|done|done|by rewrite Hp]].
  unfold targetExternalSvcReady. lw_step. eapply (lw_answers step); [apply answers_services|]. intros [l|e].
  - intros Hl. destruct (same_sizes _ _ _ boot s Ha) as [_ ->]. cbn. lw_step. lw_step. split_and!; [by apply kept_refl|done..|].
    rewrite Hp. apply Hl. unfold aname. by rewrite Hname.
  - split; [done|]. intros n Hn _. lw_step. by apply Hfault.
Qed.

Lemma loop_external s w :
  world_ok w -> stored w = s ->
  loop_wpm step reconcileExternalAccess s w (goes w (fun w' _ => waiting_lb ais w' = 0%nat)).
Proof.
  intros Hok Hs. assert (same_object s) as Ha by (subst s; apply Hok). destruct (same_external s Ha) as [Hpe Hte].
  unfold reconcileExternalAccess. do 2 lw_step. rewrite Hpe, Hte. lw_step.
  { lw_step. apply goes_on; [by apply boot_noworse_refl|done|]. unfold waiting_lb. reflect_bools.
    by destruct (ProxyExternalAccessEnabled ais), (TargetExternalAccessEnabled ais). }
  apply loop_quiet; [apply quiet_external_services|done..| |].
  { intros w1 x Hf. lw_step. apply boot_loop_event. lw_step. by apply goes_failed. }
  intros w1 _ Hk1 Hok1 Hs1. lw_step. eapply lw_mono; [by apply loop_wait_external|].
  intros w2 s2 [b|e]; cbn; [intros (Hk2 & Hs2 & -> & ->)|intros Hf; lw_step; apply goes_failed; eapply boot_noworse_faulted; [apply Hk1|done]].
  assert (kept w w2) as Hk by (by eapply kept_trans). assert (world_ok w2) as Hok2 by (by destruct Hk as [[]]).
  lw_step; [lw_step; apply goes_on; [apply Hk|done|by apply Nat.eqb_eq]|].
  assert (0 < busy w2)%nat as Hb by (unfold busy; reflect_bools; match goal with H : (_ =? _)%nat = false |- _ => apply Nat.eqb_neq in H end; lia).
  lw_step.
  apply (lw_mono _ _ _ _ (fun w' s' r => match r with Ok _ => kept w2 w' | Err _ => faulted w2 w' end)).
  - assert (forall st, running_state st = true -> st ≠ ClusterReady ->
      loop_wpm step (updateStatusWithState st) s w2 (fun w' s' r => match r with Ok _ => kept w2 w' | Err _ => faulted w2 w' end)) as Hst.
    { intros st Hst Hne. eapply lw_mono; [apply boot_loop_updateStatusWithState; [done|]|].
      - rewrite <-Hs2. apply fit_state; [by apply busy_not_rest|done|done].
      - intros w3 s3 [[]|e]; cbn; [by intros [? _]|done]. }
    lw_step; [|by apply Hst]. lw_step. eapply lw_mono; [by apply Hst|]. intros w3 s3 [[]|e] H3; lw_step; [|done].
    apply boot_loop_event. by lw_step.
  - intros w3 s3 r Hr. lw_step. assert (stops (MkResult externalSvcDelay, err_of r) = true) as Hst by (by destruct r).
    unfold goes. rewrite Hst. destruct r as [[]|e]; cbn.
    + apply moved_busy; [eapply boot_noworse_trans; [apply Hk|apply Hr]| |by right; left].
      unfold busy, waiting_lb in *. destruct Hr as [_ -> -> -> ->]. done.
    + apply boot_moved_faulted; [eapply boot_noworse_faulted; [apply Hk|done]|by left].
Qed.

Lemma loop_prereqs s w :
  world_ok w -> stored w = s ->
  loop_wpm step ensurePrereqs s w (goes w (fun w' _ => waiting_lb ais w' = 0%nat)).
Proof.
  intros Hok Hs. unfold ensurePrereqs. apply loop_quiet; [apply quiet_resources|done..| |].
  { intros w1 x Hf. lw_step. by apply goes_failed. }
  intros w1 _ Hk1 Hok1 Hs1.
  eapply (lw_mono _ _ _ _ (goes w1 (fun w' _ => waiting_lb ais w' = 0%nat))).
  2: { intros w2 s2 o. apply goes_noworse, Hk1. }
  eapply loop_unless_done; [by apply loop_external|]. intros w2 s2 Hn2 Hs2 Hlb.
  assert (world_ok w2) as Hok2 by apply Hn2. apply loop_quiet; [apply quiet_proxy_prereqs|done..| |].
  { intros w3 x Hf. lw_step. by apply goes_failed. }
  intros w3 _ Hk3 Hok3 Hs3. lw_step. eapply lw_mono; [apply quiet_target_prereqs; subst s2; apply Hok2|].
  intros w4 s4 r (-> & Hsp & Hr). pose proof (spent_kept ais np nt uuid D _ _ Hok3 Hsp) as Hk4. lw_step.
  destruct r as [[]|e].
  - apply goes_on; [eapply boot_noworse_trans; [apply Hk3|apply Hk4]| |].
    + destruct Hsp as (n & _ & ->). done.
    + unfold waiting_lb in *. destruct Hk3 as [_ _ _ H1 H2], Hk4 as [_ _ _ -> ->]. by rewrite H1, H2.
  - apply goes_failed. eapply boot_noworse_faulted; [apply Hk3|]. split; [apply Hk4|]. by destruct Hr.
Qed.

(** ** The StatefulSets *)

Lemma workload_proxies w : workload_of ais w (proxy_set ais) = proxies w.
Proof. unfold workload_of. by rewrite bool_decide_eq_true_2. Qed.
Lemma workload_targets w : workload_of ais w (target_set ais) = targets w.
Proof. unfold workload_of. rewrite bool_decide_eq_false_2 by (intros H; by destruct (sets_distinct ais)). by rewrite bool_decide_eq_true_2. Qed.
Lemma with_workload_proxies w o : with_workload ais w (proxy_set ais) o = with_proxies w o.
Proof. unfold with_workload. by rewrite bool_decide_eq_true_2. Qed.
Lemma with_workload_targets w o : with_workload ais w (target_set ais) o = with_targets w o.
Proof. unfold with_workload. rewrite bool_decide_eq_false_2 by (intros H; by destruct (sets_distinct ais)). by rewrite bool_decide_eq_true_2. Qed.

(** What is sent is what was asked for, and what is kept of it. *)
Lemma built_sent (template : string -> option PodTemplateSpec) policy restart sent :
  template restart = Some (sss_Template sent) -> sss_PVCRetentionPolicy sent = policy ->
  built template policy restart sent.
Proof.
  intros Ht <-. split; [eauto|]. unfold shouldUpdatePVCRetentionPolicy. case_match; [|done]. by rewrite DeepEqual_refl.
Qed.
Lemma built_admitted template policy restart sent kept :
  admitted sent kept -> built template policy restart sent -> built template policy restart kept.
Proof.
  intros (_ & Ht & Hp) [(h & Hh & Hs) Hpol]. split; [exists h; by rewrite Ht|].
  destruct Hp as [->|[Hn ->]]; [done|]. rewrite Hn in Hpol. destruct policy; [|done].
  unfold shouldUpdatePVCRetentionPolicy in *. apply negb_false_iff, DeepEqual_spec in Hpol. done.
Qed.
Lemma built_ext template policy restart s1 s2 :
  sss_Template s2 = sss_Template s1 -> sss_PVCRetentionPolicy s2 = sss_PVCRetentionPolicy s1 ->
  built template policy restart s1 -> built template policy restart s2.
Proof. intros Ht Hp [H1 H2]. split; [by rewrite Ht|by rewrite Hp]. Qed.

(** A StatefulSet of the cluster is created or starts over. *)
Lemma replace_proxies w wl :
  world_ok w -> calm w = false -> proxies_built ais np (restart_of (stored w)) (wl_spec wl) ->
  proxy_size np (stored w) (sss_Replicas (wl_spec wl)) ->
  (proxies_left np D (Some wl) < proxies_left np D (proxies w))%nat ->
  noworse w (with_proxies w (Some wl)) /\ (pending (with_proxies w (Some wl)) < pending w)%nat.
Proof.
  intros [Ho Hst Hr Hp Ht Hc Hd] Hcalm Hb Hn Hl.
  assert (declared_ready (stored w) = false) as Hnd by (apply not_true_is_false; intros H; specialize (Hd H); congruence).
  assert (pending (with_proxies w (Some wl)) < pending w)%nat as Hlt.
  { unfold Bootstrap.pending. change (waiting_lb ais (with_proxies w (Some wl))) with (waiting_lb ais w). cbn [stored proxies targets with_proxies]. lia. }
  split; [|done]. split; [|lia|done|done|].
  - split; try done; cbn; rewrite ?Hnd; try done; [by intros ? [= <-]|]. intros H. destruct (Hc H). eauto.
  - intros Hr'%rest_calm. congruence.
Qed.

Lemma replace_targets w wl :
  world_ok w -> calm w = false -> targets_built ais nt (restart_of (stored w)) (wl_spec wl) ->
  target_size nt (stored w) (sss_Replicas (wl_spec wl)) ->
  (targets_left nt D (Some wl) < targets_left nt D (targets w))%nat ->
  noworse w (with_targets w (Some wl)) /\ (pending (with_targets w (Some wl)) < pending w)%nat.
Proof.
  intros [Ho Hst Hr Hp Ht Hc Hd] Hcalm Hb Hn Hl.
  assert (declared_ready (stored w) = false) as Hnd by (apply not_true_is_false; intros H; specialize (Hd H); congruence).
  assert (pending (with_targets w (Some wl)) < pending w)%nat as Hlt.
  { unfold Bootstrap.pending. change (waiting_lb ais (with_targets w (Some wl))) with (waiting_lb ais w). cbn [stored proxies targets with_targets]. lia. }
  split; [|done]. split; [|lia|done|done|].
  - split; try done; cbn; rewrite ?Hnd; try done; [by intros ? [= <-]|]. intros H. destruct (Hc H). eauto.
  - intros Hr'%rest_calm. congruence.
Qed.

(** A StatefulSet is created unless it exists. *)
Definition creates (ss : StatefulSet) (w : world) : Prop :=
  forall w', workload_of ais w (ss_Name ss) = None -> starts ais D ss w w' -> noworse w w' /\ (pending w' < pending w)%nat.

Lemma loop_create owner ss s w :
  world_ok w -> (forall w, world_ok w -> stored w = s -> creates ss w) -> stored w = s ->
  loop_wpm step (CreateResourceIfNotExists owner (OStatefulSet ss)) s w (fun w' s' r => s' = s /\
    match r with
    | Ok true => w' = w /\ is_Some (workload_of ais w (ss_Name ss))
    | Ok false => noworse w w' /\ (pending w' < pending w)%nat
    | Err _ => faulted w w'
    end).
Proof.
  intros Hok Hc Hs. unfold CreateResourceIfNotExists. lw_step. lw_call_. intros x w' [Ht|(n & Hn & (e & -> & He) & Hw)]; lw_step.
  - cbn in Ht. destruct (workload_of ais w (ss_Name ss)) as [wl|] eqn:Hwl.
    + destruct Ht as (-> & e & -> & ->). by eauto.
    + destruct Ht as [-> Hst]. split; [done|]. by apply (Hc w Hok Hs).
  - destruct He as [_ ->]. split; [done|]. destruct Hw as [->|[x' Ht]]; [by apply boot_faulted_here|]. cbn in Ht.
    assert (world_ok (with_faults w n)) as Hok' by (by apply faults_ok).
    destruct (workload_of ais (with_faults w n) (ss_Name ss)) as [wl|] eqn:Hwl.
    + destruct Ht as [-> _]. by apply boot_faulted_here.
    + destruct Ht as [_ Hst]. destruct (Hc _ Hok' Hs w' Hwl Hst) as [Hnw Hp].
      eapply faulted_noworse; [by apply boot_faulted_here|done].
Qed.

Lemma creates_proxies s n ss w :
  world_ok w -> stored w = s -> created s = false -> n = 1 \/ n = np ->
  Proxy.NewProxyStatefulSet s n = Some ss -> creates ss w.
Proof.
  intros Hok Hs Hcr Hn Hss w' Hnone (wl & Had & Hd & ->). assert (same_object s) as Ha by (subst s; apply Hok).
  destruct (same_proxy_set _ _ _ boot s Ha n) as (ss' & Hss' & Hname & Hrep & Ht & Hpol).
  rewrite Hss in Hss'. injection Hss' as <-. rewrite Hname in Hnone |- *. rewrite workload_proxies in Hnone.
  rewrite with_workload_proxies. pose proof Had as (Hr & _). apply replace_proxies; [done|..].
  - unfold Bootstrap.calm. by rewrite Hnone.
  - apply (built_admitted _ _ _ _ _ Had). rewrite Hs. by apply built_sent.
  - rewrite Hr, Hrep. unfold proxy_size. rewrite Hs, Hcr. destruct Hn; auto.
  - rewrite Hnone. cbn. destruct (_ =? np); lia.
Qed.

Lemma creates_targets s ss w :
  world_ok w -> stored w = s -> Target.NewTargetSS s nt = Some ss -> creates ss w.
Proof.
  intros Hok Hs Hss w' Hnone (wl & Had & Hd & ->). assert (same_object s) as Ha by (subst s; apply Hok).
  destruct (same_target_set _ _ _ boot s Ha nt) as (ss' & Hss' & Hname & Hrep & Ht & Hpol).
  rewrite Hss in Hss'. injection Hss' as <-. rewrite Hname in Hnone |- *. rewrite workload_targets in Hnone.
  rewrite with_workload_targets. pose proof Had as (Hr & _). apply replace_targets; [done|..].
  - unfold Bootstrap.calm. by rewrite Hnone, andb_false_r.
  - apply (built_admitted _ _ _ _ _ Had). rewrite Hs. by apply built_sent.
  - left. by rewrite Hr, Hrep.
  - rewrite Hnone. cbn. rewrite Hr, Hrep, Z.eqb_refl. lia.
Qed.

(** ** Bootstrap *)

Lemma goes_requeue w w' s' P d : moved w w' (requeue d) -> 0 < d -> goes w P w' s' (requeue d).
Proof.
  intros Hm Hd. unfold goes, stops, requeue, result_is_zero. cbn.
  assert (d =? 0 = false) as -> by (apply Z.eqb_neq; lia). done.
Qed.
Lemma asks_requeue w w' d : 0 < d -> asks w w' (requeue d).
Proof. intros Hd. right. by left. Qed.

Lemma down_busy w wl :
  world_ok w -> created (stored w) = false -> proxies w = Some wl -> up (proxies w) = false -> (0 < busy w)%nat.
Proof.
  intros Hok Hcr Hwl. destruct sizes_positive as [Hnp _]. destruct (ok_proxies _ _ _ _ Hok wl Hwl) as [_ Hr].
  unfold proxy_size in Hr. rewrite Hcr in Hr. unfold busy, up, rounds_of. rewrite Hwl.
  destruct (Z.eqb_spec (sss_Replicas (wl_spec wl)) 0); [lia|]. rewrite andb_true_r, Nat.eqb_neq. lia.
Qed.

Lemma loop_running_pod s w :
  world_ok w -> stored w = s ->
  loop_wpm step (GetRunningPod (Proxy.DefaultPrimaryNSName s)) s w (fun w' s' r => s' = s /\
    match r with Ok _ => w' = w | Err _ => w' = w /\ up (proxies w) = false \/ w' = with_faults w (pred (faults w)) /\ (0 < faults w)%nat end).
Proof.
  intros Hok Hs. assert (Proxy.DefaultPrimaryNSName s = Proxy.DefaultPrimaryNSName ais) as Hname.
  { subst s. unfold Proxy.DefaultPrimaryNSName, in_ns, DefaultPrimaryName, ProxyStatefulSetName.
    by rewrite (so_name _ _ (ok_object _ _ _ _ Hok)). }
  unfold GetRunningPod, GetPod. lw_step. eapply (lw_answers step); [apply answers_pod|]. intros [p|e].
  - intros Hp. lw_step; lw_step; (split; [done|]); [|done]. left. split; [done|]. reflect_bools.
    apply not_true_is_false. intros Hu. auto.
  - split; [intros Hu; lw_step; auto|]. intros n Hn _. lw_step. split; [done|]. right. rewrite Hn. split; [done|lia].
Qed.

Lemma loop_endpoints s w wl :
  world_ok w -> stored w = s -> created s = false -> proxies w = Some wl -> sss_Replicas (wl_spec wl) = np ->
  loop_wpm step (checkProxySvcEndpoints s) s w (goes w (fun w' s' => s' = s /\ sized (proxies w') np)).
Proof.
  intros Hok Hs Hcr Hwl Hnp. assert (Proxy.HeadlessSVCNSName s = Proxy.HeadlessSVCNSName ais) as Hname.
  { subst s. unfold Proxy.HeadlessSVCNSName, in_ns, aname. by rewrite (so_name _ _ (ok_object _ _ _ _ Hok)). }
  unfold checkProxySvcEndpoints, GetServiceEndpoints. lw_step. eapply (lw_answers step); [apply answers_endpoints|].
  rewrite Hname. intros [l|e].
  - intros Hl. lw_step; [lw_step; apply goes_on; [by apply boot_noworse_refl|done|split; [done|by exists wl]]|].
    lw_step. apply boot_loop_event. lw_step. apply goes_requeue; [|done].
    apply moved_busy; [by apply boot_noworse_refl|apply (down_busy w wl); [done|by rewrite Hs|done|]|by apply asks_requeue].
    apply not_true_is_false. intros Hu. specialize (Hl eq_refl Hu). congruence.
  - split; [done|]. intros n Hn _. lw_step. by apply goes_failed, boot_faulted_here.
Qed.

(** A StatefulSet is resized. *)
Definition resizes (name : nsname) (n : Z) (wl : workload) : Prop :=
  forall w ss w', world_ok w -> workload_of ais w name = Some wl -> sss_Replicas (wl_spec wl) ≠ n ->
    ss_Name ss = name -> ss_Spec ss = wl_spec wl -> starts ais D (ss_set_replicas ss n) w w' ->
    noworse w w' /\ stored w' = stored w /\ (pending w' < pending w)%nat /\ sized (workload_of ais w' name) n.

Lemma proxies_resize wl : resizes (proxy_set ais) np wl.
Proof.
  intros w ss w' Hok Hwl Hne Hname Hspec (wl' & Had & Hd & ->). pose proof Had as (Hr & _). cbn in Hr.
  cbn [ss_set_replicas ss_set_spec ss_Name]. rewrite Hname, with_workload_proxies, workload_proxies. rewrite workload_proxies in Hwl.
  destruct (ok_proxies _ _ _ _ Hok wl Hwl) as [Hb _]. apply Z.eqb_neq in Hne.
  destruct (replace_proxies w wl') as [Hn Hlt]; [done| | |by left| |].
  - unfold Bootstrap.calm, settled. by rewrite Hwl, Hne, andb_false_r.
  - apply (built_admitted _ _ _ _ _ Had). rewrite <-Hspec in Hb. revert Hb. by apply built_ext.
  - cbn. rewrite Hr, Hwl. cbn. rewrite Z.eqb_refl, Hne. lia.
  - split_and!; [done..|by exists wl'].
Qed.

Lemma targets_resize wl : resizes (target_set ais) nt wl.
Proof.
  intros w ss w' Hok Hwl Hne Hname Hspec (wl' & Had & Hd & ->). pose proof Had as (Hr & _). cbn in Hr.
  cbn [ss_set_replicas ss_set_spec ss_Name]. rewrite Hname, with_workload_targets, workload_targets. rewrite workload_targets in Hwl.
  destruct (ok_targets _ _ _ _ Hok wl Hwl) as [Hb _]. apply Z.eqb_neq in Hne.
  destruct (replace_targets w wl') as [Hn Hlt]; [done| | |by left| |].
  - unfold Bootstrap.calm, settled. by rewrite Hwl, Hne, andb_false_r, andb_false_r.
  - apply (built_admitted _ _ _ _ _ Had). rewrite <-Hspec in Hb. revert Hb. by apply built_ext.
  - cbn. rewrite Hr, Hwl. cbn. rewrite Z.eqb_refl, Hne. lia.
  - split_and!; [done..|by exists wl'].
Qed.

Lemma loop_resize name n s w wl :
  world_ok w -> stored w = s -> workload_of ais w name = Some wl -> resizes name n wl ->
  loop_wpm step (UpdateStatefulSetReplicas name n) s w (fun w' s' r => s' = s /\
    match r with
    | Ok _ => noworse w w' /\ stored w' = s /\ sized (workload_of ais w' name) n /\
        (sss_Replicas (wl_spec wl) ≠ n -> (pending w' < pending w)%nat)
    | Err _ => faulted w w'
    end).
Proof.
  intros Hok Hs Hwl Hre. unfold UpdateStatefulSetReplicas, GetStatefulSet. lw_step.
  eapply (lw_answers step); [apply answers_set|]. intros [ss|e]; rewrite Hwl.
  2: { split; [by intros [? _]|]. intros m Hm _. lw_step. split; [done|]. by apply boot_faulted_here. }
  intros (wl' & [= <-] & Hname & Hsp & _). lw_step; reflect_bools.
  { lw_step. rewrite Hsp in *. split_and!; [done|by apply boot_noworse_refl|done|by exists wl|done]. }
  rewrite Hsp in *. lw_step. lw_call_. intros x w' [Ht|(m & Hm & (e & -> & He) & Hw)].
  - cbn in Ht. rewrite Hname, Hwl in Ht. destruct Ht as [-> Hst]. repeat lw_step. split; [done|].
    destruct (Hre w ss w') as (? & Hs' & ? & ?); [done..|]. split_and!; [done|congruence|done..].
  - repeat lw_step. split; [done|]. destruct Hw as [->|[x' Ht]]; [by apply boot_faulted_here|]. cbn in Ht. rewrite Hname in Ht.
    change (workload_of ais (with_faults w m) name) with (workload_of ais w name) in Ht. rewrite Hwl in Ht. destruct Ht as [_ Hst].
    eapply faulted_noworse; [by apply boot_faulted_here|]. apply (Hre (with_faults w m) ss w'); try done. by apply faults_ok.
Qed.

Lemma loop_initProxies s w :
  world_ok w -> stored w = s -> created s = false ->
  loop_wpm step initProxies s w (goes w (fun w' s' => s' = s /\ sized (proxies w') np)).
Proof.
  intros Hok Hs Hcr. assert (same_object s) as Ha by (subst s; apply Hok). unfold initProxies. do 2 lw_step.
  destruct (same_proxy_set _ _ _ boot s Ha 1) as (ss & Hss & Hname & _). rewrite Hss. cbn [deref]. lw_step. lw_step. lw_step.
  eapply lw_mono; [apply (loop_create _ _ s w Hok)|].
  { intros w0 Hok0 Hs0. by apply (creates_proxies s 1); [..|left|]. }
  { done. }
  intros w1 s1 [[]|e] [-> H1]; cbn [negb].
  - destruct H1 as [-> [wl Hwl]]. rewrite Hname, workload_proxies in Hwl. lw_step.
    eapply lw_mono; [by apply loop_running_pod|]. intros w1 s1 [pod|e] [-> H1].
    2: { lw_step. apply boot_loop_event. lw_step. apply goes_requeue; [|done]. destruct H1 as [[-> Hup]|[-> Hf]].
         - apply moved_busy; [by apply boot_noworse_refl|apply (down_busy w wl); [done|by rewrite Hs|done..]|by apply asks_requeue].
         - apply boot_moved_faulted; [apply boot_faulted_here; [done|lia]|by apply asks_requeue]. }
    subst w1. rewrite (proj1 (same_sizes _ _ _ boot s Ha)). cbn [deref]. lw_step. lw_step. lw_step.
    rewrite (proj1 (same_sets _ _ Ha)).
    eapply lw_mono; [apply (loop_resize _ _ s w wl); [done..|by rewrite workload_proxies|apply proxies_resize]|].
    intros w1 s1 [ch|e] [-> H1].
    2: { lw_step. apply boot_loop_event. lw_step. by apply goes_failed. }
    rewrite workload_proxies in H1. destruct H1 as (Hn & Hs1 & (wl1 & Hwl1 & Hnp) & _). lw_step.
    assert (loop_wpm step (checkProxySvcEndpoints s) s w1 (goes w (fun w' s' => s' = s /\ sized (proxies w') np))) as Hend.
    { eapply lw_mono; [apply (loop_endpoints s w1 wl1); [apply Hn|done..]|]. intros w2 s2 o. by apply goes_noworse. }
    lw_step; [apply boot_loop_event; exact Hend|by lw_step].
  - lw_step. apply goes_requeue; [|done]. destruct H1. apply boot_moved_closer; [done..|by apply asks_requeue].
  - lw_step. apply boot_loop_event. lw_step. by apply goes_failed.
Qed.

Lemma loop_initTargets s w :
  world_ok w -> stored w = s -> created s = false -> sized (proxies w) np ->
  loop_wpm step initTargets s w (goes w (fun w' s' => s' = s /\ sized (proxies w') np /\ sized (targets w') nt)).
Proof.
  intros Hok Hs Hcr Hnp. assert (same_object s) as Ha by (subst s; apply Hok). unfold initTargets. do 2 lw_step.
  rewrite (proj2 (same_sizes _ _ _ boot s Ha)). cbn [deref]. do 2 lw_step.
  destruct (same_target_set _ _ _ boot s Ha nt) as (ss & Hss & Hname & _). rewrite Hss. cbn [deref]. do 3 lw_step.
  eapply lw_mono; [apply (loop_create _ _ s w Hok)|].
  { intros w0 Hok0 Hs0. by apply (creates_targets s). }
  { done. }
  intros w1 s1 [[]|e] [-> H1].
  - destruct H1 as [-> [wl Hwl]]. rewrite Hname, workload_targets in Hwl. lw_step.
    apply goes_on; [by apply boot_noworse_refl|done|]. split_and!; [done..|]. exists wl. split; [done|].
    destruct (ok_targets _ _ _ _ Hok wl Hwl) as [_ [?|[Hc _]]]; [done|congruence].
  - lw_step. apply boot_loop_event. lw_step. apply goes_requeue; [|done]. destruct H1. apply boot_moved_closer; [done..|by apply asks_requeue].
  - lw_step. apply boot_loop_event. lw_step. by apply goes_failed.
Qed.

Lemma loop_bootstrap_stage (m k : H outcome) msg s w P (Q : world -> AIStore -> outcome -> Prop) :
  loop_wpm step m s w (goes w P) ->
  (forall w1 s1, noworse w w1 -> stored w1 = s1 -> P w1 s1 -> loop_wpm step k s1 w1 Q) ->
  (forall w1 s1 o, moved w w1 o -> Q w1 s1 o) ->
  loop_wpm step (bootstrap_stage m msg k) s w Q.
Proof.
  intros Hm Hk Hq. unfold bootstrap_stage. lw_step. eapply lw_mono; [exact Hm|]. intros w1 s1 [r [e|]]; unfold goes; cbn.
  - intros Hmv. lw_step. apply boot_loop_event. lw_step. auto.
  - destruct (result_is_zero r); cbn; [intros (? & ? & ?); auto|intros Hmv; lw_step; auto].
Qed.

Lemma loop_bootstrap s w :
  world_ok w -> stored w = s -> created s = false ->
  loop_wpm step bootstrapNew s w (fun w' _ o => moved w w' o).
Proof.
  intros Hok Hs Hcr. unfold bootstrapNew. eapply loop_bootstrap_stage; [by apply loop_initProxies| |done].
  intros w1 s1 Hn1 Hs1 [-> Hnp]. eapply loop_bootstrap_stage; [apply loop_initTargets; [apply Hn1|done..]| |].
  2: { intros w2 s2 o. by apply moved_noworse. }
  intros w2 s2 Hn2 Hs2 (-> & Hnp2 & Hnt2). assert (noworse w w2) as Hn by (by eapply boot_noworse_trans).
  assert (world_ok w2) as Hok2 by apply Hn. rewrite <-Hs2 in *.
  assert (at_rest w2 = false) as Hnr by (apply not_true_is_false; unfold Bootstrap.at_rest; rewrite !andb_true_iff, Hcr; intuition done).
  lw_step. lw_step. lw_step. eapply lw_mono; [apply boot_loop_updateStatusWithState; [done|]|].
  { by apply fit_condition_state. }
  intros w3 s3 [[]|e]; cbn; [intros (Hk & Hs3 & ->)|intros Hf; lw_step].
  - lw_step. apply boot_loop_event. lw_step. apply (moved_noworse _ w2); [done|].
    assert (created (stored w3) = true) as Hcr3.
    { rewrite Hs3. unfold created. change (IsConditionTrue (SetCondition ConditionCreated (stored w2)) ConditionCreated = true).
      by rewrite IsConditionTrue_set, decide_True. }
    assert (phase (stored w3) < phase (stored w2))%nat as Hph.
    { unfold phase. rewrite Hcr3, Hcr, Hs3. unfold HasState. rewrite bool_decide_eq_false_2 by done. lia. }
    apply (moved_phase _ _ _ Hk Hph).
  - apply boot_moved_faulted; [by eapply boot_noworse_faulted|by left].
Qed.

(** ** A created cluster *)

(** What a truthful read tells of a StatefulSet. *)
Lemma shows_facts wl ss n maxUnavailable :
  shows wl ss ->
  isRolloutInProgress ss = false /\
  statefulsetScalingNeeded ss n maxUnavailable false = negb (sss_Replicas (wl_spec wl) =? n) /\
  (isStatusCurrent ss = false -> wl_rounds wl ≠ 0%nat).
Proof.
  intros (Hsp & Hrev & Hup & Hdown). split_and!.
  - unfold isRolloutInProgress. case_bool_decide; [done|]. by rewrite bool_decide_eq_true_2.
  - unfold statefulsetScalingNeeded. rewrite Hsp, (Z.eqb_sym n). destruct (Z.ltb_spec (sss_Replicas (wl_spec wl)) n).
    + assert (sss_Replicas (wl_spec wl) =? n = false) as -> by (apply Z.eqb_neq; lia). done.
    + by destruct (_ =? n).
  - unfold isStatusCurrent. intros Hc%Z.leb_gt H0. destruct (Hup H0) as (? & _). lia.
Qed.

(** If it has the right size, the pods are all that is missing. *)
Lemma shows_sized wl ss n minReady :
  shows wl ss -> sss_Replicas (wl_spec wl) = n ->
  (isScalingInProgress ss = true -> wl_rounds wl ≠ 0%nat) /\
  (isStatefulSetReady ss n minReady false = false -> wl_rounds wl ≠ 0%nat) /\
  (isStatusCurrent ss = true -> isStatefulSetReady ss n minReady false = true -> wl_rounds wl = 0%nat).
Proof.
  intros Hsh Hn. destruct (shows_facts wl ss n 0 Hsh) as (Hroll & _). destruct Hsh as (Hsp & _ & Hup & Hdown). rewrite Hn in *. split_and!.
  - unfold isScalingInProgress. rewrite Hroll, Hsp, Hn. intros Hs%negb_true_iff%Z.eqb_neq H0. by destruct (Hup H0) as (_ & ? & _).
  - intros Hr H0. destruct (Hup H0) as (_ & H1 & H2 & H3). revert Hr. unfold isStatefulSetReady.
    assert (isStatefulSetFullyReady n ss = true) as ->; [|done]. apply fully_ready_spec. by rewrite Hsp.
  - unfold isStatusCurrent, isStatefulSetReady. intros Hc%Z.leb_le.
    destruct (isStatefulSetFullyReady n ss) eqn:Hf; [|done]. intros _. apply fully_ready_spec in Hf as (_ & _ & _ & Hr).
    destruct (decide (wl_rounds wl = 0%nat)) as [|Hne]; [done|]. destruct (Hdown Hne); [lia|done].
Qed.

(** A stage that waits for a StatefulSet, or finds it settled. *)
Definition waits (w : world) (s : AIStore) (P : Prop) (w' : world) (s' : AIStore) (o : outcome) : Prop :=
  s' = s /\
  match o with
  | (_, Some _) => faulted w w'
  | (r, None) => stored w' = s /\
      if result_is_zero r then kept w w' /\ P
      else 0 < RequeueAfter r /\ noworse w w' /\ at_rest w' = false /\ ((0 < busy w')%nat \/ (pending w' < pending w)%nat)
  end.

Lemma waits_requeue w s P d : world_ok w -> stored w = s -> 0 < d -> (0 < busy w)%nat -> waits w s P w s (requeue d).
Proof.
  intros Hok Hs Hd Hb. split; [done|]. split; [done|]. unfold result_is_zero. cbn.
  assert (d =? 0 = false) as -> by (apply Z.eqb_neq; lia).
  split_and!; [done|by apply boot_noworse_refl|by apply busy_not_rest|by left].
Qed.
Lemma waits_resized w w' s P d :
  noworse w w' -> stored w' = s -> at_rest w' = false -> (pending w' < pending w)%nat -> 0 < d -> waits w s P w' s (requeue d).
Proof.
  intros Hn Hs Hr Hp Hd. split; [done|]. split; [done|]. unfold result_is_zero. cbn.
  assert (d =? 0 = false) as -> by (apply Z.eqb_neq; lia). by split_and!; [..|right].
Qed.
Lemma waits_finished w s (P : Prop) : world_ok w -> stored w = s -> P -> waits w s P w s finished.
Proof. intros Hok Hs HP. split; [done|]. split; [done|]. split; [by apply kept_refl|done]. Qed.
Lemma waits_failed w w' s P e : faulted w w' -> waits w s P w' s (failed e).
Proof. done. Qed.

Lemma loop_requeue_stage (m k : H outcome) s w P (Q : world -> AIStore -> outcome -> Prop) :
  world_ok w -> stored w = s -> loop_wpm step m s w (waits w s P) ->
  (forall w1, kept w w1 -> stored w1 = s -> P -> loop_wpm step k s w1 Q) ->
  (forall w1 s1 o, moved w w1 o -> stops o = true -> Q w1 s1 o) ->
  loop_wpm step (requeue_stage m k) s w Q.
Proof.
  intros Hok Hs Hm Hk HQ. unfold requeue_stage. lw_step. eapply lw_mono; [exact Hm|].
  intros w1 s1 [r [e|]] [-> H1].
  - lw_step. apply HQ; [|done]. apply boot_moved_faulted; [done|by left].
  - destruct H1 as (Hs1 & Hr). destruct (result_is_zero r) eqn:Hz; [by destruct Hr; apply Hk|].
    destruct Hr as (Hr & Hn & Hrest & Hb). unfold updateStatusAndRequeue. do 2 lw_step.
    assert (stops (r, None) = true) as Hstop by (cbn; by rewrite Hz).
    destruct (IsConditionTrue s ConditionReady); cbn [negb].
    2: { lw_step. apply HQ; [|done]. apply moved_waiting; [done..|by right; left]. }
    assert (world_ok w1) as Hok1 by apply Hn. do 3 lw_step. rewrite <-Hs1.
    eapply lw_mono; [apply boot_loop_updateStatusWithState; [done|by apply fit_upgrading]|]. intros w2 s2 [[]|e]; cbn.
    + intros (Hk2 & _ & _). lw_step. apply HQ; [|done]. apply moved_waiting; [eapply boot_noworse_trans; [done|apply Hk2]| |by right; left].
      destruct Hb as [Hb|Hb]; [left; by rewrite (kept_busy _ _ Hk2)|right]. pose proof (nw_pending _ _ _ _ _ _ _ (kp_noworse _ _ _ _ _ _ _ Hk2)). lia.
    + intros Hf. lw_step. apply HQ; [|done]. apply boot_moved_faulted; [by eapply boot_noworse_faulted|by left].
Qed.

Lemma proxies_busy w wl : proxies w = Some wl -> wl_rounds wl ≠ 0%nat -> (0 < busy w)%nat.
Proof. unfold busy, rounds_of. intros ->. lia. Qed.
Lemma targets_busy w wl : targets w = Some wl -> wl_rounds wl ≠ 0%nat -> (0 < busy w)%nat.
Proof. unfold busy, rounds_of. intros ->. lia. Qed.

Lemma not_calm_state w : world_ok w -> calm w = false -> State (Status (stored w)) ≠ ClusterReady.
Proof.
  intros Hok Hc Hst. rewrite (ok_ready _ _ _ _ Hok) in Hc; [done|]. unfold declared_ready, HasState. by rewrite Hst.
Qed.

(** The proxies are brought back after a shutdown. *)
Lemma loop_proxy_scale s w wl ss P :
  world_ok w -> stored w = s -> proxies w = Some wl -> sss_Replicas (wl_spec wl) = 0 -> sss_Replicas (ss_Spec ss) = 0 ->
  loop_wpm step (let? _ := handleProxyScale ss else e => mret (failed e) in mret (requeue proxyStartupInterval)) s w (waits w s P).
Proof.
  intros Hok Hs Hwl Hr Hss. assert (same_object s) as Ha by (subst s; apply Hok). destruct sizes_positive as [Hnp _].
  assert (calm w = false) as Hcalm.
  { unfold Bootstrap.calm, settled. rewrite Hwl, Hr. assert (0 =? np = false) as -> by (apply Z.eqb_neq; lia). by rewrite andb_false_r. }
  unfold handleProxyScale. do 3 lw_step. rewrite (proj1 (same_sizes _ _ _ boot s Ha)), Hss. cbn [deref]. do 2 lw_step.
  assert (0 =? np = false) as -> by (apply Z.eqb_neq; lia). assert (np <? 0 = false) as -> by (apply Z.ltb_ge; lia).
  do 3 lw_step. rewrite (proj1 (same_sets _ _ Ha)).
  eapply lw_mono; [apply (loop_resize _ _ s w wl); [done..|by rewrite workload_proxies|apply proxies_resize]|].
  intros w1 s1 [b|e] [-> H1]; [|repeat lw_step; by apply waits_failed].
  destruct H1 as (Hn & Hs1 & _ & Hlt). do 2 lw_step. apply waits_resized; [done..| |apply Hlt; lia|done].
  apply not_rest_state. rewrite Hs1, <-Hs. by apply not_calm_state.
Qed.

Lemma loop_proxy_state s w :
  world_ok w -> stored w = s -> created s = true ->
  loop_wpm step handleProxyState s w (waits w s (settled (proxies w) np = true)).
Proof.
  intros Hok Hs Hcr. assert (same_object s) as Ha by (subst s; apply Hok).
  destruct (ok_created _ _ _ _ Hok) as [[wl Hwl] _]; [by rewrite Hs|].
  destruct (ok_proxies _ _ _ _ Hok wl Hwl) as [Hb Hsz]. unfold proxy_size in Hsz. rewrite Hs in Hb, Hsz. rewrite Hcr in Hsz.
  assert (restart_of s = "" \/ restart_of s = initial_restart ais) as Hr by (rewrite <-Hs; apply Hok).
  unfold handleProxyState, GetStatefulSet. do 2 lw_step. rewrite (proj1 (same_sets _ _ Ha)). lw_step.
  eapply (lw_answers step); [apply answers_set|]. intros [ss|e]; rewrite workload_proxies, Hwl.
  2: { split; [by intros [? _]|]. intros n Hn He. assert (is_not_found e = false) as ->.
       { destruct He as [He _]. unfold missing in He. by apply orb_false_iff in He as [? _]. }
       lw_step. by apply waits_failed, boot_faulted_here. }
  intros (wl' & [= <-] & Hname & Hsh). pose proof (proj1 Hsh) as Hsp.
  destruct (shows_facts wl ss np (GetProxyMaxUnavailable s) Hsh) as (Hroll & Hneed & Hcur).
  pose proof (proxies_busy w wl Hwl) as Hbusy.
  destruct (isStatusCurrent ss) eqn:Hc; cbn [negb]; [|lw_step; apply waits_requeue; [done..|auto]].
  destruct (same_fixed _ _ _ boot s Ha) as [Hauto _].
  rewrite (proj1 (same_sizes _ _ _ boot s Ha)), (proj1 (same_min_ready _ _ _ boot s Ha)). cbn [deref].
  destruct (same_proxy_set _ _ _ boot s Ha np) as (ss' & Hss' & _ & _ & Ht & _).
  do 5 lw_step. unfold desired_proxy_template at 1. rewrite (proj1 (same_sizes _ _ _ boot s Ha)). cbn [deref].
  do 2 lw_step. rewrite Hss'. cbn [deref]. do 3 lw_step. rewrite Hsp, (proxies_no_update _ _ _ boot _ _ _ Hr Hb Ht). cbn [andb].
  unfold unless_updated. do 2 lw_step. unfold syncProxyPVCRetentionPolicy. do 3 lw_step.
  rewrite (so_spec _ _ Ha), Hsp, (bu_policy _ _ _ _ Hb). cbn [negb]. lw_step.
  unfold isProxyScalingNeeded, isProxyStatefulSetReady. rewrite Hauto, Hneed, Hroll.
  destruct (Z.eqb_spec (sss_Replicas (wl_spec wl)) np) as [Hnp|Hnp]; cbn [negb andb].
  2: { destruct Hsz as [?|Hz]; [done|]. unfold confirmScalingNeeded. cbn [negb orb]. lw_step. lw_step. cbn [negb].
       apply (loop_proxy_scale s w wl); [done..|by rewrite Hsp]. }
  destruct (shows_sized wl ss np np Hsh Hnp) as (Hscal & Hnr & Hrd).
  lw_step; [lw_step; apply waits_requeue; [done..|auto]|]. lw_step; reflect_bools; lw_step.
  - apply waits_requeue; [done..|auto].
  - apply waits_finished; [done..|]. unfold settled. rewrite Hnp, Z.eqb_refl, andb_true_r. apply Nat.eqb_eq. auto.
Qed.

Lemma waits_kept w w1 s P w2 s2 o : kept w w1 -> waits w1 s P w2 s2 o -> waits w s P w2 s2 o.
Proof.
  intros Hk [-> H]. split; [done|]. destruct o as [r [e|]].
  - eapply boot_noworse_faulted; [apply Hk|done].
  - destruct H as [? H]. split; [done|]. destruct (result_is_zero r); [by destruct H; split; [eapply kept_trans|]|].
    destruct H as (? & ? & ? & Hb). split_and!; [done|by eapply boot_noworse_trans; [apply Hk|]|done|].
    pose proof (nw_pending _ _ _ _ _ _ _ (kp_noworse _ _ _ _ _ _ _ Hk)). destruct Hb; [by left|right; lia].
Qed.

Lemma quiet_start_scaling ss : sss_Replicas (ss_Spec ss) = 0 -> quiet false (startTargetScaling ss).
Proof.
  intros Hss. apply quiet_get. intros a Ha. destruct (same_sizes _ _ _ boot a Ha) as [_ Ht], sizes_positive as [_ Hnt].
  apply quiet_deref; [by rewrite Ht|]. rewrite Ht, Hss. intros n [= <-]. assert (0 <? nt = true) as -> by (apply Z.ltb_lt; lia).
  quiet_auto.
Qed.

(** The targets are brought back after a shutdown. *)
Lemma loop_target_scale s w wl ss P :
  world_ok w -> stored w = s -> targets w = Some wl -> sss_Replicas (wl_spec wl) = 0 -> sss_Replicas (ss_Spec ss) = 0 ->
  loop_wpm step (handleTargetScaling ss) s w (waits w s P).
Proof.
  intros Hok Hs Hwl Hr Hss. assert (same_object s) as Ha by (subst s; apply Hok). destruct sizes_positive as [_ Hnt].
  assert (0 <? nt = true) as Hlt by (apply Z.ltb_lt; lia). assert (nt =? 0 = false) as Hne by (apply Z.eqb_neq; lia).
  assert (calm w = false) as Hcalm.
  { unfold Bootstrap.calm, settled. rewrite Hwl, Hr, (Z.eqb_sym 0), Hne. by rewrite !andb_false_r. }
  pose proof (proj2 (same_sizes _ _ _ boot s Ha)) as Hsize. pose proof (proj2 (same_fixed _ _ _ boot s Ha)) as Hauto.
  unfold handleTargetScaling, confirmScalingNeeded. do 2 lw_step. rewrite Hsize, Hauto. cbn [deref negb orb].
  do 4 lw_step. cbn [negb]. apply loop_quiet; [by apply quiet_start_scaling|done..| |].
  { intros w1 x Hf. lw_step. by apply waits_failed. }
  intros w1 _ Hk Hok1 Hs1. unfold resolveStatefulSetScaling, GetStatefulSet. do 3 lw_step.
  rewrite Hsize, (proj2 (same_sets _ _ Ha)). cbn [deref]. do 3 lw_step.
  assert (workload_of ais w1 (target_set ais) = Some wl) as Hwl1 by (by rewrite workload_targets, (kp_targets _ _ _ _ _ _ _ Hk)).
  eapply (lw_answers step); [apply answers_set|]. intros [ss1|e]; rewrite Hwl1.
  2: { split; [by intros [? _]|]. intros m Hm _. repeat lw_step. apply waits_failed.
       eapply boot_noworse_faulted; [apply Hk|by apply boot_faulted_here]. }
  intros (wl' & [= <-] & _ & Hsp & _). rewrite Hsp, Hr, Hlt, andb_false_r. do 3 lw_step. rewrite (proj2 (same_sets _ _ Ha)).
  eapply lw_mono; [by apply (loop_resize _ _ s w1 wl); [..|apply targets_resize]|]. intros w2 s2 [b|e] [-> H2].
  2: { repeat lw_step. apply waits_failed. eapply boot_noworse_faulted; [apply Hk|done]. }
  destruct H2 as (Hn & Hs2 & _ & Hpd). do 2 lw_step. pose proof (nw_pending _ _ _ _ _ _ _ (kp_noworse _ _ _ _ _ _ _ Hk)).
  apply waits_resized; [eapply boot_noworse_trans; [apply Hk|done]|done| | |done].
  - apply not_rest_state. rewrite Hs2, <-Hs. by apply not_calm_state.
  - specialize (Hpd ltac:(lia)). lia.
Qed.

Lemma loop_target_state s w :
  world_ok w -> stored w = s -> created s = true ->
  loop_wpm step handleTargetState s w (waits w s (settled (targets w) nt = true)).
Proof.
  intros Hok Hs Hcr. assert (same_object s) as Ha by (subst s; apply Hok).
  destruct (ok_created _ _ _ _ Hok) as [_ [wl Hwl]]; [by rewrite Hs|].
  destruct (ok_targets _ _ _ _ Hok wl Hwl) as [Hb Hsz]. rewrite Hs in Hb, Hsz.
  assert (restart_of s = "" \/ restart_of s = initial_restart ais) as Hr by (rewrite <-Hs; apply Hok).
  unfold handleTargetState, GetStatefulSet. do 2 lw_step. rewrite (proj2 (same_sets _ _ Ha)). lw_step.
  eapply (lw_answers step); [apply answers_set|]. intros [ss|e]; rewrite workload_targets, Hwl.
  2: { split; [by intros [? _]|]. intros n Hn He. assert (is_not_found e = false) as ->.
       { destruct He as [He _]. unfold missing in He. by apply orb_false_iff in He as [? _]. }
       lw_step. by apply waits_failed, boot_faulted_here. }
  intros (wl' & [= <-] & Hname & Hsh). pose proof (proj1 Hsh) as Hsp.
  apply loop_quiet; [apply quiet_pdb|done..| |].
  { intros w1 x Hf. lw_step. apply boot_loop_event. lw_step. by apply waits_failed. }
  intros w1 _ Hk1 Hok1 Hs1. eapply lw_mono; [|intros w2 s2 o; by apply (waits_kept w w1)].
  assert (targets w1 = Some wl) as Hwl1 by (by rewrite (kp_targets _ _ _ _ _ _ _ Hk1)). clear Hwl Hk1 Hok Hs w.
  destruct (shows_facts wl ss nt (GetTargetMaxUnavailable s) Hsh) as (Hroll & Hneed & Hcur).
  pose proof (targets_busy w1 wl Hwl1) as Hbusy.
  destruct (isStatusCurrent ss) eqn:Hc; cbn [negb]; [|lw_step; apply waits_requeue; [done..|auto]].
  destruct (same_fixed _ _ _ boot s Ha) as [_ Hauto].
  rewrite (proj2 (same_sizes _ _ _ boot s Ha)), (proj2 (same_min_ready _ _ _ boot s Ha)). cbn [deref].
  destruct (same_target_set _ _ _ boot s Ha nt) as (ss' & Hss' & _ & _ & Ht & _).
  do 5 lw_step. unfold desired_target_template at 1. rewrite (proj2 (same_sizes _ _ _ boot s Ha)). cbn [deref].
  do 2 lw_step. rewrite Hss'. cbn [deref]. do 3 lw_step.
  unfold unless_updated. lw_step. unfold syncTargetPVCRetentionPolicy. do 2 lw_step.
  rewrite (so_spec _ _ Ha), Hsp, (bu_policy _ _ _ _ Hb). cbn [negb]. lw_step.
  rewrite (targets_no_update _ _ _ boot _ _ _ Hr Hb Ht). cbn [andb]. do 2 lw_step.
  unfold isTargetScalingNeeded, isTargetStatefulSetReady. rewrite Hauto, Hneed, Hroll.
  destruct (Z.eqb_spec (sss_Replicas (wl_spec wl)) nt) as [Hnt|Hnt]; cbn [negb andb].
  2: { destruct Hsz as [?|[_ Hz]]; [done|]. apply (loop_target_scale s w1 wl); [done..|by rewrite Hsp]. }
  destruct (shows_sized wl ss nt nt Hsh Hnt) as (Hscal & Hnr & Hrd).
  lw_step; [lw_step; apply waits_requeue; [done..|auto]|]. lw_step; reflect_bools; lw_step.
  - apply waits_requeue; [done..|auto].
  - apply waits_finished; [done..|]. unfold settled. rewrite Hnt, Z.eqb_refl, andb_true_r. apply Nat.eqb_eq. auto.
Qed.

(** *** Declaring it ready *)

Lemma rest_false w c : IsConditionTrue (stored w) c = false -> c ≠ ConditionInitialized -> at_rest w = false.
Proof.
  intros Hc Hne. apply not_true_is_false. unfold Bootstrap.at_rest, created. rewrite !andb_true_iff. destruct c; intuition congruence.
Qed.

Lemma loop_check_ready s w :
  world_ok w -> stored w = s -> calm w = true ->
  loop_wpm step checkAISClusterReady s w (ends w (fun w' s' b => b = true /\
    ClusterID (Status s') = uuid /\ s' = set_cluster_id s uuid)).
Proof.
  intros Hok Hs Hcalm. assert (same_object s) as Ha by (subst s; apply Hok).
  assert (forall n, faults w = S n -> faulted w (with_faults w n)) as Hfault by (intros; by apply boot_faulted_here).
  unfold checkAISClusterReady. do 3 lw_step. eapply (lw_answers step); [apply answers_client|]. intros [c|e].
  2: { split; [done|]. intros n Hn _. lw_step. by apply Hfault. }
  intros _. lw_step. eapply (lw_answers step); [apply answers_health|]. intros [u|e].
  2: { split; [by intros ?%(eq_trans (eq_sym Hcalm))|]. intros n Hn _. lw_step. by apply Hfault. }
  intros _. lw_step. eapply (lw_answers step); [apply answers_smap|]. intros [m|e].
  2: { split; [by intros ?%(eq_trans (eq_sym Hcalm))|]. intros n Hn _. lw_step. by apply Hfault. }
  intros Hm. destruct (Hm Hcalm) as (Hid & Hp & Ht). cbv zeta. destruct (bt_width _ _ _ boot) as [Hwp Hwt].
  rewrite Hp, Ht, !i32_id by done. destruct (same_min_ready _ _ _ boot s Ha) as [-> ->]. cbn [deref].
  do 2 lw_step. rewrite Z.ltb_irrefl. do 2 lw_step. rewrite Z.ltb_irrefl. case_bool_decide as Hne.
  - do 3 lw_step. eapply lw_mono; [apply boot_loop_patchStatus; [done|]|].
    + subst s. apply fit_same; try done. apply not_true_is_false. unfold Bootstrap.at_rest.
      rewrite !andb_true_iff, !bool_decide_eq_true. rewrite Hid in Hne. tauto.
    + intros w1 s1 [[]|e]; cbn; [|intros; by lw_step]. intros (? & ? & ->). lw_step. rewrite Hid in *. by split_and!.
  - lw_step. rewrite Hid in Hne. split_and!; [by apply kept_refl|done|done|done|].
    destruct s as [? ? ? ? ? ? ? []]. cbn in *. by subst.
Qed.

(** What the object says once the cluster answered. *)
Definition answered (a : AIStore) : Prop :=
  created a = true /\ AIStoreTypes.IntraClusterURL (Status a) ≠ "" /\ ClusterID (Status a) = uuid.

Lemma loop_enable s w :
  world_ok w -> stored w = s -> answered s ->
  loop_wpm step enableRebalanceCondition s w (ends w (fun _ s' _ =>
    answered s' /\ IsConditionTrue s' ConditionReadyRebalance = true)).
Proof.
  intros Hok Hs Han. unfold enableRebalanceCondition. do 2 lw_step.
  destruct (IsConditionTrue s ConditionReadyRebalance) eqn:Hc; [lw_step; split_and!; [by apply kept_refl|done..]|].
  do 2 lw_step. eapply lw_mono; [apply boot_loop_patchStatus; [done|]|].
  - subst s. apply fit_condition; [|done]. by eapply rest_false.
  - intros w1 s1 [[]|e]; cbn; [|done]. intros (? & ? & ->). split_and!; [done..| |].
    + destruct Han as (H1 & H2 & H3). split_and!; [|done..]. unfold created. rewrite IsConditionTrue_set. by case_decide.
    + by rewrite IsConditionTrue_set, decide_True.
Qed.

Lemma initial_annotation c r annot :
  GenerateGlobalConfig (SetCondition ConditionReadyRebalance ais) = Ok c -> HashRestartConfigs c = Ok r ->
  annot = "" \/ annot = initial_restart ais ->
  restart_annotation annot r = initial_restart ais /\ has_suffix (initial_restart ais) RestartConfigHashInitial = true.
Proof.
  intros Hc Hr. unfold initial_restart. rewrite Hc. cbn. rewrite Hr. intros [->| ->]; (split; [|apply has_suffix_app]).
  - done.
  - unfold restart_annotation. rewrite has_suffix_app, trim_suffix_app, (bool_decide_eq_true_2 (r = r)) by done.
    by case_bool_decide.
Qed.

Lemma loop_config s w :
  world_ok w -> stored w = s -> answered s -> IsConditionTrue s ConditionReadyRebalance = true ->
  loop_wpm step (handleConfigState false) s w (ends w (fun _ s' _ =>
    answered s' /\ IsConditionTrue s' ConditionReadyRebalance = true /\ hash_recorded s' = true)).
Proof.
  intros Hok Hs Han Hrr. assert (same_object s) as Ha by (subst s; apply Hok).
  assert (restart_of s = "" \/ restart_of s = initial_restart ais) as Hr by (rewrite <-Hs; apply Hok).
  assert (forall n, faults w = S n -> faulted w (with_faults w n)) as Hfault by (intros; by apply boot_faulted_here).
  destruct (config_encodes enc s) as (c & h & r & Hc & Hh & Hne & Hrh).
  assert (GenerateGlobalConfig (SetCondition ConditionReadyRebalance ais) = Ok c) as Hc'.
  { rewrite <-Hc. symmetry. apply (spec_config_same ais s Ha); [|done..]. by rewrite IsConditionTrue_set, decide_True. }
  destruct (initial_annotation c r (restart_of s) Hc' Hrh Hr) as [Hann Hsuf].
  unfold handleConfigState. do 2 lw_step. rewrite Hc. lw_step.
  eapply (lw_mono _ _ _ _ (fun w' s' x => s' = s /\ match x with Ok h' => w' = w /\ h' = h | Err _ => faulted w w' end)).
  { unfold updateClusterConfig. do 2 lw_step. rewrite Hh. lw_step; [by lw_step|]. lw_step.
    eapply (lw_answers step); [apply answers_client|]. intros [cl|e]; [intros _|split; [done|intros n Hn _; lw_step; auto]].
    lw_step. eapply (lw_answers step); [apply answers_set_config|]. intros [u|e]; [intros _; by lw_step|].
    split; [done|intros n Hn _; lw_step; auto]. }
  intros w1 s1 [h'|e] [-> H1]; [destruct H1 as [-> ->]|by lw_step].
  unfold calcRestartConfigAnnotation. rewrite Hrh. cbn [mbind res_bind]. change (index (ais_Annotations s) RestartConfigHashAnnotation) with (restart_of s).
  rewrite Hann, Hsuf, andb_false_r. cbn [negb andb].
  assert (hash_recorded s = bool_decide (index (ais_Annotations s) ConfigHashAnnotation = h)) as Hrec
    by (unfold hash_recorded; rewrite Hc; cbn; by rewrite Hh).
  destruct (decide (index (ais_Annotations s) ConfigHashAnnotation = h)) as [Hch|Hch].
  { rewrite (bool_decide_eq_false_2 (h ≠ _)) by auto. cbn [negb]. lw_step. do 4 (split; [by first [done|apply kept_refl]|]).
    cbn. rewrite Hrec. by apply bool_decide_eq_true. }
  rewrite (bool_decide_eq_true_2 (h ≠ _)) by auto. cbn [negb].
  unfold patchAISAnnotations. do 2 lw_step. rewrite bool_decide_eq_true_2 by done. do 3 lw_step.
  set (s1 := set_annotations s _).
  assert (restart_of s1 = initial_restart ais) as Hr1 by (unfold restart_of, index, s1; cbn; by rewrite lookup_insert_eq).
  eapply lw_mono; [apply loop_patch; [done|]|].
  { split.
    - apply not_true_is_false. unfold Bootstrap.at_rest. rewrite !andb_true_iff, Hs, Hrec, bool_decide_eq_true. intuition congruence.
    - rewrite Hr1, Hs. destruct Hr as [->| ->]; auto. }
  intros w2 s2 [a|e] [-> H2]; [|by lw_step]. destruct H2 as (-> & Hk & Hs2). do 3 lw_step. rewrite Hs. do 4 (split; [by first [done|rewrite Hs2, Hs]|]).
  - unfold hash_recorded.
    assert (GenerateGlobalConfig (patched s s1) = Ok c) as ->.
    { rewrite <-Hc. symmetry. apply (spec_config_same ais s Ha); [done|apply Ha..]. }
    cbn. rewrite Hh. apply bool_decide_eq_true. unfold index. cbn. rewrite lookup_insert_ne by done. by rewrite lookup_insert_eq.
Qed.

Lemma rest_intro w :
  calm w = true -> State (Status (stored w)) = ClusterReady -> IsConditionTrue (stored w) ConditionReady = true ->
  answered (stored w) -> IsConditionTrue (stored w) ConditionReadyRebalance = true -> hash_recorded (stored w) = true ->
  at_rest w = true.
Proof.
  intros Hc Hst Hr (Hcr & Hu & Hid) Hrr Hh. unfold Bootstrap.at_rest, HasState.
  rewrite Hc, Hst, Hcr, Hr, Hrr, Hh, Hid. by rewrite !bool_decide_eq_true_2.
Qed.

Lemma loop_success s w :
  world_ok w -> stored w = s -> calm w = true -> answered s ->
  IsConditionTrue s ConditionReadyRebalance = true -> hash_recorded s = true ->
  loop_wpm step handleSuccessfulReconcile s w (ends w (fun w' _ _ => at_rest w' = true)).
Proof.
  intros Hok Hs Hcalm Han Hrr Hh. assert (same_object s) as Ha by (subst s; apply Hok).
  unfold handleSuccessfulReconcile. do 2 lw_step.
  destruct (IsConditionTrue s ConditionReady) eqn:Hrd; cbn [negb orb].
  - do 2 lw_step. destruct (HasState s ClusterReady) eqn:Hst; cbn [negb].
    + lw_step. split_and!; [by apply kept_refl|done|]. apply bool_decide_eq_true in Hst. by apply rest_intro; rewrite ?Hs.
    + apply bool_decide_eq_false in Hst. eapply lw_mono; [apply boot_loop_updateStatusWithState; [done|]|].
      { subst s. apply fit_state; [by apply not_rest_state|done|done]. }
      intros w1 s1 [[]|e]; cbn; [|done]. intros (Hk & Hs1 & ->). split_and!; [done..|].
      apply rest_intro; rewrite ?Hs1; try done. rewrite <-Hcalm. by apply calm_sets; apply Hk.
  - do 2 lw_step. apply boot_loop_event. lw_step.
    assert (forall c, IsConditionTrue (SetState ClusterReady (SetCondition ConditionReady s)) c =
      if decide (ConditionReady = c) then true else IsConditionTrue s c) as Hcond by (intros; apply IsConditionTrue_set).
    eapply lw_mono; [apply boot_loop_updateStatusWithState; [done|]|].
    { subst s. apply fit_condition_state; try done. by eapply rest_false. }
    intros w1 s1 [[]|e]; cbn; [|done]. intros (Hk & Hs1 & ->). split_and!; [done..|].
    apply rest_intro; rewrite ?Hs1; try done.
    + rewrite <-Hcalm. by apply calm_sets; apply Hk.
    + destruct Han as (Hcr & ? & ?). split_and!; [|done..]. unfold created. by rewrite Hcond.
    + by rewrite Hcond.
    + rewrite <-Hh. unfold hash_recorded. rewrite (spec_config_same ais s Ha (SetState ClusterReady (SetCondition ConditionReady s))); [done| |apply Ha..].
      by rewrite Hcond.
Qed.

(** ** Passes *)

(** [m] ends a pass from [w]: the cluster is at rest, or it came closer to that. *)
Definition passes (w : world) (s : AIStore) (m : H outcome) : Prop :=
  loop_wpm step m s w (fun w' _ o => moved w w' o).

Lemma goes_stops w w' s' P o : moved w w' o -> stops o = true -> goes w P w' s' o.
Proof. unfold goes. by intros ? ->. Qed.

Lemma settled_calm w : settled (proxies w) np = true -> settled (targets w) nt = true -> waiting_lb ais w = 0%nat -> calm w = true.
Proof. unfold Bootstrap.calm. by intros -> -> ->. Qed.

Lemma pass_events s w :
  world_ok w -> stored w = s -> created s = true -> waiting_lb ais w = 0%nat ->
  AIStoreTypes.IntraClusterURL (Status s) ≠ "" ->
  loop_wpm step handleCREvents s w (goes w (fun w' _ => at_rest w' = true)).
Proof.
  intros Hok Hs Hcr Hlb Hurl. unfold handleCREvents.
  eapply loop_requeue_stage; [done..|by apply loop_proxy_state| |intros; by apply goes_stops].
  intros w1 Hk1 Hs1 Hp. assert (world_ok w1) as Hok1 by apply Hk1.
  eapply (lw_mono _ _ _ _ (goes w1 (fun w' _ => at_rest w' = true))); [|intros w2 s2 o; apply goes_noworse, Hk1].
  eapply loop_requeue_stage; [done..|by apply loop_target_state| |intros; by apply goes_stops].
  intros w2 Hk2 Hs2 Ht. assert (world_ok w2) as Hok2 by apply Hk2.
  eapply (lw_mono _ _ _ _ (goes w2 (fun w' _ => at_rest w' = true))); [|intros w3 s3 o; apply goes_noworse, Hk2].
  assert (calm w2 = true) as Hcalm.
  { destruct Hk1 as [_ E1 E2 E3 E4], Hk2 as [_ F1 F2 F3 F4]. apply settled_calm.
    - by rewrite F1, E1.
    - by rewrite F2.
    - rewrite <-Hlb. unfold waiting_lb. by rewrite F3, F4, E3, E4. }
  lw_step. eapply lw_mono; [by apply loop_check_ready|]. intros w3 s3 [b|e]; cbn; [|intros; lw_step; by apply goes_failed].
  intros (Hk3 & Hs3 & -> & Hid & Hset). cbn [negb].
  assert (answered s3) as Han by (subst s3; split_and!; [rewrite Hset; done|rewrite Hset; done|done]).
  assert (world_ok w3) as Hok3 by apply Hk3.
  eapply (lw_mono _ _ _ _ (goes w3 (fun w' _ => at_rest w' = true))); [|intros w4 s4 o; apply goes_noworse, Hk3].
  assert (calm w3 = true) as Hcalm3 by (rewrite <-Hcalm; apply calm_sets; apply Hk3).
  lw_step. eapply lw_mono; [by apply loop_enable|]. intros w4 s4 [[]|e]; cbn; [|intros; lw_step; by apply goes_failed].
  intros (Hk4 & Hs4 & Han4 & Hrr). assert (world_ok w4) as Hok4 by apply Hk4.
  eapply (lw_mono _ _ _ _ (goes w4 (fun w' _ => at_rest w' = true))); [|intros w5 s5 o; apply goes_noworse, Hk4].
  assert (calm w4 = true) as Hcalm4 by (rewrite <-Hcalm3; apply calm_sets; apply Hk4).
  lw_step. eapply lw_mono; [by apply loop_config|]. intros w5 s5 [[]|e]; cbn; [|intros; lw_step; by apply goes_failed].
  intros (Hk5 & Hs5 & Han5 & Hrr5 & Hh). assert (world_ok w5) as Hok5 by apply Hk5.
  eapply (lw_mono _ _ _ _ (goes w5 (fun w' _ => at_rest w' = true))); [|intros w6 s6 o; apply goes_noworse, Hk5].
  assert (calm w5 = true) as Hcalm5 by (rewrite <-Hcalm4; apply calm_sets; apply Hk5).
  lw_step. eapply lw_mono; [by apply loop_success|]. intros w6 s6 [[]|e] H6; cbn in H6; lw_step.
  - destruct H6 as (Hk6 & Hs6 & Hrest). apply goes_on; [apply Hk6|done..].
  - by apply goes_failed.
Qed.

Lemma pass_running s w :
  world_ok w -> stored w = s -> loop_wpm step reconcile_running s w (fun w' _ o => moved w w' o).
Proof.
  intros Hok Hs. unfold reconcile_running, unless_done at 1. lw_step. eapply lw_mono; [by apply loop_prereqs|].
  intros w1 s1 [r e] H1. unfold goes in H1. destruct (stops (r, e)) eqn:Hst.
  { destruct e as [e|]; [by lw_step|]. cbn in Hst. apply negb_true_iff in Hst. rewrite Hst. by lw_step. }
  destruct e as [e|]; [done|]. cbn in Hst. apply negb_false_iff in Hst. rewrite Hst. destruct H1 as (Hn1 & Hs1 & Hlb).
  assert (world_ok w1) as Hok1 by apply Hn1. do 3 lw_step. eapply lw_mono; [by apply loop_url|].
  intros w2 s2 [[]|e]; cbn; [|intros Hf; lw_step; apply boot_moved_faulted; [by eapply boot_noworse_faulted|by left]].
  intros (Hk2 & Hs2 & Hurl). assert (world_ok w2) as Hok2 by apply Hk2. assert (noworse w w2) as Hn2 by (eapply boot_noworse_trans; [done|apply Hk2]).
  do 2 lw_step. destruct (IsConditionTrue s2 ConditionCreated) eqn:Hcr; cbn [negb].
  2: { eapply lw_mono; [by apply loop_bootstrap|]. intros w3 s3 o. by apply moved_noworse. }
  unfold unless_done. lw_step. eapply lw_mono; [apply pass_events; try done|].
  { unfold waiting_lb in *. destruct Hk2 as [_ _ _ -> ->]. done. }
  intros w3 s3 [r3 e3] H3. apply (goes_noworse w) in H3; [|done]. unfold goes in H3. destruct (stops (r3, e3)) eqn:Hst3.
  { destruct e3 as [e|]; [by lw_step|]. cbn in Hst3. apply negb_true_iff in Hst3. rewrite Hst3. by lw_step. }
  destruct e3 as [e|]; [done|]. cbn in Hst3. apply negb_false_iff in Hst3. rewrite Hst3. destruct H3 as (Hn3 & Hs3 & Hrest).
  assert (world_ok w3) as Hok3 by apply Hn3.
  apply loop_quiet; [apply quiet_statsd|done..| |].
  - intros w4 e Hf. lw_step. apply boot_loop_event. lw_step. apply moved_rest_faulted.
    + eapply boot_noworse_trans; [done|apply Hf].
    + by apply (nw_rest _ _ _ _ _ _ _ (proj1 Hf)).
    + destruct Hf. pose proof (nw_faults _ _ _ _ _ _ _ Hn3). lia.
  - intros w4 _ Hk4 Hok4 Hs4. lw_step. apply moved_rest; [eapply boot_noworse_trans; [done|apply Hk4]|].
    by apply (nw_rest _ _ _ _ _ _ _ (kp_noworse _ _ _ _ _ _ _ Hk4)).
Qed.

Lemma boot_pass_object s w :
  world_ok w -> stored w = s -> loop_wpm step reconcile_object s w (fun w' _ o => moved w w' o).
Proof.
  intros Hok Hs. unfold reconcile_object. do 3 lw_step.
  eapply (lw_mono _ _ _ _ (ends w (fun _ _ _ => True))).
  { unfold HasState. case_bool_decide as Hst; [by apply boot_loop_initializeCR|]. lw_step. split_and!; [by apply kept_refl|done..]. }
  intros w1 s1 [[]|e]; cbn; [|intros Hf; lw_step; apply boot_moved_faulted; [done|by left]].
  intros (Hk1 & Hs1 & _). assert (world_ok w1) as Hok1 by apply Hk1. assert (same_object s1) as Ha by (subst s1; apply Hok1).
  do 3 lw_step. destruct (same_fixed _ _ _ boot s1 Ha) as [-> ->]. cbn [orb]. lw_step.
  lw_step. unfold start_decommission, ShouldDecommission, IsMarkedForDeletion. do 2 lw_step.
  rewrite (so_deleting _ _ Ha), andb_false_r. cbn [negb]. lw_step.
  lw_step. unfold start_shutdown, ShouldStartShutdown. do 2 lw_step.
  assert (ShouldBeShutdown s1 = false) as Hrun by (unfold ShouldBeShutdown; rewrite (so_spec _ _ Ha); apply (bt_running _ _ _ boot)).
  rewrite Hrun. cbn [andb negb]. lw_step. unfold reconcile_state. do 2 lw_step.
  assert (alive (State (Status s1)) = true) as Hst by (rewrite <-Hs1; apply Hok1).
  assert (loop_wpm step reconcile_running s1 w1 (fun w' _ o => moved w w' o)) as Hp.
  { eapply lw_mono; [by apply pass_running|]. intros w2 s2 o. apply moved_noworse, Hk1. }
  destruct (State (Status s1)) eqn:Hs1'; try done.
  - rewrite Hrun. cbn [negb]. lw_step. eapply lw_mono; [apply boot_loop_updateStatusWithState; [done|]|].
    { rewrite <-Hs1. apply fit_state; [|done|done]. apply not_rest_state. by rewrite Hs1, Hs1'. }
    intros w2 s2 [[]|e]; cbn; [intros (Hk2 & Hs2 & ->)|intros Hf]; lw_step; apply (moved_noworse _ w1); try apply Hk1.
    + apply moved_phase; [done|]. unfold phase, HasState. rewrite Hs2, Hs1.
      change (created (SetState ClusterUpgrading s1)) with (created s1). cbn. rewrite Hs1'.
      rewrite bool_decide_eq_false_2 by done. rewrite bool_decide_eq_true_2 by done. lia.
    + apply boot_moved_faulted; [done|by left].
  - by rewrite Hrun.
Qed.

(** A call of [Reconcile]. *)
Lemma boot_pass_Reconcile w :
  world_ok w -> loop_wp step (Reconcile (ais_Name ais)) w (fun w' o => moved w w' o).
Proof.
  intros Hok. unfold Reconcile. cbn [loop_wp]. intros x w' [[-> ->]|(n & Hn & (e & -> & He) & Hw)].
  - apply loop_wp_bind. eapply loop_wp_mono; [|exact (boot_pass_object (stored w) w Hok eq_refl)]. by intros w1 [s1 o].
  - assert (w' = with_faults w n) as -> by (destruct Hw as [->|[x' [-> _]]]; done).
    destruct He as [He _]. unfold missing in He. apply orb_false_iff in He as [-> _].
    apply boot_moved_faulted; [by apply boot_faulted_here|by left].
Qed.

(** ** Rounds *)

(** A round of the closed loop: a call of [Reconcile], and time passes. *)
Definition round (w w' : world) : Prop :=
  exists t o w1, exec (Reconcile (ais_Name ais)) t o /\ plays step w t w1 /\ w' = tick w1.

Lemma tick_calm w : calm w = true -> calm (tick w) = true.
Proof.
  unfold Bootstrap.calm, settled, waiting_lb. cbn. destruct (proxies w), (targets w); cbn; rewrite ?andb_false_r; try done.
  rewrite !andb_true_iff, !Nat.eqb_eq. intros [[[? ?] [? ?]] Hlb].
  destruct (ProxyExternalAccessEnabled ais), (TargetExternalAccessEnabled ais); split_and!; try done; lia.
Qed.

Lemma tick_ok w : world_ok w -> world_ok (tick w).
Proof.
  intros [Ho Hst Hr Hp Ht Hc Hd]. split; try done.
  - intros wl Hwl. apply fmap_Some in Hwl as (wl' & Hwl & ->). exact (Hp _ Hwl).
  - intros wl Hwl. apply fmap_Some in Hwl as (wl' & Hwl & ->). exact (Ht _ Hwl).
  - intros H. by destruct (Hc H) as [[? Hp'] [? Ht']]; cbn; rewrite Hp', Ht'.
  - intros H. by apply tick_calm, Hd.
Qed.

Lemma tick_rest w : at_rest w = true -> at_rest (tick w) = true.
Proof.
  intros Hr. pose proof (tick_calm w (rest_calm w Hr)) as Hc. revert Hr. unfold Bootstrap.at_rest. rewrite Hc.
  change (stored (tick w)) with (stored w). rewrite !andb_true_iff. tauto.
Qed.

Lemma tick_pending w : (pending (tick w) <= pending w)%nat /\ ((0 < busy w)%nat -> (pending (tick w) < pending w)%nat).
Proof.
  unfold Bootstrap.pending, busy, waiting_lb, rounds_of, proxies_left, targets_left. cbn.
  destruct (proxies w) as [p|], (targets w) as [t|]; cbn; destruct (ProxyExternalAccessEnabled ais), (TargetExternalAccessEnabled ais); lia.
Qed.

Lemma boot_tick_distance w : (distance (tick w) <= distance w)%nat /\ ((0 < busy w)%nat -> (distance (tick w) < distance w)%nat).
Proof.
  destruct (tick_pending w) as [H1 H2]. unfold Bootstrap.distance. change (faults (tick w)) with (faults w).
  destruct (at_rest w) eqn:Hr.
  - rewrite (tick_rest w Hr). split; [done|]. intros Hb%busy_not_rest. congruence.
  - destruct (at_rest (tick w)); lia.
Qed.

Lemma ready_round w w' : world_ok w -> round w w' -> exists w1 o, moved w w1 o /\ w' = tick w1.
Proof.
  intros Hok (t & o & w1 & Hex & Hp & Ht). exists w1.
  destruct (loop_adequate _ _ _ _ _ _ _ (boot_pass_Reconcile w Hok) Hex Hp) as (r & _ & ?). by exists r.
Qed.

#[export] Instance ready_measured : Measured round world_ok (fun w => at_rest w = true) distance.
Proof.
  split.
  - intros w w' Hok (w1 & o & Hm & ->)%ready_round; [|done]. apply tick_ok, Hm.
  - intros w w' Hok (w1 & o & Hm & ->)%ready_round Hr; [|done]. by apply tick_rest, (mv_rest _ _ _ Hm).
  - intros w w' Hok (w1 & o & Hm & ->)%ready_round; [|done]. destruct (at_rest w) eqn:Hr; [by left|right].
    destruct (boot_tick_distance w1) as [H1 H2]. destruct (mv_closer _ _ _ Hm) as [Hr1|[?|[? ?]]].
    + unfold Bootstrap.distance. rewrite Hr, (tick_rest w1 Hr1). lia.
    + lia.
    + specialize (H2 ltac:(done)). lia.
  - intros w _. unfold Bootstrap.distance. by destruct (at_rest w).
Qed.

(** ** The world can always answer *)

Definition gone : error := MkError EkNotFound "".
Definition exists_already : error := MkError EkAlreadyExists "".
Definition present (n : nsname) (wl : workload) : StatefulSet :=
  let r := sss_Replicas (wl_spec wl) in
  MkSS n ∅ ∅ 1 (wl_spec wl)
    (if (wl_rounds wl =? 0)%nat then MkSSStatus 1 r r r r "1" "1" else MkSSStatus 0 0 0 0 0 "1" "1").
Definition reachable_service : Service := MkService (NN "" "") ∅ [MkIngress "10.0.0.1" ""].
Definition running_pod : Pod := MkPod (NN "" "") ∅ false "" "Running" "" [] [].
Definition node : Snode := MkSnode "n" "h" "u" 0.
Definition full_map : Smap := MkSmap uuid 1 (replicate (Z.to_nat np) node) (replicate (Z.to_nat nt) node) None.
Definition restarted (ss : StatefulSet) : option workload := Some (MkWorkload (ss_Spec ss) D).

Definition served (w : world) (r : req) : answer r * world :=
  match r return answer r * world with
  | KGetAIStore _ => (Ok (stored w), w)
  | KPatchStatus _ st => (Ok (set_status (stored w) st), with_stored w (set_status (stored w) st))
  | KPatchAIStore _ m => (Ok (patched (stored w) m), with_stored w (patched (stored w) m))
  | KGetStatefulSet n => (match workload_of ais w n with Some wl => Ok (present n wl) | None => Err gone end, w)
  | KCreate (_, OStatefulSet ss) =>
      match workload_of ais w (ss_Name ss) with
      | None => (Ok tt, with_workload ais w (ss_Name ss) (restarted ss))
      | Some _ => (Err exists_already, w)
      end
  | KPatchStatefulSet _ m =>
      match workload_of ais w (ss_Name m) with
      | Some _ => (Ok tt, with_workload ais w (ss_Name m) (restarted m))
      | None => (Err gone, w)
      end
  | KGetPod _ => (Ok running_pod, w)
  | KListEndpointSlices _ => (Ok [[Some true]], w)
  | KGetService _ => (Ok (if (proxy_lb w =? 0)%nat then reachable_service else MkService (NN "" "") ∅ []), w)
  | KListServices _ _ => (Ok (if (target_lb w =? 0)%nat then replicate (Z.to_nat nt) reachable_service else []), w)
  | AGetClient _ => (Ok 0, w)
  | AHealth _ _ | ASetClusterConfig _ _ _ => (Ok tt, w)
  | AGetClusterMap _ => (Ok full_map, w)
  | KGetDeployment _ => (Err gone, w)
  | KGetConfigMap _ => (Err gone, w)
  | KGetObject _ _ => (Ok (None, OServiceAccount (NewAISServiceAccount ais)), w)
  | KGetAuthProfile _ => (Ok (MkAuthProfile "" false "" None None None), w)
  | KListNodes _ => (Ok [], w)
  | KListPods _ _ => (Ok [], w)
  | KApply _ | KUpdate _ | KPatchDeployment _ _ | KCreate _ | KDelete _ _ => (Ok tt, w)
  | r => (some_answer r, w)
  end.

Lemma present_shows n wl : shows wl (present n wl).
Proof.
  unfold shows, present. cbn. destruct (Nat.eqb_spec (wl_rounds wl) 0) as [H|H]; cbn; split_and!; try done; intros; auto with lia.
Qed.
Lemma lb_full : lb_ready nt (replicate (Z.to_nat nt) reachable_service) = true /\ lb_ready nt [] = false.
Proof.
  destruct sizes_positive as [_ Hn]. unfold lb_ready. rewrite length_replicate, Z2Nat.id by lia. rewrite Z.ltb_irrefl. split.
  - apply forallb_forall. intros x Hx%list_elem_of_In%elem_of_replicate. by destruct Hx as [-> _].
  - assert (Z.of_nat (length (@nil Service)) <? nt = true) as ->; [by apply Z.ltb_lt; cbn; lia|done].
Qed.
Lemma full_map_sizes : Z.of_nat (length (Pmap full_map)) = np /\ Z.of_nat (length (Tmap full_map)) = nt.
Proof. destruct sizes_positive. cbn. rewrite !length_replicate. lia. Qed.

Lemma restarts w ss : starts ais D ss w (with_workload ais w (ss_Name ss) (restarted ss)).
Proof. exists (MkWorkload (ss_Spec ss) D). split_and!; [split; auto|done|done]. Qed.

Lemma boot_served_truth w r : truth ais np nt uuid D w r (served w r).1 (served w r).2.
Proof.
  destruct r as [ |  | n |  |  |  |  |  |  |  |  |  |  |  |  |  |  | [? []] |  |  | k n |  |  |  |  |  |  |  |  |  |  |  |  |  |  |  |  | ]; try done; cbn;
    try (by eauto).
  - split; [done|]. destruct (workload_of ais w n) as [wl|]; [|by exists gone]. exists (present n wl).
    split_and!; [done..|apply present_shows].
  - split; [done|]. eexists. split; [done|]. intros _. by destruct (_ =? 0)%nat.
  - split; [done|]. eexists. split; [done|]. intros _. destruct lb_full. by destruct (_ =? 0)%nat.
  - destruct (workload_of ais w _); cbn; [by eauto|]. split; [done|apply restarts].
  - by destruct k.
  - destruct (workload_of ais w _); cbn; [|by eauto]. split; [done|apply restarts].
  - split; [done|]. intros _. exists full_map. destruct full_map_sizes. done.
Qed.

Lemma ready_round_exists w : exists w', round w w'.
Proof.
  destruct (plays_exist step (fun _ => True) (Reconcile (ais_Name ais)) w) as (t & o & w1 & Hex & Hp); [|done|].
  - intros w0 r _. exists (served w0 r).1, (served w0 r).2. split; [left; apply boot_served_truth|done].
  - by exists (tick w1), t, o, w1.
Qed.

(** The distance at the start. *)
Lemma ready_bound w :
  (forall wl, proxies w = Some wl \/ targets w = Some wl -> (wl_rounds wl <= D)%nat) ->
  (distance w <= 4 * D + waiting_lb ais w + faults w + 6)%nat.
Proof.
  intros Hd. assert (proxies_left np D (proxies w) <= 2 * D + 2)%nat as Hp.
  { destruct (proxies w) as [wl|]; cbn; [|lia]. specialize (Hd wl (or_introl eq_refl)). destruct (_ =? np); lia. }
  assert (targets_left nt D (targets w) <= 2 * D + 1)%nat as Ht.
  { destruct (targets w) as [wl|]; cbn; [|lia]. specialize (Hd wl (or_intror eq_refl)). destruct (_ =? nt); lia. }
  assert (phase (stored w) <= 2)%nat as Hph by (unfold phase; destruct (created (stored w)), (HasState (stored w) ClusterShuttingDown); lia).
  unfold Bootstrap.distance, Bootstrap.pending. destruct (at_rest w); lia.
Qed.

(** An object just created, and nothing else yet. *)
Lemma new_cluster_ok a lb1 lb2 n :
  same_object a -> State (Status a) = NoState -> created a = false -> restart_of a = "" ->
  world_ok (MkWorld a None None lb1 lb2 n).
Proof.
  intros Ha Hst Hc Hr. split; cbn; try done.
  - by rewrite Hst.
  - by left.
  - by rewrite Hc.
  - unfold declared_ready, HasState. by rewrite Hst.
Qed.

(** A cluster at any point of a shutdown. *)
Lemma shut_cluster_ok a p t lb1 lb2 n :
  same_object a -> State (Status a) = ClusterShuttingDown \/ State (Status a) = ClusterShutdown -> created a = true ->
  restart_of a = "" \/ restart_of a = initial_restart ais ->
  proxies_built ais np (restart_of a) (wl_spec p) -> sss_Replicas (wl_spec p) = np \/ sss_Replicas (wl_spec p) = 0 ->
  targets_built ais nt (restart_of a) (wl_spec t) -> sss_Replicas (wl_spec t) = nt \/ sss_Replicas (wl_spec t) = 0 ->
  world_ok (MkWorld a (Some p) (Some t) lb1 lb2 n).
Proof.
  intros Ha Hst Hc Hr Hp Hnp Ht Hnt. split; cbn; try done.
  - by destruct Hst as [->| ->].
  - intros ? [= <-]. unfold proxy_size. by rewrite Hc.
  - intros ? [= <-]. unfold target_size. rewrite Hc. tauto.
  - unfold declared_ready, HasState. by destruct Hst as [->| ->].
Qed.

(** C1. A cluster is brought up, declared ready and left alone. For an object whose spec is
    valid, of fixed sizes and not (or no longer) to be shut down, in any state short of deletion,
    whose StatefulSets, where they exist, were built from the current spec - no rollout is pending,
    the restart annotation is not set or the initial one - with a size the controller gives them
    (the proxies the one asked for, one before the cluster was created or none after a shutdown;
    the targets the one asked for or, after a shutdown, none), both there once the object is past
    creation and up if it says it is ready: the object just created and nothing
    else is such a world; a cluster partly up, one whose shutdown is called off, and one that was
    shut down are others. From there the loop can always go on, and whatever sequence of rounds
    follows - failures falling on any requests, before or after they took effect, pods taking any
    time up to [D] rounds to come up and the status of a StatefulSet lagging behind - every
    reconciliation runs to its end and, unless the cluster is at rest, asks for the next one: it
    returns an error or a delay, or changed the object. Once [4 * D + 6] rounds, those the external
    services take, and one more for every failed request have passed, both StatefulSets have the
    size asked for with all pods ready, and the object says so: it is Ready, its conditions hold,
    the cluster's identifier and URL and the hash of the configuration sent are recorded. From then
    on no reconciliation changes the object, and one in which no request fails asks for nothing
    more. *)
Theorem cluster_becomes_ready N w :
  world_ok w -> (forall wl, proxies w = Some wl \/ targets w = Some wl -> (wl_rounds wl <= D)%nat) ->
  (exists w', nsteps round N w w') /\
  forall w', nsteps round N w w' ->
    (forall t o w1, exec (Reconcile (ais_Name ais)) t o -> plays step w' t w1 ->
       exists r, o = Some r /\
         (at_rest w1 = true \/ snd r ≠ None \/ 0 < RequeueAfter (fst r) \/ stored w1 ≠ stored w') /\
         (at_rest w' = true -> stored w1 = stored w' /\ (faults w1 = faults w' -> r = finished))) /\
    ((4 * D + waiting_lb ais w + faults w + 6 <= N)%nat -> at_rest w' = true).
Proof.
  intros Hok Hd. split; [apply (rounds_go_on round _ _ _ N w); [intros; apply ready_round_exists|done]|].
  intros w' Hr. pose proof (rounds_ok round _ _ _ _ _ _ Hok Hr) as Hok'. split.
  - intros t o w1 Hex Hp. destruct (loop_adequate _ _ _ _ _ _ _ (boot_pass_Reconcile w' Hok') Hex Hp) as (r & -> & Hm).
    exists r. split_and!; [done| |].
    + destruct (mv_asks _ _ _ Hm) as [?|[?|[?|Hph]]]; [auto..|]. do 3 right. intros Heq. rewrite Heq in Hph. lia.
    + intros Hrest. split; [by apply (mv_rest _ _ _ Hm)|by apply (mv_finished _ _ _ Hm)].
  - intros HN. apply (rounds_reach round world_ok (fun w => at_rest w = true) distance N w); [done..|].
    right. pose proof (ready_bound w Hd). lia.
Qed.
End Stages.
