(* ===== verification/NodeEvents.v ===== *)
(** * Events that concern a cluster

    Node and pod events reach a cluster through a filter on updates and a mapping to the
    clusters concerned. Nothing the discovery of an autoscaled daemon, or of the hosts of the
    certificate, depends on changes without an event that enqueues a reconciliation, but for
    the addresses of a node, which the filter of node updates does not look at. *)

From S2P Require Import Prelude Effects K8sTypes AISConfig AIStoreTypes ThirdParty AuthConf AIStoreMethods GlobalConfig CmnResources Certificates ProxyResources TargetResources Rollout Requests K8sClient ClusterOps Nodes SpecFacts.

Section Events.
Context `{T : ThirdParty, L : !ThirdPartyLaws T}.

(** The nodes and the pods the API server stores. *)
Record view := MkView { vw_nodes : list Node; vw_pods : list Pod }.

Inductive change :=
| NodeCreated (n : Node) | NodeDeleted (n : Node) | NodeUpdated (old new : Node)
| PodCreated (p : Pod) | PodDeleted (p : Pod) | PodUpdated (old new : Pod).

(** Names never change; neither do the labels by which the daemons' pods are found. *)
Definition happens (S : view) (c : change) (S' : view) : Prop :=
  match c with
  | NodeCreated n => vw_nodes S' ≡ₚ n :: vw_nodes S /\ vw_pods S' = vw_pods S
  | NodeDeleted n => vw_nodes S ≡ₚ n :: vw_nodes S' /\ vw_pods S' = vw_pods S
  | NodeUpdated old new => node_Name old = node_Name new /\ vw_pods S' = vw_pods S /\
      exists rest, vw_nodes S ≡ₚ old :: rest /\ vw_nodes S' ≡ₚ new :: rest
  | PodCreated p => vw_pods S' ≡ₚ p :: vw_pods S /\ vw_nodes S' = vw_nodes S
  | PodDeleted p => vw_pods S ≡ₚ p :: vw_pods S' /\ vw_nodes S' = vw_nodes S
  | PodUpdated old new => pod_Name old = pod_Name new /\ pod_Labels old = pod_Labels new /\ vw_nodes S' = vw_nodes S /\
      exists rest, vw_pods S ≡ₚ old :: rest /\ vw_pods S' ≡ₚ new :: rest
  end.

(** Whatever clusters are listed, the mapping of a node event names [ais] if it is among them. *)
Definition node_maps_to (n : Node) (ais : AIStore) : Prop :=
  forall s t s' names l,
    exec (findAISClustersForNode n s) t (Some (s', names)) ->
    ev KListAIStore (Ok l) ∈ t -> ais ∈ l -> ais_Name ais ∈ names.

(** Events pass the predicates, and updates are mapped with the old object and the new one. *)
Definition enqueues (c : change) (ais : AIStore) : Prop :=
  match c with
  | NodeCreated n | NodeDeleted n => node_maps_to n ais
  | NodeUpdated old new => node_update_relevant old new = true /\ (node_maps_to old ais \/ node_maps_to new ais)
  | PodCreated p | PodDeleted p => ais_Name ais ∈ findAISClustersForPod p
  | PodUpdated old new => pod_update_relevant old new = true /\
      (ais_Name ais ∈ findAISClustersForPod old \/ ais_Name ais ∈ findAISClustersForPod new)
  end.

(** ** What the discovery finds in a snapshot *)

Definition hosts_daemon (ds : DaemonSpec) (n : Node) : bool :=
  SelectorMatches (node_selector ds) (node_Labels n) && toleratesTaints (ds_Tolerations ds) n.
Lemma hosts_daemon_true ds n :
  hosts_daemon ds n = true <->
  SelectorMatches (node_selector ds) (node_Labels n) = true /\ toleratesTaints (ds_Tolerations ds) n = true.
Proof. apply andb_true_iff. Qed.
Definition schedulable (S : view) (ds : DaemonSpec) : list Node :=
  filter (fun n => hosts_daemon ds n = true) (vw_nodes S).
Definition daemon_pod (ais : AIStore) (ls : labels) (p : Pod) : bool :=
  bool_decide (nn_namespace (pod_Name p) = nn_namespace (ais_Name ais)) &&
  SelectorMatches (<[ LabelManagedBy := LabelManagedByValue ]> ls) (pod_Labels p).
Definition expected (S : view) (ais : AIStore) (ds : DaemonSpec) (ls : labels) : list string :=
  unionSorted (sort_strings (node_Name <$> schedulable S ds))
              (pod_nodes (filter (fun p => daemon_pod ais ls p = true) (vw_pods S))).

(** Lists answered from the snapshot. *)
Definition listed_from (S : view) (e : @event req answer) : Prop :=
  match e with
  | existT (KListNodes sel) a => forall l, a = Ok l -> l ≡ₚ filter (fun n => SelectorMatches sel (node_Labels n) = true) (vw_nodes S)
  | existT (KListPods ns sel) a => forall l, a = Ok l ->
      l ≡ₚ filter (fun p => nn_namespace (pod_Name p) = ns /\ SelectorMatches sel (pod_Labels p) = true) (vw_pods S)
  | _ => True
  end.

Lemma elem_of_expected x S ais ds ls :
  x ∈ expected S ais ds ls <->
  (exists n, n ∈ vw_nodes S /\ hosts_daemon ds n = true /\ node_Name n = x) \/
  (x ≠ "" /\ exists p, p ∈ vw_pods S /\ daemon_pod ais ls p = true /\ pod_NodeName p = x).
Proof.
  unfold expected, schedulable. rewrite elem_of_unionSorted, elem_of_sort_strings, elem_of_pod_nodes, list_elem_of_fmap.
  setoid_rewrite list_elem_of_filter. naive_solver.
Qed.

Lemma expected_ext S S' ais ds ls :
  (forall x, x ∈ expected S' ais ds ls <-> x ∈ expected S ais ds ls) -> expected S' ais ds ls = expected S ais ds ls.
Proof.
  intros Hx. apply sorted_set_unique; [apply unionSorted_sorted | apply unionSorted_sorted |
    apply unionSorted_NoDup | apply unionSorted_NoDup | exact Hx].
Qed.

(** The handler finds what the snapshot has. *)
Lemma discovery_exact S ais ds ls s0 t s names :
  exec (expected_nodes ais ds ls s0) t (Some (s, Ok names)) -> Forall (listed_from S) t ->
  names = expected S ais ds ls.
Proof.
  intros Hex Ht. rewrite Forall_forall in Ht.
  destruct (returns_wp _ (fun t p => forall names, p.2 = Ok names -> nodes_expected ais ds ls t names)
    t (s, Ok names) (expected_nodes_wp ais ds ls s0) Hex names eq_refl) as (nodes & pods & Hn & Hp & Hs & Hd & Hx).
  assert (forall n, n ∈ nodes <-> SelectorMatches (node_selector ds) (node_Labels n) = true /\ n ∈ vw_nodes S) as Hnodes
    by (intros n; by rewrite (Ht _ Hn nodes eq_refl), list_elem_of_filter).
  assert (forall p, p ∈ pods <-> daemon_pod ais ls p = true /\ p ∈ vw_pods S) as Hpods.
  { intros p. rewrite (Ht _ Hp pods eq_refl), list_elem_of_filter. unfold daemon_pod.
    by rewrite andb_true_iff, bool_decide_eq_true. }
  apply sorted_set_unique; [done|apply unionSorted_sorted|done|apply unionSorted_NoDup|].
  intros x. rewrite Hx, elem_of_expected. setoid_rewrite hosts_daemon_true.
  clear -Hnodes Hpods. split; (intros [(n & Hn)|(? & p & Hp)];
    [left; exists n; specialize (Hnodes n) | right; split; [done|]; exists p; specialize (Hpods p)]; tauto).
Qed.

(** ** What an event changes *)

Definition listed_clusters (e : @event req answer) : option (list AIStore) :=
  match e with existT KListAIStore (Ok l) => Some l | _ => None end.

Lemma node_mapped n ais : node_concerns n ais = true -> node_maps_to n ais.
Proof.
  intros Hc s t s' names l Hex Hl Hin.
  assert (wpm True (fun _ _ => True) (findAISClustersForNode n) s [] (fun h _ r =>
    ev KListAIStore (Ok l) ∈ rev h -> ais_Name ais ∈ r)) as Hwp.
  { unfold findAISClustersForNode. apply wpm_bind. wp_call; [done|]. intros [l'|e]; apply wpm_ret; cbn;
      rewrite list_elem_of_singleton; intros Heq%(f_equal listed_clusters); [|done].
    injection Heq as ->. apply list_elem_of_fmap. exists ais. split; [done|]. by apply list_elem_of_filter. }
  exact (returns_wp _ (fun t p => ev KListAIStore (Ok l) ∈ t -> ais_Name ais ∈ p.2) t (s', names) Hwp Hex Hl).
Qed.

(** The daemons whose size follows the nodes. *)
Inductive follows_nodes (ais : AIStore) : DaemonSpec -> labels -> Prop :=
| follows_targets : IsTargetAutoScaling ais = true -> follows_nodes ais (target_ds (Spec ais)) (Target.SelectorLabels ais)
| follows_proxies : IsProxyAutoScaling ais = true -> follows_nodes ais (ProxySpec (Spec ais)) (Proxy.SelectorLabels ais).

Lemma host_concerns ais ds ls n : follows_nodes ais ds ls -> hosts_daemon ds n = true -> node_concerns n ais = true.
Proof.
  intros Hf [Hs _]%andb_true_iff. unfold node_concerns. destruct Hf as [Ha|Ha]; rewrite Ha.
  - assert (nodeMatchesForTarget n ais = true) as -> by (unfold nodeMatchesForTarget, nodeMatchesSelector; rewrite Ha, Hs; by case_match).
    by case_match.
  - assert (nodeMatchesForProxy n ais = true) as -> by (unfold nodeMatchesForProxy, nodeMatchesSelector; rewrite Ha, Hs; by case_match).
    done.
Qed.

(** A node that hosts a daemon no longer, or only now, differs in its labels or taints. *)
Lemma host_change_relevant ds old new :
  hosts_daemon ds old ≠ hosts_daemon ds new -> node_update_relevant old new = true.
Proof.
  intros Hne. unfold node_update_relevant. case_bool_decide as Hl; [done|]. apply bool_decide_eq_true.
  intros Ht. apply Hne. unfold hosts_daemon, toleratesTaints.
  destruct (decide (node_Labels old = node_Labels new)) as [->|]; [by rewrite Ht|done].
Qed.

Lemma daemon_pod_mapped ais ls p :
  aname ais ≠ "" -> ls = Target.SelectorLabels ais \/ ls = Proxy.SelectorLabels ais ->
  daemon_pod ais ls p = true -> ais_Name ais ∈ findAISClustersForPod p.
Proof.
  intros Hne Hls [Hns%bool_decide_eq_true Hsel%SelectorMatches_spec]%andb_true_iff.
  assert (pod_Labels p !! LabelAppPrefixed = Some (aname ais)) as Hl.
  { eapply lookup_weaken; [|exact Hsel]. destruct Hls as [->| ->]; by vm_compute. }
  unfold findAISClustersForPod, index. rewrite Hl. cbn. rewrite bool_decide_false by done.
  apply list_elem_of_singleton. rewrite Hns. unfold aname. by destruct (ais_Name ais).
Qed.
(** The hosts of the certificate: a node that may host either daemon counts. *)
Lemma host_affects_certificate ais n ds :
  UseTLSCertificate ais = true -> GetPublicNetDNSMode ais ≠ PubNetDNSModePod ->
  ds = ProxySpec (Spec ais) \/ ds = target_ds (Spec ais) -> hosts_daemon ds n = true -> node_concerns n ais = true.
Proof.
  intros Ht Hm Hds Hh. unfold node_concerns. case_match; [done|]. case_match; [done|].
  unfold nodeAffectsTLSCertificate. rewrite Ht, bool_decide_false by done. cbn.
  change (nodeMatchesSelector n (node_selector (ProxySpec (Spec ais))) && toleratesTaints (ds_Tolerations (ProxySpec (Spec ais))) n)
    with (hosts_daemon (ProxySpec (Spec ais)) n).
  change (nodeMatchesSelector n (node_selector (target_ds (Spec ais))) && toleratesTaints (ds_Tolerations (target_ds (Spec ais))) n)
    with (hosts_daemon (target_ds (Spec ais)) n).
  destruct Hds as [-> | ->]; rewrite Hh; [done | by case_match].
Qed.

Lemma schedulable_perm S S' ds : vw_nodes S ≡ₚ vw_nodes S' -> schedulable S ds ≡ₚ schedulable S' ds.
Proof. intros Hp. unfold schedulable. by rewrite Hp. Qed.

(** A change of the nodes that may host a daemon of interest is mapped to the cluster, whatever
    is looked at of a node that an update leaves as it is. *)
Lemma nodes_enqueue {X} (g : Node -> X) S c S' ais ds :
  (forall n, hosts_daemon ds n = true -> node_concerns n ais = true) -> happens S c S' ->
  (forall old new, c = NodeUpdated old new -> g old = g new) ->
  g <$> schedulable S' ds ≡ₚ g <$> schedulable S ds \/ enqueues c ais.
Proof.
  intros Hc Hh Hg. destruct c as [n|n|old new|p|p|old new].
  - destruct Hh as [Hp _]. destruct (hosts_daemon ds n) eqn:E; [right; by apply node_mapped, Hc|left].
    unfold schedulable. by rewrite Hp, filter_cons_False by congruence.
  - destruct Hh as [Hp _]. destruct (hosts_daemon ds n) eqn:E; [right; by apply node_mapped, Hc|left].
    unfold schedulable. by rewrite Hp, filter_cons_False by congruence.
  - destruct Hh as (_ & _ & rest & H1 & H2). pose proof (Hg old new eq_refl) as Hn.
    destruct (decide (hosts_daemon ds old = hosts_daemon ds new)) as [E|E].
    + left. unfold schedulable. rewrite H1, H2, !filter_cons, E. by case_decide; cbn; rewrite ?Hn.
    + right. split; [by apply (host_change_relevant ds)|].
      destruct (hosts_daemon ds old) eqn:Eo; [left|right]; apply node_mapped, Hc; [done|].
      by destruct (hosts_daemon ds new).
  - destruct Hh as [_ Hn]. left. unfold schedulable. by rewrite Hn.
  - destruct Hh as [_ Hn]. left. unfold schedulable. by rewrite Hn.
  - destruct Hh as (_ & _ & Hn & _). left. unfold schedulable. by rewrite Hn.
Qed.

(** Names never change. *)
Lemma names_enqueue S c S' ais ds :
  (forall n, hosts_daemon ds n = true -> node_concerns n ais = true) -> happens S c S' ->
  node_Name <$> schedulable S' ds ≡ₚ node_Name <$> schedulable S ds \/ enqueues c ais.
Proof. intros Hc Hh. apply nodes_enqueue; [done..|]. intros old new ->. by destruct Hh. Qed.

(** The event changes no address of a node. *)
Definition same_addresses (c : change) : Prop :=
  match c with NodeUpdated old new => node_Addresses old = node_Addresses new | _ => True end.

Lemma primary_ip_addresses old new : node_Addresses old = node_Addresses new -> NodePrimaryIP old = NodePrimaryIP new.
Proof. intros Ha. unfold NodePrimaryIP, address_of_type. by rewrite Ha. Qed.

(** The hosts the certificate names, in the mode of the cluster. *)
Definition public_hosts (S : view) (ais : AIStore) (ds : DaemonSpec) : list string :=
  publicHostsForNodes (schedulable S ds) (GetPublicNetDNSMode ais).

Lemma hosts_enqueue S c S' ais ds :
  (forall n, hosts_daemon ds n = true -> node_concerns n ais = true) -> happens S c S' ->
  (GetPublicNetDNSMode ais = PubNetDNSModeIP -> same_addresses c) ->
  public_hosts S' ais ds ≡ₚ public_hosts S ais ds \/ enqueues c ais.
Proof.
  intros Hc Hh Ha. unfold public_hosts, publicHostsForNodes. destruct (GetPublicNetDNSMode ais).
  - destruct (nodes_enqueue NodePrimaryIP S c S' ais ds Hc Hh) as [Hp|?]; [|left; by rewrite Hp|by right].
    intros old new ->. apply primary_ip_addresses. by apply Ha.
  - by apply names_enqueue.
  - by left.
Qed.

(** So is a change of the nodes its pods run on. *)
Lemma pods_enqueue S c S' ais ls :
  (forall p, daemon_pod ais ls p = true -> ais_Name ais ∈ findAISClustersForPod p) -> happens S c S' ->
  let on S := pod_NodeName <$> filter (fun p => daemon_pod ais ls p = true) (vw_pods S) in
  on S' ≡ₚ on S \/ enqueues c ais.
Proof.
  intros Hc Hh on. destruct c as [n|n|old new|p|p|old new].
  - destruct Hh as [_ Hp]. left. unfold on. by rewrite Hp.
  - destruct Hh as [_ Hp]. left. unfold on. by rewrite Hp.
  - destruct Hh as (_ & Hp & _). left. unfold on. by rewrite Hp.
  - destruct Hh as [Hp _]. destruct (daemon_pod ais ls p) eqn:E; [right; by apply Hc|left].
    unfold on. by rewrite Hp, filter_cons_False by congruence.
  - destruct Hh as [Hp _]. destruct (daemon_pod ais ls p) eqn:E; [right; by apply Hc|left].
    unfold on. by rewrite Hp, filter_cons_False by congruence.
  - destruct Hh as (Hn & Hl & _ & rest & H1 & H2).
    assert (daemon_pod ais ls old = daemon_pod ais ls new) as E by (unfold daemon_pod; by rewrite Hn, Hl).
    destruct (daemon_pod ais ls old) eqn:Eo.
    + destruct (decide (pod_NodeName old = pod_NodeName new)) as [En|En].
      * left. unfold on. rewrite H1, H2, !filter_cons, Eo, <-E. by case_decide; cbn; rewrite ?En.
      * right. split; [by apply bool_decide_eq_true|]. left. by apply Hc.
    + left. unfold on. rewrite H1, H2, !filter_cons, Eo, <-E. by case_decide.
Qed.

(** What is missed: an update that changes only addresses is filtered out; in mode [IP] the
    certificate names them. *)
Lemma address_change_filtered old new ais :
  node_Labels old = node_Labels new -> node_Taints old = node_Taints new -> ~ enqueues (NodeUpdated old new) ais.
Proof. intros Hl Ht [Hr _]. unfold node_update_relevant in Hr. rewrite Hl, Ht, !bool_decide_false in Hr by tauto. done. Qed.

End Events.
