(* ===== verification/Startup.v ===== *)
(** * Start-up of the operator

    [cmd/main.go]: from the command-line flags to the running manager. Parsing the flags and
    the manager itself are library code: a run is a program over the parsed flags, whose
    requests are the calls into the libraries. *)

From S2P Require Import Prelude Effects K8sTypes CmnResources Certificates ClientManager OpInfo.

(** ** Flags *)

Record Flags := MkFlags {
  watchNamespaces : string; metricsAddr : string; probeAddr : string;
  enableLeaderElection : bool; secureMetrics : bool;
  webhookCertPath : string; webhookCertName : string; webhookCertKey : string;
  metricsCertPath : string; metricsCertName : string; metricsCertKey : string;
  aisClientCertPath : string; aisClientCertPerCluster : bool }.

Definition default_flags : Flags :=
  MkFlags "" ":8080" ":8081" false true "" "tls.crt" "tls.key" "" "tls.crt" "tls.key"
    "/etc/operator/tls" false.

(** ** Options of the manager *)

(** The files of a certificate watcher. *)
Record CertFiles := MkCertFiles { cw_Cert : string; cw_Key : string }.

Record MetricsOptions := MkMetricsOptions {
  mt_BindAddress : string; mt_SecureServing : bool; mt_AuthFilter : bool;
  mt_Certificate : option CertFiles }.

Record ManagerOptions := MkManagerOptions {
  mo_CacheDisabledFor : list kind; mo_PodSelector : labels;
  mo_DefaultNamespaces : option (gset string); mo_Metrics : MetricsOptions;
  mo_WebhookCertificate : option CertFiles; mo_HealthProbeBindAddress : string;
  mo_LeaderElection : bool; mo_LeaderElectionID : string }.

Definition with_namespaces (o : ManagerOptions) (ns : gset string) : ManagerOptions :=
  MkManagerOptions (mo_CacheDisabledFor o) (mo_PodSelector o) (Some ns) (mo_Metrics o)
    (mo_WebhookCertificate o) (mo_HealthProbeBindAddress o) (mo_LeaderElection o)
    (mo_LeaderElectionID o).

(** The namespaces of a comma-separated list. *)
Definition namespace_configs (rawNs : string) : gset string :=
  list_to_set (filter (fun ns => ns ≠ "") (trim_space <$> split_on "," rawNs)).

Definition restrictNamespaces (rawNs : string) (o : ManagerOptions) : ManagerOptions :=
  if bool_decide (rawNs = "") then o
  else
    let namespaceConfigs := namespace_configs rawNs in
    if bool_decide (namespaceConfigs ≠ ∅) then with_namespaces o namespaceConfigs else o.

(** The certificate files of a directory, if one is named. *)
Definition cert_files (path name key : string) : option CertFiles :=
  if bool_decide (path ≠ "") then Some (MkCertFiles (path_join [path; name]) (path_join [path; key])) else None.
Definition webhook_files (f : Flags) : option CertFiles :=
  cert_files (webhookCertPath f) (webhookCertName f) (webhookCertKey f).
Definition metrics_files (f : Flags) : option CertFiles :=
  cert_files (metricsCertPath f) (metricsCertName f) (metricsCertKey f).

Definition manager_options (f : Flags) : ManagerOptions :=
  restrictNamespaces (watchNamespaces f)
    (MkManagerOptions [KPod] {[ LabelManagedBy := LabelManagedByValue ]} None
       (MkMetricsOptions (metricsAddr f) (secureMetrics f) (secureMetrics f) (metrics_files f))
       (webhook_files f) (probeAddr f) (enableLeaderElection f) "60c23797.nvidia.com").

(** ** The run *)

(** What is registered with the manager. *)
Inductive registration :=
| AIStoreController (tls : AISClientTLSOpts)
| AIStoreWebhookSetup
| AIStoreAuthProfileWebhookSetup
| AIStoreAuthController
| AIStoreAuthWebhookSetup
| CertWatcher (files : CertFiles)
| HealthzCheck (name : string)
| ReadyzCheck (name : string).

Inductive mreq :=
| MNewCertWatcher (files : CertFiles)
| MGetConfig
| MNewClient
| MOpInfo (r : oreq)
| MNewManager (o : ManagerOptions)
| MRegister (x : registration)
| MStart.
Definition manswer (r : mreq) : Type :=
  match r with MOpInfo o => oanswer o | _ => res unit end.

Abbreviation MM := (@M mreq manswer OperatorInfo).

(** A program of [opinfo] as part of the run. *)
Fixpoint lift_prog {A} (p : @prog oreq oanswer A) : @prog mreq manswer A :=
  match p with
  | Ret a => Ret a
  | Panic => Panic
  | Do r k => Do (req := mreq) (answer := manswer) (MOpInfo r) (fun x => lift_prog (k x))
  end.
Definition lift {A} (m : OM A) : MM A := fun s => lift_prog (m s).

(** The exit status; [ctrl.GetConfigOrDie] exits as [os.Exit(1)] does. *)
Definition exit_failure : Z := 1.
Definition exit_success : Z := 0.

(** [if err := m; err != nil { os.Exit(1) }]. *)
Definition or_exit (m : MM (res unit)) (k : MM Z) : MM Z :=
  let? _ := m else e => mret exit_failure in k.

(** Steps in order, each of which may end the run. *)
Fixpoint register_all (l : list registration) (k : MM Z) : MM Z :=
  match l with
  | [] => k
  | x :: l' => or_exit (call (MRegister x)) (register_all l' k)
  end.

Definition new_cert_watcher (files : option CertFiles) : MM (res unit) :=
  match files with Some c => call (MNewCertWatcher c) | None => mret (Ok tt) end.

Definition watcher_of (files : option CertFiles) : list registration :=
  match files with Some c => [CertWatcher c] | None => [] end.

(** What the run registers, in order. *)
Definition registrations (f : Flags) : list registration :=
  [ AIStoreController (MkTLSOpts (aisClientCertPath f) (aisClientCertPerCluster f));
    AIStoreWebhookSetup; AIStoreAuthProfileWebhookSetup; AIStoreAuthController; AIStoreAuthWebhookSetup ] ++
  watcher_of (metrics_files f) ++ watcher_of (webhook_files f) ++
  [ HealthzCheck "health"; ReadyzCheck "check" ].

Section Run.
Context `{OL : OpInfoLib}.

Definition resolveOperatorInfo : MM (res unit) :=
  let? _ := call MNewClient
    else e => mret (Err (wrap "failed to create a client to inspect the operator's own environment" e)) in
  lift Resolve.

Definition main (f : Flags) : MM Z :=
  or_exit (new_cert_watcher (webhook_files f)) (
  or_exit (new_cert_watcher (metrics_files f)) (
  or_exit (call MGetConfig) (
  or_exit resolveOperatorInfo (
  or_exit (call (MNewManager (manager_options f))) (
  register_all (registrations f) (
  or_exit (call MStart) (mret exit_success))))))).

(** ** Facts *)

(** A namespace is watched exactly if it is named, without surrounding space; a list that names
    none restricts nothing. *)
Lemma restrictNamespaces_spec rawNs o :
  mo_DefaultNamespaces o = None ->
  let named := fun ns => ns ≠ "" /\ exists s, s ∈ split_on "," rawNs /\ ns = trim_space s in
  match mo_DefaultNamespaces (restrictNamespaces rawNs o) with
  | Some l => l ≠ ∅ /\ forall ns, ns ∈ l <-> named ns
  | None => forall ns, ~ named ns
  end.
Proof.
  intros Ho. cbv zeta. unfold restrictNamespaces.
  assert (forall ns, ns ∈ namespace_configs rawNs <->
    ns ≠ "" /\ exists s, s ∈ split_on "," rawNs /\ ns = trim_space s) as Hin.
  { intros ns. unfold namespace_configs. rewrite elem_of_list_to_set, list_elem_of_filter, list_elem_of_fmap.
    naive_solver. }
  case_bool_decide as Hr.
  { subst. rewrite Ho. intros ns. rewrite <-Hin. cbn. set_solver. }
  case_bool_decide as He; cbn.
  - split; [done|]. exact Hin.
  - rewrite Ho. intros ns. rewrite <-Hin, He. set_solver.
Qed.

(** The manager starts only when everything was registered with it. *)
Definition start_guard (f : Flags) (t : list (@event mreq manswer)) (r : mreq) : Prop :=
  match r with
  | MStart => ev (MNewManager (manager_options f)) (Ok tt) ∈ t /\
              forall x, x ∈ registrations f -> ev (MRegister x) (Ok tt) ∈ t
  | _ => True
  end.

Lemma wpm_lift {A} (P : mreq -> Prop) (m : OM A) s h :
  (forall r, P (MOpInfo r)) -> wpm True (fun _ r => P r) (lift m) s h (fun _ _ _ => True).
Proof.
  intros HP. unfold wpm, lift. generalize (m s). intros p. revert h.
  induction p as [| |r k IH]; intros h; [done..|]. cbn. split; [apply HP|]. intros x. apply IH.
Qed.

Lemma register_all_wp f l k s h :
  (forall h', (forall x, x ∈ l -> ev (MRegister x) (Ok tt) ∈ rev h') -> h `suffix_of` h' ->
     wpm True (fun h r => start_guard f (rev h) r) k s h' (fun _ _ _ => True)) ->
  wpm True (fun h r => start_guard f (rev h) r) (register_all l k) s h (fun _ _ _ => True).
Proof.
  revert h. induction l as [|x l IH]; intros h Hk; cbn [register_all].
  { apply Hk; [|done]. intros x. by intros ?%not_elem_of_nil. }
  unfold or_exit. wp_step. wp_call; [done|]. intros [[]|e]; [|by wp_step].
  apply IH. intros h' Hl Hs. apply Hk.
  - intros y [->|Hy]%elem_of_cons; [|by apply Hl]. eapply elem_of_rev_later; [exact Hs|]. apply in_trace_here.
  - etrans; [|exact Hs]. by apply suffix_cons_r.
Qed.

Lemma starts_registered f s : guarded (start_guard f) (main f s).
Proof.
  apply (guarded_wp _ _ (fun _ _ => True)).
  change (wpm True (fun h r => start_guard f (rev h) r) (main f) s [] (fun _ _ _ => True)).
  assert (forall files s h (k : MM Z), (forall h, wpm True (fun h r => start_guard f (rev h) r) k s h (fun _ _ _ => True)) ->
    wpm True (fun h r => start_guard f (rev h) r) (or_exit (new_cert_watcher files) k) s h (fun _ _ _ => True)) as Hw.
  { intros files s0 h k Hk. unfold or_exit, new_cert_watcher. wp_step. destruct files; wp_step; [done| |apply Hk].
    intros [[]|e]; [apply Hk | by wp_step]. }
  unfold main. apply Hw. intros h1. apply Hw. intros h2. clear Hw. unfold or_exit at 1.
  wp_step. wp_step; [done|]. intros [?|?]; [|by wp_step].
  unfold or_exit at 1, resolveOperatorInfo. do 2 wp_step. wp_step; [done|]. intros [?|?]; [|by repeat wp_step].
  eapply wp_mono; [done| | |apply (wpm_lift (fun r => r ≠ MStart)); done].
  { intros h' r Hr. by destruct r. }
  intros h3 [s3 [?|?]] _; cbn [fst snd]; [|done].
  unfold or_exit at 1. refine (wpm_try _ _ _ _ _ _ _ _ _). wp_call; [done|]. intros [[]|e]; [|by wp_step].
  apply register_all_wp. intros h4 Hreg Hs4. unfold or_exit. wp_step. wp_call; [|intros [?|?]; by wp_step].
  split; [|done]. eapply elem_of_rev_later; [exact Hs4|]. apply in_trace_here.
Qed.
End Run.
