(* ===== verification/Witnesses.v ===== *)
(** * Concrete instances of the theorems

    An example cluster (three proxies and three targets with one mount each), an example
    environment, and for every property with hypotheses a lemma that applies it at a concrete
    input, with the third-party code instantiated by [Reference]. *)

From S2P Require Import Prelude Effects K8sTypes AISConfig AIStoreTypes ThirdParty AuthConf AIStoreMethods AIStoreFacts Validation GlobalConfig CmnResources Certificates ProxyResources TargetResources AdminClient Templates Rollout Requests K8sClient ClusterOps Nodes ProxyController TargetController Cluster Executions TargetRollout RebalanceFacts TargetTemplate TargetScaling ClusterFacts TemplateFacts SpecFacts Webhook WebhookFacts AuthN TLSCacheLock ClientManager ServicesFacts.

Import Reference.

Module Example.

Definition ports : ServiceSpec := MkServiceSpec (IntVal 51081) (IntVal 51081) (IntVal 51082) (IntVal 51083).

Definition daemon : DaemonSpec :=
  MkDaemonSpec ports None None None ∅ ∅ (MkResources ∅ ∅) None None [] None (Some ∅) [] None None None None.

Definition mount : Mount := MkMount "/ais/sda" (Some 1000) (Some "local") None None None.

Definition config (rebalance : bool) : ConfigToUpdate :=
  MkConfigToUpdate None None
    (Some (MkRebalanceConf (MkXactConf None None None) (Some rebalance) None)) None None no_forwarded.

Definition tls : TLSSpec :=
  MkTLS None (Some (MkTLSCert (MkIssuer "ca" "ClusterIssuer") ["ais.example.com"] None None TLSCertificateModeUnset)).

Definition spec (size : Z) : AIStoreSpec :=
  MkSpec (Some size) "aistore/aisnode:v4.0" "aistore/ais-init:v4.0" None
    (Some (MkStateStorage None (Some "local") false)) None None (Some (config true)) None
    (Some {[ "10.0.0.1" := "a.example.com,2001:db8::1" ]}) None None daemon
    (MkTargetSpec daemon [mount] None None None ScaleDownModeUnset)
    None None None None None None None "" (Some tls) None None None None [] false None None None.

Definition cluster (size : Z) : AIStore :=
  MkAIStore (NN "ais" "demo") "uid-1" 1
    {[ ConfigHashAnnotation := "h"; RestartConfigHashAnnotation := "r" +:+ RestartConfigHashInitial ]}
    [] false (spec size)
    (MkStatus ClusterReady (MkAutoScaleStatus [] []) "http://demo-proxy" "c1"
       [MkCondition "ReadyRebalance" CondTrue "" "" 1]).

Definition target (i : Z) : Snode :=
  MkSnode ("t" +:+ pretty i) (Target.PodName (cluster 3) i +:+ ".demo-target.ais.svc.cluster.local") "" 0.

Definition smap : Smap :=
  MkSmap "c1" 7 [MkSnode "p0" "demo-proxy-0" "" 0] (target <$> [0; 1; 2]) (Some (MkSnode "p0" "demo-proxy-0" "" 0)).

Definition node (name : string) (taints : list Taint) : Node :=
  MkNode name ∅ taints [MkNodeAddress "InternalIP" "10.0.0.1"].

Definition pod (name host : string) : Pod :=
  MkPod (NN "ais" name) ∅ false host "Running" "10.0.0.1" [] [].

Definition unavailable : error := MkError EkOther "no connection".

(** A cluster map, three nodes and one pod are served; AIS accepts every command. *)
Definition answers (r : req) : answer r :=
  match r return answer r with
  | KListNodes _ => Ok [node "n2" []; node "n1" []; node "n3" [MkTaint "k" "v" "NoSchedule"]]
  | KListPods _ _ => Ok [pod "demo-target-0" "n3"; pod "demo-target-1" "n1"]
  | AGetClient _ => Ok 1
  | AGetClusterMap _ => Ok smap
  | ADecommissionNode _ _ | AStartMaintenance _ _ => Ok "xid"
  | KGetAIStore _ => Err unavailable | KListAIStore | KListAIStoreIn _ => Err unavailable
  | KGetStatefulSet _ | KGetStatefulSetDirect _ => Err unavailable
  | KGetPod _ => Err unavailable | KGetService _ => Err unavailable
  | KGetDeployment _ => Err unavailable | KGetConfigMap _ => Err unavailable
  | KGetObject _ _ => Err unavailable | KGetAuthProfile _ => Err unavailable
  | KGetSecret _ => Err unavailable | KListEndpointSlices _ => Err unavailable
  | KListServices _ _ => Err unavailable | KListJobs _ => Err unavailable
  | KListPVCs _ _ => Err unavailable
  | KCreate _ | KUpdate _ | KApply _ | KDelete _ _ | KDeleteGrace _ _ _
  | KPatchStatefulSet _ _ | KPatchDeployment _ _ => Ok tt
  | KPatchAIStore _ _ | KPatchStatus _ _ => Err unavailable
  | AHealth _ _ | ASetClusterConfig _ _ _ | ASetPrimaryProxy _ _ _ _
  | ADecommissionCluster _ _ | AShutdownCluster _ => Ok tt
  | EEvent _ _ _ _ => tt
  | ENow => 0
  end.

Definition env (w : unit) (r : req) : unit * answer r := (w, answers r).

(** What a handler does and returns in this environment. *)
Definition trace_of {A} (p : @prog req answer A) : trace := (run env p tt).2.
Definition result_of {A} (p : @prog req answer A) : option A := (run env p tt).1.1.

Lemma result_exec {A} (p : @prog req answer A) a :
  result_of p = Some a -> exec p (trace_of p) (Some a).
Proof. intros <-. apply run_exec. Qed.

End Example.
Import Example.

(** ** Handlers *)

Lemma template_update_rebalance_off_witness : guarded template_guard (handleTargetState (cluster 3)).
Proof. apply (template_update_rebalance_off (T := third_party)). Defined.


Lemma shutdown_starts_rebalance_off_witness : guarded (shutdown_start_guard (cluster 3)) (start_shutdown (cluster 3)).
Proof. apply (shutdown_starts_rebalance_off (T := third_party)). Defined.

(** The last of three targets is prepared for removal. *)
Lemma scale_down_prepares_all_witness :
  exists desired, GetTargetSize (cluster 2) = Some desired /\
    forall idx, desired <= idx < 3 ->
      handled (cluster 2) (trace_of (prepareTargetsForScaleDown 3 (cluster 2))) idx.
Proof.
  apply (scale_down_prepares_all (T := third_party) (cluster 2) 3 _ (cluster 2)).
  apply result_exec. vm_compute. reflexivity.
Defined.

Lemma expected_nodes_spec_witness :
  nodes_expected (cluster 3) daemon ∅ (trace_of (expected_nodes (cluster 3) daemon ∅ (cluster 3)))
    ["n1"; "n2"; "n3"].
Proof.
  apply (expected_nodes_spec (T := third_party) (cluster 3) daemon ∅ (cluster 3) _ (cluster 3)).
  apply result_exec. vm_compute. reflexivity.
Defined.

(** ** Templates *)

Definition target_set (n : Z) : option StatefulSet := Target.NewTargetSS (cluster n) n.
Definition proxy_set (n : Z) : option StatefulSet := Proxy.NewProxyStatefulSet (cluster n) n.

(** Any template of a running cluster, such as an empty one. *)
Definition stale : PodTemplateSpec :=
  MkPodTemplate ∅ ∅ (MkPodSpec [] [] false "" "" None [] None None ∅ [] [] "").

Definition settles (o : option StatefulSet) : Prop :=
  match o with
  | None => False
  | Some ss =>
      let desired := sss_Template (ss_Spec ss) in
      let synced := (syncPodTemplate desired stale).1 in
      shouldUpdatePodTemplate desired synced = no_update /\ syncPodTemplate desired synced = (synced, false)
  end.

Lemma templates_converge_witness : settles (target_set 3) /\ settles (proxy_set 3).
Proof.
  split.
  - destruct (target_set 3) as [ss|] eqn:Hss; [|by vm_compute in Hss].
    apply (templates_converge (T := third_party) (cluster 3) 3). left. exact Hss.
  - destruct (proxy_set 3) as [ss|] eqn:Hss; [|by vm_compute in Hss].
    apply (templates_converge (T := third_party) (cluster 3) 3). right. exact Hss.
Defined.

Lemma added_metadata_restarts_nothing_witness :
  match target_set 3, proxy_set 3 with
  | Some ts, Some ps =>
      let d1 := sss_Template (ss_Spec ts) in let d2 := sss_Template (ss_Spec ps) in
      shouldUpdatePodTemplate d1 (before_upgrade d1) = no_update /\
      shouldUpdatePodTemplate d2 (before_upgrade d2) = no_update
  | _, _ => False
  end.
Proof.
  destruct (target_set 3) as [ts|] eqn:Hts; [|by vm_compute in Hts].
  destruct (proxy_set 3) as [ps|] eqn:Hps; [|by vm_compute in Hps].
  assert (index (ais_Annotations (cluster 3)) RestartConfigHashAnnotation ≠ "") as Hne by done.
  split.
  - exact (added_metadata_restarts_nothing (T := third_party) (cluster 3) 3 ts (or_introl (conj Hts eq_refl)) Hne).
  - exact (added_metadata_restarts_nothing (T := third_party) (cluster 3) 3 ps (or_intror (conj Hps eq_refl)) Hne).
Defined.

(** The configuration changes once and changes back. *)
Lemma restart_annotation_history_witness : annotation_after ["a1"; "a1"; "b2"; "a1"] = "a1".
Proof. rewrite restart_annotation_history; [reflexivity|]. by repeat constructor. Defined.

(** ** The admin client *)

Definition client_cluster : AIStore :=
  let s := spec 3 in
  let a := cluster 3 in
  MkAIStore (ais_Name a) (ais_UID a) 1 ∅ [] false
    (MkSpec (Size s) (NodeImage s) (InitImage s) None (spec_StateStorage s) None None None None None
       None None daemon (spec_TargetSpec s) None None None None None None None "" None None None None
       None [] false None (Some (MkAdminClient (Some true) None None (MkResources ∅ ∅) ∅ ∅ ∅ None [] [] None)) None)
    (Status a).

Definition client_desired : option Deployment := NewClientDeployment client_cluster None.

(** The deployment as an older operator left it: with another image and one more label. *)
Definition client_current (d : Deployment) : Deployment :=
  let t := dep_Template d in
  MkDeployment (dep_Name d) (<[ "old" := "label" ]> (dep_Labels d)) ∅ (dep_Owners d) 1 (dep_Selector d)
    (MkPodTemplate (pt_Labels t) (pt_Annotations t)
       (ps_set_containers (pt_Spec t)
          ((fun c => MkContainer (ct_Name c) "aistore/ais-util:old" (ct_ImagePullPolicy c) (ct_Command c)
                       (ct_Args c) (ct_Env c) (ct_Ports c) (ct_Resources c) (ct_SecurityContext c)
                       (ct_VolumeMounts c) (ct_StartupProbe c) (ct_LivenessProbe c) (ct_ReadinessProbe c))
             <$> ps_Containers (pt_Spec t)))).

Lemma client_deployment_converges_witness :
  match client_desired with
  | None => False
  | Some d =>
      match SyncDeployment d (client_current d) with
      | Some (modified, true, _) => SyncDeployment d modified = Some (modified, false, "")
      | _ => False
      end
  end.
Proof.
  destruct client_desired as [d|] eqn:Hd; [|by vm_compute in Hd].
  assert (exists x, SyncDeployment d (client_current d) = Some x /\ x.1.2 = true) as ([[m []] r] & Hs & ?).
  { vm_compute in Hd. injection Hd as <-. eexists. split; [vm_compute|]; reflexivity. }
  2: done.
  rewrite Hs.
  exact (proj1 (client_deployment_converges (T := third_party) _ _ _ _ _ Hs)).
Defined.

(** ** The specification *)

Lemma generated_config_rebalance_witness :
  match GenerateGlobalConfig (cluster 3) with
  | Ok conf => rebalance_of conf = Some true
  | Err _ => False
  end.
Proof.
  destruct (GenerateGlobalConfig (cluster 3)) as [conf|] eqn:Hc; [|by vm_compute in Hc].
  rewrite (generated_config_rebalance (T := third_party) (cluster 3) conf Hc). reflexivity.
Defined.

Lemma validated_sizes_witness :
  exists n m, GetTargetSize (cluster 3) = Some n /\ GetMinReadyTargets (cluster 3) = Some m /\ 1 <= n /\ m = n.
Proof.
  destruct (validated_sizes (T := third_party) (cluster 3)) as [_ (n & m & Hn & Hm & Hfix & _)];
    [vm_compute; reflexivity|].
  exists n, m. destruct (Hfix eq_refl). auto.
Defined.

(** Four replicas, all ready and current, of which three are wanted. *)
Definition four_targets : StatefulSet :=
  MkSS (NN "ais" "demo-target") ∅ ∅ 1
    (MkSSSpec 4 ∅ "" "Parallel" (MkUpdateStrategy OnDeleteStrategy None) [] stale None)
    (MkSSStatus 1 4 4 4 4 "rev1" "rev1").

Lemma scaling_decision_witness : statefulsetScalingNeeded four_targets 3 1 true = true.
Proof.
  apply (scaling_decision four_targets 3 1 true); [unfold is_i32; cbn; lia|].
  right. split; [cbn; lia|]. right. split_and!; [reflexivity..|by left].
Defined.

Lemma certificate_names_stable_witness :
  let '(dns, ips) := SANs_of (cluster 3) (map_to_list (default ∅ (HostnameMap (spec 3)))) ["n1"; "fe80::1"] in
  (dns, ips) = buildCertificateSANs (cluster 3) ["n1"; "fe80::1"].
Proof.
  pose proof (certificate_names_stable (T := third_party) (cluster 3)
    (map_to_list (default ∅ (HostnameMap (spec 3)))) ["n1"; "fe80::1"] (reflexivity _)) as H.
  destruct (SANs_of _ _ _). exact (proj1 H).
Defined.

(** Ordinals 1 and 10 of one cluster: a node of one is not attributed to the other. *)
Lemma node_of_one_pod_witness :
  match findAISNodeByPodName (target <$> [0; 1; 2; 10]) (Target.PodName (cluster 3) 10) with
  | Ok node => findAISNodeByPodName (target <$> [0; 1; 2; 10]) (Target.PodName (cluster 3) 1) ≠ Ok node
  | Err _ => False
  end.
Proof.
  destruct (findAISNodeByPodName (target <$> [0; 1; 2; 10]) (Target.PodName (cluster 3) 10)) as [n|] eqn:H10;
    [|by vm_compute in H10].
  intros H1. pose proof (node_of_one_pod (cluster 3) _ n 1 10 H1 H10). lia.
Defined.

(** ** Admission *)

(** Enough nodes, the storage class of the example, and every access allowed. *)
Definition admission_answers (r : wreq) : wanswer r :=
  match r return wanswer r with
  | WListNodes _ => Ok [node "n1" []; node "n2" []; node "n3" []]
  | WListStorageClasses => Ok ["local"]
  | WGetAuthProfile _ => Err unavailable
  | WGetSecret _ => Err unavailable
  | WGetSecretDirect _ => Err unavailable
  | WGetConfigMapDirect _ => Err unavailable
  | WAdmissionRequest => Ok (MkUserInfo "alice" "" [] ∅)
  | WReview _ => Ok true
  end.

Definition no_diff {A : Type} (_ _ : A) : list string := [].

(** Growing the cluster by a node is admitted, with a warning. *)
Lemma update_judged_witness : update_allowed (cluster 3) (cluster 4).
Proof.
  set (p := ValidateUpdate (T := third_party) (@no_diff) (cluster 3) (cluster 4) tt).
  assert (exists w, exec p (run (fun (_ : unit) r => (tt, admission_answers r)) p tt).2 (Some (tt, (w, None)))) as [w Hex].
  { assert (exists w, (run (fun (_ : unit) r => (tt, admission_answers r)) p tt).1.1 = Some (tt, (w, None))) as [w Hw]
      by (eexists; vm_compute; reflexivity).
    exists w. rewrite <-Hw. apply run_exec. }
  destruct (update_judged (T := third_party) (@no_diff) _ _ _ _ _ _ Hex) as (err0 & _ & H).
  exact (proj2 (proj1 H eq_refl)).
Defined.

(** ** Clients *)

#[local] Instance services_lib : ServicesLib := {|
  ValidPEM s := bool_decide (s ≠ "");
  url_JoinPath base path := Ok (base +:+ path);
  DecodeTokenResponse s := Ok (MkTokenResponse s "Bearer" 0 "" "");
  ParseBool s := if bool_decide (s = "true") then Ok true else Err (errorf s);
  ParseDuration s := Err (errorf s);
  IsHTTPS s := has_prefix s "https://";
  opinfo_ServiceAccount := NN "ais-operator-system" "ais-operator"
|}.

(** The network is down, except for the API of the cluster. *)
Definition service_answers (r : sreq) : sanswer r :=
  match r return sanswer r with
  | SNow => 1000 * second
  | SLookupEnv _ => None
  | SGetService _ => Err unavailable | SListPods _ _ => Err unavailable
  | SGetAuthProfile _ => Err unavailable | SGetSecret _ => Err unavailable
  | SGetConfigMap _ => Err unavailable | SStat _ => Err unavailable
  | SReadFile _ => Err unavailable | SWalk _ => Err unavailable
  | SSystemCertPool => Ok tt
  | SMintToken _ _ _ => Err unavailable | SLoginUser _ _ _ _ => Err unavailable
  | SPost _ _ _ => Err unavailable
  | SApi _ op => Err unavailable
  end.

Definition get_client (ais : AIStore) (m : Services) := GetClient (MkTLSOpts "/etc/ais/tls" false) ais m.
Definition client_trace (ais : AIStore) (m : Services) : strace :=
  (run (fun (_ : unit) r => (tt, service_answers r)) (get_client ais m) tt).2.
Definition client_result (ais : AIStore) (m : Services) : option (Services * res Z) :=
  (run (fun (_ : unit) r => (tt, service_answers r)) (get_client ais m) tt).1.1.

Lemma client_exec ais m x : client_result ais m = Some x -> exec (get_client ais m) (client_trace ais m) (Some x).
Proof. intros <-. apply run_exec. Qed.

Definition no_clients : Services := MkServices ∅ 1 ∅ None.
Lemma no_clients_ok : store_ok no_clients.
Proof. by split. Qed.

(** The store after the first call. *)
Definition one_client (ais : AIStore) : Services :=
  match client_result ais no_clients with Some (m, _) => m | None => no_clients end.

Lemma client_handed_out_good_witness :
  client_good (cluster 3) no_clients (one_client (cluster 3)) 1 (client_trace (cluster 3) no_clients).
Proof.
  apply (client_handed_out_good (T := third_party) (MkTLSOpts "/etc/ais/tls" false)); [exact no_clients_ok|].
  apply client_exec. vm_compute. reflexivity.
Defined.

Lemma clients_isolated_witness :
  store_ok (one_client (cluster 3)) /\ others_kept (NN "ais" "demo") no_clients (one_client (cluster 3)).
Proof.
  apply (clients_isolated (T := third_party) (MkTLSOpts "/etc/ais/tls" false) (cluster 3) no_clients
    (client_trace (cluster 3) no_clients) (one_client (cluster 3)) (Ok 1)); [exact no_clients_ok|].
  apply client_exec. vm_compute. reflexivity.
Defined.

Definition signing_cluster : AIStore :=
  let a := cluster 3 in
  let s := spec 3 in
  MkAIStore (ais_Name a) (ais_UID a) 1 ∅ [] false
    (MkSpec (Size s) (NodeImage s) (InitImage s) None (spec_StateStorage s) None None None None None
       None None daemon (spec_TargetSpec s) None None None None None None None "" None None (Some "signing-key") None
       None [] false None None None)
    (Status a).

(** The second call does not reuse the client of the first. *)
Lemma signing_key_renews_clients_witness : clients (one_client signing_cluster) !! 2 = None.
Proof.
  refine (proj1 (proj2 (proj2 (signing_key_renews_clients (T := third_party) (MkTLSOpts "/etc/ais/tls" false) signing_cluster
    (one_client signing_cluster) (client_trace signing_cluster (one_client signing_cluster))
    (match client_result signing_cluster (one_client signing_cluster) with Some (m, _) => m | None => no_clients end)
    2 "signing-key" eq_refl eq_refl _ _)) _)).
  - apply (clients_isolated (T := third_party) (MkTLSOpts "/etc/ais/tls" false) signing_cluster no_clients
      (client_trace signing_cluster no_clients) (one_client signing_cluster) (Ok 1)); [exact no_clients_ok|].
    apply client_exec. vm_compute. reflexivity.
  - apply client_exec. vm_compute. reflexivity.
  - intros a c Ha. vm_compute in Ha. injection Ha as <-. intros Hc. vm_compute in Hc. by injection Hc as <-.
Defined.

(** ** Goroutines on one TLS cache *)

Inductive move := Go (i : nat) | Call (i : nat) | Wait (d : Z).

Definition auth_service : AuthConfig :=
  AuthProfileConfig (MkAuthProfile "main" false "https://authn.ais:52001" None None None).
Definition ttl_services : Services := MkServices ∅ 1 ∅ (Some defaultTLSConfigCacheTTL).

(** A goroutine that cannot go on is passed over. *)
Definition make_move (s : conc) (x : move) : conc :=
  match x with
  | Go i => default s (go auth_service ttl_services defaultTLSConfigCacheTTL service_answers i s)
  | Call i => if goroutines s !! i then s else at_pc i Called s
  | Wait d => tick (Z.max 0 d) s
  end.

Lemma moves_rtc l : forall s, rtc (step auth_service ttl_services defaultTLSConfigCacheTTL) s (foldl make_move s l).
Proof.
  induction l as [|x l IH]; intros s; [done|]. cbn [foldl]. etrans; [|apply IH]. destruct x as [i|i|d]; cbn.
  - destruct (go _ _ _ _ i s) as [s'|] eqn:Hgo; [|done]. by eapply rtc_once, step_go.
  - destruct (goroutines s !! i) eqn:Hi; [done|]. by apply rtc_once, step_call.
  - apply rtc_once, step_tick. lia.
Qed.

(** Two calls find the cache empty and wait for the lock; the second builds. *)
Definition race : list move :=
  [Call 0; Call 1; Go 0; Go 1; Go 0; Go 0; Go 1; Go 1; Go 1; Go 1; Go 0; Go 1].
(** It finishes, then the first, then one seven hours later. *)
Definition race_ends : list move :=
  replicate 10 (Go 1) ++ replicate 10 (Go 0) ++ [Wait (7 * hour); Call 2] ++ replicate 20 (Go 2).
Definition race_cache : conc := foldl make_move (idle_cache 0) race.
Definition race_end : conc := foldl make_move race_cache race_ends.

Example race_waits : goroutines race_cache !! 0%nat = Some Waiting /\ writer race_cache = Some 1%nat.
Proof. by vm_compute. Qed.

Example race_builds_once :
  (length ∘ op_trace <$> oplog race_end) = [3%nat; 1%nat; 5%nat] /\ (op_by <$> oplog race_end) = [1%nat; 0%nat; 2%nat] /\
  results (oplog race_end) 0 = results (oplog race_end) 1.
Proof. by vm_compute. Qed.

Lemma ttl_once : exec (getTLSConfigCacheTTL no_clients) [ev (SLookupEnv AuthTLSCacheTTLEnv) None]
  (Some (ttl_services, defaultTLSConfigCacheTTL)).
Proof. apply exec_do. exact (exec_ret (ttl_services, defaultTLSConfigCacheTTL)). Qed.

Lemma tls_cache_linearizable_witness :
  oplog race_cache `prefix_of` oplog race_end /\ sequential auth_service ttl_services (oplog race_end) /\
  results (oplog race_end) 0 = [Some (Ok (MkTLSConfig true (Some (MkCertPool true [])) false None))].
Proof.
  destruct (tls_cache_linearizable auth_service no_clients ttl_services defaultTLSConfigCacheTTL _ eq_refl ttl_once
    0 race_cache race_end (moves_rtc race (idle_cache 0)) (moves_rtc race_ends race_cache)) as (H1 & H2 & _ & _ & H3 & _).
  split_and!; [exact H1|exact H2|]. apply H3. vm_compute. reflexivity.
Defined.
