(* ===== verification/AuthWitnesses.v ===== *)
(** * Concrete instances, continued

    The AuthN server, the auth webhooks, the operator's identity, and the rollout loop. *)

From S2P Require Import Prelude Effects K8sTypes AISConfig AIStoreTypes ThirdParty AuthConf AIStoreMethods GlobalConfig CmnResources TargetResources Rollout Requests TargetRollout ProxyController Cluster Completion Deletion RolloutProgress NodeEvents Webhook AuthTypes AuthResources AuthController AuthFacts AuthWebhooks AuthWebhookFacts OpInfo Witnesses.

Import Reference Witnesses.Example.

(** ** The AuthN server *)

Module AuthExample.

#[export] Instance auth_lib : AuthLib := {|
  ValidateAuthnConfig c := Ok c;
  MarshalAuthnConfig _ := Ok "{}";
  MarshalSetting s := Ok s;
  UnmarshalSetting s := Ok s;
  url_Hostname s := if has_prefix s "https://" then Some (String.substring 8 1000 s) else None;
  FindStatusCondition cs t := List.find (fun c => bool_decide (cond_Type c = t)) cs;
  RemoveControllerReference r owners := Ok (filter (fun o => or_UID o ≠ or_UID r) owners);
  aisenv_AisAuthAdminUsername := "AIS_AUTHN_SU_NAME";
  aisenv_AisAuthAdminPassword := "AIS_AUTHN_SU_PASS";
  aisenv_AisAuthPrivateKeyPass := "AIS_AUTHN_PRIVATE_KEY_PASS"
|}.

Definition authn (finalizers : list string) (deleting : bool) : AIStoreAuth :=
  MkAuth (NN "ais" "authn") "uid-a" 4 deleting finalizers
    (MkAuthServerSpec (Some "admin") (Some "hmac") None None
       (Some (MkAuthTLSSpec None (Some (MkAuthTLSCertificate (MkCertIssuerRef "ca" "Issuer") [] None None AuthTLSModeDefault))))
       (MkPersistence None (Some "local") None PersistenceRetain)
       (Some (MkAuthExternalAccess (Some (MkNodePortSpec 30101)) None))
       (MkAuthDeploymentSpec (MkAuthContainerSpec "authn:v1" "IfNotPresent" None None None None) None))
    (MkAuthStatus [] 3 "").

Definition rolled_out : AppliedDeployment :=
  MkApplied (Some (Some 4)) (Some (Some 1)) (Some (MkAppliedStatus (Some 4) (Some 1) (Some 1) (Some 1) [])).

(** Every apply is accepted; patches are stored. *)
Definition auth_answers (a : AIStoreAuth) (r : areq) : aanswer r :=
  match r return aanswer r with
  | AGetAuth _ => Ok a
  | AGetService n => Err (MkError EkNotFound (nn_name n))
  | AGetPVC _ => Ok [AuthRes.NewAIStoreAuthControllerRef a]
  | AApplyConfigMap _ | AApplyPVC _ | AApplyService _ | AApplyCertificate _ => Ok tt
  | AApplyDeployment _ => Ok rolled_out
  | ADeleteService _ _ | ADeleteCertificate _ | APatchPVC _ _ _ => Ok tt
  | APatchAuth _ m | APatchAuthStatus _ m => Ok m
  | AEvent _ _ _ _ => tt
  end.

Definition auth_run (a : AIStoreAuth) :=
  run (fun (_ : unit) r => (tt, auth_answers a r)) (AuthCtl.Reconcile (au_Name a) a) tt.

Lemma auth_exec a s : (auth_run a).1.1 = Some (s, Ok tt) ->
  exec (AuthCtl.Reconcile (au_Name a) a) (auth_run a).2 (Some (s, Ok tt)).
Proof. intros <-. apply run_exec. Qed.
End AuthExample.
Import AuthExample.

(** A deletion that keeps the claim: the patch that removes the finalizer is guarded. *)
Lemma auth_data_retained_witness :
  guarded (fun t r => finalizer_guard t r /\ ownership_guard t r)
    (AuthCtl.Reconcile (NN "ais" "authn") (authn [AuthCtl.authnFinalizer] true)).
Proof. apply (auth_data_retained (T := third_party)). Defined.

(** A first reconciliation, which ends with a status that says ready. *)
Lemma auth_status_and_errors_witness :
  exists s, (auth_run (authn [] false)).1.1 = Some (s, Ok tt) /\ AuthCtl.isReady s = true /\
    completed (NN "ais" "authn") (auth_run (authn [] false)).2.
Proof.
  assert (exists s, (auth_run (authn [] false)).1.1 = Some (s, Ok tt) /\ AuthCtl.isReady s = true) as (s & Hs & Hr).
  { eexists. split; vm_compute; reflexivity. }
  exists s. split; [exact Hs|]. split; [exact Hr|].
  exact (proj2 (auth_status_and_errors (T := third_party) (NN "ais" "authn") (authn [] false)) _ s
    (auth_exec (authn [] false) s Hs)).
Defined.

(** ** Admission *)

Module HookExample.

Definition scheme_prefix (s : string) : string * string :=
  if has_prefix s "https://" then ("https", String.substring 8 1000 s)
  else if has_prefix s "http://" then ("http", String.substring 7 1000 s) else ("", s).

(** Enough of a parser for the example: a scheme and a host, or a path. *)
#[export] Instance admission_lib : AdmissionLib := {|
  url_Parse s :=
    let '(scheme, rest) := scheme_prefix s in
    Ok (if bool_decide (scheme = "") then MkURL "" "" rest "" "" else MkURL scheme rest "" "" "");
  AggregateMessage _ := ""
|}.

Definition profile : AIStoreAuthProfile :=
  MkAuthProfile "prod" false "http://authn.example.com" None
    (Some (MkAuthProfileUserPass (MkAuthProfileSecret "login" "ais" "" "") None)) None.

Definition cluster_state : snapshot :=
  MkSnapshot (MkUserInfo "alice" "" [] ∅) (fun u _ => bool_decide (ui_Username u = "alice"))
    (fun n => if bool_decide (nn_name n = "login")
              then Ok {[ DefaultAuthProfileUserKey := "u"; DefaultAuthProfilePassKey := "p" ]}
              else Err (MkError EkNotFound (nn_name n)))
    (fun n => Err (MkError EkNotFound (nn_name n))).
End HookExample.
Import HookExample.

(** A profile the user may see is accepted. *)
Lemma auth_admission_refines_witness : profile_accepted cluster_state profile.
Proof.
  set (p := ProfileHook.ValidateCreate false profile tt).
  destruct (auth_admission_refines cluster_state false) as [Hp _].
  destruct (Hp profile profile _ _ (or_introl (run_exec (fun (_ : unit) r => (tt, answer_of cluster_state r)) p tt))
    (run_agrees (answer_of cluster_state) p)) as (ws & err & Ho & Hacc).
  apply Hacc. vm_compute in Ho. by injection Ho as _ <-.
Defined.

(** ** The operator *)

Lemma identity_roundtrip_witness :
  domainFromResolvConf
    (text_of ["nameserver 10.96.0.10"; search_line "ais-operator-system" "cluster.local"; "options ndots:5"]) None =
    Ok "cluster.local" /\
  service_account_of "system:serviceaccount:ais-operator-system:operator" = Ok (NN "ais-operator-system" "operator").
Proof.
  destruct (identity_roundtrip "ais-operator-system" "cluster.local" ["nameserver 10.96.0.10"] ["options ndots:5"]
    None) as [Hd Hs].
  - by split.
  - by split_and!.
  - constructor; [|constructor]. by split.
  - repeat constructor.
  - by vm_compute.
  - split; [exact Hd|]. by apply Hs.
Defined.

(** ** The rollout loop *)

Module LoopExample.

Definition target_id (j : nat) : string := "t" +:+ pretty (Z.of_nat j).

(** The cluster map that shows the targets as they are: the maintenance flag of a target on
    the old revision. *)
Definition map_of (ts : list RolloutProgress.target) : Smap :=
  MkSmap "c1" 7 []
    (imap (fun j t => MkSnode (target_id j) (Target.PodName (cluster 2) (Z.of_nat j)) ""
                        match t with Waiting true => 1 | _ => 0 end) ts) None.

Definition fresh : world := MkWorld [Waiting false; Waiting false] 3.
End LoopExample.
Import LoopExample.

(** Two targets, a restart of at most two rounds, three failures: thirteen rounds. *)
Lemma rollout_converges_witness :
  exists w', nsteps (round (cluster 2) 2 "rev2" 2 target_id) 13 fresh w' /\ all_updated w' /\ staged (targets w').
Proof.
  destruct (rollout_converges (T := third_party) (cluster 2) 2 "rev2" 2 target_id ltac:(done)) with (N := 13%nat) (w := fresh)
    as [[w' Hr] Hall].
  - intros ts Hts. exists (map_of ts). destruct ts as [|t1 [|t2 []]]; try done.
    intros [|[|j]] b; cbn; intros [= ->]; (eexists; split_and!; [vm_compute; reflexivity|done|by destruct b]).
  - split; [done|]. by intros [|[|j]] d.
  - exists w'. destruct (Hall w' Hr) as [Hs Hu]. split_and!; [exact Hr | apply Hu; cbn; lia | apply Hs].
    exists 0%nat. intros [|[|j]] t; cbn; intros [= <-]; eauto with lia.
Defined.

(** ** The loop of a deletion *)

Module DeletionExample.

(** The cluster of three, ready when it is deleted. *)
Definition doomed : AIStore :=
  MkAIStore (ais_Name (cluster 3)) "uid-1" 1 ∅ [aisFinalizer] true (spec 3) (Status (cluster 3)).

(** Everything the clean-up deletes by name exists, and one claim; one request will fail. *)
Definition doomed_world : Deletion.world :=
  Deletion.MkWorld (Some doomed) Serving (named_resources doomed) 1 100 0 1.
End DeletionExample.
Import DeletionExample.

(** Fourteen resources by name, a claim, two rounds to leave, a failure: 49 rounds. *)
Lemma deletion_completes_witness :
  exists w', nsteps (Deletion.round doomed 2) 49 doomed_world w' /\ released w' /\ nothing_left doomed (live w').
Proof.
  destruct (deletion_completes (T := third_party) doomed 2) with (N := 49%nat) (w := doomed_world) as [[w' Hr] Hall].
  - split; [|done]. split; try done. by intros [].
  - done.
  - exists w'. split; [exact Hr|]. apply (Hall w' Hr). vm_compute. lia.
Defined.

(** The passes against a world that answers at once: to the daemons leaving, the clean-up of
    the resources, and the end. *)
Fixpoint rounds (n : nat) (w : Deletion.world) : Deletion.world :=
  match n with
  | O => w
  | S n' =>
      let w1 := (run (fun w r => let '(x, w') := served 1 w r in (w', x)) (Reconcile (ais_Name doomed)) w).1.2 in
      rounds n' (Deletion.with_clock (with_daemons w1 (tick_service (daemons w1))) (clock w1 + cleanupJobDelay))
  end.
Definition state_after (n : nat) : option ClusterState := State ∘ Status <$> stored (rounds n doomed_world).

Example deletion_run :
  (state_after <$> [0; 1; 2; 3; 4; 5; 6; 7]%nat) =
    [Some ClusterReady; Some ClusterDecommissioning; Some ClusterDecommissioning; Some ClusterCleanup;
     Some ClusterCleanup; Some HostCleanup; Some ClusterFinalized; None] /\
  live (rounds 7 doomed_world) = [].
Proof. by vm_compute. Qed.

(** ** A reconciliation that runs to its end *)

(** The API server stores what it is sent; there are no StatefulSets yet. *)
Definition bootstrap_answers (r : req) : answer r :=
  match r return answer r with
  | KGetAIStore _ => Ok (cluster 3)
  | KPatchAIStore _ m =>
      Ok (set_status (set_finalizers (set_annotations (cluster 3) (ais_Annotations m)) (ais_Finalizers m)) (Status m))
  | KPatchStatus _ st => Ok (set_status (cluster 3) st)
  | KGetDeployment n => Err (MkError EkNotFound (nn_name n))
  | KGetStatefulSet n => Err (MkError EkNotFound (nn_name n))
  | r => answers r
  end.

Definition bootstrap_run := run (fun (_ : unit) r => (tt, bootstrap_answers r)) (Reconcile (ais_Name (cluster 3))) tt.

Lemma bootstrap_acceptable e : agrees bootstrap_answers e -> acceptable true e.
Proof.
  destruct e as [r x]. unfold agrees. cbn. intros ->.
  destruct r; split; cbn; try done; by intros ? [= <-].
Qed.

(** The pass adds the finalizer, writes its states, and creates the proxy StatefulSet. *)
Lemma reconcile_completes_witness : exists r, bootstrap_run.1.1 = Some r.
Proof.
  apply (reconcile_completes (T := third_party) true) with (request := ais_Name (cluster 3)) (t := bootstrap_run.2).
  - apply run_exec.
  - eapply Forall_impl; [apply run_agrees | apply bootstrap_acceptable].
Defined.

Example bootstrap_outcome : bootstrap_run.1.1 = Some (requeue proxyStartupInterval).
Proof. by vm_compute. Qed.

(** ** Events *)

