(* ===== verification/LoopWitnesses.v ===== *)
(** * Concrete instances: closed loops of [Reconcile]

    The loop of [BecomesReady] on the example cluster, from the object just created and after a
    shutdown, the loop of [Shutdown] on one that is ready, the loop of [ProxyProgress] after a change of
    the pod template, and that of [TargetScaleDown] from three targets to one. *)

From stdpp Require Import relations.
From S2P Require Import Prelude Effects ClosedLoop K8sTypes AISConfig AIStoreTypes ThirdParty AuthConf AIStoreMethods Validation ProxyResources Requests ProxyController LoopStages Cluster ProxyProgress TargetResources TargetController TargetScaleDown Shutdown Bootstrap BecomesReady Witnesses.

Import Reference Witnesses.Example.

Module BootExample.

(** The cluster of three, just created; one request will fail. *)
Definition newborn : AIStore :=
  MkAIStore (NN "ais" "demo") "uid-1" 1 ∅ [] false (spec 3) (MkStatus NoState (MkAutoScaleStatus [] []) "" "" []).
Definition empty_world : world := MkWorld newborn None None 0 0 1.

Lemma newborn_bootable : bootable newborn 3 3.
Proof.
  split; try (by vm_compute). all: try done.
Qed.

Lemma reference_encodes : encodes third_party.
Proof.
  split; cbn; try (by eauto). by intros [].
Qed.
End BootExample.
Import BootExample.

(** Pods up within two rounds, one failure: fifteen rounds. *)
Lemma cluster_becomes_ready_witness :
  exists w', nsteps (round newborn 3 3 "c1" 2) 15 empty_world w' /\ at_rest newborn 3 3 "c1" w' = true.
Proof.
  destruct (cluster_becomes_ready (T := third_party) newborn 3 3 "c1" 2 newborn_bootable reference_encodes)
    with (N := 15%nat) (w := empty_world) as [[w' Hr] Hall].
  - by apply new_cluster_ok.
  - by intros wl [].
  - exists w'. split; [exact Hr|]. apply (Hall w' Hr). vm_compute. lia.
Defined.

(** The passes against a world that answers at once and whose pods take two rounds. *)
Definition pass (w : world) : world * option (Result * option error) :=
  let '(o, w1, _) := run (fun w r => let '(x, w') := served newborn 3 3 "c1" 2 w r in (w', x)) (Reconcile (ais_Name newborn)) w in
  (w1, o).
Fixpoint rounds (n : nat) (w : world) : world :=
  match n with O => w | S n' => rounds n' (tick (pass w).1) end.

(** The state, the sizes of the two StatefulSets, and whether the cluster is at rest. *)
Definition seen (n : nat) : ClusterState * option Z * option Z * bool :=
  let w := rounds n empty_world in
  (State (Status (stored w)), sss_Replicas ∘ wl_spec <$> proxies w, sss_Replicas ∘ wl_spec <$> targets w,
   at_rest newborn 3 3 "c1" w).

(** A proxy first, then all the daemons; ready, and left alone. *)
Example bootstrap_rounds :
  (seen <$> [0; 1; 2; 3; 4; 5]%nat) =
    [(NoState, None, None, false); (ClusterInitialized, Some 1, None, false);
     (ClusterInitialized, Some 3, Some 3, false); (ClusterCreated, Some 3, Some 3, false);
     (ClusterReady, Some 3, Some 3, true); (ClusterReady, Some 3, Some 3, true)] /\
  pass (rounds 5 empty_world) = (rounds 4 empty_world, Some finished).
Proof. by vm_compute. Qed.

(** The cluster shut down and let run again: the StatefulSets at size zero. *)
Definition halted : world :=
  let w := rounds 5 empty_world in
  let zero wl := MkWorkload (ss_Spec (ss_set_replicas (present (NN "" "") wl) 0)) 0 in
  MkWorld (SetState ClusterShutdown (stored w)) (zero <$> proxies w) (zero <$> targets w) 0 0 0.
Definition seen_again (n : nat) : ClusterState * option Z * option Z * bool :=
  let w := rounds n halted in
  (State (Status (stored w)), sss_Replicas ∘ wl_spec <$> proxies w, sss_Replicas ∘ wl_spec <$> targets w,
   at_rest newborn 3 3 "c1" w).

(** The proxies first, then the targets. *)
Example restart_rounds :
  (seen_again <$> [0; 1; 2; 3; 4; 5; 6]%nat) =
    [(ClusterShutdown, Some 0, Some 0, false); (ClusterUpgrading, Some 3, Some 0, false);
     (ClusterUpgrading, Some 3, Some 0, false); (ClusterUpgrading, Some 3, Some 3, false);
     (ClusterUpgrading, Some 3, Some 3, false); (ClusterReady, Some 3, Some 3, true);
     (ClusterReady, Some 3, Some 3, true)].
Proof. by vm_compute. Qed.

(** ** Shutdown *)

Module ShutdownExample.

(** The ready cluster of three, to be shut down; three pods each, and two requests will fail. *)
Definition tired_spec : AIStoreSpec :=
  let s := spec 3 in
  MkSpec (Size s) (NodeImage s) (InitImage s) (LogSidecar s) (spec_StateStorage s) (HostpathPrefix s)
    (StateStorageClass s) (spec_ConfigToUpdate s) (IssuerCAConfigMap s) (HostnameMap s) (APIMode s)
    (NetAttachment s) (ProxySpec s) (spec_TargetSpec s) (Some true) (CleanupMetadata s) (CleanupData s)
    (spec_ClusterDomain s) (GCPSecretName s) (AWSSecretName s) (OCISecretName s) (LogsDirectory s) (TLS s)
    (TracingTokenSecretName s) (AuthNSecretName s) (Auth s) (OperatorSkipVerifyCrt s) (ImagePullSecrets s)
    (EnableExternalLB s) (PublicNetDNSMode s) (AdminClient s) (PriorityClassName s).
Definition tired : AIStore :=
  MkAIStore (NN "ais" "demo") "uid-1" 1 ∅ ["finalize.ais"] false tired_spec (Status (cluster 3)).
Definition tired_world : Shutdown.world :=
  Shutdown.MkWorld tired (Shutdown.MkPods 3 0) (Shutdown.MkPods 3 0) 2.
End ShutdownExample.
Import ShutdownExample.

(** Pods gone within two rounds, two failures: nine rounds. *)
Lemma shutdown_completes_witness :
  exists w', nsteps (Shutdown.round tired 2) 9 tired_world w' /\ Shutdown.down w' = true.
Proof.
  destruct (Shutdown.shutdown_completes (T := third_party) tired 2 reference_encodes eq_refl)
    with (N := 9%nat) (w := tired_world) as [[w' Hr] Hall].
  - by split.
  - cbn. lia.
  - cbn. lia.
  - exists w'. split; [exact Hr|]. apply (Hall w' Hr). cbn. lia.
Defined.

(** The passes against a world that answers at once and whose pods take two rounds to go. *)
Fixpoint shutdown_rounds (n : nat) (w : Shutdown.world) : Shutdown.world :=
  match n with
  | O => w
  | S n' =>
      let '(_, w1, _) := run (fun w r => let '(x, w') := Shutdown.obeys tired 2 w r in (w', x)) (Reconcile (ais_Name tired)) w in
      shutdown_rounds n' (Shutdown.tick w1)
  end.
Definition shutdown_seen (n : nat) : ClusterState * Z * Z :=
  let w := shutdown_rounds n tired_world in
  (State (Status (Shutdown.stored w)), Shutdown.asked (Shutdown.proxies w), Shutdown.asked (Shutdown.targets w)).

(** The proxies first, then the targets. *)
Example shutdown_run :
  (shutdown_seen <$> [0; 1; 2; 3; 4; 5; 6]%nat) =
    [(ClusterReady, 3, 3); (ClusterShuttingDown, 0, 3); (ClusterShuttingDown, 0, 3); (ClusterShuttingDown, 0, 0);
     (ClusterShuttingDown, 0, 0); (ClusterShutdown, 0, 0); (ClusterShutdown, 0, 0)].
Proof. by vm_compute. Qed.

(** ** Rollout of the proxies *)

Module ProxyExample.

Definition proxy_id (j : nat) : string := "proxy-" +:+ pretty (Z.of_nat j).
#[export] Instance proxy_id_inj : Inj (=) (=) proxy_id.
Proof. intros i j Hij. apply (inj (String.append _)) in Hij. apply (inj pretty) in Hij. lia. Qed.

Definition built : StatefulSet :=
  default (MkSS (NN "" "") ∅ ∅ 0 (MkSSSpec 0 ∅ "" "" (MkUpdateStrategy DefaultStrategy None) []
    (MkPodTemplate ∅ ∅ (MkPodSpec [] [] false "" "" None [] None None ∅ [] [] "")) None) (MkSSStatus 0 0 0 0 0 "" ""))
    (Proxy.NewProxyStatefulSet (cluster 3) 3).
Definition wanted : PodTemplateSpec := sss_Template (ss_Spec built).

(** Three proxies with a template that is no longer the one wanted, the last the primary; one
    request will fail. *)
Definition outdated_spec : StatefulSetSpec :=
  let s := ss_Spec built in
  MkSSSpec 3 (sss_Selector s) (sss_ServiceName s) (sss_PodManagementPolicy s)
    (MkUpdateStrategy RollingUpdateStrategy (Some 0)) (sss_VolumeClaimTemplates s)
    (MkPodTemplate ∅ ∅ (pt_Spec (sss_Template s))) (sss_PVCRetentionPolicy s).
Definition outdated : ProxyProgress.world :=
  ProxyProgress.MkWorld outdated_spec false [ProxyProgress.New; ProxyProgress.New; ProxyProgress.New] 2 1.
End ProxyExample.
Import ProxyExample.

(** Proxies back within two rounds, one failure: seventeen rounds. *)
Lemma proxy_rollout_completes_witness :
  exists w', nsteps (ProxyProgress.round (T := third_party) (cluster 3) 2 proxy_id) 17 outdated w' /\
    ProxyProgress.done_ (T := third_party) (cluster 3) wanted w'.
Proof.
  destruct (ProxyProgress.proxy_rollout_completes (T := third_party) (cluster 3) 3 2 proxy_id wanted proxy_id_inj)
    with (built := built) (N := 17%nat) (w := outdated) as [[w' Hr] Hall].
  - done.
  - done.
  - by vm_compute.
  - by vm_compute.
  - by vm_compute.
  - done.
  - split; [done|done|done|cbn; unfold ProxyProgress.n; lia| | |by repeat constructor].
    + intros [|[|[|j]]] d; done.
    + intros [|[|[|i]]] j a b; done.
  - exists w'. split; [exact Hr|]. apply (Hall w' Hr). cbn. unfold ProxyProgress.n. lia.
Defined.

(** The calls against a world that answers at once and whose proxies are back a round later. *)
Fixpoint proxy_rounds (k : nat) (w : ProxyProgress.world) : ProxyProgress.world :=
  match k with
  | O => w
  | S k' =>
      let '(_, w1, _) := run (fun w r => let '(x, w') := ProxyProgress.obeys (cluster 3) proxy_id w r in (w', x))
                             (handleProxyState (cluster 3)) w in
      proxy_rounds k' (ProxyProgress.tick 0 w1)
  end.
Definition proxies_seen (k : nat) : list ProxyProgress.proxy * nat * Z :=
  let w := proxy_rounds k outdated in
  (ProxyProgress.pods w, ProxyProgress.primary w, ProxyProgress.partition_of (ProxyProgress.set w)).

(** The first proxy leads while the others are replaced, then the last leads. *)
Example proxy_rollout_run :
  let O_ := ProxyProgress.Old in let N_ := ProxyProgress.New in let D_ := ProxyProgress.Down 0 in
  (proxies_seen <$> [0; 1; 2; 3; 4; 5; 6; 7; 8]%nat) =
    [([N_; N_; N_], 2%nat, 0); ([O_; O_; D_], 0%nat, 1); ([O_; O_; N_], 0%nat, 1); ([O_; D_; N_], 0%nat, 1);
     ([O_; N_; N_], 2%nat, 0); ([D_; N_; N_], 2%nat, 0); ([N_; N_; N_], 2%nat, 0); ([N_; N_; N_], 2%nat, 0);
     ([N_; N_; N_], 2%nat, 0)].
Proof. by vm_compute. Qed.

(** A second template while the first is half rolled out: proxies 1 and 2 run the first, so only
    proxy 0 is on the revision before both and [currentReplicas] is 1. None runs the second
    template yet, but the partition is reset, and the proxy made primary for it is the next to be
    replaced. *)
Definition half_way : ProxyProgress.world :=
  let s := ss_Spec built in
  ProxyProgress.MkWorld
    (MkSSSpec 3 (sss_Selector s) (sss_ServiceName s) (sss_PodManagementPolicy s) (partitioned 1)
       (sss_VolumeClaimTemplates s) (sss_Template s) (sss_PVCRetentionPolicy s))
    true [ProxyProgress.Old; ProxyProgress.Old; ProxyProgress.Old] 0 0.
Definition half_way_seen : StatefulSet :=
  MkSS (Proxy.StatefulSetNSName (cluster 3)) ∅ ∅ 0 (ProxyProgress.set half_way) (MkSSStatus 0 3 3 1 0 "before" "second").

Example second_template_resets_early :
  let '(_, w, _) := run (fun w r => let '(x, w') := ProxyProgress.obeys (cluster 3) proxy_id w r in (w', x))
                        (handleProxyRollout half_way_seen (cluster 3)) half_way in
  ProxyProgress.primary w = 2%nat /\
  ProxyProgress.pods (ProxyProgress.tick 0 w) = [ProxyProgress.Old; ProxyProgress.Old; ProxyProgress.Down 0].
Proof. by vm_compute. Qed.

(** ** Scale-down of the targets *)

Module ScaleDownExample.

Definition scaled_id (j : nat) : string := "target-" +:+ pretty (Z.of_nat j).
#[export] Instance scaled_id_inj : Inj (=) (=) scaled_id.
Proof. intros i j Hij. apply (inj (String.append _)) in Hij. apply (inj pretty) in Hij. lia. Qed.

(** The members, with the flags of the cluster map. *)
Definition node_of (x : nat * TargetScaleDown.member) : Snode :=
  MkSnode (scaled_id x.1) (Target.PodName (cluster 1) (Z.of_nat x.1)) ""
    match x.2 with TargetScaleDown.Maint => 1 | TargetScaleDown.Leaving _ _ => 2 | _ => 0 end.
Definition scaled_map (ms : list TargetScaleDown.member) : Smap :=
  MkSmap "c1" 7 [] (node_of <$> List.filter (fun x => TargetScaleDown.in_map x.2) (imap pair ms)) None.

Lemma scaled_map_true w : Z.of_nat (length (TargetScaleDown.members w)) <= 2 ->
  TargetScaleDown.mapped (T := third_party) (cluster 1) scaled_id w (scaled_map (TargetScaleDown.members w)).
Proof.
  destruct w as [a n ms f r]. cbn. intros Hl. destruct ms as [|m0 [|m1 [|]]]; [| | |cbn in Hl; lia].
  - by split.
  - split; [intros [|j] m; cbn; intros [= <-]|]; by destruct m0.
  - split; [intros [|[|j]] m; cbn; intros [= <-]|]; by destruct m0, m1.
Qed.

(** Some targets where one is asked for; one request will fail. *)
Definition shrinking (ms : list TargetScaleDown.member) : TargetScaleDown.world :=
  TargetScaleDown.MkWorld (cluster 1) (Z.of_nat (length ms)) ms 1 [].
Lemma shrinking_ok m1 :
  TargetScaleDown.rounds_left_ok 1 m1 ->
  TargetScaleDown.world_ok (cluster 1) 1 1 (shrinking [TargetScaleDown.Active; m1]).
Proof.
  intros H1. split; try done; [|by repeat first [done|constructor]].
  intros [|j] m Hj; cbn; [by intros [= <-]; left|]. unfold TargetScaleDown.kept in Hj. lia.
Qed.
End ScaleDownExample.
Import ScaleDownExample.

(** A target gone within a round and backing off within another, one failure: seven rounds.
    If it was in maintenance before, there are two replicas still. *)
Lemma scale_down_completes_witness :
  (exists w', nsteps (TargetScaleDown.round (T := third_party) (cluster 1) 1 1 scaled_id) 7
                (shrinking [TargetScaleDown.Active; TargetScaleDown.Active]) w' /\
     TargetScaleDown.asked w' = 1) /\
  (exists w', nsteps (TargetScaleDown.round (T := third_party) (cluster 1) 1 1 scaled_id) 7
                (shrinking [TargetScaleDown.Active; TargetScaleDown.Maint]) w' /\
     TargetScaleDown.asked w' = 2).
Proof.
  assert (forall w, Z.of_nat (length (TargetScaleDown.members w)) <= 2 ->
    exists smap, TargetScaleDown.mapped (T := third_party) (cluster 1) scaled_id w smap) as Hmap
    by (intros w Hw; eexists; by apply scaled_map_true).
  split.
  - destruct (TargetScaleDown.scale_down_completes (T := third_party) (cluster 1) 1 1 scaled_id reference_encodes
      eq_refl eq_refl ltac:(done) 2 Hmap 7 (shrinking [TargetScaleDown.Active; TargetScaleDown.Active]))
      as [[w' Hr] Hall]; [by apply shrinking_ok|done|].
    exists w'. split; [exact Hr|]. apply (Hall w' Hr); [|cbn; lia]. intros (_ & _ & Hm). inversion_clear Hm. done.
  - destruct (TargetScaleDown.scale_down_completes (T := third_party) (cluster 1) 1 1 scaled_id reference_encodes
      eq_refl eq_refl ltac:(done) 2 Hmap 7 (shrinking [TargetScaleDown.Active; TargetScaleDown.Maint]))
      as [[w' Hr] Hall]; [by apply shrinking_ok|done|].
    exists w'. split; [exact Hr|]. apply (Hall w' Hr). split_and!; [done|done|]. by repeat constructor.
Defined.

(** A world that answers at once: decommissioned targets leave a round later, and their pods
    back off another round later. *)
Definition scaled_set (w : TargetScaleDown.world) : StatefulSet :=
  TargetScaleDown.set_with (TargetScaleDown.target_set (cluster 1)) (TargetScaleDown.asked w).
Definition tell_id (w : TargetScaleDown.world) (i : string) (m : TargetScaleDown.member) : TargetScaleDown.world :=
  foldr (fun j w => if bool_decide (i = scaled_id j) then TargetScaleDown.told w j m else w) w (seq 0 3).
Definition scaled_pod (w : TargetScaleDown.world) (nm : nsname) : res Pod :=
  foldr (fun j x =>
    if bool_decide (nm = NN "ais" (Target.PodName (cluster 1) (Z.of_nat j)))
    then match TargetScaleDown.members w !! j with
         | Some (TargetScaleDown.Exited _) => Ok (TargetScaleDown.running_pod nm)
         | _ => x
         end
    else x) (Err (MkError EkNotFound "")) (seq 0 3).
Definition scaled_answers (w : TargetScaleDown.world) (r : req) : answer r * TargetScaleDown.world :=
  match r return answer r * TargetScaleDown.world with
  | KGetStatefulSet _ => (Ok (scaled_set w), w)
  | KPatchStatefulSet _ m => (Ok tt, TargetScaleDown.resize w (sss_Replicas (ss_Spec m)))
  | KPatchStatus _ st => let a := set_status (TargetScaleDown.stored w) st in (Ok a, TargetScaleDown.with_stored w a)
  | KPatchAIStore _ m => let a := patched (TargetScaleDown.stored w) m in (Ok a, TargetScaleDown.with_stored w a)
  | KDelete _ _ => (Ok tt, w)
  | KGetPod nm => (scaled_pod w nm, w)
  | AGetClient _ => (Ok 1, w)
  | AGetClusterMap _ => (Ok (scaled_map (TargetScaleDown.members w)), w)
  | ASetClusterConfig _ _ _ => (Ok tt, w)
  | AStartMaintenance _ act => (Ok "", tell_id w (rm_DaemonID act) TargetScaleDown.Maint)
  | ADecommissionNode _ act => (Ok "", tell_id w (rm_DaemonID act) (TargetScaleDown.Leaving 0 0))
  | r' => (some_answer r', w)
  end.
Fixpoint scaling_rounds (k : nat) (w : TargetScaleDown.world) : TargetScaleDown.world :=
  match k with
  | O => w
  | S k' =>
      let '(_, w1, _) := run (fun w r => let '(x, w') := scaled_answers w r in (w', x))
                             (TargetScaleDown.scaling_stage (T := third_party) 1 (scaled_set w) (TargetScaleDown.stored w)) w in
      scaling_rounds k' (TargetScaleDown.tick w1)
  end.
Definition scaling_seen (ms : list TargetScaleDown.member) (k : nat) : Z * list TargetScaleDown.member :=
  let w := scaling_rounds k (shrinking ms) in (TargetScaleDown.asked w, TargetScaleDown.members w).

(** The targets leave, their pods restart and back off, and the replicas go down; a target in
    maintenance that is to be decommissioned keeps them. *)
Example scale_down_run :
  let A_ := TargetScaleDown.Active in let M_ := TargetScaleDown.Maint in let O_ := TargetScaleDown.Out in
  let E_ := TargetScaleDown.Exited 0 in
  (scaling_seen [A_; A_; A_] <$> [0; 1; 2; 3; 4]%nat) =
    [(3, [A_; A_; A_]); (3, [A_; E_; E_]); (3, [A_; O_; O_]); (1, [A_]); (1, [A_])] /\
  (scaling_seen [A_; M_; M_] <$> [1; 2; 3]%nat) = [(3, [A_; M_; M_]); (3, [A_; M_; M_]); (3, [A_; M_; M_])] /\
  (scaling_seen [A_; M_; A_] <$> [1; 2; 3]%nat) = [(3, [A_; M_; E_]); (3, [A_; M_; O_]); (1, [A_])].
Proof. by vm_compute. Qed.
